(* ===== verification/_CoqProject ===== *)
-Q . S2P
Prelude.v
GoText.v
DemoUUID.v
Errs.v
Auth.v
Config.v
Decorator.v
HttpServer.v
OpenApi.v
Bus.v
Propagation.v
Postgres.v
Events.v
AuctionDomain.v
AuctionTheory.v
AuctionRepo.v
AuctionApp.v
AuctionRepoTheory.v
AuctionColumns.v
AuctionAgree.v
AuctionAppTheory.v
AuctionProjections.v
AuctionProjectionsTheory.v
InvoiceDomain.v
InvoiceRepo.v
Billing.v
InvoiceRepoTheory.v
InvoiceTheory.v
BillingTheory.v
Outbox.v
PaymentProtocol.v
Processes.v
Ownership.v
Notification.v
NotificationTheory.v
NotificationDelivery.v
ParticipantDomain.v
ParticipantRepo.v
Participant.v
ParticipantTheory.v
SettlementDomain.v
SettlementRepo.v
Tracking.v
Settlement.v
Ports.v
Api.v
ApiTheory.v
ApiAccess.v
SettlementRepoTheory.v
SagaTheory.v
SagaGateways.v
SagaProtocol.v
SagaRedelivery.v
SagaClaims.v
SagaBilling.v
Serving.v
Services.v
Workers.v
Routing.v
Platform.v
Outages.v
Monolith.v
MonolithTheory.v
Lifecycle.v
