(* ===== verification/Prelude.v ===== *)
(** * Molot: a verification library for the auction platform

    Molot is a modular monolith in Go: five bounded contexts (auction, billing,
    settlement, participant, notification) over one Postgres database, joined
    by integration events and by two synchronous facades.  A seller lists an
    auction, bidders bid, a worker closes it; the settlement saga bills the
    winner, and when the winner does not pay it promotes the runner-up, bills
    it, or relists the lot; billing takes payments through a provider and
    expires invoices with a worker; notification sends each notice once.  This
    library models the contexts and their common packages as they are written
    under [src/internal], and proves what makes them correct, alone and
    together.

    ** How the code is read

    - A Go function that returns [(T, error)] is a function into [result T],
      with [Ok], [Fail] and [Panic] (this file, [Errs]); one that mutates its
      receiver or a store is in the state monad [M S], which keeps what was
      written before an error.  An [int64] or [int] is a [Z] with [wrap64]
      where the code computes; a [time.Time] is a number of nanoseconds, 0 its
      zero value; a UUID is an [N], 0 the nil UUID; a zero value of a struct is
      [zero_value], tested by [IsZero].
    - A type [T] of the package [p] is in [Module p] with its methods named
      [T_Method] (or by the method alone); the fields of a struct carry a short
      prefix.  A clock, a duration measured, a driver's answer is an argument.
    - A repository, gateway, directory or library is a type class; what its
      clients rely on is a second class of laws, and the clients' theorems are
      proved against the laws, which the in-memory and the Postgres
      implementations are both shown to satisfy.
    - A handler that makes several calls outside one transaction is a [prog]
      ([Processes]): each call is atomic, other handlers run or the process
      dies between two calls.

    ** The parts

    Common packages.
    - [GoText], [DemoUUID]: text of the standard library, the UUID package and
      a concrete instance of it for witnesses.  [Errs]: the errors of the four
      domains, slug errors, [httperr].
    - [Auth] ([common/auth]), [HttpServer] ([common/server]): tokens, users and
      the middleware stack; [authenticates], [edge_guarded].
    - [Config] ([common/config]), [Monolith] ([monolith/app.go]),
      [MonolithTheory]: the loader, and that a configuration it accepts is
      accepted by every constructor; [configuration_checked].
    - [Decorator] ([common/decorator]), [Services] ([app/app.go],
      [service/service.go]): the decorated use cases of every context and the
      facades built from them; [decorators_transparent], [*_assembled].
    - [Bus] ([common/watermill]), [Routing] ([cqrs.go], [ports/events.go]): the
      middlewares of a consumed message, and how events reach their handlers;
      [message_settles], [events_routed].  [Propagation] ([pubsub.go],
      [common/logs]): the trace a message carries from the context it is
      published in to its handlers and their log records; [trace_continues].
    - [Postgres] ([common/postgres]): [RunInTx] over what the driver answers to
      the statements, the commit and the rollback ([TxFaults]).
    - [Events]: the integration events of the three publishing contexts.

    Auction.  [AuctionDomain] is the aggregate; [AuctionRepo] its row, the
    in-memory and Postgres repositories, the outbox; [AuctionApp] the command
    handlers, facade, endpoints; [AuctionProjections] the read side.  Their
    properties are in [AuctionTheory] (the invariant of reachable auctions,
    bidding, closing, finality, overflow), [AuctionRepoTheory] (laws of the
    repositories, atomicity), [AuctionColumns] (what the columns of the table
    keep of a row: [row_roundtrip]), [AuctionAgree] (the two repositories
    command by command, and where they differ), [AuctionAppTheory]
    (idempotent facade, error mapping), [AuctionProjectionsTheory] (convergence
    under redelivery and reordering, the auction card).

    Billing.  [InvoiceDomain], [InvoiceRepo], [Billing] likewise, with
    [InvoiceTheory], [InvoiceRepoTheory], [BillingTheory]; [PaymentProtocol] is
    [PayInvoice] against the provider, interleaved with other payments, the
    expiry worker, the saga and crashes: no money is kept for an invoice that
    is not paid, and none is taken twice.

    [Workers]: the loops of the closing and the expiry worker, their
    instruments, and the deadlines they enforce.

    Settlement.  [SettlementDomain] is the process manager, [SettlementRepo]
    its storage, [Settlement] the event handlers, the decline command and the
    adapters over the facades.  [SagaTheory] states what the saga expects of
    the other contexts and what each of its states says of them;
    [SagaGateways] shows that the facades keep the contracts; [SagaProtocol]
    that every handler keeps the invariant under every interleaving;
    [SagaRedelivery] that a redelivered event succeeds and changes nothing;
    [SagaClaims] composes them; [SagaBilling] says what is billed and to whom.
    [Ownership] is a second proof method for interleavings, with rights.

    Participant.  [ParticipantDomain], [ParticipantRepo], [Participant], and in
    [ParticipantTheory] an abstract registry that the endpoints refine over
    both repositories.

    Notification.  [Notification] with its laws and the at-most-once theorem in
    [NotificationTheory], and what deliveries achieve in
    [NotificationDelivery].

    The platform.  [Outbox]: every event in an outbox stays true of the
    aggregate it names, and the bids announced are those of the history.
    [Serving]: a served request is one of the moves the
    saga tolerates.  [Platform]: the three contexts over their Postgres
    repositories, requests, workers, payments and deliveries in any order; the
    events delivered are the ones the repositories wrote, with nothing assumed
    of them but the size of the amounts of a closing.  There: an auction is charged once, every invoice is
    for exactly the bid of the one it bills, the settlements agree with the
    auctions and the invoices, the outboxes are truthful.  [Tracking] puts the
    repositories behind a driver that may fail every transaction and every
    read, also after the commit was applied, and relates each call, handler and
    process to its run without failures; [Outages] runs the platform on it:
    the databases are always those of an execution without failures
    ([platform_survives_outages]), so what was proved of it still holds
    ([charges_survive_outages]), and a delivery that was cut short is made good
    by the next one ([outage_retried]).

    The HTTP API.  [OpenApi]: what the four generated servers
    ([ports/openapi.gen.go]) share: the routes, a parameter bound by a wrapper,
    the strict handler that decodes the body, runs the operation and writes its
    response, and the error handlers.  [Ports]: the servers, a wrapper, a
    strict handler, the response objects and a route for each operation, and
    [RegisterHTTP].  [Api]: the implementations ([ports/http.go], [HTTPServer])
    over the databases and the provider, and the router [monolith/app.go]
    assembles.  [ApiTheory]: the routes are exclusive, and the assembled API
    does, for every request with a valid token, what the table [perform] says
    ([api_serves]).  [ApiAccess]: what one request can change, and for whom
    ([api_access]).

    The process.  [Lifecycle]: [cmd/monolith], [NewApplication], [runWorkers]
    and [RunHTTPServer] as step relations, from the start to the exit;
    [shutdown_completes].

    ** What is assumed

    Code outside [src] is a parameter, with its documented behaviour as laws:
    [UUIDLib]/[UUIDLaws] (parsing inverts printing, derived identities are not
    nil, drawn ones are distinct; derived ones may collide), [JWTLib]/[JWTLaws], [MailLib] (address parsing), [GoText] (lower
    case outside ASCII), [EdgeLib]/[EdgeLaws] (chi, otelhttp; a panic is answered 500,
    or 200 on a connection being upgraded),
    [TimestampColumn]/[TimestampLaws] (what a [timestamptz] column keeps of a
    time),
    [MuxLib]/[MuxLaws] (chi's routing), [BindLib] (the parameters of
    [oapi-codegen/runtime]), [Encoder] and [Decoder] (the JSON texts; the body
    of an error response stands for its slug),
    [BusLib]/[BusLaws] and [CqrsLib]/[CqrsLaws] (watermill),
    [GroupLib]/[GroupLaws] (errgroup), [TraceLib]/[TraceLaws] and
    [CorrelationLib] (tracers, propagator, correlation ids), [TxFaults] (the driver), [time.ParseDuration] in the loader, and the order in which a Go
    map is ranged over (any permutation).  Each class has an instance the
    witnesses run on.

    ** Bounds

    - Versions: an update needs the stored version below the largest [int64]
      ([room], [slack], [platform_fits]); without it the counter would wrap.
    - Amounts: a commission is computed exactly while ten thousand times the
      price fits in an [int64]; [deliverable] asks it of the closings the saga
      is given, and beyond it an invoice is wrong or unreadable
      ([commission_overflow]).  Where sums wrap the theorems say so:
      [reachable_sound] holds of every call, and of what it says about the
      amounts of bids [PlaceBid_overflow] shows the limit; also
      [card_faithful].
    - Columns: the repositories of the model keep a row as it is given, which
      is what the tables do with times at whole microseconds, durations in
      whole seconds and numbers in the range of their column.
      [row_roundtrip] says what the table of the auctions keeps of any other
      row; the database refuses a number out of range, which is one of the
      errors a statement may have in [TxFaults] and [Outages].
    - A listing the databases hold has anti-snipe durations in whole seconds
      and starts after the zero time ([storable]).
    - [Platform] runs its transactions without driver failures and [Outages]
      with them; [pg_update_atomic] and [registry_sound] say the same of one
      transaction and of the participants.  The errors of the driver are plain
      errors, none of those the code tests for.
    - The router of [MuxLaws] is only asked about paths without empty segments
      when no route fits.
    - Recursion is structural everywhere: loops run over the list the code
      ranges over, workers over the signals they take, processes over their
      calls; there is no fuel.
    - [shutdown_completes] counts the steps of the process, at most 14; that a
      step that stays possible is taken, [Shutdown] by its deadline included,
      is what the runtime provides.

    ** Not modelled

    Of the generated servers: [Unimplemented], the error types no wrapper
    makes, strict middlewares (none is ever passed) and the embedded
    specification.  The migrations and the connection pool: I/O around the modelled
    code.  The opening of publishers and subscribers over the driver
    and their polling; the exporters of traces,
    metrics and logs; the gauge of [saga_metrics.go], one query over a column
    the database sets by its own clock.  The schemas are modelled as far as the
    repositories use their constraints. *)

From stdpp Require Import base numbers list strings gmap fin_maps.
From Stdlib Require Import ZArith Lia.
#[export] Set Warnings "-clear-no-such-hyp".

(** ** Results of Go calls

    A Go function returning [(T, error)] either returns a value, returns a
    non-nil error, or panics.  The three outcomes are the constructors of
    [res]; the error type is left abstract here and fixed in [Errs]. *)

Inductive res (E A : Type) : Type :=
| Ok (a : A)
| Fail (e : E)
| Panic (msg : string).
Arguments Ok {_ _} _.
Arguments Fail {_ _} _.
Arguments Panic {_ _} _.

#[export] Instance res_eq_dec {E A} `{EqDecision E, EqDecision A} :
  EqDecision (res E A).
Proof. solve_decision. Defined.

#[export] Instance res_ret {E} : MRet (res E) := fun A a => Ok a.
#[export] Instance res_bind {E} : MBind (res E) :=
  fun A B f r =>
    match r with
    | Ok a => f a
    | Fail e => Fail e
    | Panic m => Panic m
    end.
#[export] Instance res_fmap {E} : FMap (res E) :=
  fun A B f r => r ≫= (fun a => Ok (f a)).

Definition is_ok {E A} (r : res E A) : bool :=
  match r with Ok _ => true | _ => false end.

Definition is_panic {E A} (r : res E A) : bool :=
  match r with Panic _ => true | _ => false end.

(** A [(bool, error)] pair used as a condition: [holds] is
    [err == nil && b]. *)
Definition holds {E} (r : res E bool) : bool :=
  match r with Ok b => b | _ => false end.

(** [err != nil || b]. *)
Definition holds_or_err {E} (r : res E bool) : bool :=
  match r with Ok b => b | _ => true end.

(** ** Methods with a pointer receiver

    A Go method that mutates its receiver is a function from the receiver
    to an outcome and the receiver after the call: on an error the receiver
    keeps whatever was written to it before the return. *)

Definition GoM (E S A : Type) : Type := S → res E A * S.

#[export] Instance GoM_ret {E S} : MRet (GoM E S) := fun A a s => (Ok a, s).
#[export] Instance GoM_bind {E S} : MBind (GoM E S) :=
  fun A B f m s =>
    match m s with
    | (Ok a, s') => f a s'
    | (Fail e, s') => (Fail e, s')
    | (Panic p, s') => (Panic p, s')
    end.

Section Methods.
Context {E S : Type}.

Definition get : GoM E S S := fun s => (Ok s, s).
Definition modify (f : S → S) : GoM E S unit := fun s => (Ok tt, f s).
Definition throw {A} (e : E) : GoM E S A := fun s => (Fail e, s).
Definition throw_if (b : bool) (e : E) : GoM E S unit :=
  if b then throw e else mret tt.
Definition crash {A} (msg : string) : GoM E S A := fun s => (Panic msg, s).
Definition lift {A} (r : res E A) : GoM E S A := fun s => (r, s).

(** [x, err := r], where an error makes the test below it [on_err]; a
    panic goes through. *)
Definition test (r : res E bool) (on_err : bool) : GoM E S bool :=
  match r with
  | Ok b => mret b
  | Fail _ => mret on_err
  | Panic p => crash p
  end.

(** The update-closure idiom of the repositories:
    [if _, err := s.Method(...); err != nil { return nil, err }; return s, nil]. *)
Definition closure {A} (m : GoM E S A) (s : S) : res E S :=
  match m s with
  | (Ok _, s') => Ok s'
  | (Fail e, _) => Fail e
  | (Panic p, _) => Panic p
  end.
End Methods.

(** ** Zero values

    [x == T{}] on a comparable struct: the zero value of the type is a
    class, and [IsZero] is the comparison with it. *)
Class GoZero (A : Type) := zero_value : A.

Definition IsZero {A} `{GoZero A, EqDecision A} (x : A) : bool :=
  bool_decide (x = zero_value).

Lemma IsZero_true {A} `{GoZero A, EqDecision A} (x : A) :
  IsZero x = true ↔ x = zero_value.
Proof. apply bool_decide_eq_true. Qed.

Lemma IsZero_false {A} `{GoZero A, EqDecision A} (x : A) :
  IsZero x = false ↔ x ≠ zero_value.
Proof. apply bool_decide_eq_false. Qed.

Lemma IsZero_zero {A} `{GoZero A, EqDecision A} :
  IsZero (zero_value (A := A)) = true.
Proof. by apply IsZero_true. Qed.

(** ** 64-bit integers

    Go's [int64] (and [int] on the supported platforms) wraps around. *)
Local Open Scope Z_scope.

Definition int64_min : Z := - 2 ^ 63.
Definition int64_max : Z := 2 ^ 63 - 1.

Definition wrap64 (z : Z) : Z := (z + 2 ^ 63) mod 2 ^ 64 - 2 ^ 63.

Definition in_int64 (z : Z) : Prop := int64_min ≤ z ≤ int64_max.

Lemma wrap64_range z : in_int64 (wrap64 z).
Proof.
  unfold in_int64, wrap64, int64_min, int64_max.
  pose proof (Z.mod_pos_bound (z + 2 ^ 63) (2 ^ 64)). lia.
Qed.

Lemma wrap64_small z : in_int64 z → wrap64 z = z.
Proof.
  unfold in_int64, wrap64, int64_min, int64_max. intros ?.
  rewrite Z.mod_small; lia.
Qed.

Lemma wrap64_idemp z : wrap64 (wrap64 z) = wrap64 z.
Proof. apply wrap64_small, wrap64_range. Qed.

(** ** Instants, durations, identities

    [time.Time] is the number of nanoseconds since Go's zero time (January 1
    of year 1, UTC), so the zero time is [0]; the location carried by a
    [time.Time] is dropped, so [UTC()] is the identity.  [time.Duration] is
    a number of nanoseconds.  A [uuid.UUID] is the number its 16 bytes
    spell; the nil UUID is [0]. *)
Abbreviation Time := Z (only parsing).
Abbreviation Duration := Z (only parsing).
Abbreviation uuid := N (only parsing).

Definition uuid_Nil : uuid := 0%N.
Definition Second : Duration := 1000000000.

Definition time_IsZero (t : Time) : bool := t =? 0.
Definition time_Before (t u : Time) : bool := t <? u.
Definition time_After (t u : Time) : bool := u <? t.
Definition time_Add (t : Time) (d : Duration) : Time := t + d.

(** The parts of [github.com/google/uuid] the program calls.  The package
    is not part of the repository: its functions are the fields of a class,
    and the documented facts the program relies on are the fields of
    [UUIDLaws]. *)
Class UUIDLib := {
  uuid_String : uuid → string;
  uuid_Parse : string → option uuid;
  uuid_NewSHA1 : uuid → string → uuid;
  uuid_NewString : nat → string;
}.

Class UUIDLaws `{UUIDLib} := {
  uuid_Parse_String : ∀ u, uuid_Parse (uuid_String u) = Some u;
  uuid_String_nonempty : ∀ u, uuid_String u ≠ "";
  uuid_NewSHA1_not_Nil : ∀ ns name, uuid_NewSHA1 ns name ≠ uuid_Nil;
  uuid_NewString_inj : ∀ n m, uuid_NewString n = uuid_NewString m → n = m;
}.

(** ** [strings.TrimSpace]

    A Go string is a sequence of bytes, modelled by [string].  The Unicode
    white-space characters [unicode.IsSpace] accepts are given by their
    UTF-8 encodings. *)
Definition string_of_bytes (l : list N) : string :=
  foldr (fun n s => String (Ascii.ascii_of_N n) s) "" l.

Definition space_runes : list string :=
  string_of_bytes <$>
    ([[9]; [10]; [11]; [12]; [13]; [32]; [194; 133]; [194; 160];
      [225; 154; 128];
      [226; 128; 128]; [226; 128; 129]; [226; 128; 130]; [226; 128; 131];
      [226; 128; 132]; [226; 128; 133]; [226; 128; 134]; [226; 128; 135];
      [226; 128; 136]; [226; 128; 137]; [226; 128; 138];
      [226; 128; 168]; [226; 128; 169]; [226; 128; 175]; [226; 129; 159];
      [227; 128; 128]]%N : list (list N)).

(** The length of the white-space character [s] starts with, if any. *)
Fixpoint leading_rune (runes : list string) (s : string) : option nat :=
  match runes with
  | [] => None
  | r :: rs => if String.prefix r s then Some (String.length r) else leading_rune rs s
  end.

(** [trim_runes runes n s] drops [n] bytes, then every leading rune of
    [runes]. *)
Fixpoint trim_runes (runes : list string) (skip : nat) (s : string) : string :=
  match s with
  | "" => ""
  | String _ rest =>
      match skip with
      | S n => trim_runes runes n rest
      | O =>
          match leading_rune runes s with
          | Some (S n) => trim_runes runes n rest
          | _ => s
          end
      end
  end.

Definition TrimSpace (s : string) : string :=
  String.rev (trim_runes (String.rev <$> space_runes) 0
                (String.rev (trim_runes space_runes 0 s))).

(** ** Proof automation

    [go] is the rewriting base that runs the method monad. *)
Create Rewrite HintDb go.

Section Running.
Context {E S A B : Type}.
Implicit Types (k : A → GoM E S B) (s : S).

Lemma run_get (k' : S → GoM E S B) s : (get ≫= k') s = k' s s.
Proof. done. Qed.
Lemma run_modify f (k' : unit → GoM E S B) s : (modify f ≫= k') s = k' tt (f s).
Proof. done. Qed.
Lemma run_throw_if b e (k' : unit → GoM E S B) s :
  (throw_if b e ≫= k') s = if b then (Fail e, s) else k' tt s.
Proof. by destruct b. Qed.
Lemma run_throw_if_last b e s :
  throw_if (E := E) (S := S) b e s = if b then (Fail e, s) else (Ok tt, s).
Proof. by destruct b. Qed.
Lemma run_lift r k s :
  (lift r ≫= k) s =
    match r with
    | Ok a => k a s
    | Fail e => (Fail e, s)
    | Panic p => (Panic p, s)
    end.
Proof. by destruct r. Qed.
Lemma run_ret (a : A) s : (mret a : GoM E S A) s = (Ok a, s).
Proof. done. Qed.
Lemma run_ret_bind (a : A) k s : (mret a ≫= k) s = k a s.
Proof. done. Qed.
Lemma run_throw (e : E) s : (throw e : GoM E S A) s = (Fail e, s).
Proof. done. Qed.
Lemma run_throw_bind (e : E) k s : (throw e ≫= k) s = (Fail e, s).
Proof. done. Qed.
Lemma run_crash_bind p k s : (crash p ≫= k) s = (Panic p, s).
Proof. done. Qed.
Lemma run_crash p s : (crash p : GoM E S A) s = (Panic p, s).
Proof. done. Qed.
Lemma run_bind_assoc {C} (m : GoM E S C) (f : C → GoM E S A) k s :
  ((m ≫= f) ≫= k) s = (m ≫= (fun x => f x ≫= k)) s.
Proof. unfold mbind, GoM_bind. by destruct (m s) as [[] ?]. Qed.
Lemma run_if_bind (b : bool) (m1 m2 : GoM E S A) k s :
  ((if b then m1 else m2) ≫= k) s = if b then (m1 ≫= k) s else (m2 ≫= k) s.
Proof. by destruct b. Qed.
Lemma run_if (b : bool) (m1 m2 : GoM E S A) s :
  (if b then m1 else m2) s = if b then m1 s else m2 s.
Proof. by destruct b. Qed.

(** Inversions: what a successful run went through. *)
Lemma ok_throw_if b e (k' : unit → GoM E S B) s y s' :
  (throw_if b e ≫= k') s = (Ok y, s') → b = false ∧ k' tt s = (Ok y, s').
Proof. rewrite run_throw_if. by destruct b. Qed.
Lemma ok_throw_if_last b e s y s' :
  throw_if (E := E) (S := S) b e s = (Ok y, s') → b = false ∧ s' = s.
Proof. rewrite run_throw_if_last. destruct b; by intros [=]. Qed.
Lemma ok_lift r k s y s' :
  (lift r ≫= k) s = (Ok y, s') → ∃ a, r = Ok a ∧ k a s = (Ok y, s').
Proof. rewrite run_lift. destruct r; [eauto|done..]. Qed.
Lemma ok_ret (a y : A) s s' :
  (mret a : GoM E S A) s = (Ok y, s') → y = a ∧ s' = s.
Proof. by intros [=]. Qed.
Lemma ok_throw (e : E) s (y : A) s' : (throw e : GoM E S A) s ≠ (Ok y, s').
Proof. done. Qed.
Lemma ok_crash p s (y : A) s' : (crash p : GoM E S A) s ≠ (Ok y, s').
Proof. done. Qed.
Lemma ok_throw_bind (e : E) k s y s' : (throw e ≫= k) s ≠ (Ok y, s').
Proof. done. Qed.
Lemma ok_crash_bind p k s y s' : (crash p ≫= k) s ≠ (Ok y, s').
Proof. done. Qed.
Lemma ok_test r d (k' : bool → GoM E S B) s y s' :
  (test r d ≫= k') s = (Ok y, s') →
  ∃ b, k' b s = (Ok y, s') ∧ (r = Ok b ∨ (∃ e, r = Fail e) ∧ b = d).
Proof.
  destruct r; simpl; [exists a|exists d|done]; naive_solver.
Qed.
Lemma ok_bind (m : GoM E S A) k s y s' :
  (m ≫= k) s = (Ok y, s') → ∃ a s1, m s = (Ok a, s1) ∧ k a s1 = (Ok y, s').
Proof.
  unfold mbind, GoM_bind. destruct (m s) as [[] ?]; [eauto|by intros [=]..].
Qed.
Lemma res_bind_ok (r : res E A) (f : A → res E B) b :
  (r ≫= f) = Ok b → ∃ a, r = Ok a ∧ f a = Ok b.
Proof. destruct r; [eauto|done..]. Qed.
Lemma run_Ok (m : GoM E S A) s a : (m s).1 = Ok a → m s = (Ok a, (m s).2).
Proof. intros <-. apply surjective_pairing. Qed.
End Running.

#[export] Hint Rewrite @run_get @run_modify @run_throw_if @run_throw_if_last @run_lift
  @run_bind_assoc @run_if_bind
  @run_ret @run_ret_bind @run_throw_bind @run_crash_bind @run_throw @run_crash @run_if : go.

(** Turn boolean tests in the context into propositions. *)
Ltac breflect :=
  repeat match goal with
  | H : andb _ _ = true |- _ => apply andb_true_iff in H as [? ?]
  | H : orb _ _ = false |- _ => apply orb_false_iff in H as [? ?]
  | H : negb _ = true |- _ => apply negb_true_iff in H
  | H : negb _ = false |- _ => apply negb_false_iff in H
  | H : IsZero _ = true |- _ => apply (proj1 (IsZero_true _)) in H
  | H : IsZero _ = false |- _ => apply (proj1 (IsZero_false _)) in H
  | H : bool_decide _ = true |- _ => apply (proj1 (bool_decide_eq_true _)) in H
  | H : bool_decide _ = false |- _ => apply (proj1 (bool_decide_eq_false _)) in H
  | H : ¬ (_ ≠ _) |- _ => apply dec_stable in H
  | H : (_ <? _) = true |- _ => apply Z.ltb_lt in H
  | H : (_ <? _) = false |- _ => apply Z.ltb_ge in H
  | H : (_ <=? _) = true |- _ => apply Z.leb_le in H
  | H : (_ <=? _) = false |- _ => apply Z.leb_gt in H
  | H : (_ =? _) = true |- _ => apply Z.eqb_eq in H
  | H : (_ =? _) = false |- _ => apply Z.eqb_neq in H
  | H : andb _ _ = false |- _ => apply andb_false_iff in H as [?|?]
  | H : orb _ _ = true |- _ => apply orb_true_iff in H as [?|?]
  end.

(** Take conjunctions and existentials of the context apart. *)
Ltac break :=
  repeat match goal with
  | H : _ ∧ _ |- _ => destruct H
  | H : ∃ _, _ |- _ => destruct H
  | H : (_, _) = (_, _) |- _ => injection H; clear H; intros
  end; subst.

(** Invert a successful run [H : m s = (Ok y, s')] call by call. *)
Ltac inv_ok H :=
  repeat first
  [ rewrite !run_get in H | rewrite !run_modify in H | rewrite !run_ret_bind in H
  | rewrite !run_bind_assoc in H
  | exfalso; by apply ok_throw in H | exfalso; by apply ok_crash in H
  | exfalso; by apply ok_throw_bind in H | exfalso; by apply ok_crash_bind in H
  | let b := fresh "Hg" in apply ok_throw_if in H as [b H]
  | let b := fresh "Hg" in apply ok_throw_if_last in H as [b H]
  | let x := fresh "x" in let b := fresh "Hr" in apply ok_lift in H as (x & b & H)
  | let x := fresh "x" in let b := fresh "Ht" in apply ok_test in H as (x & H & b)
  | apply ok_ret in H as [? H]
  | rewrite run_if_bind in H;
    match type of H with (if ?b then _ else _) = _ => destruct b eqn:? end
  | rewrite run_if in H;
    match type of H with (if ?b then _ else _) = _ => destruct b eqn:? end ].

(** Run a method in the goal or in a hypothesis and split its guards. *)
Ltac run_go := autorewrite with go in *.
Ltac split_guards := repeat (case_match; simplify_eq/=).
