(* ===== verification/GoText.v ===== *)
(** * Text

    The parts of Go's [fmt], [strings] and [time] the program renders text
    with: decimal numbers, zero-padded numbers, RFC 3339 timestamps and
    [strings.ToLower]. *)

From stdpp Require Import base numbers list strings pretty.
From Stdlib Require Import ZArith Lia.
From S2P Require Import Prelude.

(** [\n]. *)
Definition LF : string := string_of_bytes [10%N].

(** ** Decimal numbers *)

Local Open Scope Z_scope.

(** [%d]. *)
Definition Itoa (z : Z) : string := pretty z.

Fixpoint zeros (n : nat) : string :=
  match n with
  | O => ""
  | S n => "0" +:+ zeros n
  end.

(** The digits of [n >= 0], padded with zeros to [w]. *)
Definition zero_padded (w : nat) (n : Z) : string :=
  let s := Itoa n in zeros (w - String.length s) +:+ s.

(** [%0<w>d]: the width counts the sign. *)
Definition Itoa0 (w : nat) (z : Z) : string :=
  if z <? 0 then "-" +:+ zero_padded (w - 1) (- z) else zero_padded w z.

(** ** RFC 3339

    [t.Format(time.RFC3339)] of an instant in UTC.  [civil_of_days d] is the
    year, month and day [d] days after January 1 of year 1, in the Gregorian
    calendar: the days are counted from a March 1, so that a leap day is the
    last of its year. *)
Definition civil_of_days (d : Z) : Z * Z * Z :=
  let d := d + 306 in
  let era := d / 146097 in
  let doe := d mod 146097 in
  let yoe := (doe - doe / 1460 + doe / 36524 - doe / 146096) / 365 in
  let doy := doe - (365 * yoe + yoe / 4 - yoe / 100) in
  let mp := (5 * doy + 2) / 153 in
  let month := if mp <? 10 then mp + 3 else mp - 9 in
  (yoe + era * 400 + (if month <=? 2 then 1 else 0), month, doy - (153 * mp + 2) / 5 + 1).

Definition days_of_civil (y m d : Z) : Z :=
  let y := if m <=? 2 then y - 1 else y in
  let era := y / 400 in
  let yoe := y mod 400 in
  let mp := if 2 <? m then m - 3 else m + 9 in
  era * 146097 + (yoe * 365 + yoe / 4 - yoe / 100 + (153 * mp + 2) / 5 + d - 1) - 306.

(** A year is padded to four digits, its sign not counted. *)
Definition year_text (y : Z) : string :=
  if y <? 0 then "-" +:+ zero_padded 4 (- y) else zero_padded 4 y.

Definition Format_RFC3339 (t : Time) : string :=
  let sec := t / Second in
  let day := sec / 86400 in
  let s := sec mod 86400 in
  let '(y, m, d) := civil_of_days day in
  year_text y +:+ "-" +:+ zero_padded 2 m +:+ "-" +:+ zero_padded 2 d +:+ "T"
  +:+ zero_padded 2 (s / 3600) +:+ ":" +:+ zero_padded 2 (s / 60 mod 60) +:+ ":"
  +:+ zero_padded 2 (s mod 60) +:+ "Z".

(** ** [strings.ToLower]

    On an ASCII string, byte by byte; the Unicode case tables behind the
    other strings are a field of the class, with the two facts about them the
    program relies on: lower case is fixed by [ToLower], and [ToLower] neither
    makes nor removes white space. *)
Definition is_ascii (c : Ascii.ascii) : bool := (Ascii.N_of_ascii c <? 128)%N.

Definition lower_byte (c : Ascii.ascii) : Ascii.ascii :=
  let n := Ascii.N_of_ascii c in
  if ((65 <=? n) && (n <=? 90))%N then Ascii.ascii_of_N (n + 32) else c.

Fixpoint string_map (f : Ascii.ascii → Ascii.ascii) (s : string) : string :=
  match s with
  | "" => ""
  | String c s => String (f c) (string_map f s)
  end.

Fixpoint string_forall (f : Ascii.ascii → bool) (s : string) : bool :=
  match s with
  | "" => true
  | String c s => f c && string_forall f s
  end.

Class GoText := { lower_unicode : string → string }.

Definition ToLower `{GoText} (s : string) : string :=
  if string_forall is_ascii s then string_map lower_byte s else lower_unicode s.

Class GoTextLaws `{GoText} := {
  lower_unicode_fixed : ∀ s, string_forall is_ascii s = false →
    ToLower (lower_unicode s) = lower_unicode s;
  lower_unicode_trimmed : ∀ s, string_forall is_ascii s = false →
    TrimSpace s = s → TrimSpace (lower_unicode s) = lower_unicode s;
}.

(** ** Lemmas on trimming *)

Lemma string_app_cons c (s t : string) : String c s +:+ t = String c (s +:+ t).
Proof. done. Qed.

Lemma string_app_assoc (s t u : string) : s +:+ (t +:+ u) = (s +:+ t) +:+ u.
Proof. induction s as [|c s IH]; [done|]. by rewrite !string_app_cons, IH. Qed.

Lemma rev_app_spec (s t : string) : String.rev_app s t = String.rev s +:+ t.
Proof.
  unfold String.rev. revert t. induction s as [|c s IH]; intros t; [done|]. simpl.
  rewrite (IH (String c t)), (IH (String c "")). by rewrite <-string_app_assoc.
Qed.

Lemma rev_cons c s : String.rev (String c s) = String.rev s +:+ String c "".
Proof. unfold String.rev at 1. simpl. apply rev_app_spec. Qed.

Lemma string_app_nil (s : string) : s +:+ "" = s.
Proof. induction s as [|c s IH]; [done|]. by rewrite string_app_cons, IH. Qed.

Lemma rev_string_app (s t : string) : String.rev (s +:+ t) = String.rev t +:+ String.rev s.
Proof.
  induction s as [|c s IH]; [by rewrite string_app_nil|].
  by rewrite string_app_cons, !rev_cons, IH, string_app_assoc.
Qed.

Lemma rev_involutive (s : string) : String.rev (String.rev s) = s.
Proof.
  induction s as [|c s IH]; [done|]. by rewrite rev_cons, rev_string_app, IH.
Qed.

Lemma prefix_spec (p s : string) : String.prefix p s = true ↔ ∃ q, s = p +:+ q.
Proof.
  revert s. induction p as [|c p IH]; intros s.
  - split; [by exists s|]. by destruct s.
  - destruct s as [|d s]; [split; [done|by intros [q Hq]]|]. cbn [String.prefix].
    destruct (Ascii.ascii_dec c d) as [->|Hne].
    + rewrite IH. split; intros [q Hq]; exists q; [by rewrite Hq|by injection Hq].
    + split; [done|]. intros [q Hq]. by injection Hq.
Qed.

(** A longer string starts with the runes a shorter one starts with. *)
Lemma leading_rune_app runes s t :
  leading_rune runes (s +:+ t) = None → leading_rune runes s = None.
Proof.
  induction runes as [|r rs IH]; [done|]. simpl.
  destruct (String.prefix r s) eqn:Hp; [|destruct (String.prefix r (s +:+ t)); [done|apply IH]].
  apply prefix_spec in Hp as [q ->]. rewrite <-string_app_assoc.
  by rewrite (proj2 (prefix_spec r _)) by eauto.
Qed.

Lemma trim_runes_suffix runes k s : ∃ d, s = d +:+ trim_runes runes k s.
Proof.
  revert k. induction s as [|c s IH]; intros k; [by exists ""|].
  assert (∀ k', ∃ d, String c s = d +:+ trim_runes runes k' s) as Hdrop.
  { intros k'. destruct (IH k') as [d Hd]. exists (String c d). by rewrite string_app_cons, <-Hd. }
  destruct k as [|k]; simpl; [|apply Hdrop].
  destruct (leading_rune runes (String c s)) as [[|k']|]; [by exists ""|apply Hdrop|by exists ""].
Qed.

Lemma leading_rune_empty runes : Forall (fun r => r ≠ "") runes → leading_rune runes "" = None.
Proof. induction 1 as [|r rs Hr Hrs IH]; [done|]. simpl. by destruct r. Qed.

Lemma leading_rune_length runes s :
  Forall (fun r => r ≠ "") runes → leading_rune runes s ≠ Some O.
Proof.
  induction 1 as [|r rs Hr Hrs IH]; simpl; [done|]. destruct (String.prefix r s); [|done].
  by destruct r.
Qed.

Lemma trim_runes_none runes k s :
  Forall (fun r => r ≠ "") runes → leading_rune runes (trim_runes runes k s) = None.
Proof.
  intros Hr. revert k. induction s as [|c s IH]; intros k; [by apply leading_rune_empty|].
  destruct k as [|k]; simpl; [|apply IH].
  pose proof (leading_rune_length runes (String c s) Hr).
  destruct (leading_rune runes (String c s)) as [[|k']|] eqn:Hl; [done|apply IH|done].
Qed.

Lemma trim_runes_id runes s : leading_rune runes s = None → trim_runes runes 0 s = s.
Proof. destruct s as [|c s]; [done|]. simpl. by intros ->. Qed.

Definition space_runes_rev : list string := String.rev <$> space_runes.

Lemma space_runes_nonempty : Forall (fun r => r ≠ "") space_runes.
Proof. repeat constructor; done. Qed.
Lemma space_runes_rev_nonempty : Forall (fun r => r ≠ "") space_runes_rev.
Proof. repeat constructor; done. Qed.

(** A string that neither starts nor ends with white space. *)
Definition trimmed (s : string) : Prop :=
  leading_rune space_runes s = None ∧ leading_rune space_runes_rev (String.rev s) = None.

Lemma TrimSpace_trimmed s : trimmed s → TrimSpace s = s.
Proof.
  intros [Hl Hr]. unfold TrimSpace. fold space_runes_rev.
  by rewrite (trim_runes_id _ _ Hl), (trim_runes_id _ _ Hr), rev_involutive.
Qed.

Lemma trimmed_TrimSpace s : trimmed (TrimSpace s).
Proof.
  unfold TrimSpace. fold space_runes_rev. set (t := trim_runes space_runes 0 s). split.
  - destruct (trim_runes_suffix space_runes_rev 0 (String.rev t)) as [d Hd].
    apply (f_equal String.rev) in Hd. rewrite rev_involutive, rev_string_app in Hd.
    apply (leading_rune_app _ _ (String.rev d)). rewrite <-Hd.
    apply trim_runes_none, space_runes_nonempty.
  - rewrite rev_involutive. apply trim_runes_none, space_runes_rev_nonempty.
Qed.

Lemma TrimSpace_idemp s : TrimSpace (TrimSpace s) = TrimSpace s.
Proof. apply TrimSpace_trimmed, trimmed_TrimSpace. Qed.

Lemma TrimSpace_fixed s : TrimSpace s = s → trimmed s.
Proof. intros <-. apply trimmed_TrimSpace. Qed.

(** ** Lemmas on lower case *)

Lemma lower_byte_ascii c : is_ascii c = true → is_ascii (lower_byte c) = true.
Proof. by destruct c as [[] [] [] [] [] [] [] []]. Qed.

Lemma lower_byte_idemp c : lower_byte (lower_byte c) = lower_byte c.
Proof. by destruct c as [[] [] [] [] [] [] [] []]. Qed.

Lemma lower_ascii s :
  string_forall is_ascii s = true → string_forall is_ascii (string_map lower_byte s) = true.
Proof.
  induction s as [|c s IH]; [done|]. simpl. intros [Hc Hs]%andb_true_iff.
  by rewrite lower_byte_ascii, IH.
Qed.

Lemma lower_idemp s : string_map lower_byte (string_map lower_byte s) = string_map lower_byte s.
Proof. induction s as [|c s IH]; [done|]. simpl. by rewrite lower_byte_idemp, IH. Qed.

(** On ASCII, white space is one of six bytes, read from either end. *)
Definition space_byte (c : Ascii.ascii) : bool :=
  let n := Ascii.N_of_ascii c in ((9 <=? n) && (n <=? 13) || (n =? 32))%N.

Lemma prefix_empty s : String.prefix "" s = true.
Proof. by destruct s. Qed.

Lemma leading_space c s :
  is_ascii c = true →
  leading_rune space_runes (String c s) = (if space_byte c then Some 1%nat else None)
  ∧ leading_rune space_runes_rev (String c s) = (if space_byte c then Some 1%nat else None).
Proof.
  intros Hc.
  destruct c as [[] [] [] [] [] [] [] []]; try discriminate Hc;
    cbn -[String.prefix]; cbn [String.prefix]; simpl; rewrite ?prefix_empty; by split.
Qed.

Lemma lower_byte_space c : is_ascii c = true → space_byte (lower_byte c) = space_byte c.
Proof. by destruct c as [[] [] [] [] [] [] [] []]. Qed.

Lemma string_map_app f s t : string_map f (s +:+ t) = string_map f s +:+ string_map f t.
Proof. induction s as [|c s IH]; [done|]. rewrite string_app_cons. simpl. by rewrite IH. Qed.

Lemma string_map_rev f s : string_map f (String.rev s) = String.rev (string_map f s).
Proof.
  induction s as [|c s IH]; [done|]. simpl. by rewrite !rev_cons, string_map_app, IH.
Qed.

Lemma string_forall_app f s t : string_forall f (s +:+ t) = string_forall f s && string_forall f t.
Proof.
  induction s as [|c s IH]; [done|]. rewrite string_app_cons. simpl. by rewrite IH, andb_assoc.
Qed.

Lemma string_forall_rev f s : string_forall f (String.rev s) = string_forall f s.
Proof.
  induction s as [|c s IH]; [done|]. rewrite rev_cons, string_forall_app, IH. simpl.
  by rewrite andb_true_r, andb_comm.
Qed.

(** Lower case keeps an ASCII string free of white space at either end. *)
Lemma leading_lower s :
  string_forall is_ascii s = true →
  (leading_rune space_runes s = None → leading_rune space_runes (string_map lower_byte s) = None)
  ∧ (leading_rune space_runes_rev s = None →
     leading_rune space_runes_rev (string_map lower_byte s) = None).
Proof.
  destruct s as [|c s]; [done|]. cbn [string_forall string_map]. intros [Hc _]%andb_true_iff.
  destruct (leading_space c s Hc) as [-> ->].
  destruct (leading_space (lower_byte c) (string_map lower_byte s) (lower_byte_ascii c Hc)) as [-> ->].
  by rewrite lower_byte_space.
Qed.

Lemma lower_trimmed s :
  string_forall is_ascii s = true → trimmed s → trimmed (string_map lower_byte s).
Proof.
  intros Ha [Hl Hr]. rewrite <-(string_forall_rev is_ascii) in Ha.
  pose proof (leading_lower _ Ha) as [_ Hlr]. rewrite string_forall_rev in Ha.
  pose proof (leading_lower _ Ha) as [Hll _].
  split; [exact (Hll Hl)|]. rewrite <-string_map_rev. exact (Hlr Hr).
Qed.

(** What [ToLower] and [TrimSpace] normalize is normal. *)
Lemma normalized_fixed `{GoTextLaws} raw :
  ToLower (TrimSpace (ToLower (TrimSpace raw))) = ToLower (TrimSpace raw).
Proof.
  pose proof (trimmed_TrimSpace raw) as Ht. set (t := TrimSpace raw) in *.
  unfold ToLower at 2 3. destruct (string_forall is_ascii t) eqn:Ha.
  - rewrite (TrimSpace_trimmed (string_map _ _)) by by apply lower_trimmed.
    unfold ToLower. by rewrite lower_ascii, lower_idemp.
  - rewrite lower_unicode_trimmed by (done || by apply TrimSpace_trimmed).
    by apply lower_unicode_fixed.
Qed.
