(* ===== verification/DemoUUID.v ===== *)
(** * An instance of the uuid package, for the witnesses

    The theorems are about any implementation of [UUIDLib]; their witnesses
    run on this one, where an identity is spelled by its binary digits and
    the derived identity of a name is an injective code of the pair. *)

From stdpp Require Import base numbers list strings countable.
From Stdlib Require Import ZArith Lia.
From S2P Require Import Prelude.

Module demo_uuid.

Fixpoint digits (p : positive) : string :=
  match p with
  | xH => "1"
  | xO p => String (Ascii.ascii_of_N 48) (digits p)
  | xI p => String (Ascii.ascii_of_N 49) (digits p)
  end.

Fixpoint parse_digits (s : string) : option positive :=
  match s with
  | "" => None
  | "1" => Some xH
  | String c s =>
      if bool_decide (c = Ascii.ascii_of_N 48) then xO <$> parse_digits s
      else if bool_decide (c = Ascii.ascii_of_N 49) then xI <$> parse_digits s
      else None
  end.

Lemma digits_nonempty p : digits p ≠ "".
Proof. by destruct p. Qed.

Lemma parse_digits_cons c s :
  s ≠ "" →
  parse_digits (String c s) =
    if bool_decide (c = Ascii.ascii_of_N 48) then xO <$> parse_digits s
    else if bool_decide (c = Ascii.ascii_of_N 49) then xI <$> parse_digits s else None.
Proof. intros Hs. destruct s as [|d s]; [done|]. by destruct c as [[] [] [] [] [] [] [] []]. Qed.

Lemma parse_digits_digits p : parse_digits (digits p) = Some p.
Proof.
  induction p as [p IH|p IH|]; simpl digits;
    rewrite ?parse_digits_cons by apply digits_nonempty; by rewrite ?IH.
Qed.

Definition show (u : uuid) : string := match u with N0 => "nil" | Npos p => digits p end.

Definition parse (s : string) : option uuid :=
  if bool_decide (s = "nil") then Some 0%N else Npos <$> parse_digits s.

Definition sha1 (ns : uuid) (name : string) : uuid := Npos (encode (ns, name)).

#[export] Instance lib : UUIDLib := {
  uuid_String := show;
  uuid_Parse := parse;
  uuid_NewSHA1 := sha1;
  uuid_NewString n := digits (Pos.of_succ_nat n);
}.

Lemma digits_not_nil p : digits p ≠ "nil".
Proof. by destruct p. Qed.

#[export] Instance laws : UUIDLaws.
Proof.
  split; simpl.
  - intros [|p]; unfold parse, show; [done|].
    rewrite bool_decide_eq_false_2 by apply digits_not_nil. by rewrite parse_digits_digits.
  - intros [|p]; [done|apply digits_nonempty].
  - done.
  - intros n m E. apply (f_equal parse_digits) in E. rewrite !parse_digits_digits in E.
    injection E as E. by apply SuccNat2Pos.inj.
Qed.
End demo_uuid.
