(* ===== verification/Errs.v ===== *)
(** * Errors

    The error values of the program: the sentinels and typed errors of the
    four domains (their [errors.go]), [errors.New], [fmt.Errorf] with [%w],
    [multierr.Combine], the slug errors of [common/errs], their
    classification, and the HTTP response of
    [common/server/httperr.RespondWithSlugError]. *)

From stdpp Require Import base numbers list strings.
From Stdlib Require Import ZArith Lia.
From S2P Require Import Prelude.

Module AuctionErr.
Inductive sentinel :=
| ErrAuctionNotOpen | ErrSellerCannotBid | ErrLeaderCannotOutbidSelf
| ErrCurrencyMismatch | ErrBidBelowMinimum | ErrVerificationRequired
| ErrUnsupportedCurrency
| ErrAuctionHasBids | ErrAlreadyClosed | ErrAuctionCancelled | ErrBiddingStillOpen
| ErrNoQualifyingRunnerUp | ErrWinnerAlreadyReassigned | ErrRelistLimitReached
| ErrAlreadyRelisted | ErrAlreadySettled | ErrSaleAlreadyFailed
| ErrInvalidID | ErrInvalidCurrency | ErrNegativeAmount | ErrInvalidLot
| ErrInvalidStartPrice | ErrInvalidIncrement | ErrInvalidReserve
| ErrInvalidBiddingWindow | ErrInvalidAntiSnipePolicy | ErrInvalidListingRules
| ErrInvalidBid | ErrInvalidStatus | ErrInvalidOutcome | ErrInvalidFailureReason.

#[export] Instance sentinel_eq_dec : EqDecision sentinel.
Proof. solve_decision. Defined.
End AuctionErr.

Module InvoiceErr.
Inductive sentinel :=
| ErrInvoiceAlreadyPaid | ErrInvoiceExpired | ErrInvoiceAlreadyExpired
| ErrInvoiceVoided | ErrInvoiceAlreadyVoided | ErrInvoiceNotDue
| ErrInvoiceAlreadyIssued | ErrPaymentDeclined | ErrPSPUnavailable
| ErrCurrencyMismatch | ErrNegativeAmount | ErrInvalidCurrency
| ErrInvalidCommissionRate | ErrInvalidAttempt | ErrInvalidPaymentTerm
| ErrEmptyPaymentReference.

#[export] Instance sentinel_eq_dec : EqDecision sentinel.
Proof. solve_decision. Defined.
End InvoiceErr.

Module SettlementErr.
Inductive sentinel :=
| ErrUnexpectedTransition | ErrNotOfferRecipient | ErrOfferAlreadyPaid
| ErrWinnerMismatch | ErrNegativeAmount | ErrInvalidCurrency.

#[export] Instance sentinel_eq_dec : EqDecision sentinel.
Proof. solve_decision. Defined.
End SettlementErr.

Module ParticipantErr.
Inductive sentinel :=
| ErrInvalidParticipantID | ErrInvalidEmail | ErrInvalidStatus
| ErrEmptyDisplayName | ErrAlreadyVerified | ErrEmailTaken.

#[export] Instance sentinel_eq_dec : EqDecision sentinel.
Proof. solve_decision. Defined.
End ParticipantErr.

(** ** Slug errors *)

(** [errs.ErrorKind]: the closed enumeration, with the zero value. *)
Inductive ErrorKind :=
| ErrorKindZero
| ErrorKindUnknown
| ErrorKindIncorrectInput
| ErrorKindForbidden
| ErrorKindNotFound
| ErrorKindConflict
| ErrorKindUnavailable.

#[export] Instance ErrorKind_eq_dec : EqDecision ErrorKind.
Proof. solve_decision. Defined.
#[export] Instance ErrorKind_zero : GoZero ErrorKind := ErrorKindZero.

Definition ErrorKind_String (k : ErrorKind) : string :=
  match k with
  | ErrorKindZero | ErrorKindUnknown => "unknown"
  | ErrorKindIncorrectInput => "incorrect-input"
  | ErrorKindForbidden => "forbidden"
  | ErrorKindNotFound => "not-found"
  | ErrorKindConflict => "conflict"
  | ErrorKindUnavailable => "unavailable"
  end.

(** ** Error values

    [NotFoundError] and [Forbidden...Error] carry the identities of their
    structs.  [ErrNew] is an [errors.New] or a driver's error, [Errorf m e]
    is [fmt.Errorf("m: %w", e)] ([m] is the format, its other operands are
    dropped), [Combine e1 e2] is an error that wraps two
    ([fmt.Errorf("%w: %w", e1, e2)], [multierr.Combine(e1, e2)]). *)
#[local] Set Warnings "-register-all".
Inductive error : Type :=
| ErrAuction (s : AuctionErr.sentinel)
| ErrInvoice (s : InvoiceErr.sentinel)
| ErrSettlement (s : SettlementErr.sentinel)
| ErrParticipant (s : ParticipantErr.sentinel)
| AuctionNotFoundError (id : uuid)
| ForbiddenAuctionManagementError (actor owner : uuid)
| InvoiceNotFoundError (id : uuid)
| ForbiddenInvoiceAccessError (actor debtor : uuid)
| SettlementNotFoundError (id : uuid)
| ParticipantNotFoundError (id : string)
| ForbiddenParticipantUpdateError (actor target : string)
| ErrNew (msg : string)
| Errorf (msg : string) (e : error)
| Combine (e1 e2 : error)
| SlugError (slug : string) (kind : ErrorKind) (cause : option error).

#[export] Instance error_eq_dec : EqDecision error.
Proof.
  unfold EqDecision, Decision. fix go 1. intros x y.
  decide equality; try (apply (decide_rel eq)); try apply go.
  all: decide equality; apply go.
Defined.

Abbreviation result := (res error) (only parsing).
Abbreviation M S := (GoM error S) (only parsing).

Definition Slug_Unwrap (e : error) : option error :=
  match e with SlugError _ _ cause => cause | _ => None end.

Definition WithCause (e : error) (cause : error) : error :=
  match e with SlugError slug kind _ => SlugError slug kind (Some cause) | _ => e end.

Definition NewIncorrectInputError (slug : string) : error :=
  SlugError slug ErrorKindIncorrectInput None.
Definition NewForbiddenError (slug : string) : error :=
  SlugError slug ErrorKindForbidden None.
Definition NewNotFoundError (slug : string) : error :=
  SlugError slug ErrorKindNotFound None.
Definition NewConflictError (slug : string) : error :=
  SlugError slug ErrorKindConflict None.
Definition NewUnavailableError (slug : string) : error :=
  SlugError slug ErrorKindUnavailable None.
Definition NewUnknownError (slug : string) : error :=
  SlugError slug ErrorKindUnknown None.

(** ** [errors.Is] and [errors.As]

    Both visit the error, then what it wraps, in pre-order. *)
Fixpoint chain (e : error) : list error :=
  e :: match e with
       | Errorf _ c => chain c
       | Combine e1 e2 => chain e1 ++ chain e2
       | SlugError _ _ (Some c) => chain c
       | _ => []
       end.

(** [SlugError.Is]: slug and kind, whatever the cause. *)
Definition Slug_Is (e target : error) : bool :=
  match e, target with
  | SlugError s k _, SlugError s' k' _ => bool_decide (s' = s) && bool_decide (k' = k)
  | _, _ => false
  end.

Definition errors_Is (e target : error) : bool :=
  existsb (fun n => bool_decide (n = target) || Slug_Is n target) (chain e).

Definition find_map {A B} (f : A → option B) (l : list A) : option B :=
  foldr (fun a acc => match f a with Some b => Some b | None => acc end) None l.

Definition errors_As {T} (f : error → option T) (e : error) : option T :=
  find_map f (chain e).

Definition as_SlugError (e : error) : option (string * ErrorKind) :=
  match e with SlugError s k _ => Some (s, k) | _ => None end.
Definition as_AuctionNotFound (e : error) : option uuid :=
  match e with AuctionNotFoundError i => Some i | _ => None end.
Definition as_ForbiddenAuctionManagement (e : error) : option (uuid * uuid) :=
  match e with ForbiddenAuctionManagementError a o => Some (a, o) | _ => None end.
Definition as_InvoiceNotFound (e : error) : option uuid :=
  match e with InvoiceNotFoundError i => Some i | _ => None end.
Definition as_ForbiddenInvoiceAccess (e : error) : option (uuid * uuid) :=
  match e with ForbiddenInvoiceAccessError a o => Some (a, o) | _ => None end.
Definition as_SettlementNotFound (e : error) : option uuid :=
  match e with SettlementNotFoundError i => Some i | _ => None end.
Definition as_ParticipantNotFound (e : error) : option string :=
  match e with ParticipantNotFoundError i => Some i | _ => None end.

Definition found {T} (o : option T) : bool := match o with Some _ => true | None => false end.

Definition KindFromError (e : error) : ErrorKind :=
  match errors_As as_SlugError e with
  | Some (_, kind) => if IsZero kind then ErrorKindUnknown else kind
  | None => ErrorKindUnknown
  end.

(** ** HTTP responses *)
Local Open Scope Z_scope.

Record Response := mkResponse { resp_status : Z; resp_slug : string }.

Definition internalSlug : string := "internal-server-error".

Definition statusFromKind (kind : ErrorKind) : Z :=
  match kind with
  | ErrorKindIncorrectInput => 400
  | ErrorKindForbidden => 403
  | ErrorKindNotFound => 404
  | ErrorKindConflict => 409
  | ErrorKindUnavailable => 502
  | ErrorKindUnknown | ErrorKindZero => 500
  end.

(** [None] is a nil error. *)
Definition RespondWithSlugError (err : option error) : Response :=
  let err := default (ErrNew "httperr: RespondWithSlugError called with nil error") err in
  let slug :=
    match errors_As as_SlugError err with
    | Some (s, _) => if bool_decide (s ≠ "") then s else internalSlug
    | None => internalSlug
    end in
  mkResponse (statusFromKind (KindFromError err)) slug.

(** ** Handlers

    [on_error m f] runs [m] and passes a non-nil error through the [switch]
    [f], where [None] is a nil error. *)
Definition on_error {S} (m : M S unit) (f : error → option error) : M S unit :=
  fun s =>
    match m s with
    | (Fail e, s') => (match f e with Some e' => Fail e' | None => Ok tt end, s')
    | r => r
    end.

(** [if err != nil { return wrapper.WithCause(err) }] on a constructor's error. *)
Definition with_cause {A} (slug : error) (r : result A) : result A :=
  match r with
  | Fail e => Fail (WithCause slug e)
  | r => r
  end.

(** [if err != nil { return nil, fmt.Errorf("msg: %w", err) }]. *)
Definition wrap_err {A} (msg : string) (r : result A) : result A :=
  match r with
  | Fail e => Fail (Errorf msg e)
  | r => r
  end.

(** ** Lemmas *)

Lemma find_map_app {A B} (f : A → option B) l1 l2 :
  find_map f (l1 ++ l2) =
    match find_map f l1 with Some b => Some b | None => find_map f l2 end.
Proof. induction l1 as [|a l1 IH]; simpl; [done|]. by destruct (f a). Qed.

Lemma errors_Is_refl e : errors_Is e e = true.
Proof. unfold errors_Is. destruct e; simpl; by rewrite bool_decide_eq_true_2. Qed.

(** What a wrapper matches, the wrapped error or the wrapper itself does. *)
Lemma errors_Is_Errorf m e target :
  errors_Is (Errorf m e) target =
    bool_decide (Errorf m e = target) || errors_Is e target.
Proof. unfold errors_Is; simpl. by rewrite orb_false_r. Qed.

Lemma errors_As_Slug s k c :
  errors_As as_SlugError (SlugError s k c) = Some (s, k).
Proof. done. Qed.

Lemma errors_As_Errorf {T} (f : error → option T) m e :
  f (Errorf m e) = None → errors_As f (Errorf m e) = errors_As f e.
Proof. unfold errors_As; simpl. by intros ->. Qed.

(** A wrapper that only relabels an error leaves successes alone. *)
Lemma with_cause_ok {A} slug (r : result A) a : with_cause slug r = Ok a ↔ r = Ok a.
Proof. by destruct r. Qed.

Lemma with_wrap_err {A} msg (r : result A) a : wrap_err msg r = Ok a → r = Ok a.
Proof. by destruct r. Qed.

(** Only the outermost slug of a chain reaches the client; the cause it
    wraps never does. *)
Lemma respond_slug s k c :
  RespondWithSlugError (Some (SlugError s k c)) =
    mkResponse (statusFromKind (if IsZero k then ErrorKindUnknown else k))
      (if bool_decide (s ≠ "") then s else internalSlug).
Proof. unfold RespondWithSlugError, KindFromError. done. Qed.

Lemma KindFromError_not_zero e : KindFromError e ≠ ErrorKindZero.
Proof.
  unfold KindFromError. destruct (errors_As _ e) as [[s k]|]; [|done].
  by destruct k.
Qed.

#[export] Hint Rewrite @errors_As_Slug : go.
