(* ===== verification/Auth.v ===== *)
(** * Authenticated users

    [common/auth]: the roles, the user a request carries, the middleware that
    puts it there and the tokens it accepts.  Signing and parsing a token is
    the JWT library's: the class [JWTLib], with its documented behaviour in
    [JWTLaws].  [authenticates] is what the two ends have in common. *)

From stdpp Require Import base numbers list strings.
From Stdlib Require Import ZArith Lia.
From S2P Require Import Prelude DemoUUID Errs.

Module auth.
Local Open Scope Z_scope.

Definition ModeLocalHS256 : string := "local-hs256".
Definition ModeJWKS : string := "jwks".

Definition RoleBidder : string := "bidder".
Definition RoleSeller : string := "seller".
Definition RoleOperations : string := "operations".

Definition Role_valid (r : string) : bool :=
  bool_decide (r = RoleBidder) || bool_decide (r = RoleSeller)
  || bool_decide (r = RoleOperations).

Record User := mkUser { u_ID : uuid; u_Role : string }.
#[export] Instance User_eq_dec : EqDecision User.
Proof. solve_decision. Defined.

(** The context of a request: the user the middleware put in it, if any. *)
Definition UserFromCtx (ctx : option User) : result User :=
  match ctx with
  | None => Fail (NewUnknownError "no-user-in-context")
  | Some user => Ok user
  end.

(** ** Tokens

    The claims of a token: the registered [sub], [iat] and [exp], and the
    platform's [role]. *)
Record claims := mkClaims {
  c_Role : string;
  c_Subject : string;
  c_IssuedAt : Time;
  c_ExpiresAt : Time;
}.
#[export] Instance claims_eq_dec : EqDecision claims.
Proof. solve_decision. Defined.

(** [golang-jwt] as this package uses it: the dates of a token, signing with a
    secret under HS256, and [jwt.ParseWithClaims] under a secret at an
    instant, which answers the claims and [token.Valid]. *)
Class JWTLib := {
  jwt_NewNumericDate : Time → Time;
  jwt_SignedString : string → claims → result string;
  jwt_ParseWithClaims : Time → string → string → result (claims * bool);
}.

Section Token.
Context `{UUIDLib} `{JWTLib}.

(** [strings.CutPrefix]. *)
Definition CutPrefix (s prefix : string) : option string :=
  if String.prefix prefix s
  then Some (String.substring (String.length prefix)
               (String.length s - String.length prefix) s)
  else None.

(** [now] is the instant the token is validated at, [authorization] the
    request's [Authorization] header. *)
Definition userFromRequest (secret : string) (now : Time) (authorization : string) : result User :=
  match CutPrefix authorization "Bearer " with
  | None => Fail (ErrNew "missing bearer token")
  | Some tokenString =>
      if bool_decide (tokenString = "") then Fail (ErrNew "missing bearer token")
      else
        '(c, valid) ← wrap_err "parse token" (jwt_ParseWithClaims now secret tokenString);
        if negb valid then Fail (ErrNew "invalid token")
        else
          match uuid_Parse (c_Subject c) with
          | None => Fail (Errorf "sub claim is not a uuid" (ErrNew "invalid UUID"))
          | Some id =>
              if negb (Role_valid (c_Role c)) then Fail (ErrNew "unknown role claim %q")
              else Ok (mkUser id (c_Role c))
          end
  end.

Definition unauthorized : Response := mkResponse 401 "unauthorized".

(** A middleware answers a request itself, or passes it on in a context. *)
Definition Middleware : Type := Time → string → Response + option User.

(** [ContextWithUser]: the context of the next handler carries the user. *)
Definition hs256Middleware (secret : string) : Middleware := fun now authorization =>
  match userFromRequest secret now authorization with
  | Ok user => inr (Some user)
  | _ => inl unauthorized
  end.

Definition NewMiddleware (mode hs256Secret : string) : result Middleware :=
  if bool_decide (mode = ModeLocalHS256) then
    if bool_decide (hs256Secret = "")
    then Fail (ErrNew "auth: AUTH_HS256_SECRET must not be empty when AUTH_MODE=local-hs256")
    else Ok (hs256Middleware hs256Secret)
  else if bool_decide (mode = ModeJWKS) then
    Fail (ErrNew "auth: AUTH_MODE=jwks is not implemented yet")
  else Fail (ErrNew "auth: unknown AUTH_MODE %q").

(** [now] is what [time.Now] answers. *)
Definition GenerateToken (now : Time) (secret : string) (user : User) (ttl : Duration)
    : result string :=
  wrap_err "sign token" (jwt_SignedString secret
    (mkClaims (u_Role user) (uuid_String (u_ID user))
       (jwt_NewNumericDate now) (jwt_NewNumericDate (time_Add now ttl)))).
End Token.

(** ** What the library promises

    Dates are truncated to the second.  A token signed over the text of a
    uuid and one of the roles is not empty; parsed under the same secret it
    answers the claims it was signed over until it expires, and is refused
    from then on. *)
Class JWTLaws `{UUIDLib} `{JWTLib} := {
  jwt_date : ∀ t, jwt_NewNumericDate t ≤ t < jwt_NewNumericDate t + Second;
  jwt_signed : ∀ secret c tok id iat exp,
    c_Subject c = uuid_String id → Role_valid (c_Role c) = true →
    c_IssuedAt c = jwt_NewNumericDate iat → c_ExpiresAt c = jwt_NewNumericDate exp →
    jwt_SignedString secret c = Ok tok →
    tok ≠ "" ∧
    ∀ now, if now <? c_ExpiresAt c
           then jwt_ParseWithClaims now secret tok = Ok (c, true)
           else is_ok (jwt_ParseWithClaims now secret tok) = false;
}.

(** ** Lemmas *)

Lemma prefix_app p s : String.prefix p (p +:+ s) = true.
Proof.
  induction p as [|c p IH]; [by destruct s|].
  change (String.prefix (String c p) (String c (p +:+ s)) = true). cbn.
  destruct (Ascii.ascii_dec c c) as [_|n]; [exact IH|by destruct n].
Qed.

Lemma substring_app p s :
  String.substring (String.length p) (String.length (p +:+ s) - String.length p) (p +:+ s) = s.
Proof.
  induction p as [|c p IH].
  - change ("" +:+ s) with s. cbn [String.length]. rewrite Nat.sub_0_r.
    induction s as [|c s IH]; [done|]. cbn. by rewrite IH.
  - exact IH.
Qed.

Lemma CutPrefix_app p s : CutPrefix (p +:+ s) p = Some s.
Proof. unfold CutPrefix. by rewrite prefix_app, substring_app. Qed.

Lemma prefix_inv p s : String.prefix p s = true → ∃ r, s = p +:+ r.
Proof.
  revert s. induction p as [|c p IH]; intros s; [by exists s|].
  destruct s as [|c' s]; [done|]. cbn.
  destruct (Ascii.ascii_dec c c') as [<-|]; [|done].
  intros (r & ->)%IH. by exists r.
Qed.

Lemma CutPrefix_inv p s r : CutPrefix s p = Some r → s = p +:+ r.
Proof.
  unfold CutPrefix. destruct (String.prefix p s) eqn:E; [|done].
  apply prefix_inv in E as (r' & ->). rewrite substring_app. by intros [= ->].
Qed.
Lemma CutPrefix_app_only p s : CutPrefix s p = None ∨ ∃ r, CutPrefix s p = Some r ∧ s = p +:+ r.
Proof.
  destruct (CutPrefix s p) as [r|] eqn:E; [right|by left].
  exists r. split; [done|by apply CutPrefix_inv].
Qed.

Section Laws.
Context `{UUIDLib} `{JWTLib} `{!UUIDLaws} `{!JWTLaws}.

(** The user of a request is the one its token names. *)
Lemma userFromRequest_Ok secret now authorization user :
  userFromRequest secret now authorization = Ok user →
  ∃ tok c,
    authorization = "Bearer " +:+ tok ∧
    jwt_ParseWithClaims now secret tok = Ok (c, true) ∧
    uuid_Parse (c_Subject c) = Some (u_ID user) ∧
    c_Role c = u_Role user ∧ Role_valid (u_Role user) = true.
Proof.
  unfold userFromRequest. intros E.
  destruct (CutPrefix_app_only "Bearer " authorization) as [Hc|(tok & Hc & ->)];
    rewrite Hc in E; [done|].
  case_bool_decide; [done|].
  destruct (jwt_ParseWithClaims now secret tok) as [[c []]| |] eqn:Hp; try done.
  cbn in E. destruct (uuid_Parse (c_Subject c)) as [id|] eqn:Hid; [|done].
  destruct (Role_valid (c_Role c)) eqn:Hr; [|done].
  injection E as <-. by exists tok, c.
Qed.

(** A generated token names its user until it expires. *)
Lemma userFromRequest_generated secret issued user ttl tok now :
  Role_valid (u_Role user) = true →
  GenerateToken issued secret user ttl = Ok tok →
  if now <? jwt_NewNumericDate (time_Add issued ttl)
  then userFromRequest secret now ("Bearer " +:+ tok) = Ok user
  else is_ok (userFromRequest secret now ("Bearer " +:+ tok)) = false.
Proof.
  intros Hr Hg. apply with_wrap_err in Hg. unfold userFromRequest. rewrite CutPrefix_app.
  destruct (jwt_signed secret
              (mkClaims (u_Role user) (uuid_String (u_ID user)) (jwt_NewNumericDate issued)
                 (jwt_NewNumericDate (time_Add issued ttl)))
              tok (u_ID user) issued (time_Add issued ttl)
              eq_refl Hr eq_refl eq_refl Hg) as [Hne Hp].
  rewrite bool_decide_false by done. specialize (Hp now). cbn [c_ExpiresAt] in Hp.
  destruct (now <? _).
  - rewrite Hp. cbn. rewrite uuid_Parse_String, Hr. by destruct user.
  - by destruct (jwt_ParseWithClaims now secret tok).
Qed.

(** The user a request names: by a token in its [Authorization] header that
    validates under the secret, whose subject parses as a uuid and whose role
    is one of the three. *)
Definition names (secret : string) (now : Time) (authorization : string) (user : User) : Prop :=
  ∃ tok c,
    authorization = "Bearer " +:+ tok ∧ tok ≠ "" ∧
    jwt_ParseWithClaims now secret tok = Ok (c, true) ∧
    uuid_Parse (c_Subject c) = Some (u_ID user) ∧
    c_Role c = u_Role user ∧ Role_valid (u_Role user) = true.

Lemma userFromRequest_names secret now authorization user :
  userFromRequest secret now authorization = Ok user ↔ names secret now authorization user.
Proof.
  split.
  - intros E. pose proof (userFromRequest_Ok _ _ _ _ E) as (tok & c & -> & ?&?&?&?).
    exists tok, c. split_and!; try done. intros ->. unfold userFromRequest in E.
    by rewrite CutPrefix_app in E.
  - intros (tok & c & -> & Hne & Hp & Hid & Hc & Hr). unfold userFromRequest.
    rewrite CutPrefix_app, bool_decide_false, Hp by done. cbn.
    rewrite Hid, Hc, Hr. by destruct user.
Qed.

(** C36: what a request is authenticated as.  The middleware passes a request
    on, in the context of a user, exactly when the request names that user: a
    bearer token that validates under the secret, with a subject that parses
    as the user's uuid and one of the three roles; it answers every other
    request 401.  A token generated for a user with one of the roles goes
    through as exactly that user, until the second in which its time to live
    ends, and is answered 401 from then on. *)
Theorem authenticates secret mw :
  NewMiddleware ModeLocalHS256 secret = Ok mw →
  (∀ now authorization,
     (∀ user, mw now authorization = inr (Some user) ↔ names secret now authorization user) ∧
     ((∀ user, ¬ names secret now authorization user) → mw now authorization = inl unauthorized) ∧
     mw now authorization ≠ inr None) ∧
  (∀ issued user ttl tok,
     Role_valid (u_Role user) = true →
     GenerateToken issued secret user ttl = Ok tok →
     ∃ exp,
       exp ≤ time_Add issued ttl < exp + Second ∧
       ∀ now, mw now ("Bearer " +:+ tok) =
                if now <? exp then inr (Some user) else inl unauthorized).
Proof.
  unfold NewMiddleware. rewrite bool_decide_true by done.
  case_bool_decide; [done|]. intros [= <-]. unfold hs256Middleware. split.
  - intros now authorization. setoid_rewrite <-userFromRequest_names.
    destruct (userFromRequest secret now authorization) as [user| |] eqn:E; naive_solver.
  - intros issued user ttl tok Hr Hg.
    exists (jwt_NewNumericDate (time_Add issued ttl)). split; [apply jwt_date|].
    intros now. pose proof (userFromRequest_generated secret issued user ttl tok now Hr Hg) as E.
    destruct (now <? _); [by rewrite E|].
    by destruct (userFromRequest secret now ("Bearer " +:+ tok)).
Qed.
End Laws.

(** A library that signs one set of claims only. *)
Definition demo_claims : claims := mkClaims RoleSeller (@uuid_String demo_uuid.lib 5%N) 0 (3600 * Second).

Definition demo_jwt : JWTLib := {|
  jwt_NewNumericDate t := t - t mod Second;
  jwt_SignedString secret c :=
    if bool_decide (secret = "s3cret") && bool_decide (c = demo_claims)
    then Ok "header.payload.signature" else Fail (ErrNew "key is of invalid type");
  jwt_ParseWithClaims now secret tok :=
    if bool_decide (secret = "s3cret") && bool_decide (tok = "header.payload.signature")
    then if now <? 3600 * Second then Ok (demo_claims, true)
         else Fail (ErrNew "token is expired")
    else Fail (ErrNew "token is malformed");
|}.

Lemma demo_jwt_laws : @JWTLaws demo_uuid.lib demo_jwt.
Proof.
  split.
  - intros t. cbn -[Z.modulo Z.mul]. unfold Second.
    pose proof (Z.mod_pos_bound t 1000000000). lia.
  - intros secret c tok id iat exp Hs Hr _ _. cbn -[Z.mul].
    destruct (bool_decide (secret = "s3cret")) eqn:E1; [|done].
    destruct (bool_decide (c = demo_claims)) eqn:E2; [|done].
    apply bool_decide_eq_true in E2 as ->. intros [= <-]. split; [done|].
    intros now. cbn -[Z.mul]. by destruct (now <? _).
Qed.

(** A seller's token of one hour: good after ten minutes, refused after two
    hours; so is a request without one. *)
Lemma authenticates_witness :
  ∃ mw : Middleware,
    mw (600 * Second) ("Bearer " +:+ "header.payload.signature")
      = inr (Some (mkUser 5%N RoleSeller)) ∧
    mw (7200 * Second) ("Bearer " +:+ "header.payload.signature") = inl unauthorized ∧
    mw 0 "Basic abc" = inl unauthorized.
Proof.
  exists (@hs256Middleware demo_uuid.lib demo_jwt "s3cret").
  pose proof (@authenticates demo_uuid.lib demo_jwt demo_uuid.laws demo_jwt_laws "s3cret"
    (@hs256Middleware demo_uuid.lib demo_jwt "s3cret") eq_refl) as [Hany Hgen].
  destruct (Hgen 0 (mkUser 5%N RoleSeller) (3600 * Second) "header.payload.signature"
    eq_refl eq_refl) as (exp & Hexp & Hmw).
  assert (1000 * Second < exp < 7000 * Second) as Hr by (unfold time_Add, Second in *; lia).
  split; [|split].
  - rewrite Hmw. destruct (Z.ltb_spec (600 * Second) exp); [done|unfold Second in *; lia].
  - rewrite Hmw. destruct (Z.ltb_spec (7200 * Second) exp); [unfold Second in *; lia|done].
  - apply (Hany 0 "Basic abc"). intros user (tok & c & E & _).
    assert (String.prefix "Bearer " "Basic abc" = true) as F by (rewrite E; apply prefix_app).
    discriminate F.
Defined.
End auth.
