(* ===== verification/Config.v ===== *)
(** * The configuration

    [common/config]: the typed configuration of the monolith, read from the
    environment by a loader that collects every problem instead of stopping
    at the first, and [strconv.ParseInt] as it uses it. *)

From stdpp Require Import base numbers list strings.
From Stdlib Require Import ZArith Lia.
From S2P Require Import Prelude Errs.

Module config.
Local Open Scope Z_scope.

(** ** [strconv.ParseInt(s, 10, 64)], [strconv.Atoi] *)

Definition digit_value (c : Ascii.ascii) : option Z :=
  let n := Ascii.N_of_ascii c in
  if ((48 <=? n) && (n <=? 57))%N then Some (Z.of_N (n - 48)) else None.

Fixpoint digits_value (acc : Z) (s : string) : option Z :=
  match s with
  | "" => Some acc
  | String c s =>
      match digit_value c with
      | Some d => digits_value (10 * acc + d) s
      | None => None
      end
  end.

(** The optional sign, the digits, the range of an [int64]. *)
Definition ParseInt (s : string) : option Z :=
  let '(neg, digits) :=
    match s with
    | String c rest =>
        if Ascii.eqb c (Ascii.ascii_of_N 45) then (true, rest)
        else if Ascii.eqb c (Ascii.ascii_of_N 43) then (false, rest)
        else (false, s)
    | "" => (false, "")
    end in
  if bool_decide (digits = "") then None
  else
    match digits_value 0 digits with
    | Some n =>
        let z := if (neg : bool) then - n else n in
        if (int64_min <=? z) && (z <=? int64_max) then Some z else None
    | None => None
    end.

(** ** The configuration *)

Definition AuthModeLocalHS256 : string := "local-hs256".
Definition AuthModeJWKS : string := "jwks".
Definition PSPModeSuccess : string := "success".
Definition PSPModeDecline : string := "decline".
Definition PSPModeFlaky : string := "flaky".
Definition LogFormatJSON : string := "json".
Definition LogFormatText : string := "text".

Record Config := mkConfig {
  PlatformCurrency : string;
  CommissionBasisPoints : Z;
  VerifyAboveMinor : Z;
  SnipeWindow : Duration;
  SnipeExtension : Duration;
  SnipeMaxExtensions : Z;
  PaymentTerm : Duration;
  cfg_PSPMode : string;
  RelistDelay : Duration;
  RelistDuration : Duration;
  ClosingPollInterval : Duration;
  ExpiryPollInterval : Duration;
  BusPollInterval : Duration;
  HTTPPort : Z;
  DatabaseURL : string;
  OTELExporterOTLPEndpoint : string;
  AuthMode : string;
  AuthHS256Secret : string;
  cfg_LogFormat : string;
}.

Definition Minute : Duration := 60 * Second.
Definition Hour : Duration := 60 * Minute.

(** ** The loader

    Its state is the list of the errors collected. *)

(** [fmt.Errorf("%s: %s", key, reason)]; the operands of the reasons are
    dropped. *)
Definition problem (p : string * string) : error := ErrNew (p.1 +:+ ": " +:+ p.2).

Definition fail (key reason : string) : M (list error) unit :=
  modify (fun errs => errs ++ [problem (key, reason)]).

Section Load.
(** The environment, and [time.ParseDuration]. *)
Context (lookup : string → option string) (ParseDuration : string → option Duration).

(** [v, ok := l.lookup(key); !ok || v == ""]: an unset variable is an empty
    one. *)
Definition value (key : string) : string := default "" (lookup key).

Definition required (key : string) : M (list error) string :=
  let v := value key in
  if bool_decide (v = "") then fail key "required environment variable is not set";; mret ""
  else mret v.

Definition optional (key def : string) : M (list error) string :=
  let v := value key in mret (if bool_decide (v = "") then def else v).

Definition duration (key : string) (def : Duration) : M (list error) Duration :=
  let raw := value key in
  if bool_decide (raw = "") then mret def
  else
    match ParseDuration raw with
    | None => fail key "must be a Go duration, got %q";; mret def
    | Some d => if d <=? 0 then fail key "must be positive, got %q";; mret def else mret d
    end.

Definition intInRange (key : string) (def minVal maxVal : Z) : M (list error) Z :=
  let raw := value key in
  if bool_decide (raw = "") then mret def
  else
    match ParseInt raw with
    | Some v =>
        if (v <? minVal) || (maxVal <? v)
        then fail key "must be an integer in [%d, %d], got %q";; mret def
        else mret v
    | None => fail key "must be an integer in [%d, %d], got %q";; mret def
    end.

Definition int64NonNegative (key : string) (def : Z) : M (list error) Z :=
  let raw := value key in
  if bool_decide (raw = "") then mret def
  else
    match ParseInt raw with
    | Some v => if v <? 0 then fail key "must be a non-negative integer, got %q";; mret def else mret v
    | None => fail key "must be a non-negative integer, got %q";; mret def
    end.

Definition port (key : string) (def : Z) : M (list error) Z :=
  let raw := value key in
  if bool_decide (raw = "") then mret def
  else
    match ParseInt raw with
    | Some p =>
        if (p <? 1) || (65535 <? p)
        then fail key "must be a TCP port (1-65535), got %q";; mret def
        else mret p
    | None => fail key "must be a TCP port (1-65535), got %q";; mret def
    end.

Definition enum (key def : string) (allowed : list string) : M (list error) string :=
  let raw := value key in
  if bool_decide (raw = "") then mret def
  else if bool_decide (raw ∈ allowed) then mret raw
  else fail key "must be one of %v, got %q";; mret def.

Fixpoint all_upper (s : string) : bool :=
  match s with
  | "" => true
  | String r s =>
      let n := Ascii.N_of_ascii r in negb ((n <? 65)%N || (90 <? n)%N) && all_upper s
  end.

Definition isCurrencyCode (s : string) : bool :=
  if negb (Nat.eqb (String.length s) 3) then false else all_upper s.

(** The fields of the literal, in the order they are evaluated. *)
Definition read_config : M (list error) Config :=
  platformCurrency ← required "PLATFORM_CURRENCY";
  commissionBasisPoints ← intInRange "COMMISSION_BASIS_POINTS" 1000 0 10000;
  verifyAboveMinor ← int64NonNegative "VERIFY_ABOVE_MINOR" 100000;
  snipeWindow ← duration "SNIPE_WINDOW" (5 * Minute);
  snipeExtension ← duration "SNIPE_EXTENSION" (5 * Minute);
  snipeMaxExtensions ← intInRange "SNIPE_MAX_EXTENSIONS" 3 0 1000;
  paymentTerm ← duration "PAYMENT_TERM" (48 * Hour);
  pspMode ← enum "PSP_MODE" PSPModeSuccess [PSPModeSuccess; PSPModeDecline; PSPModeFlaky];
  relistDelay ← duration "RELIST_DELAY" Hour;
  relistDuration ← duration "RELIST_DURATION" (24 * Hour);
  closingPollInterval ← duration "CLOSING_POLL_INTERVAL" Second;
  expiryPollInterval ← duration "EXPIRY_POLL_INTERVAL" (5 * Second);
  busPollInterval ← duration "BUS_POLL_INTERVAL" (100 * (Second / 1000));
  httpPort ← port "HTTP_PORT" 8080;
  databaseURL ← required "DATABASE_URL";
  endpoint ← optional "OTEL_EXPORTER_OTLP_ENDPOINT" "localhost:4317";
  authMode ← enum "AUTH_MODE" AuthModeLocalHS256 [AuthModeLocalHS256; AuthModeJWKS];
  authHS256Secret ← optional "AUTH_HS256_SECRET" "";
  logFormat ← enum "LOG_FORMAT" LogFormatJSON [LogFormatJSON; LogFormatText];
  mret (mkConfig platformCurrency commissionBasisPoints verifyAboveMinor snipeWindow
    snipeExtension snipeMaxExtensions paymentTerm pspMode relistDelay relistDuration
    closingPollInterval expiryPollInterval busPollInterval httpPort databaseURL endpoint
    authMode authHS256Secret logFormat).

Definition check_config (cfg : Config) : M (list error) unit :=
  (if bool_decide (PlatformCurrency cfg ≠ "") && negb (isCurrencyCode (PlatformCurrency cfg))
   then fail "PLATFORM_CURRENCY" "must be a 3-letter uppercase ISO-4217 code, got %q"
   else mret tt);;
  (if bool_decide (AuthMode cfg = AuthModeLocalHS256) && bool_decide (AuthHS256Secret cfg = "")
   then fail "AUTH_HS256_SECRET" "required when AUTH_MODE=local-hs256"
   else mret tt).

(** [errors.Join] of a non-empty list: an error that wraps all of them. *)
Fixpoint errors_Join (errs : list error) : error :=
  match errs with
  | [] => ErrNew ""
  | [e] => e
  | e :: errs => Combine e (errors_Join errs)
  end.

Definition load : result Config :=
  match (cfg ← read_config; check_config cfg;; mret cfg) [] with
  | (Ok cfg, errs) =>
      if bool_decide (errs ≠ []) then Fail (Errorf "invalid configuration:" (errors_Join errs))
      else Ok cfg
  | (Fail e, _) => Fail e
  | (Panic p, _) => Panic p
  end.
End Load.
End config.
