(* ===== verification/Decorator.v ===== *)
(** * The decorators of the handlers

    [common/decorator]: the tracing, logging and metrics layers every command
    and query handler is wrapped in.  The OpenTelemetry and slog back ends are
    the lists of what was reported to them.  [decorators_transparent]: the
    layers change neither an answer nor the state, and report each request
    exactly once. *)

From stdpp Require Import base numbers list strings.
From Stdlib Require Import ZArith Lia.
From S2P Require Import Prelude Errs.

Module decorator.
Local Open Scope Z_scope.

(** ** What is reported *)

(** [codes.Unset], [codes.Error] with the text of an error, [codes.Ok]. *)
Inductive SpanStatus := Unset | Error (e : error) | OkStatus.

(** A finished span: its name, the errors recorded on it and its status. *)
Record Span := mkSpan { span_name : string; span_errors : list error; span_status : SpanStatus }.

Inductive Level := LevelInfo | LevelError.

Record LogRecord := mkLogRecord {
  log_level : Level;
  log_message : string;
  log_context : string;
  log_handler : string;
  log_error : option error;
}.

(** [durationAttributes] and the value recorded. *)
Record Point := mkPoint {
  pt_context : string;
  pt_handler : string;
  pt_result : string;
  pt_elapsed : Duration;
}.

Record Telemetry := mkTelemetry {
  spans : list Span;
  records : list LogRecord;
  commandDuration : list Point;
  queryDuration : list Point;
}.

(** [Decorators]: the context module; its logger, tracer and histograms are
    the lists of [Telemetry]. *)
Record Decorators := mkDecorators { contextName : string }.

Definition end_span (sp : Span) (t : Telemetry) : Telemetry :=
  mkTelemetry (spans t ++ [sp]) (records t) (commandDuration t) (queryDuration t).
Definition log (r : LogRecord) (t : Telemetry) : Telemetry :=
  mkTelemetry (spans t) (records t ++ [r]) (commandDuration t) (queryDuration t).
Definition record_command (p : Point) (t : Telemetry) : Telemetry :=
  mkTelemetry (spans t) (records t) (commandDuration t ++ [p]) (queryDuration t).
Definition record_query (p : Point) (t : Telemetry) : Telemetry :=
  mkTelemetry (spans t) (records t) (commandDuration t) (queryDuration t ++ [p]).

(** ** Handlers

    [Handler C R] over a state [S]: [CommandHandler[C]] answers nothing but an
    error, [QueryHandler[Q, R]] a view or an error.  A decorated handler runs
    on the state and the telemetry. *)
Definition Handler (S C R : Type) : Type := C → M S R.

Section Layers.
Context {S C R : Type}.

Definition observed : Type := S * Telemetry.

(** A handler that reports nothing. *)
Definition plain (h : Handler S C R) : Handler observed C R := fun cmd w =>
  let '(r, s) := h cmd w.1 in (r, (s, w.2)).

Definition report (f : Telemetry → Telemetry) (w : observed) : observed := (w.1, f w.2).

(** The named result [err] as a deferred function reads it: of a call that
    panics it is still nil. *)
Definition named_err (r : result R) : option error :=
  match r with Fail e => Some e | _ => None end.

(** [defer f(err)]: [f] runs whether the call returns or panics. *)
Definition defer (f : option error → Telemetry → Telemetry) (m : M observed R) : M observed R :=
  fun w => let '(r, w) := m w in (r, report (f (named_err r)) w).

(** *** Tracing *)

Definition recordSpanResult (sp : Span) (err : option error) : Span :=
  match err with
  | Some e => mkSpan (span_name sp) (span_errors sp ++ [e]) (Error e)
  | None => mkSpan (span_name sp) (span_errors sp) OkStatus
  end.

(** The result is recorded after the call, which a panic skips; the span is
    ended by a deferred call, which it does not. *)
Definition tracingDecorator (prefix name : string) (base : Handler observed C R)
    : Handler observed C R := fun cmd w =>
  let sp := mkSpan (prefix +:+ name) [] Unset in
  let '(r, w) := base cmd w in
  let sp := match r with Panic _ => sp | _ => recordSpanResult sp (named_err r) end in
  (r, report (end_span sp) w).

(** *** Logging *)

Definition loggingDecorator (failed succeeded : string) (d : Decorators) (name : string)
    (base : Handler observed C R) : Handler observed C R := fun cmd =>
  defer (fun err =>
    log match err with
        | Some e => mkLogRecord LevelError failed (contextName d) name (Some e)
        | None => mkLogRecord LevelInfo succeeded (contextName d) name None
        end) (base cmd).

(** *** Metrics *)

Definition durationAttributes (context handler : string) (err : option error)
    (elapsed : Duration) : Point :=
  mkPoint context handler match err with Some _ => "err" | None => "ok" end elapsed.

(** [elapsed] is what [time.Since(start)] answers. *)
Definition metricsDecorator (histogram : Point → Telemetry → Telemetry) (elapsed : Duration)
    (d : Decorators) (name : string) (base : Handler observed C R) : Handler observed C R :=
  fun cmd =>
    defer (fun err => histogram (durationAttributes (contextName d) name err elapsed)) (base cmd).

(** *** The stack: tracing outermost, metrics innermost. *)

Definition ApplyCommandDecorators (elapsed : Duration) (d : Decorators) (name : string)
    (handler : Handler observed C R) : Handler observed C R :=
  tracingDecorator "commands/" name
    (loggingDecorator "command handler failed" "command handler succeeded" d name
       (metricsDecorator record_command elapsed d name handler)).

Definition ApplyQueryDecorators (elapsed : Duration) (d : Decorators) (name : string)
    (handler : Handler observed C R) : Handler observed C R :=
  tracingDecorator "queries/" name
    (loggingDecorator "query handler failed" "query handler succeeded" d name
       (metricsDecorator record_query elapsed d name handler)).
End Layers.
Arguments observed : clear implicits.

(** ** Serving a sequence of requests *)

(** The answers, in order, and the last state; each request has the time its
    handler took. *)
Fixpoint serve {W C R} (h : Duration → Handler W C R) (cmds : list (Duration * C)) (w : W)
    : list (result R) * W :=
  match cmds with
  | [] => ([], w)
  | (elapsed, cmd) :: cmds =>
      let '(r, w) := h elapsed cmd w in
      let '(rs, w) := serve h cmds w in
      (r :: rs, w)
  end.

(** What one answer is reported as. *)
Definition span_of {R} (prefix name : string) (r : result R) : Span :=
  match r with
  | Ok _ => mkSpan (prefix +:+ name) [] OkStatus
  | Fail e => mkSpan (prefix +:+ name) [e] (Error e)
  | Panic _ => mkSpan (prefix +:+ name) [] Unset
  end.

Definition log_of {R} (failed succeeded context name : string) (r : result R) : LogRecord :=
  match r with
  | Fail e => mkLogRecord LevelError failed context name (Some e)
  | _ => mkLogRecord LevelInfo succeeded context name None
  end.

Definition point_of {R} (context name : string) (elapsed : Duration) (r : result R) : Point :=
  mkPoint context name match r with Fail _ => "err" | _ => "ok" end elapsed.

(** ** Lemmas *)

Lemma ApplyCommandDecorators_run {S C R} (h : Handler S C R) elapsed d name cmd s t :
  ApplyCommandDecorators elapsed d name (plain h) cmd (s, t) =
    let '(r, s') := h cmd s in
    (r, (s', mkTelemetry
      (spans t ++ [span_of "commands/" name r])
      (records t ++ [log_of "command handler failed" "command handler succeeded"
                       (contextName d) name r])
      (commandDuration t ++ [point_of (contextName d) name elapsed r])
      (queryDuration t))).
Proof.
  unfold ApplyCommandDecorators, tracingDecorator, loggingDecorator, metricsDecorator, defer, plain.
  cbn. by destruct (h cmd s) as [[] s'].
Qed.

Lemma ApplyQueryDecorators_run {S C R} (h : Handler S C R) elapsed d name cmd s t :
  ApplyQueryDecorators elapsed d name (plain h) cmd (s, t) =
    let '(r, s') := h cmd s in
    (r, (s', mkTelemetry
      (spans t ++ [span_of "queries/" name r])
      (records t ++ [log_of "query handler failed" "query handler succeeded"
                       (contextName d) name r])
      (commandDuration t)
      (queryDuration t ++ [point_of (contextName d) name elapsed r]))).
Proof.
  unfold ApplyQueryDecorators, tracingDecorator, loggingDecorator, metricsDecorator, defer, plain.
  cbn. by destruct (h cmd s) as [[] s'].
Qed.

(** [m'] answers what [m] answers and leaves the state [m] leaves, whatever it
    reports. *)
Definition decorates {S R} (m' : M (observed S) R) (m : M S R) : Prop :=
  ∀ s t, ∃ t', m' (s, t) = ((m s).1, ((m s).2, t')).

Lemma ApplyCommandDecorators_decorates {S C R} (h : Handler S C R) elapsed d name cmd :
  decorates (ApplyCommandDecorators elapsed d name (plain h) cmd) (h cmd).
Proof.
  intros s t. rewrite ApplyCommandDecorators_run. destruct (h cmd s) as [r s']. by eexists.
Qed.

Lemma ApplyQueryDecorators_decorates {S C R} (h : Handler S C R) elapsed d name cmd :
  decorates (ApplyQueryDecorators elapsed d name (plain h) cmd) (h cmd).
Proof.
  intros s t. rewrite ApplyQueryDecorators_run. destruct (h cmd s) as [r s']. by eexists.
Qed.

(** Checks on the arguments may come before a decorated handler. *)
Lemma decorates_lift {S A R} (r : result A) (f' : A → M (observed S) R) (f : A → M S R) :
  (∀ a, decorates (f' a) (f a)) → decorates (a ← lift r; f' a) (a ← lift r; f a).
Proof.
  intros Hf s t. unfold lift, mbind, GoM_bind. destruct r as [a|e|p]; [apply Hf|by exists t..].
Qed.

(** What a sequence of requests is reported as. *)
Definition reported {R} (prefix failed succeeded context name : string) (elapsed : list Duration)
    (rs : list (result R)) (add : list Point → Telemetry → Telemetry) (t : Telemetry) : Telemetry :=
  add (zip_with (point_of context name) elapsed rs)
    (mkTelemetry (spans t ++ (span_of prefix name <$> rs))
       (records t ++ (log_of failed succeeded context name <$> rs))
       (commandDuration t) (queryDuration t)).

Definition add_commands (ps : list Point) (t : Telemetry) : Telemetry :=
  mkTelemetry (spans t) (records t) (commandDuration t ++ ps) (queryDuration t).
Definition add_queries (ps : list Point) (t : Telemetry) : Telemetry :=
  mkTelemetry (spans t) (records t) (commandDuration t) (queryDuration t ++ ps).

(** The decorators are transparent.  Over any sequence of requests a
    decorated handler gives the answers, and leaves the state, of the bare
    one; it reports every request exactly once, in order, as a span, a log
    record and a duration with the names of the context and of the use case: a
    failure under [err] with its error, a success under [ok].  A request that
    panics is measured and logged as a success, its span without a status. *)
Theorem decorators_transparent {S C R} (h : Handler S C R) d name cmds s t :
  let '(rs, s') := serve (fun _ => h) cmds s in
  serve (fun elapsed => ApplyCommandDecorators elapsed d name (plain h)) cmds (s, t) =
    (rs, (s', reported "commands/" "command handler failed" "command handler succeeded"
                (contextName d) name cmds.*1 rs add_commands t)) ∧
  serve (fun elapsed => ApplyQueryDecorators elapsed d name (plain h)) cmds (s, t) =
    (rs, (s', reported "queries/" "query handler failed" "query handler succeeded"
                (contextName d) name cmds.*1 rs add_queries t)).
Proof.
  revert s t. induction cmds as [|[elapsed cmd] cmds IH]; intros s t; cbn [serve].
  - unfold reported, add_commands, add_queries; destruct t; cbn; by rewrite !app_nil_r.
  - rewrite ApplyCommandDecorators_run, ApplyQueryDecorators_run.
    destruct (h cmd s) as [r s1].
    match goal with |- context [serve _ cmds (s1, ?t1)] => pose proof (IH s1 t1) as IHc end.
    destruct (serve (fun _ => h) cmds s1) as [rs s2] eqn:E.
    split.
    + destruct IHc as [-> _]. unfold reported, add_commands. cbn. by rewrite <- !app_assoc.
    + match goal with |- context [serve _ cmds (s1, ?t1)] => pose proof (IH s1 t1) as IHq end.
      rewrite E in IHq. destruct IHq as [_ ->]. unfold reported, add_queries. cbn.
      by rewrite <- !app_assoc.
Qed.
End decorator.
