(* ===== verification/HttpServer.v ===== *)
(** * The HTTP edge

    [common/server]: the middleware stack of the root router and of the [/api]
    group, the health endpoints, and the authentication middleware in its
    place.  The router and the middlewares of the [chi] and [otelhttp]
    packages are the class [EdgeLib], with their documented behaviour in
    [EdgeLaws]. *)

From stdpp Require Import base numbers list strings gmap.
From Stdlib Require Import ZArith Lia.
From S2P Require Import Prelude GoText DemoUUID Errs Auth.

Module server.
Local Open Scope Z_scope.

(** ** Requests and responses *)

(** A header, by canonical name. *)
Abbreviation Header := (gmap string (list string)).

Definition Header_Set (key value : string) (h : Header) : Header := <[key := [value]]> h.
Definition Header_Add (key value : string) (h : Header) : Header :=
  <[key := default [] (h !! key) ++ [value]]> h.
Definition Header_Get (key : string) (h : Header) : string :=
  match h !! key with Some (v :: _) => v | _ => "" end.

(** [rq_query] is [r.URL.Query()]; [rq_user] is the user in the context of the
    request, [rq_params] the parameters the router found in the path. *)
Record Request := mkRequest {
  rq_method : string;
  rq_path : string;
  rq_query : gmap string (list string);
  rq_header : Header;
  rq_body : string;
  rq_user : option auth.User;
  rq_params : gmap string string;
}.

Definition with_user (user : option auth.User) (r : Request) : Request :=
  mkRequest (rq_method r) (rq_path r) (rq_query r) (rq_header r) (rq_body r) user (rq_params r).

Record HttpResponse := mkHttpResponse {
  rs_status : Z;
  rs_header : Header;
  rs_body : string;
}.

(** A handler serves a request, given the header already set on the response
    writer; [None] when it panics. *)
Definition HttpHandler (S : Type) : Type := Request → Header → S → option HttpResponse * S.
Definition HttpMiddleware (S : Type) : Type := HttpHandler S → HttpHandler S.

(** [chi] and [otelhttp], as the router uses them. *)
Class EdgeLib (S : Type) := {
  chi_RequestID : HttpMiddleware S;
  chi_ClientIPFromRemoteAddr : HttpMiddleware S;
  otelhttp_Middleware : HttpMiddleware S;
  chi_Recoverer : HttpMiddleware S;
  chi_NoCache : HttpMiddleware S;
}.

Definition answer {S} (rsp : HttpResponse) (s : S) : option HttpResponse * S := (Some rsp, s).

Section Edge.
Context {S : Type} `{EdgeLib S}.

(** ** The middlewares of the package *)

(** They name the span and write the request log, and pass everything on. *)
Definition spanRouteNamer : HttpMiddleware S := fun next => next.
Definition requestLogger : HttpMiddleware S := fun next => next.

Definition cors_header (origin : string) (h : Header) : Header :=
  Header_Set "Access-Control-Max-Age" "300"
    (Header_Set "Access-Control-Allow-Headers" "Authorization, Content-Type"
      (Header_Set "Access-Control-Allow-Methods" "GET, POST, PUT, PATCH, DELETE, OPTIONS"
        (Header_Add "Vary" "Origin"
          (Header_Set "Access-Control-Allow-Origin" origin h)))).

Definition corsMiddleware : HttpMiddleware S := fun next r h =>
  let origin := Header_Get "Origin" (rq_header r) in
  if bool_decide (origin ≠ "") then
    let h := cors_header origin h in
    if bool_decide (rq_method r = "OPTIONS")
       && bool_decide (Header_Get "Access-Control-Request-Method" (rq_header r) ≠ "")
    then answer (mkHttpResponse 204 h "")
    else next r h
  else next r h.

Definition securityHeaders : HttpMiddleware S := fun next r h =>
  next r (Header_Set "X-Frame-Options" "deny" (Header_Set "X-Content-Type-Options" "nosniff" h)).

(** [hs256Middleware] on this side: the 401 of [respondUnauthorized], or the
    next handler with the user in the context.  The body is the slug. *)
Definition authenticate (mw : auth.Middleware) (now : Time) : HttpMiddleware S := fun next r h =>
  match mw now (Header_Get "Authorization" (rq_header r)) with
  | inl resp =>
      answer (mkHttpResponse (resp_status resp)
              (Header_Set "Content-Type" "application/json; charset=utf-8" h) (resp_slug resp))
  | inr user => next (with_user user r) h
  end.

(** ** The router

    [r.Route("/api", ...)] mounts the group under the prefix; [root] and [api]
    are the handlers the contexts register. *)
Definition under_api (path : string) : bool :=
  bool_decide (path = "/api") || String.prefix "/api/" path.

Definition api_stack (authMiddleware : HttpMiddleware S) (api : HttpHandler S) : HttpHandler S :=
  chi_NoCache (authMiddleware api).

Definition NewRouter (authMiddleware : HttpMiddleware S) (root api : HttpHandler S)
    : HttpHandler S :=
  chi_RequestID (chi_ClientIPFromRemoteAddr (otelhttp_Middleware (spanRouteNamer (requestLogger
    (chi_Recoverer (corsMiddleware (securityHeaders
      (fun r => if under_api (rq_path r) then api_stack authMiddleware api r else root r)))))))).

(** ** The health endpoints *)

Record ReadinessProbe := mkReadinessProbe { probe_Name : string; probe_Check : S → result unit }.

(** [http.Error]. *)
Definition http_Error (msg : string) (code : Z) (h : Header) : HttpResponse :=
  mkHttpResponse code
    (Header_Set "X-Content-Type-Options" "nosniff"
      (Header_Set "Content-Type" "text/plain; charset=utf-8" h))
    (msg +:+ LF).

(** The first probe that fails is reported. *)
Fixpoint readyz (readiness : list ReadinessProbe) (h : Header) (s : S)
    : option HttpResponse * S :=
  match readiness with
  | [] => answer (mkHttpResponse 200 h "") s
  | probe :: readiness =>
      match probe_Check probe s with
      | Ok _ => readyz readiness h s
      | Fail _ => answer (http_Error (probe_Name probe +:+ " not ready") 503 h) s
      | Panic _ => (None, s)
      end
  end.

Definition RegisterHealthEndpoints (readiness : list ReadinessProbe) (others : HttpHandler S)
    : HttpHandler S := fun r h =>
  if bool_decide (rq_method r = "GET") && bool_decide (rq_path r = "/healthz")
  then answer (mkHttpResponse 200 h "")
  else if bool_decide (rq_method r = "GET") && bool_decide (rq_path r = "/readyz")
  then readyz readiness h
  else others r h.
End Edge.

(** ** What the libraries promise

    The context middlewares and the recoverer change neither the request nor
    an answer; [Recoverer] answers a panic with 500, with whatever header was set,
    but leaves the status of an upgraded connection alone, which [net/http] then
    sends as 200 (it lets [http.ErrAbortHandler] through, which nothing here
    panics with);
    [NoCache] runs the next handler on the same request but for conditional
    headers, and only adds to the header of the response. *)
Definition bare (r : Request)
    : string * string * gmap string (list string) * string * string * option auth.User :=
  (rq_method r, rq_path r, rq_query r, rq_body r, Header_Get "Authorization" (rq_header r), rq_user r).

(** The status of a panic. *)
Definition recovered_status (r : Request) : Z :=
  if bool_decide (Header_Get "Connection" (rq_header r) = "Upgrade") then 200 else 500.

Class EdgeLaws (S : Type) `{EdgeLib S} := {
  chi_RequestID_next : ∀ next r h, chi_RequestID next r h = next r h;
  chi_ClientIP_next : ∀ next r h, chi_ClientIPFromRemoteAddr next r h = next r h;
  otelhttp_next : ∀ next r h, otelhttp_Middleware next r h = next r h;
  chi_Recoverer_some : ∀ next r h s rsp s',
    next r h s = (Some rsp, s') → chi_Recoverer next r h s = (Some rsp, s');
  chi_Recoverer_none : ∀ next r h s s',
    next r h s = (None, s') →
    ∃ h', chi_Recoverer next r h s = (Some (mkHttpResponse (recovered_status r) h' ""), s');
  chi_NoCache_next : ∀ next r h,
    ∃ r' h', chi_NoCache next r h = next r' h' ∧ bare r' = bare r ∧
             h' !! "X-Content-Type-Options" = h !! "X-Content-Type-Options" ∧
             h' !! "X-Frame-Options" = h !! "X-Frame-Options";
}.

(** ** What the edge guarantees *)

Definition secured (h : Header) : Prop :=
  h !! "X-Content-Type-Options" = Some ["nosniff"] ∧ h !! "X-Frame-Options" = Some ["deny"].

(** A handler that does not touch these two. *)
Definition keeps_secured {S} (handler : HttpHandler S) : Prop :=
  ∀ r h s rsp s', handler r h s = (Some rsp, s') → secured h → secured (rs_header rsp).

Definition preflight (r : Request) : bool :=
  bool_decide (Header_Get "Origin" (rq_header r) ≠ "") && bool_decide (rq_method r = "OPTIONS")
  && bool_decide (Header_Get "Access-Control-Request-Method" (rq_header r) ≠ "").

(** [rsp] and [s'] are what a handler did with a request [r]: its answer, or
    that of a panic. *)
Definition served {S} (r : Request) (did : option HttpResponse * S) (rsp : HttpResponse) (s' : S) : Prop :=
  did.2 = s' ∧
  match did.1 with
  | Some rsp' => rsp = rsp' ∧ secured (rs_header rsp)
  | None => rs_status rsp = recovered_status r
  end.

Section Guarantees.
Context {S : Type} `{EdgeLib S} `{!EdgeLaws S}.
Implicit Types (next root api : HttpHandler S).

Lemma secured_set h :
  secured (Header_Set "X-Frame-Options" "deny" (Header_Set "X-Content-Type-Options" "nosniff" h)).
Proof.
  split; unfold Header_Set; [rewrite lookup_insert_ne by done|]; apply lookup_insert_eq.
Qed.

Lemma secured_content_type value h : secured h → secured (Header_Set "Content-Type" value h).
Proof. intros []. by split; unfold Header_Set; rewrite lookup_insert_ne by done. Qed.

Lemma cors_preflight next r h s :
  preflight r = true →
  ∃ h', corsMiddleware next r h s = (Some (mkHttpResponse 204 h' ""), s).
Proof.
  unfold preflight, corsMiddleware. intros [[-> ->]%andb_prop ->]%andb_prop.
  by eexists.
Qed.

Lemma cors_next next r h s :
  preflight r = false → ∃ h', corsMiddleware next r h s = next r h' s.
Proof.
  unfold preflight, corsMiddleware. intros Hp.
  destruct (bool_decide (Header_Get "Origin" (rq_header r) ≠ "")); [|by eexists].
  cbn in Hp. rewrite Hp. by eexists.
Qed.

Lemma recovered next r h s :
  ∃ rsp,
    chi_Recoverer next r h s = (Some rsp, (next r h s).2) ∧
    match (next r h s).1 with Some rsp' => rsp = rsp' | None => rs_status rsp = recovered_status r end.
Proof.
  destruct (next r h s) as [[rsp|] s'] eqn:E.
  - exists rsp. by rewrite (chi_Recoverer_some _ _ _ _ _ _ E).
  - destruct (chi_Recoverer_none _ _ _ _ _ E) as [h' ->]. by eexists.
Qed.

(** The stack of the [/api] group. *)
Lemma api_stack_next mw now api r h s :
  secured h →
  ∃ h', secured h' ∧
    match mw now (Header_Get "Authorization" (rq_header r)) with
    | inl resp =>
        api_stack (authenticate mw now) api r h s =
          (Some (mkHttpResponse (resp_status resp) h' (resp_slug resp)), s)
    | inr user =>
        ∃ r', bare r' = bare (with_user user r) ∧
              api_stack (authenticate mw now) api r h s = api r' h' s
    end.
Proof.
  intros [Ho Hf]. unfold api_stack.
  destruct (chi_NoCache_next (authenticate mw now api) r h) as (r' & h' & -> & Hb & Ho' & Hf').
  assert (secured h') as Hs by (split; congruence).
  unfold bare in Hb. injection Hb as Hm Hp Hq Hbd Ha Hu. unfold authenticate. rewrite Ha.
  destruct (mw now _) as [resp|user].
  - eexists. split; [by apply secured_content_type|]. reflexivity.
  - exists h'. split; [done|]. eexists. split; [|reflexivity]. unfold bare. cbn. by rewrite Hm, Hp, Hq, Hbd, Ha.
Qed.

(** Below the recoverer, a request that is not a preflight meets the handlers
    with the security headers set. *)
Lemma edge_inner authMiddleware root api r s :
  preflight r = false →
  ∃ h' rsp, secured h' ∧
    let inner := (if under_api (rq_path r) then api_stack authMiddleware api r else root r) h' s in
    NewRouter authMiddleware root api r ∅ s = (Some rsp, inner.2) ∧
    match inner.1 with Some rsp' => rsp = rsp' | None => rs_status rsp = recovered_status r end.
Proof.
  intros Hp. unfold NewRouter, spanRouteNamer, requestLogger.
  rewrite chi_RequestID_next, chi_ClientIP_next, otelhttp_next.
  match goal with |- context [chi_Recoverer ?next r ∅ s] =>
    destruct (recovered next r ∅ s) as (rsp & -> & Hrsp) end.
  match type of Hrsp with context [corsMiddleware ?next] =>
    destruct (cors_next next r ∅ s Hp) as [h' E] end.
  rewrite E in *. clear E. unfold securityHeaders in *. eexists _, rsp. split; [apply secured_set|].
  cbv zeta. by destruct (under_api (rq_path r)).
Qed.

Lemma edge_preflight authMiddleware root api r s :
  preflight r = true →
  ∃ rsp, NewRouter authMiddleware root api r ∅ s = (Some rsp, s) ∧ rs_status rsp = 204.
Proof.
  intros Hp. unfold NewRouter, spanRouteNamer, requestLogger.
  rewrite chi_RequestID_next, chi_ClientIP_next, otelhttp_next.
  match goal with |- context [chi_Recoverer ?next r ∅ s] =>
    destruct (recovered next r ∅ s) as (rsp & -> & Hrsp) end.
  match type of Hrsp with context [corsMiddleware ?next] =>
    destruct (cors_preflight next r ∅ s Hp) as [h' E] end.
  rewrite E in *. cbn in *. exists rsp. by subst rsp.
Qed.

Lemma hs256_middleware `{UUIDLib} `{auth.JWTLib} secret mw :
  auth.NewMiddleware auth.ModeLocalHS256 secret = Ok mw → mw = auth.hs256Middleware secret.
Proof.
  unfold auth.NewMiddleware. rewrite bool_decide_true by done. intros Hmw.
  case_bool_decide; by simplify_eq.
Qed.

(** A request under [/api] with a valid token reaches the handlers of the group. *)
Lemma edge_api `{UUIDLib} `{auth.JWTLib} secret mw now root api r s user :
  auth.NewMiddleware auth.ModeLocalHS256 secret = Ok mw →
  preflight r = false → under_api (rq_path r) = true →
  auth.userFromRequest secret now (Header_Get "Authorization" (rq_header r)) = Ok user →
  ∃ r' h', bare r' = bare (with_user (Some user) r) ∧ secured h' ∧
    ∃ rsp, NewRouter (authenticate mw now) root api r ∅ s = (Some rsp, (api r' h' s).2) ∧
      match (api r' h' s).1 with Some rsp' => rsp = rsp' | None => rs_status rsp = recovered_status r end.
Proof.
  intros Hmw Hp Hapi Hu. apply hs256_middleware in Hmw as ->.
  destruct (edge_inner (authenticate (auth.hs256Middleware secret) now) root api r s Hp)
    as (h' & rsp & Hs & HR & Hrsp). rewrite Hapi in HR, Hrsp.
  destruct (api_stack_next (auth.hs256Middleware secret) now api r h' s Hs) as (h1 & Hs1 & Ha).
  unfold auth.hs256Middleware in Ha at 1. rewrite Hu in Ha. destruct Ha as (r' & Hb & E).
  rewrite E in HR, Hrsp. exists r', h1. split; [exact Hb|]. split; [exact Hs1|]. by exists rsp.
Qed.

(** C35: what the edge guarantees.  Every request is answered, a panicking
    handler with 500 (200 on an upgraded connection).  A CORS preflight is answered 204 before any handler; a
    request under [/api] without a valid bearer token 401 [unauthorized]; both
    leave the state as it is.  Any other request under [/api] is served by the
    handlers of the group, on the same method, path, query and body, and as exactly
    the user the token names, and the rest by the root handlers.  Every answer
    but a preflight's and a panic's carries the security headers. *)
Theorem edge_guarded `{UUIDLib} `{auth.JWTLib} secret mw now root api r s :
  auth.NewMiddleware auth.ModeLocalHS256 secret = Ok mw →
  keeps_secured root → keeps_secured api →
  ∃ rsp s',
    NewRouter (authenticate mw now) root api r ∅ s = (Some rsp, s') ∧
    if preflight r then rs_status rsp = 204 ∧ s' = s
    else if under_api (rq_path r) then
      let token := Header_Get "Authorization" (rq_header r) in
      (is_ok (auth.userFromRequest secret now token) = false ∧
       rs_status rsp = 401 ∧ rs_body rsp = "unauthorized" ∧ secured (rs_header rsp) ∧ s' = s) ∨
      (∃ user r' h',
         auth.userFromRequest secret now token = Ok user ∧
         bare r' = bare (with_user (Some user) r) ∧
         served r (api r' h' s) rsp s')
    else ∃ h', served r (root r h' s) rsp s'.
Proof.
  intros Hmw Hroot Hapi. apply hs256_middleware in Hmw as ->.
  destruct (preflight r) eqn:Hp.
  { destruct (edge_preflight (authenticate (auth.hs256Middleware secret) now) root api r s Hp)
      as (rsp & HR & Hst). by exists rsp, s. }
  destruct (edge_inner (authenticate (auth.hs256Middleware secret) now) root api r s Hp)
    as (h' & rsp & Hs & HR & Hrsp).
  eexists rsp, _. split; [exact HR|]. destruct (under_api (rq_path r)).
  - destruct (api_stack_next (auth.hs256Middleware secret) now api r h' s Hs) as (h1 & Hs1 & Ha).
    unfold auth.hs256Middleware in Ha at 1.
    destruct (auth.userFromRequest secret now _) as [user|e|p] eqn:Hu; [right|left..].
    + destruct Ha as (r' & Hb & E). rewrite E in *. exists user, r', h1.
      split; [exact Hu|]. split; [exact Hb|]. split; [done|].
      destruct (api r' h1 s) as [[rsp1|] s1] eqn:Er; cbn in *; [|done].
      subst. split; [done|]. by eapply Hapi.
    + rewrite Ha in *. cbn in *. rewrite Hu. by subst.
    + rewrite Ha in *. cbn in *. rewrite Hu. by subst.
  - exists h'. split; [done|].
    destruct (root r h' s) as [[rsp1|] s1] eqn:Er; cbn in *; [|done].
    subst. split; [done|]. by eapply Hroot.
Qed.

(** Readiness is the first probe that fails. *)
Lemma readyz_ready (readiness : list (ReadinessProbe (S := S))) h s :
  Forall (fun probe => is_ok (probe_Check probe s) = true) readiness →
  readyz readiness h s = (Some (mkHttpResponse 200 h ""), s).
Proof.
  induction 1 as [|probe readiness Hok _ IH]; [done|]. cbn.
  by destruct (probe_Check probe s).
Qed.

Lemma readyz_not_ready before probe after h (s : S) e :
  Forall (fun probe => is_ok (probe_Check probe s) = true) before →
  probe_Check probe s = Fail e →
  ∃ h', readyz (before ++ probe :: after) h s =
          (Some (mkHttpResponse 503 h' (probe_Name probe +:+ " not ready" +:+ LF)), s).
Proof.
  intros Hb Hp. induction Hb as [|q before Hok _ IH]; cbn.
  - rewrite Hp. eexists. unfold answer, http_Error. by rewrite <-string_app_assoc.
  - by destruct (probe_Check q s).
Qed.
End Guarantees.

(** Middlewares that pass on, and a recoverer; a counter as the state. *)
Definition demo_edge : EdgeLib nat := {|
  chi_RequestID next := next;
  chi_ClientIPFromRemoteAddr next := next;
  otelhttp_Middleware next := next;
  chi_Recoverer next r h s :=
    match next r h s with
    | (Some rsp, s') => (Some rsp, s')
    | (None, s') => (Some (mkHttpResponse (recovered_status r) h ""), s')
    end;
  chi_NoCache next := next;
|}.

Lemma demo_edge_laws : @EdgeLaws nat demo_edge.
Proof.
  split; try done.
  - intros next r h s rsp s' E. cbn. by rewrite E.
  - intros next r h s s' E. exists h. cbn. by rewrite E.
  - intros next r h. by exists r, h.
Qed.

(** It counts the requests of sellers and panics on the others. *)
Definition demo_api : HttpHandler nat := fun r h s =>
  match rq_user r with
  | Some (auth.mkUser _ role) =>
      if bool_decide (role = auth.RoleSeller) then answer (mkHttpResponse 204 h "") (S s)
      else (None, s)
  | None => (None, s)
  end.

Definition demo_root : HttpHandler nat := RegisterHealthEndpoints [] (fun r h s => (None, s)).

Definition demo_request (path token : string) : Request :=
  mkRequest "GET" path ∅ {[ "Authorization" := [token] ]} "" None ∅.

Lemma demo_keeps : keeps_secured demo_api ∧ keeps_secured demo_root.
Proof.
  split; intros r h s rsp s'.
  - unfold demo_api. destruct (rq_user r) as [[id role]|]; [|done].
    case_bool_decide; [|done]. by intros [= <- <-].
  - unfold demo_root, RegisterHealthEndpoints. destruct (_ && _); [by intros [= <- <-]|].
    destruct (_ && _); [|done]. by intros [= <- <-].
Qed.

(** A seller's request goes through; without a token it is refused. *)
Lemma edge_guarded_witness :
  let serve r := @NewRouter nat demo_edge
    (authenticate (@auth.hs256Middleware demo_uuid.lib auth.demo_jwt "s3cret") 0)
    demo_root demo_api r ∅ 7%nat in
  (∃ rsp, serve (demo_request "/api/auctions" ("Bearer " +:+ "header.payload.signature"))
            = (Some rsp, 8%nat) ∧ secured (rs_header rsp)) ∧
  (∃ rsp, serve (demo_request "/api/auctions" "") = (Some rsp, 7%nat) ∧ rs_status rsp = 401).
Proof.
  intros serve.
  pose proof (fun r => @edge_guarded nat demo_edge demo_edge_laws demo_uuid.lib auth.demo_jwt
    "s3cret" _ 0 demo_root demo_api r 7%nat eq_refl (proj2 demo_keeps) (proj1 demo_keeps)) as H.
  split.
  - destruct (H (demo_request "/api/auctions" ("Bearer " +:+ "header.payload.signature")))
      as (rsp & s' & E & [(F & _)|(user & r' & h' & Hu & Hb & Hs)]); [discriminate F|].
    injection Hu as <-. destruct r' as [m p q hd b u ps]. injection Hb as _ _ _ _ _ ->.
    destruct Hs as [<- [-> Hs]]. eexists. split; [exact E|exact Hs].
  - destruct (H (demo_request "/api/auctions" "")) as
      (rsp & s' & E & [(_ & Hst & _ & _ & ->)|(user & r' & h' & F & _)]); [|discriminate F].
    exists rsp. split; [exact E|exact Hst].
Defined.
End server.
