(* ===== verification/OpenApi.v ===== *)
(** * Routing and the generated servers

    The parts the generated servers of the four contexts
    ([internal/*/ports/openapi.gen.go]) have in common: the errors of their
    parameters, a path parameter bound by the wrapper of an operation, the
    strict handler that runs an operation and writes its response, and the
    options [RegisterHTTP] gives them.  The router of [chi] is the class
    [MuxLib], with its documented behaviour in [MuxLaws]; the parameter binding
    of [oapi-codegen/runtime] is [BindLib]. *)

From stdpp Require Import base numbers list strings gmap.
From Stdlib Require Import ZArith Lia Ascii.
From S2P Require Import Prelude Errs Auth HttpServer.

Module openapi.
Import server.
Local Open Scope Z_scope.

(** ** Routes *)

(** A handler registered for a method and a pattern such as
    ["/auctions/{auctionID}/bids"]. *)
Record Route (S : Type) := mkRoute {
  rt_method : string;
  rt_pattern : string;
  rt_handler : HttpHandler S;
}.
Arguments mkRoute {_} _ _ _.
Arguments rt_method {_} _.
Arguments rt_pattern {_} _.
Arguments rt_handler {_} _.

Definition Get {S} (pattern : string) (h : HttpHandler S) : Route S := mkRoute "GET" pattern h.
Definition Post {S} (pattern : string) (h : HttpHandler S) : Route S := mkRoute "POST" pattern h.

Definition slash : Ascii.ascii := "/"%char.

(** The segments of a path, the empty one before its first slash included. *)
Fixpoint segments (path : string) : list string :=
  match path with
  | EmptyString => [""]
  | String c path =>
      let segs := segments path in
      if bool_decide (c = slash) then "" :: segs
      else match segs with
           | seg :: segs => String c seg :: segs
           | [] => [String c ""]
           end
  end.

(** [{name}]. *)
Fixpoint closing_brace (s : string) : option string :=
  match s with
  | EmptyString => None
  | String "}"%char EmptyString => Some ""
  | String c s => String c <$> closing_brace s
  end.
Definition param_name (seg : string) : option string :=
  match seg with
  | String "{"%char s => closing_brace s
  | _ => None
  end.

(** The parameters of a path that fits a pattern, segment by segment: a
    parameter takes any segment but an empty one. *)
Fixpoint match_segments (pattern path : list string) : option (gmap string string) :=
  match pattern, path with
  | [], [] => Some ∅
  | p :: pattern, seg :: path =>
      match param_name p with
      | Some name =>
          if bool_decide (seg = "") then None
          else <[name := seg]> <$> match_segments pattern path
      | None => if bool_decide (p = seg) then match_segments pattern path else None
      end
  | _, _ => None
  end.

Definition route_match (pattern path : string) : option (gmap string string) :=
  match_segments (segments pattern) (segments path).

Definition with_params (params : gmap string string) (r : Request) : Request :=
  mkRequest (rq_method r) (rq_path r) (rq_query r) (rq_header r) (rq_body r) (rq_user r) params.

(** [chi.URLParam]. *)
Definition URLParam (r : Request) (name : string) : string := default "" (rq_params r !! name).

(** The routes, mounted under [prefix], that fit a request. *)
Definition resolve {S} (prefix : string) (routes : list (Route S)) (r : Request)
    : list (HttpHandler S * gmap string string) :=
  omap (fun route =>
    if bool_decide (rt_method route = rq_method r)
    then (fun params => (rt_handler route, params)) <$> route_match (prefix +:+ rt_pattern route) (rq_path r)
    else None) routes.

Class MuxLib (S : Type) := { chi_Mux : string → list (Route S) → HttpHandler S }.

(** A request that fits one route is served by it, with the parameters of the
    path in its context; one that fits none is answered 404, or 405 when the
    path fits a route of another method. *)
Class MuxLaws (S : Type) `{MuxLib S} := {
  chi_Mux_route : ∀ prefix routes r h handler params,
    resolve prefix routes r = [(handler, params)] →
    chi_Mux prefix routes r h = handler (with_params params r) h;
  chi_Mux_none : ∀ prefix routes r h s,
    resolve prefix routes r = [] → "" ∉ tail (segments (rq_path r)) →
    ∃ rsp, chi_Mux prefix routes r h s = (Some rsp, s)
      ∧ (rs_status rsp = 404 ∨ rs_status rsp = 405) ∧ (secured h → secured (rs_header rsp));
}.

(** ** Parameters *)

(** [url.Values]. *)
Abbreviation Values := (gmap string (list string)).

(** [runtime.BindStyledParameterWithOptions] of a path segment, by the format of
    the parameter, [runtime.BindQueryParameterWithOptions] of an optional
    parameter, by its type, the text of their errors, and whether the chain of
    one has a [runtime.RequiredParameterError]. *)
Class BindLib := {
  bind_uuid : string → result uuid;
  bind_string : string → result string;
  bind_query_int : string → Values → result (option Z);
  bind_query_string : string → Values → result (option string);
  bind_Error : error → string;
  bind_required : error → bool;
}.

Inductive ParamError :=
| RequiredParamError (ParamName : string)
| InvalidParamFormatError (ParamName : string) (Err : error).

Section Params.
Context `{BindLib}.

Definition ParamError_Error (e : ParamError) : string :=
  match e with
  | RequiredParamError name => "Query argument " +:+ name +:+ " is required, but not found"
  | InvalidParamFormatError name e =>
      "Invalid format for parameter " +:+ name +:+ ": " +:+ bind_Error e
  end.

(** What the wrapper reports when the binding of a query parameter fails. *)
Definition query_error (name : string) (e : error) : ParamError :=
  if bind_required e then RequiredParamError name else InvalidParamFormatError name e.

(** The error as the cause of another. *)
Definition ParamError_error (e : ParamError) : error :=
  match e with
  | RequiredParamError _ => ErrNew (ParamError_Error e)
  | InvalidParamFormatError name e => Errorf ("Invalid format for parameter " +:+ name) e
  end.
End Params.

(** ** JSON

    [Decode] of the generated request bodies and [Encode] of the generated
    responses. *)
Class Decoder (T : Type) := Decode : string → result T.
Class Encoder (T : Type) := Encode : T → result string.

(** The [Error] model of each context. *)
Record Error := mkError { Slug : string }.

(** ** The handlers *)

Definition MiddlewareFunc (S : Type) : Type := HttpMiddleware S.

(** [I] is the interface of the operations of a context. *)
Record ServerInterfaceWrapper (S I : Type) := mkServerInterfaceWrapper {
  Handler : I;
  HandlerMiddlewares : list (MiddlewareFunc S);
  ErrorHandlerFunc : ParamError → Header → HttpResponse;
}.
Arguments mkServerInterfaceWrapper {_ _} _ _ _.
Arguments Handler {_ _} _.
Arguments HandlerMiddlewares {_ _} _.
Arguments ErrorHandlerFunc {_ _} _ _ _.

Record ChiServerOptions (S : Type) := mkChiServerOptions {
  BaseURL : string;
  BaseRouter : list (Route S);
  Middlewares : list (MiddlewareFunc S);
  opt_ErrorHandlerFunc : option (ParamError → Header → HttpResponse);
}.
Arguments mkChiServerOptions {_} _ _ _ _.
Arguments BaseURL {_} _.
Arguments BaseRouter {_} _.
Arguments Middlewares {_} _.
Arguments opt_ErrorHandlerFunc {_} _.

Record StrictHTTPServerOptions := mkStrictHTTPServerOptions {
  RequestErrorHandlerFunc : error → Header → HttpResponse;
  ResponseErrorHandlerFunc : error → Header → HttpResponse;
}.

(** The generated server without middlewares of the operations: [ssi] is the
    implementation of the context. *)
Record strictHandler (SSI : Type) := mkStrictHandler {
  ssi : SSI;
  options : StrictHTTPServerOptions;
}.
Arguments mkStrictHandler {_} _ _.
Arguments ssi {_} _.
Arguments options {_} _.

Section Handlers.
Context {S : Type} `{BindLib}.

(** [for _, middleware := range middlewares { handler = middleware(handler) }]. *)
Definition wrap_middlewares (middlewares : list (MiddlewareFunc S)) (handler : HttpHandler S)
    : HttpHandler S :=
  foldl (fun handler middleware => middleware handler) handler middlewares.

(** What a wrapper does with the outcome of a binding; [report] is the error it
    hands to its error handler. *)
Definition bound {T I} (siw : ServerInterfaceWrapper S I) (report : error → ParamError) (v : result T)
    (next : T → HttpHandler S) : HttpHandler S := fun r h s =>
  match v with
  | Ok v => next v r h s
  | Fail e => (Some (ErrorHandlerFunc siw (report e) h), s)
  | Panic _ => (None, s)
  end.

Definition path_uuid {I} (siw : ServerInterfaceWrapper S I) (name : string)
    (next : uuid → HttpHandler S) : HttpHandler S :=
  fun r => bound siw (InvalidParamFormatError name) (bind_uuid (URLParam r name)) next r.
Definition path_string {I} (siw : ServerInterfaceWrapper S I) (name : string)
    (next : string → HttpHandler S) : HttpHandler S :=
  fun r => bound siw (InvalidParamFormatError name) (bind_string (URLParam r name)) next r.
Definition query_int {I} (siw : ServerInterfaceWrapper S I) (name : string)
    (next : option Z → HttpHandler S) : HttpHandler S :=
  fun r => bound siw (query_error name) (bind_query_int name (rq_query r)) next r.
Definition query_string {I} (siw : ServerInterfaceWrapper S I) (name : string)
    (next : option string → HttpHandler S) : HttpHandler S :=
  fun r => bound siw (query_error name) (bind_query_string name (rq_query r)) next r.

(** [json.NewDecoder(r.Body).Decode(&body)]. *)
Definition json_body {T SSI} (sh : strictHandler SSI) (decode : string → result T)
    (next : T → HttpHandler S) : HttpHandler S := fun r h s =>
  match decode (rq_body r) with
  | Ok body => next body r h s
  | Fail e => (Some (RequestErrorHandlerFunc (options sh) (Errorf "can't decode JSON body" e) h), s)
  | Panic _ => (None, s)
  end.

(** The operation runs, and its response object visits the writer. *)
Definition strict {R SSI} (sh : strictHandler SSI) (visit : R → Header → result HttpResponse)
    (op : M S R) : HttpHandler S := fun _ h s =>
  match op s with
  | (Ok response, s) =>
      match visit response h with
      | Ok rsp => (Some rsp, s)
      | Fail e => (Some (ResponseErrorHandlerFunc (options sh) e h), s)
      | Panic _ => (None, s)
      end
  | (Fail e, s) => (Some (ResponseErrorHandlerFunc (options sh) e h), s)
  | (Panic _, s) => (None, s)
  end.
End Handlers.

(** ** The responses *)

(** A response with a body; [encode] fails before anything is written. *)
Definition json_response (status : Z) (encoded : result string) (h : Header) : result HttpResponse :=
  body ← encoded;
  Ok (mkHttpResponse status (Header_Set "Content-Type" "application/json" h) body).

Definition no_content (location : option string) (h : Header) : result HttpResponse :=
  Ok (mkHttpResponse 204
    (match location with Some l => Header_Set "Content-Location" l h | None => h end) "").

(** [httperr.RespondWithSlugError] on a writer; the body is the slug. *)
Definition respond_slug (e : error) (h : Header) : HttpResponse :=
  let rsp := RespondWithSlugError (Some e) in
  mkHttpResponse (resp_status rsp) (Header_Set "Content-Type" "application/json; charset=utf-8" h)
    (resp_slug rsp).

(** The error handlers [RegisterHTTP] passes in each context. *)
Definition request_error (e : error) (h : Header) : HttpResponse :=
  respond_slug (WithCause (NewIncorrectInputError "invalid-request") e) h.

Definition slug_options : StrictHTTPServerOptions :=
  mkStrictHTTPServerOptions request_error respond_slug.

(** The default of [HandlerWithOptions]. *)
Definition default_param_error `{BindLib} (e : ParamError) (h : Header) : HttpResponse :=
  http_Error (ParamError_Error e) 400 h.
End openapi.
