(* ===== verification/Bus.v ===== *)
(** * The message bus

    [common/watermill]: the middleware chain a consumed message goes through,
    and the backlog gauges over the tables of the topics.  The middlewares of
    the watermill package are the class [BusLib], with their documented
    behaviour in [BusLaws]; opening publishers and subscribers is I/O.
    [message_settles]: the handling of a message ends. *)

From stdpp Require Import base numbers list strings gmap.
From Stdlib Require Import ZArith Lia.
From S2P Require Import Prelude Errs Auth Decorator.

Module bus.
Import decorator.
Local Open Scope Z_scope.

Definition DeadLetterTopic : string := "events.dead_letter".

Record Message := mkMessage {
  msg_UUID : string;
  msg_Metadata : gmap string string;
  msg_Payload : string;
}.

(** A handler of a consumer: it publishes nothing, and answers an error or
    not. *)
Definition HandlerFunc (W : Type) : Type := Message → M W unit.
Definition Middleware (W : Type) : Type := HandlerFunc W → HandlerFunc W.

Record RetryConfig := mkRetryConfig {
  MaxRetries : nat;
  InitialInterval : Duration;
  Multiplier : Z;
  MaxInterval : Duration;
}.

(** What a message is handled on: the state of the handler and the dead
    letters, the retries counted per handler and the spans ended. *)
Record world (S : Type) := mkWorld {
  app : S;
  retriesTotal : gmap string nat;
  bus_spans : list Span;
}.
Arguments mkWorld {_} _ _ _.
Arguments app {_} _.
Arguments retriesTotal {_} _.
Arguments bus_spans {_} _.

Definition on_app {S R} (m : M S R) : M (world S) R := fun w =>
  let '(r, s) := m (app w) in (r, mkWorld s (retriesTotal w) (bus_spans w)).

Class BusLib (W : Type) := {
  middleware_CorrelationID : Middleware W;
  middleware_PoisonQueue : (string → Message → M W unit) → string → Middleware W;
  middleware_Retry : RetryConfig → Middleware W;
  middleware_Recoverer : Middleware W;
}.

Section Router.
Context {S : Type} `{BusLib (world S)}.

(** [message.HandlerNameFromCtx], and the name used when it is not set. *)
Definition handler_label (handlerName : string) : string :=
  if bool_decide (handlerName = "") then "unknown" else handlerName.

Definition count_retry (label : string) (w : world S) : world S :=
  mkWorld (app w) (<[label := Datatypes.S (default 0%nat (retriesTotal w !! label))]> (retriesTotal w))
    (bus_spans w).

Definition retryCounter (handlerName : string) : Middleware (world S) := fun h msg w =>
  match h msg w with
  | (Fail err, w) => (Fail err, count_retry (handler_label handlerName) w)
  | x => x
  end.

Definition end_bus_span (sp : Span) (w : world S) : world S :=
  mkWorld (app w) (retriesTotal w) (bus_spans w ++ [sp]).

(** The span of one invocation; a panic ends it without a status. *)
Definition observe (handlerName : string) : Middleware (world S) := fun h msg w =>
  let name := "events/" +:+ handler_label handlerName in
  match h msg w with
  | (Ok u, w) => (Ok u, end_bus_span (mkSpan name [] OkStatus) w)
  | (Fail err, w) => (Fail err, end_bus_span (mkSpan name [err] (Error err)) w)
  | (Panic p, w) => (Panic p, end_bus_span (mkSpan name [] Unset) w)
  end.

Definition retry : RetryConfig :=
  mkRetryConfig 5 (100 * (Second / 1000)) 2 (30 * Second).

(** The chain, the first middleware outermost. *)
Definition NewRouter (publish : string → Message → M S unit) (handlerName : string)
    (h : HandlerFunc S) : HandlerFunc (world S) :=
  middleware_CorrelationID
    (middleware_PoisonQueue (fun topic msg => on_app (publish topic msg)) DeadLetterTopic
      (middleware_Retry retry
        (retryCounter handlerName
          (middleware_Recoverer
            (observe handlerName (fun msg => on_app (h msg))))))).
End Router.

(** ** The backlog gauges ([metrics.go]) *)

Record busTopic := mkBusTopic {
  name : string;
  messagesTable : string;
  offsetsTable : string;
}.

Definition messagesTablePrefix : string := "watermill_".
Definition offsetsTablePrefix : string := "watermill_offsets_".

Definition TrimPrefix (s prefix : string) : string := default s (auth.CutPrefix s prefix).

(** [tables] are the tables of the schema; the loop over those the query
    selects sorts them into offset tables, by topic, and message tables. *)
Fixpoint split_tables (tables : list string) : list string * list string :=
  match tables with
  | [] => ([], [])
  | table :: tables =>
      let '(messages, offsets) := split_tables tables in
      if String.prefix offsetsTablePrefix table
      then (messages, TrimPrefix table offsetsTablePrefix :: offsets)
      else (table :: messages, offsets)
  end.

Definition watermillTopics (tables : list string) : list busTopic :=
  let '(messages, offsets) :=
    split_tables (filter (fun t => String.prefix messagesTablePrefix t = true) tables) in
  (fun table =>
     let topic := TrimPrefix table messagesTablePrefix in
     mkBusTopic topic table
       (if bool_decide (topic ∈ offsets) then offsetsTablePrefix +:+ topic else "")) <$> messages.

(** A message row: its offset and [created_at]. *)
Definition topicBacklog (now : Time) (rows : list (Z * Time)) (acked : option (list Z)) : Z * Duration :=
  let ackedFloor :=
    match acked with
    | Some (o :: os) => foldr Z.min o os
    | _ => 0
    end in
  let pending := filter (fun row => ackedFloor < row.1) rows in
  (Z.of_nat (length pending),
   match pending with
   | [] => 0
   | row :: rest => now - foldr Z.min row.2 (snd <$> rest)
   end).

(** ** What the library promises

    [Retry] runs the handler again while it fails, at most [MaxRetries] times
    more, and gives up early only when the message is being cancelled, as at
    shutdown ([closing]). *)
Inductive retried {W} (closing : bool) (h : HandlerFunc W) (msg : Message)
    : nat → W → result unit * W → Prop :=
| retried_ok n w w' :
    h msg w = (Ok tt, w') → retried closing h msg n w (Ok tt, w')
| retried_panic n w p w' :
    h msg w = (Panic p, w') → retried closing h msg n w (Panic p, w')
| retried_given_up n w err w' :
    h msg w = (Fail err, w') → n = 0%nat ∨ closing = true →
    retried closing h msg n w (Fail err, w')
| retried_again n w err w' x :
    h msg w = (Fail err, w') → retried closing h msg n w' x →
    retried closing h msg (S n) w x.

Class BusLaws (W : Type) `{BusLib W} (closing : bool) := {
  CorrelationID_next : ∀ h msg w, middleware_CorrelationID h msg w = h msg w;
  Recoverer_next : ∀ h msg w,
    match h msg w with
    | (Panic _, w') => ∃ err, middleware_Recoverer h msg w = (Fail err, w')
    | x => middleware_Recoverer h msg w = x
    end;
  Retry_retried : ∀ cfg h msg w,
    retried closing h msg (MaxRetries cfg) w (middleware_Retry cfg h msg w);
  PoisonQueue_next : ∀ publish topic h msg w,
    match h msg w with
    | (Fail err, w') =>
        ∃ poisoned, msg_UUID poisoned = msg_UUID msg ∧ msg_Payload poisoned = msg_Payload msg ∧
          match publish topic poisoned w' with
          | (Ok _, w'') => middleware_PoisonQueue publish topic h msg w = (Ok tt, w'')
          | (Fail err', w'') =>
              ∃ both, middleware_PoisonQueue publish topic h msg w = (Fail both, w'')
          | (Panic p, w'') => middleware_PoisonQueue publish topic h msg w = (Panic p, w'')
          end
    | x => middleware_PoisonQueue publish topic h msg w = x
    end;
}.

(** A message is pending exactly while some consumer group has not
    acknowledged it. *)
Lemma foldr_min_lt x o os : foldr Z.min o os < x ↔ Exists (fun y => y < x) (o :: os).
Proof.
  rewrite Exists_cons. induction os as [|y os IH]; cbn; [rewrite Exists_nil; tauto|].
  rewrite Z.min_lt_iff, IH, Exists_cons. tauto.
Qed.

Lemma topicBacklog_pending now rows o os :
  (topicBacklog now rows (Some (o :: os))).1 =
    Z.of_nat (length (filter (fun row => Exists (fun y => y < row.1) (o :: os)) rows)).
Proof.
  unfold topicBacklog. cbn [fst]. f_equal. f_equal. apply list_filter_iff. intros row.
  apply foldr_min_lt.
Qed.

(** ** The handling of a message ends *)

(** The runs of a handler on a message, one after the other. *)
Inductive executed {S} (h : HandlerFunc S) (msg : Message) : S → list (result unit) → S → Prop :=
| executed_nil s : executed h msg s [] s
| executed_cons s r s1 rs s2 :
    h msg s = (r, s1) → executed h msg s1 rs s2 → executed h msg s (r :: rs) s2.

Definition retries {S} (w : world S) (label : string) : nat := default 0%nat (retriesTotal w !! label).

Lemma on_app_run {S R} (m : M S R) w :
  on_app m w = let '(r, s) := m (app w) in (r, mkWorld s (retriesTotal w) (bus_spans w)).
Proof. done. Qed.

Section Settles.
Context {S : Type} `{BusLib (world S)} {closing : bool} `{!BusLaws (world S) closing}.
Context (handlerName : string) (h : HandlerFunc S) (msg : Message).

Definition attempt : HandlerFunc (world S) :=
  retryCounter handlerName (middleware_Recoverer (observe handlerName (fun msg => on_app (h msg)))).

(** What [n] runs, [failed] of them failures, left in the counters. *)
Definition accounted (w w' : world S) (failed n : nat) : Prop :=
  (∀ label, retries w' label =
     retries w label + if bool_decide (label = handler_label handlerName) then failed else 0)%nat
  ∧ length (bus_spans w') = (length (bus_spans w) + n)%nat.

Lemma accounted_trans w1 w2 w3 f1 n1 f2 n2 :
  accounted w1 w2 f1 n1 → accounted w2 w3 f2 n2 → accounted w1 w3 (f1 + f2) (n1 + n2).
Proof.
  intros [Hr1 Hl1] [Hr2 Hl2]. split; [|lia]. intros label. rewrite Hr2, Hr1.
  case_bool_decide; lia.
Qed.

(** One run: the handler's, a panic turned into an error, and counted. *)
Lemma attempt_run w :
  let '(r, s1) := h msg (app w) in
  ∃ out w',
    attempt msg w = (out, w') ∧ app w' = s1 ∧ is_ok out = is_ok r ∧ is_panic out = false ∧
    accounted w w' (if is_ok r then 0 else 1) 1.
Proof.
  unfold attempt, retryCounter.
  pose proof (Recoverer_next (closing := closing) (observe handlerName (fun m => on_app (h m))) msg w)
    as Hrec.
  unfold observe at 1, on_app at 1 in Hrec.
  destruct (h msg (app w)) as [[[]|err|p] s1]; cbn in Hrec.
  - rewrite Hrec. eexists _, _. split_and!; [done..|]. split; [|cbn; by rewrite length_app].
    intros label. unfold retries. cbn. by case_bool_decide; rewrite ?Nat.add_0_r.
  - rewrite Hrec. eexists _, _. split_and!; [done..|]. split; [|cbn; by rewrite length_app].
    intros label. unfold retries, count_retry. cbn.
    case_bool_decide as Hl; [subst; rewrite lookup_insert_eq; cbn; lia|].
    by rewrite lookup_insert_ne, Nat.add_0_r.
  - destruct Hrec as [err ->]. eexists _, _. split_and!; [done..|].
    split; [|cbn; by rewrite length_app]. intros label. unfold retries, count_retry. cbn.
    case_bool_decide as Hl; [subst; rewrite lookup_insert_eq; cbn; lia|].
    by rewrite lookup_insert_ne, Nat.add_0_r.
Qed.

(** The runs of [Retry]: failures, and a last one that decides. *)
Lemma retried_runs n w out w' :
  retried closing attempt msg n w (out, w') →
  ∃ failed last s1,
    executed h msg (app w) (failed ++ [last]) s1 ∧ app w' = s1 ∧
    Forall (fun r => is_ok r = false) failed ∧ (length failed <= n)%nat ∧
    (is_ok last = false → closing = false → length failed = n) ∧
    is_ok out = is_ok last ∧ is_panic out = false ∧
    accounted w w' (length failed + if is_ok last then 0 else 1) (length failed + 1).
Proof.
  remember (out, w') as x eqn:Ex. intros Hr. revert out w' Ex.
  induction Hr as [n w w1 E|n w p w1 E|n w err w1 E Hn|n w err w1 x E Hr IH]; intros out w' Ex;
    pose proof (attempt_run w) as Ha; destruct (h msg (app w)) as [r s1] eqn:Eh;
    destruct Ha as (o & w2 & Ea & Happ & Hok & Hp & Hacc); rewrite E in Ea.
  - injection Ea as <- <-. injection Ex as <- <-. exists [], r, s1.
    destruct r; try done. split_and!; try done; [by repeat econstructor|cbn; lia].
  - injection Ea as <- <-. done.
  - injection Ea as <- <-. injection Ex as <- <-. exists [], r, s1.
    destruct r; try done;
      (split_and!; try done; [by repeat econstructor|cbn; lia|];
       intros _ Hc; destruct Hn as [->|Hn]; [done|congruence]).
  - injection Ea as <- <-. destruct (IH out w' Ex) as
      (failed & last & s2 & Hex & Happ' & Hf & Hlen & Hfull & Hok' & Hp' & Hacc').
    exists (r :: failed), last, s2. subst s1.
    assert (is_ok r = false) as Hrf by (destruct r; done).
    rewrite Hrf in Hacc. split_and!; try done.
    + by econstructor.
    + by constructor.
    + cbn. lia.
    + intros H1 H2. cbn. f_equal. by apply Hfull.
    + exact (accounted_trans _ _ _ _ _ _ _ Hacc Hacc').
Qed.

(** C33: the handling of a message ends.  The handler runs at most six times,
    and it stops at the first success; only at shutdown does it give up on a
    failure before the sixth run.  A panic is a failure.  After a success the
    message is acknowledged and nothing is parked; after the last failure the
    message is published to the dead-letter topic with its identity and its
    payload, and acknowledged exactly when that succeeds: when it fails the
    message is neither parked nor acknowledged, and is delivered again.  The
    counter of retries counts every failed run, the last one included, which
    no retry follows; every run ends one span. *)
Theorem message_settles publish w :
  ∃ failed last s1 out w',
    NewRouter publish handlerName h msg w = (out, w') ∧
    executed h msg (app w) (failed ++ [last]) s1 ∧
    Forall (fun r => is_ok r = false) failed ∧ (length failed <= 5)%nat ∧
    (is_ok last = false → closing = false → length failed = 5%nat) ∧
    accounted w w' (length failed + if is_ok last then 0 else 1) (length failed + 1) ∧
    if is_ok last then out = Ok tt ∧ app w' = s1
    else ∃ dead,
      msg_UUID dead = msg_UUID msg ∧ msg_Payload dead = msg_Payload msg ∧
      is_ok out = is_ok (publish DeadLetterTopic dead s1).1 ∧
      app w' = (publish DeadLetterTopic dead s1).2.
Proof.
  unfold NewRouter. rewrite (CorrelationID_next (closing := closing)). fold attempt.
  pose proof (Retry_retried (closing := closing) retry attempt msg w) as Hr.
  pose proof (PoisonQueue_next (closing := closing) (fun topic msg => on_app (publish topic msg))
    DeadLetterTopic (middleware_Retry retry attempt) msg w) as Hq.
  destruct (middleware_Retry retry attempt msg w) as [out w1] eqn:Er.
  destruct (retried_runs _ _ _ _ Hr) as
    (failed & last & s1 & Hex & <- & Hf & Hlen & Hfull & Hok & Hp & Hacc).
  exists failed, last, (app w1). destruct out as [[]|err|p]; cbn in Hok, Hp; [| |done];
    rewrite <- Hok in *.
  - exists (Ok tt), w1. by split_and!.
  - destruct Hq as (dead & Hid & Hpl & Hq). cbv beta in Hq. rewrite on_app_run in Hq.
    destruct (publish DeadLetterTopic dead (app w1)) as [[u|err'|p] s2] eqn:Ep;
      [| destruct Hq as [both Hq]|]; rewrite Hq; eexists _, _;
      (split; [reflexivity|]; split_and!; try done; exists dead; by rewrite Ep).
Qed.
End Settles.

(** A library that never gives up early. *)
Fixpoint demo_retry {W} (n : nat) (h : HandlerFunc W) : HandlerFunc W := fun msg w =>
  match h msg w with
  | (Fail err, w') => match n with
                      | O => (Fail err, w')
                      | Datatypes.S n => demo_retry n h msg w'
                      end
  | x => x
  end.

Definition demo_bus (W : Type) : BusLib W := {|
  middleware_CorrelationID h := h;
  middleware_PoisonQueue publish topic h msg w :=
    match h msg w with
    | (Fail err, w') =>
        match publish topic msg w' with
        | (Fail err', w'') => (Fail (Combine err err'), w'')
        | x => x
        end
    | x => x
    end;
  middleware_Retry cfg h := demo_retry (MaxRetries cfg) h;
  middleware_Recoverer h msg w :=
    match h msg w with
    | (Panic p, w') => (Fail (ErrNew "recovered"), w')
    | x => x
    end;
|}.

Lemma demo_bus_laws W : @BusLaws W (demo_bus W) false.
Proof.
  split.
  - done.
  - intros h msg w. cbn. destruct (h msg w) as [[]]; by eauto.
  - intros cfg h msg w. cbn. generalize (MaxRetries cfg) as n. intros n. revert w.
    induction n as [|n IH]; intros w; cbn; destruct (h msg w) as [[[]|err|p] w'] eqn:E.
    all: try (by constructor). all: try (by apply retried_panic).
    + apply retried_given_up; [done|by left].
    + by eapply retried_again.
  - intros publish topic h msg w. cbn. destruct (h msg w) as [[[]|err|p] w']; try done.
    exists msg. split_and!; [done..|]. destruct (publish topic msg w') as [[[]|err'|p] w'']; by eauto.
Qed.

(** It fails, panics, and succeeds from then on. *)
Definition demo_handler : HandlerFunc nat := fun _ s =>
  match s with
  | 0%nat => (Fail (ErrNew "projection lag"), 1%nat)
  | 1%nat => (Panic "nil map", 2%nat)
  | n => (Ok tt, Datatypes.S n)
  end.

(** The third run succeeds: the message is acknowledged, two retries counted. *)
Lemma message_settles_witness :
  ∃ w',
    @NewRouter nat (demo_bus _) (fun _ _ => mret tt) "OnBidPlaced" demo_handler
      (mkMessage "m-1" ∅ "{}") (mkWorld 0%nat ∅ []) = (Ok tt, w')
    ∧ app w' = 3%nat ∧ retries w' "OnBidPlaced" = 2%nat.
Proof.
  destruct (@message_settles nat (demo_bus _) false (demo_bus_laws _) "OnBidPlaced" demo_handler
    (mkMessage "m-1" ∅ "{}") (fun _ _ => mret tt) (mkWorld 0%nat ∅ []))
    as (failed & last & s1 & out & w' & E & Hex & Hf & _ & Hfull & [Hr _] & Hlast).
  assert (failed = [Fail (ErrNew "projection lag"); Panic "nil map"] ∧ last = Ok tt ∧ s1 = 3%nat)
    as (-> & -> & ->).
  { destruct failed as [|r1 [|r2 [|r3 failed]]]; cbn in Hex.
    all: repeat match goal with
      | Hx : executed _ _ _ (_ :: _) _ |- _ => inversion Hx; clear Hx; subst
      | Hx : executed _ _ _ [] _ |- _ => inversion Hx; clear Hx; subst
      | Hx : demo_handler _ _ = _ |- _ => cbn in Hx; injection Hx as <- <-
      | Hx : Forall _ (_ :: _) |- _ => inversion Hx; clear Hx; subst
      end; try done; by specialize (Hfull eq_refl eq_refl). }
  destruct Hlast as [-> Happ]. exists w'. split; [exact E|]. split; [exact Happ|].
  exact (Hr "OnBidPlaced").
Defined.
End bus.
