(* ===== verification/Propagation.v ===== *)
(** * Traces across the bus

    [common/watermill/pubsub.go], the contexts of [observe] and
    [common/logs/logs.go]: a published message carries the trace of the context
    it is published in, the handler of a consumer continues it, and every log
    record of the handler is given its identifiers.  Tracers and the W3C
    propagator are the class [TraceLib].  [trace_continues]: along any chain of
    spans, publications and deliveries the trace is one; [never_correlated]: no
    message ever carries a correlation id. *)

From stdpp Require Import base numbers list strings gmap pretty relations.
From Stdlib Require Import ZArith Lia.
From S2P Require Import Prelude Errs Decorator Bus.

(** A span context; [tracer_Start] makes the one of a new span from what the
    generator draws and from its parent's.  [propagator_Inject] lists the
    [Set]s of the carrier, [propagator_Extract] reads it with [Get]. *)
Class TraceLib (SC : Type) := {
  no_span : SC;
  IsValid : SC → bool;
  TraceID : SC → string;
  SpanID : SC → string;
  tracer_Start : N → SC → SC;
  propagator_Inject : SC → list (string * string);
  propagator_Extract : (string → string) → option SC;
}.

(** The W3C fields: written once each, read back to the same span. *)
Class TraceLaws (SC : Type) `{TraceLib SC} := {
  Start_valid : ∀ d sc, IsValid (tracer_Start d sc) = true;
  Start_child : ∀ d sc, IsValid sc = true → TraceID (tracer_Start d sc) = TraceID sc;
  Inject_once : ∀ sc, NoDup (propagator_Inject sc).*1;
  Inject_fields : ∀ sc k v, (k, v) ∈ propagator_Inject sc → k ∈ ["traceparent"; "tracestate"; "baggage"];
  Extract_Inject : ∀ sc get, IsValid sc = true →
    (∀ k v, (k, v) ∈ propagator_Inject sc → get k = v) →
    ∃ sc', propagator_Extract get = Some sc' ∧ IsValid sc' = true ∧
      TraceID sc' = TraceID sc ∧ SpanID sc' = SpanID sc;
}.

(** [middleware.MessageCorrelationID]: what [SetCorrelationID] or the
    [CorrelationID] middleware has put in the metadata, under this key. *)
Class CorrelationLib := {
  MessageCorrelationID : bus.Message → string;
  MessageCorrelationID_unset : ∀ msg,
    bus.msg_Metadata msg !! "correlation_id" = None → MessageCorrelationID msg = "";
}.

Module propagation.
Import decorator bus.

(** ** Contexts *)

(** The values of a [context.Context] that are read here. *)
Record Context (SC : Type) := mkContext { span_context : SC; correlation_id : option string }.
Arguments mkContext {_} _ _.
Arguments span_context {_} _.
Arguments correlation_id {_} _.

Definition ContextWithCorrelationID {SC} (ctx : Context SC) (correlationID : string) : Context SC :=
  mkContext (span_context ctx) (Some correlationID).

Definition CorrelationIDFromContext {SC} (ctx : Context SC) : string * bool :=
  let id := default "" (correlation_id ctx) in
  (id, match correlation_id ctx with Some _ => true | None => false end && bool_decide (id ≠ "")).

Definition ContextWithSpan {SC} (ctx : Context SC) (sc : SC) : Context SC :=
  mkContext sc (correlation_id ctx).

(** ** [metadataCarrier] *)

Definition metadataCarrier_Get (md : gmap string string) (key : string) : string := default "" (md !! key).
Definition metadataCarrier_Set (md : gmap string string) (key value : string) : gmap string string :=
  <[key := value]> md.
(** In the order the map is ranged over; here one order. *)
Definition metadataCarrier_Keys (md : gmap string string) : list string := (map_to_list md).*1.

Section Trace.
Context {SC : Type} `{TraceLib SC} `{CorrelationLib}.

(** A span that has ended, with its parent. *)
Record TracedSpan := mkTracedSpan { ts_parent : SC; ts_self : SC; ts_span : Span }.

(** The state of what is wrapped, and the spans ended. *)
Record traced (S : Type) := mkTraced { inside : S; ended : list TracedSpan }.
Arguments mkTraced {_} _ _.
Arguments inside {_} _.
Arguments ended {_} _.

(** ** The publisher *)

Definition Publisher (S : Type) : Type := string → list (Context SC * Message) → M S unit.

Definition Inject (ctx : Context SC) (md : gmap string string) : gmap string string :=
  fold_left (λ md '(k, v), metadataCarrier_Set md k v) (propagator_Inject (span_context ctx)) md.

Definition with_metadata (msg : Message) (md : gmap string string) : Message :=
  mkMessage (msg_UUID msg) md (msg_Payload msg).

(** One turn of the first loop: the message with the span's context in its
    metadata, and the span, not ended.  The message keeps its own context. *)
Definition start_publish (topic : string) (d : N) (cm : Context SC * Message)
    : Context SC * Message * TracedSpan :=
  let '(ctx, msg) := cm in
  let sc := tracer_Start d (span_context ctx) in
  (ctx, with_metadata msg (Inject (ContextWithSpan ctx sc) (msg_Metadata msg)),
   mkTracedSpan (span_context ctx) sc (mkSpan ("publish " +:+ topic) [] Unset)).

(** One turn of the second. *)
Definition end_publish (err : option error) (sp : TracedSpan) : TracedSpan :=
  match err with
  | Some e => mkTracedSpan (ts_parent sp) (ts_self sp)
                (mkSpan (span_name (ts_span sp)) (span_errors (ts_span sp) ++ [e]) (Error e))
  | None => sp
  end.

(** The messages are distinct ones; [ds]: what is drawn for their spans.  A
    panic of [next] leaves the spans unended. *)
Definition tracingPublisher_Publish {S} (next : Publisher S) (ds : nat → N)
    (topic : string) (messages : list (Context SC * Message)) : M (traced S) unit := fun w =>
  let started := imap (λ i, start_publish topic (ds i)) messages in
  let '(r, s) := next topic started.*1 (inside w) in
  match r with
  | Ok u => (Ok u, mkTraced s (ended w ++ (end_publish None <$> started.*2)))
  | Fail e => (Fail e, mkTraced s (ended w ++ (end_publish (Some e) <$> started.*2)))
  | Panic p => (Panic p, mkTraced s (ended w))
  end.

(** ** The consumer *)

Definition Extract (ctx : Context SC) (md : gmap string string) : Context SC :=
  match propagator_Extract (metadataCarrier_Get md) with
  | Some sc => ContextWithSpan ctx sc
  | None => ctx
  end.

(** The context in which the span of an invocation is started, from that of
    the message. *)
Definition observed_context (ctx : Context SC) (msg : Message) : Context SC :=
  let correlationID := MessageCorrelationID msg in
  let ctx := if bool_decide (correlationID ≠ "") then ContextWithCorrelationID ctx correlationID else ctx in
  Extract ctx (msg_Metadata msg).

(** [observe]: besides the answer, the context left on the message, which the
    next attempt finds. *)
Definition observe {S} (handlerName : string) (h : Context SC → HandlerFunc S)
    (d : N) (ctx : Context SC) (msg : Message) : traced S → result unit * Context SC * traced S := fun w =>
  let parent := observed_context ctx msg in
  let sc := tracer_Start d (span_context parent) in
  let ctx := ContextWithSpan parent sc in
  let '(r, s) := h ctx msg (inside w) in
  let end_with errs status := mkTraced s (ended w ++
    [mkTracedSpan (span_context parent) sc
       (mkSpan ("events/" +:+ handler_label handlerName) errs status)]) in
  (r, ctx, match r with
           | Ok _ => end_with [] OkStatus
           | Fail e => end_with [e] (Error e)
           | Panic _ => end_with [] Unset
           end).
End Trace.
Arguments TracedSpan : clear implicits.
Arguments traced : clear implicits.
Arguments Publisher : clear implicits.
Arguments mkTraced {_ _} _ _.
Arguments inside {_ _} _.
Arguments ended {_ _} _.

(** ** [logs] *)

(** A [slog.Record], as far as its attributes. *)
Record Rec := mkRec { rec_message : string; rec_attrs : list (string * string) }.
Definition AddAttrs (rec : Rec) (attrs : list (string * string)) : Rec :=
  mkRec (rec_message rec) (rec_attrs rec ++ attrs).

(** [slog.Handler]; a handled record goes to the output [O]. *)
Class SlogHandler (SC O H : Type) := {
  Enabled : H → Context SC → Z → bool;
  Handle : H → Context SC → Rec → M O unit;
  WithAttrs : H → list (string * string) → H;
  WithGroup : H → string → H;
}.

Record contextHandler (H : Type) := mkContextHandler { next : H }.
Arguments mkContextHandler {_} _.
Arguments next {_} _.
Definition NewContextHandler {H} (next : H) : contextHandler H := mkContextHandler next.

Section Logs.
Context {SC O H : Type} `{TraceLib SC} `{!SlogHandler SC O H}.

Definition enrich (ctx : Context SC) (rec : Rec) : Rec :=
  let '(id, ok) := CorrelationIDFromContext ctx in
  let rec := if ok : bool then AddAttrs rec [("correlation_id", id)] else rec in
  if IsValid (span_context ctx)
  then AddAttrs rec [("trace_id", TraceID (span_context ctx)); ("span_id", SpanID (span_context ctx))]
  else rec.

#[export] Instance contextHandler_handler : SlogHandler SC O (contextHandler H) := {
  Enabled h ctx level := Enabled (next h) ctx level;
  Handle h ctx rec := Handle (next h) ctx (enrich ctx rec);
  WithAttrs h attrs := NewContextHandler (WithAttrs (next h) attrs);
  WithGroup h name := NewContextHandler (WithGroup (next h) name);
}.

(** The handlers of the process write text or JSON. *)
Definition NewLogger (text json : H) (format : string) : contextHandler H :=
  NewContextHandler (if bool_decide (format = "text") then text else json).
End Logs.
End propagation.

(** ** The theorems *)

Module propagation_theory.
Import decorator bus propagation.

Section Theory.
Context {SC : Type} `{TraceLaws SC} `{CorrelationLib}.
Implicit Types (c : Context SC) (msg : Message) (md : gmap string string).

(** *** The handling of a message is that of [Bus] *)

Lemma observe_erased {S} handlerName (h : Context SC → HandlerFunc S) d c msg (w : traced SC S) counts :
  let '(r, ctx, w') := observe handlerName h d c msg w in
  bus.observe handlerName (λ msg, on_app (h ctx msg)) msg
    (mkWorld (inside w) counts (ts_span <$> ended w))
  = (r, mkWorld (inside w') counts (ts_span <$> ended w')).
Proof.
  unfold observe, bus.observe, on_app, end_bus_span; cbn.
  match goal with |- context [h ?c' msg (inside w)] =>
    destruct (h c' msg (inside w)) as [[] s] eqn:E end;
    cbn; rewrite E; cbn; by rewrite fmap_app.
Qed.

(** *** What a message carries *)

Lemma Inject_other (fs : list (string * string)) md k :
  k ∉ fs.*1 → fold_left (λ md '(k, v), metadataCarrier_Set md k v) fs md !! k = md !! k.
Proof.
  revert md. induction fs as [|[k' v] fs IH]; intros md Hk; [done|]. cbn in *.
  rewrite IH by set_solver. apply lookup_insert_ne. set_solver.
Qed.

Lemma Inject_set (fs : list (string * string)) md k v :
  NoDup fs.*1 → (k, v) ∈ fs → fold_left (λ md '(k, v), metadataCarrier_Set md k v) fs md !! k = Some v.
Proof.
  revert md. induction fs as [|[k' v'] fs IH]; intros md Hd Hk; [set_solver|].
  cbn in *. apply NoDup_cons in Hd as [Hn Hd]. apply elem_of_cons in Hk as [[= -> ->]|Hk]; [|by apply IH].
  rewrite Inject_other by done. apply lookup_insert_eq.
Qed.

(** The fields of the trace are all that is added. *)
Lemma Inject_keeps c md k :
  k ∉ ["traceparent"; "tracestate"; "baggage"] → Inject c md !! k = md !! k.
Proof.
  intros Hk. apply Inject_other. intros [[k' v] [-> Hin]]%list_elem_of_fmap.
  by apply Hk, (Inject_fields _ _ _ Hin).
Qed.

Lemma Extract_same c base md :
  IsValid (span_context c) = true →
  ∃ sc, Extract base (Inject c md) = ContextWithSpan base sc ∧ IsValid sc = true
    ∧ TraceID sc = TraceID (span_context c) ∧ SpanID sc = SpanID (span_context c).
Proof.
  intros Hv. destruct (Extract_Inject (span_context c) (metadataCarrier_Get (Inject c md)) Hv)
    as (sc & He & ?); [|exists sc; split; [by unfold Extract; rewrite He|done]].
  intros k v Hk. unfold metadataCarrier_Get, Inject. by rewrite (Inject_set _ _ _ _ (Inject_once _) Hk).
Qed.

(** *** The trace *)

(** The message as it is published in [c], and the context in which a handler
    takes it. *)
Definition sent (topic : string) (d : N) (c : Context SC) (msg : Message) : Message :=
  (start_publish topic d (c, msg)).1.2.

Definition taken (d : N) (base : Context SC) (msg : Message) : Context SC :=
  let parent := observed_context base msg in
  ContextWithSpan parent (tracer_Start d (span_context parent)).

Lemma observe_taken {S} handlerName (h : Context SC → HandlerFunc S) d base msg (w : traced SC S) :
  (observe handlerName h d base msg w).1 = ((h (taken d base msg) msg (inside w)).1, taken d base msg).
Proof. unfold observe, taken. cbn. by destruct (h _ _ _). Qed.

(** The parent of the consumer's span is the publisher's, whatever the attempt. *)
Lemma observed_parent topic d c msg base :
  let parent := span_context (observed_context base (sent topic d c msg)) in
  IsValid parent = true ∧ SpanID parent = SpanID (tracer_Start d (span_context c)) ∧
  TraceID parent = TraceID (tracer_Start d (span_context c)).
Proof.
  unfold observed_context, sent. cbn.
  edestruct (Extract_same (ContextWithSpan c (tracer_Start d (span_context c)))) as (sc & -> & ?&?&?);
    [apply Start_valid|done].
Qed.

(** Messages as the marshaler of the event bus makes them: of the metadata it
    sets the name of the event, and nothing else does. *)
Context (marshal : string → string → Message).
Hypothesis marshal_metadata : ∀ name payload, msg_Metadata (marshal name payload) = {["name" := name]}.

(** The decorators start spans; a message is published in one context and a
    handler runs in another, whose own values are the subscriber's ([base]),
    or those left by the attempt before. *)
Inductive link (ok_base : Context SC → Prop) : Context SC → Context SC → Prop :=
| link_span d c : link ok_base c (ContextWithSpan c (tracer_Start d (span_context c)))
| link_delivery topic d d' c name payload base :
    ok_base base → link ok_base c (taken d' base (sent topic d c (marshal name payload))).

Lemma link_trace P c c' :
  link P c c' → IsValid (span_context c) = true →
  IsValid (span_context c') = true ∧ TraceID (span_context c') = TraceID (span_context c).
Proof.
  destruct 1 as [d c|topic d d' c name payload base _]; intros Hv; cbn.
  - split; [apply Start_valid|by apply Start_child].
  - destruct (observed_parent topic d c (marshal name payload) base) as (Hp & _ & Ht).
    split; [apply Start_valid|]. rewrite (Start_child _ _ Hp), Ht. by apply Start_child.
Qed.

(** One trace from the request to the last handler it leads to, and every log
    record in it says so. *)
Theorem trace_continues c c' rec :
  rtc (link (λ _, True)) c c' → IsValid (span_context c) = true →
  IsValid (span_context c') = true
  ∧ ("trace_id", TraceID (span_context c)) ∈ rec_attrs (enrich c' rec)
  ∧ ("span_id", SpanID (span_context c')) ∈ rec_attrs (enrich c' rec).
Proof.
  intros Hl Hv. assert (IsValid (span_context c') = true ∧ TraceID (span_context c') = TraceID (span_context c))
    as [Hv' <-].
  { induction Hl as [|c c1 c2 Hs _ IH]; [done|]. destruct (link_trace _ _ _ Hs Hv) as [Hv1 <-]. auto. }
  split; [done|]. unfold enrich. destruct (CorrelationIDFromContext c') as [id b]. rewrite Hv'.
  destruct b; cbn; rewrite !elem_of_app; set_solver.
Qed.

(** *** The correlation id *)

Lemma sent_uncorrelated topic d c name payload :
  MessageCorrelationID (sent topic d c (marshal name payload)) = "".
Proof.
  apply MessageCorrelationID_unset. unfold sent. cbn.
  rewrite Inject_keeps by set_solver. by rewrite marshal_metadata.
Qed.

Lemma observed_correlation base msg :
  MessageCorrelationID msg = "" → correlation_id (observed_context base msg) = correlation_id base.
Proof.
  intros Hm. unfold observed_context. rewrite Hm. cbn. unfold Extract. by case_match.
Qed.

(** No handler ever has one, so no log record is given one. *)
Theorem never_correlated c c' rec :
  rtc (link (λ base, correlation_id base = None)) c c' → correlation_id c = None →
  correlation_id c' = None ∧
  ∀ id, ("correlation_id", id) ∈ rec_attrs (enrich c' rec) → ("correlation_id", id) ∈ rec_attrs rec.
Proof.
  intros Hl Hc. assert (correlation_id c' = None) as Hc'.
  { induction Hl as [|c c1 c2 Hs _ IH]; [done|]. apply IH. destruct Hs as [|topic d d' c name payload base Hb]; [done|].
    etrans; [by apply observed_correlation, sent_uncorrelated|done]. }
  split; [done|]. intros id. unfold enrich, CorrelationIDFromContext. rewrite Hc'. cbn.
  case_match; [|done]. cbn. rewrite elem_of_app. set_solver.
Qed.

(** *** The publisher *)

(** [next] is given the messages with nothing changed but the trace, and its
    answer is the answer. *)
Theorem publish_transparent {S} (next : Publisher SC S) ds topic messages (w : traced SC S) :
  let messages' := imap (λ i '(c, msg), (c, sent topic (ds i) c msg)) messages in
  let '(r, w') := tracingPublisher_Publish next ds topic messages w in
  (r, inside w') = next topic messages' (inside w)
  ∧ Forall2 (λ cm cm', msg_UUID cm'.2 = msg_UUID cm.2 ∧ msg_Payload cm'.2 = msg_Payload cm.2
       ∧ ∀ k, k ∉ ["traceparent"; "tracestate"; "baggage"] →
         msg_Metadata cm'.2 !! k = msg_Metadata cm.2 !! k) messages messages'
  ∧ ended w' = ended w ++ match r with
      | Panic _ => []
      | _ => imap (λ i cm, end_publish (match r with Fail e => Some e | _ => None end)
                            (start_publish topic (ds i) cm).2) messages
      end.
Proof.
  unfold tracingPublisher_Publish. cbn.
  assert ((imap (λ i, start_publish topic (ds i)) messages).*1
    = imap (λ i '(c, msg), (c, sent topic (ds i) c msg)) messages) as ->.
  { rewrite fmap_imap. apply imap_ext. by intros i [c msg] _. }
  assert ((imap (λ i, start_publish topic (ds i)) messages).*2
    = imap (λ i cm, (start_publish topic (ds i) cm).2) messages) as ->.
  { by rewrite fmap_imap. }
  destruct (next topic _ (inside w)) as [[] s]; cbn; (split; [done|split]); rewrite ?fmap_imap, ?app_nil_r;
    try done; apply Forall2_same_length_lookup; split; rewrite ?length_imap; try done;
    intros i [c m] cm'; rewrite list_lookup_imap; intros -> [= <-];
    (split_and!; [done..|]); intros k Hk; cbn; by rewrite Inject_keeps.
Qed.

End Theory.
End propagation_theory.

(** ** A request and the two handlers behind it *)

Module propagation_demo.
Import bus propagation propagation_theory.

(** A span context is the name of its trace and its own. *)
#[local] Instance demo_trace_lib : TraceLib (option (string * string)) := {
  no_span := None;
  IsValid sc := match sc with Some _ => true | None => false end;
  TraceID sc := default "" (fst <$> sc);
  SpanID sc := default "" (snd <$> sc);
  tracer_Start d sc :=
    Some (match sc with Some (t, _) => t | None => pretty d end, pretty d);
  propagator_Inject sc :=
    match sc with Some (t, s) => [("traceparent", t); ("tracestate", s)] | None => [] end;
  propagator_Extract get := Some (Some (get "traceparent", get "tracestate"));
}.

#[local] Instance demo_trace_laws : TraceLaws (option (string * string)).
Proof.
  constructor; cbn; try done.
  - by intros d [[]|].
  - intros [[]|]; cbn; [|constructor]. repeat constructor; set_solver.
  - intros [[]|] k v; cbn; set_solver.
  - intros [[t s]|] get Hv Hg; [|done]. eexists. split; [done|]. cbn.
    split_and!; [done|apply Hg; set_solver..].
Qed.

#[local,refine] Instance demo_correlation : CorrelationLib := {
  MessageCorrelationID msg := default "" (msg_Metadata msg !! "correlation_id");
  MessageCorrelationID_unset := _;
}.
Proof. cbn. by intros msg ->. Defined.


Definition demo_marshal (name payload : string) : Message := mkMessage "" {["name" := name]} payload.
Definition demo_request : Context (option (string * string)) := mkContext (Some ("trace", "root")) None.
Definition demo_base : Context (option (string * string)) := mkContext None None.
Definition demo_handler : Context (option (string * string)) :=
  taken 4 demo_base (sent "events" 3
    (taken 2 demo_base (sent "events" 1 demo_request (demo_marshal "AuctionClosedV1" "{}")))
    (demo_marshal "InvoicePaidV1" "{}")).

Lemma demo_chain P : P demo_base → rtc (link demo_marshal P) demo_request demo_handler.
Proof.
  intros HP. unfold demo_handler. eapply rtc_r; [apply rtc_once|]; by apply link_delivery.
Qed.

Lemma trace_continues_witness :
  ("trace_id", "trace") ∈ rec_attrs (enrich demo_handler (mkRec "handled" [])).
Proof.
  destruct (trace_continues demo_marshal (λ _ _, eq_refl) demo_request demo_handler (mkRec "handled" []))
    as (_ & Ht & _); [by apply demo_chain|done|exact Ht].
Defined.

Lemma never_correlated_witness : correlation_id demo_handler = None.
Proof.
  destruct (never_correlated demo_marshal (λ _ _, eq_refl) demo_request demo_handler (mkRec "" []))
    as [Hc _]; [by apply demo_chain|done|exact Hc].
Defined.
End propagation_demo.
