(* ===== verification/Postgres.v ===== *)
(** * Transactions

    [common/postgres]: the [RunInTx]/[FinishTransaction] idiom every
    Postgres repository goes through. *)

From stdpp Require Import base numbers list strings.
From S2P Require Import Prelude Errs.

(** What the driver answers during one transaction.  A commit whose answer
    is an error may have been applied or not ([commit_applied]). *)
Record TxFaults := mkTxFaults {
  begin_err : option error;
  commit_err : option error;
  commit_applied : bool;
  rollback_err : option error;
}.

Definition no_faults : TxFaults := mkTxFaults None None true None.

Section Tx.
Context {DB : Type}.

(** [FinishTransaction(err, tx)]: the new [err] and the database left
    behind; [before] is the database when the transaction began,
    [after] the database with the transaction's writes. *)
Definition FinishTransaction (f : TxFaults) (err : option error)
    (before after : DB) : option error * DB :=
  match err with
  | Some e =>
      match rollback_err f with
      | Some re => (Some (Combine e (Errorf "rollback tx" re)), before)
      | None => (Some e, before)
      end
  | None =>
      match commit_err f with
      | Some ce =>
          (Some (Errorf "commit tx" ce), if commit_applied f then after else before)
      | None => (None, after)
      end
  end.

(** [RunInTx]: [fn] runs on the transaction's view of the database.  When
    [fn] panics the deferred call still runs, with the named error [err]
    at the nil [BeginTx] left in it, and the panic goes on afterwards. *)
Definition RunInTx {A} (f : TxFaults) (fn : M DB A) (db : DB) : result A * DB :=
  match begin_err f with
  | Some e => (Fail (Errorf "begin tx" e), db)
  | None =>
      match fn db with
      | (Ok a, db') =>
          match FinishTransaction f None db db' with
          | (None, db'') => (Ok a, db'')
          | (Some e, db'') => (Fail e, db'')
          end
      | (Fail e, db') =>
          match FinishTransaction f (Some e) db db' with
          | (None, db'') => (Fail e, db'')
          | (Some e', db'') => (Fail e', db'')
          end
      | (Panic p, db') =>
          (Panic p, (FinishTransaction f None db db').2)
      end
  end.

(** *** Lemmas *)

Lemma RunInTx_no_faults {A} (fn : M DB A) db :
  RunInTx no_faults fn db =
    match fn db with
    | (Ok a, db') => (Ok a, db')
    | (Fail e, _) => (Fail e, db)
    | (Panic p, db') => (Panic p, db')
    end.
Proof. unfold RunInTx; simpl. by destruct (fn db) as [[] ]. Qed.

Lemma RunInTx_ext {A} f (fn fn' : M DB A) db :
  fn db = fn' db → RunInTx f fn db = RunInTx f fn' db.
Proof. unfold RunInTx. by intros ->. Qed.

Lemma RunInTx_ok_inv {A} f (fn : M DB A) db a db' :
  RunInTx f fn db = (Ok a, db') → fn db = (Ok a, db').
Proof.
  unfold RunInTx. destruct (begin_err f); [done|].
  destruct (fn db) as [[x|e|p] d]; simpl; [|destruct (rollback_err f); naive_solver|done].
  destruct (commit_err f); naive_solver.
Qed.

(** A caller that gets an error back: the database is untouched, unless
    [fn] had succeeded and the commit's own answer was lost. *)
Lemma RunInTx_fail_inv {A} f (fn : M DB A) db e db' :
  RunInTx f fn db = (Fail e, db') →
  db' = db ∨
  (∃ a, fn db = (Ok a, db') ∧ commit_applied f = true ∧ is_Some (commit_err f)).
Proof.
  unfold RunInTx. destruct (begin_err f); [naive_solver|].
  destruct (fn db) as [[x|e'|p] d]; simpl;
    [|destruct (rollback_err f); naive_solver|done].
  destruct (commit_err f); [|naive_solver]. intros [= _ <-].
  destruct (commit_applied f); eauto 10.
Qed.

(** The error of [fn] is still found in the chain after a failed
    rollback. *)
Lemma RunInTx_fail_Is {A} f (fn : M DB A) db e d target :
  begin_err f = None → fn db = (Fail e, d) → errors_Is e target = true →
  ∃ e', RunInTx f fn db = (Fail e', db) ∧ errors_Is e' target = true.
Proof.
  intros Hb Hfn Hi. unfold RunInTx. rewrite Hb, Hfn; simpl.
  destruct (rollback_err f); eexists; split; eauto.
  unfold errors_Is in *; simpl. rewrite existsb_app, Hi.
  by rewrite orb_true_l, orb_true_r.
Qed.
End Tx.
