(* ===== verification/Events.v ===== *)
(** * Integration events

    The flat, versioned events the contexts publish
    ([internal/*/events/events.go]): one record per struct, its fields in
    the order of the source, and one sum per topic.  Timestamps, amounts
    and identities are the primitives of the payload. *)

From stdpp Require Import base numbers list strings.
From Stdlib Require Import ZArith Lia.
From S2P Require Import Prelude.

(** ** [auction/events] *)

Record AuctionListedV1 := mkAuctionListedV1 {
  al_EventID : string;
  al_AuctionID : string;
  al_SellerID : string;
  al_Title : string;
  al_StartPriceMinor : Z;
  al_Currency : string;
  al_StartsAt : Time;
  al_EndsAt : Time;
  al_RelistGeneration : Z;
  al_OccurredAt : Time;
}.
#[export] Instance AuctionListedV1_eq_dec : EqDecision AuctionListedV1.
Proof. solve_decision. Defined.

Record BidPlacedV1 := mkBidPlacedV1 {
  bp_EventID : string;
  bp_AuctionID : string;
  bp_BidID : string;
  bp_BidderID : string;
  bp_AmountMinor : Z;
  bp_Currency : string;
  bp_BidCount : Z;
  bp_Extended : bool;
  bp_NewEndsAt : Time;
  bp_OutbidBidderID : string;
  bp_OccurredAt : Time;
}.
#[export] Instance BidPlacedV1_eq_dec : EqDecision BidPlacedV1.
Proof. solve_decision. Defined.

Record AuctionCancelledV1 := mkAuctionCancelledV1 {
  acn_EventID : string;
  acn_AuctionID : string;
  acn_SellerID : string;
  acn_OccurredAt : Time;
}.
#[export] Instance AuctionCancelledV1_eq_dec : EqDecision AuctionCancelledV1.
Proof. solve_decision. Defined.

Record AuctionClosedV1 := mkAuctionClosedV1 {
  acl_EventID : string;
  acl_AuctionID : string;
  acl_SellerID : string;
  acl_Outcome : string;
  acl_WinnerID : string;
  acl_HammerPriceMinor : Z;
  acl_Currency : string;
  acl_RunnerUpBidderID : string;
  acl_RunnerUpAmountMinor : Z;
  acl_RunnerUpQualifies : bool;
  acl_RelistGeneration : Z;
  acl_OccurredAt : Time;
}.
#[export] Instance AuctionClosedV1_eq_dec : EqDecision AuctionClosedV1.
Proof. solve_decision. Defined.

Record WinnerReassignedV1 := mkWinnerReassignedV1 {
  wr_EventID : string;
  wr_AuctionID : string;
  wr_NewWinnerID : string;
  wr_PriceMinor : Z;
  wr_Currency : string;
  wr_OccurredAt : Time;
}.
#[export] Instance WinnerReassignedV1_eq_dec : EqDecision WinnerReassignedV1.
Proof. solve_decision. Defined.

Record AuctionRelistedV1 := mkAuctionRelistedV1 {
  ar_EventID : string;
  ar_OriginalAuctionID : string;
  ar_NewAuctionID : string;
  ar_StartsAt : Time;
  ar_EndsAt : Time;
  ar_OccurredAt : Time;
}.
#[export] Instance AuctionRelistedV1_eq_dec : EqDecision AuctionRelistedV1.
Proof. solve_decision. Defined.

Record SaleSettledV1 := mkSaleSettledV1 {
  ss_EventID : string;
  ss_AuctionID : string;
  ss_WinnerID : string;
  ss_OccurredAt : Time;
}.
#[export] Instance SaleSettledV1_eq_dec : EqDecision SaleSettledV1.
Proof. solve_decision. Defined.

Record SaleFailedV1 := mkSaleFailedV1 {
  sf_EventID : string;
  sf_AuctionID : string;
  sf_Reason : string;
  sf_OccurredAt : Time;
}.
#[export] Instance SaleFailedV1_eq_dec : EqDecision SaleFailedV1.
Proof. solve_decision. Defined.

Inductive AuctionEvent :=
| EvAuctionListedV1 (e : AuctionListedV1)
| EvBidPlacedV1 (e : BidPlacedV1)
| EvAuctionCancelledV1 (e : AuctionCancelledV1)
| EvAuctionClosedV1 (e : AuctionClosedV1)
| EvWinnerReassignedV1 (e : WinnerReassignedV1)
| EvAuctionRelistedV1 (e : AuctionRelistedV1)
| EvSaleSettledV1 (e : SaleSettledV1)
| EvSaleFailedV1 (e : SaleFailedV1).
#[export] Instance AuctionEvent_eq_dec : EqDecision AuctionEvent.
Proof. solve_decision. Defined.

Definition auction_Topic : string := "auction-events".

(** ** [billing/events] *)

Record InvoiceIssuedV1 := mkInvoiceIssuedV1 {
  ii_EventID : string;
  ii_InvoiceID : string;
  ii_AuctionID : string;
  ii_DebtorID : string;
  ii_HammerMinor : Z;
  ii_CommissionMinor : Z;
  ii_TotalMinor : Z;
  ii_Currency : string;
  ii_DueAt : Time;
  ii_Attempt : Z;
  ii_OccurredAt : Time;
}.
#[export] Instance InvoiceIssuedV1_eq_dec : EqDecision InvoiceIssuedV1.
Proof. solve_decision. Defined.

Record InvoicePaidV1 := mkInvoicePaidV1 {
  ip_EventID : string;
  ip_InvoiceID : string;
  ip_AuctionID : string;
  ip_DebtorID : string;
  ip_TotalMinor : Z;
  ip_Currency : string;
  ip_OccurredAt : Time;
}.
#[export] Instance InvoicePaidV1_eq_dec : EqDecision InvoicePaidV1.
Proof. solve_decision. Defined.

Record InvoiceExpiredV1 := mkInvoiceExpiredV1 {
  ie_EventID : string;
  ie_InvoiceID : string;
  ie_AuctionID : string;
  ie_DebtorID : string;
  ie_Attempt : Z;
  ie_OccurredAt : Time;
}.
#[export] Instance InvoiceExpiredV1_eq_dec : EqDecision InvoiceExpiredV1.
Proof. solve_decision. Defined.

Inductive BillingEvent :=
| EvInvoiceIssuedV1 (e : InvoiceIssuedV1)
| EvInvoicePaidV1 (e : InvoicePaidV1)
| EvInvoiceExpiredV1 (e : InvoiceExpiredV1).
#[export] Instance BillingEvent_eq_dec : EqDecision BillingEvent.
Proof. solve_decision. Defined.

Definition billing_Topic : string := "billing-events".

(** ** [participant/events] *)

Record ParticipantRegisteredV1 := mkParticipantRegisteredV1 {
  pr_EventID : string;
  pr_ParticipantID : string;
  pr_Email : string;
  pr_DisplayName : string;
  pr_OccurredAt : Time;
}.
#[export] Instance ParticipantRegisteredV1_eq_dec : EqDecision ParticipantRegisteredV1.
Proof. solve_decision. Defined.

Record ParticipantVerifiedV1 := mkParticipantVerifiedV1 {
  pv_EventID : string;
  pv_ParticipantID : string;
  pv_OccurredAt : Time;
}.
#[export] Instance ParticipantVerifiedV1_eq_dec : EqDecision ParticipantVerifiedV1.
Proof. solve_decision. Defined.

Inductive ParticipantEvent :=
| EvParticipantRegisteredV1 (e : ParticipantRegisteredV1)
| EvParticipantVerifiedV1 (e : ParticipantVerifiedV1).
#[export] Instance ParticipantEvent_eq_dec : EqDecision ParticipantEvent.
Proof. solve_decision. Defined.

Definition participant_Topic : string := "participant-events".

(** Any event on the bus. *)
Inductive Event :=
| OfAuction (e : AuctionEvent)
| OfBilling (e : BillingEvent)
| OfParticipant (e : ParticipantEvent).
#[export] Instance Event_eq_dec : EqDecision Event.
Proof. solve_decision. Defined.
