(* ===== verification/AuctionDomain.v ===== *)
(** * The auction aggregate

    [internal/auction/domain/auction]: the value objects, the [Auction]
    aggregate with its methods, the domain events it records, and the
    lemmas that describe each method.  Everything is in [Module auction];
    a struct's fields carry a short prefix, a method [T.F] is [T_F]. *)

From stdpp Require Import base numbers list strings countable.
From Stdlib Require Import ZArith Lia.
From S2P Require Import Prelude Errs.

Module auction.
Local Open Scope Z_scope.

(** The sentinels of [errors.go], as error values. *)
Abbreviation ErrAuctionNotOpen := (ErrAuction AuctionErr.ErrAuctionNotOpen) (only parsing).
Abbreviation ErrSellerCannotBid := (ErrAuction AuctionErr.ErrSellerCannotBid) (only parsing).
Abbreviation ErrLeaderCannotOutbidSelf := (ErrAuction AuctionErr.ErrLeaderCannotOutbidSelf) (only parsing).
Abbreviation ErrCurrencyMismatch := (ErrAuction AuctionErr.ErrCurrencyMismatch) (only parsing).
Abbreviation ErrBidBelowMinimum := (ErrAuction AuctionErr.ErrBidBelowMinimum) (only parsing).
Abbreviation ErrVerificationRequired := (ErrAuction AuctionErr.ErrVerificationRequired) (only parsing).
Abbreviation ErrUnsupportedCurrency := (ErrAuction AuctionErr.ErrUnsupportedCurrency) (only parsing).
Abbreviation ErrAuctionHasBids := (ErrAuction AuctionErr.ErrAuctionHasBids) (only parsing).
Abbreviation ErrAlreadyClosed := (ErrAuction AuctionErr.ErrAlreadyClosed) (only parsing).
Abbreviation ErrAuctionCancelled := (ErrAuction AuctionErr.ErrAuctionCancelled) (only parsing).
Abbreviation ErrBiddingStillOpen := (ErrAuction AuctionErr.ErrBiddingStillOpen) (only parsing).
Abbreviation ErrNoQualifyingRunnerUp := (ErrAuction AuctionErr.ErrNoQualifyingRunnerUp) (only parsing).
Abbreviation ErrWinnerAlreadyReassigned := (ErrAuction AuctionErr.ErrWinnerAlreadyReassigned) (only parsing).
Abbreviation ErrRelistLimitReached := (ErrAuction AuctionErr.ErrRelistLimitReached) (only parsing).
Abbreviation ErrAlreadyRelisted := (ErrAuction AuctionErr.ErrAlreadyRelisted) (only parsing).
Abbreviation ErrAlreadySettled := (ErrAuction AuctionErr.ErrAlreadySettled) (only parsing).
Abbreviation ErrSaleAlreadyFailed := (ErrAuction AuctionErr.ErrSaleAlreadyFailed) (only parsing).
Abbreviation ErrInvalidID := (ErrAuction AuctionErr.ErrInvalidID) (only parsing).
Abbreviation ErrInvalidCurrency := (ErrAuction AuctionErr.ErrInvalidCurrency) (only parsing).
Abbreviation ErrNegativeAmount := (ErrAuction AuctionErr.ErrNegativeAmount) (only parsing).
Abbreviation ErrInvalidLot := (ErrAuction AuctionErr.ErrInvalidLot) (only parsing).
Abbreviation ErrInvalidStartPrice := (ErrAuction AuctionErr.ErrInvalidStartPrice) (only parsing).
Abbreviation ErrInvalidIncrement := (ErrAuction AuctionErr.ErrInvalidIncrement) (only parsing).
Abbreviation ErrInvalidReserve := (ErrAuction AuctionErr.ErrInvalidReserve) (only parsing).
Abbreviation ErrInvalidBiddingWindow := (ErrAuction AuctionErr.ErrInvalidBiddingWindow) (only parsing).
Abbreviation ErrInvalidAntiSnipePolicy := (ErrAuction AuctionErr.ErrInvalidAntiSnipePolicy) (only parsing).
Abbreviation ErrInvalidListingRules := (ErrAuction AuctionErr.ErrInvalidListingRules) (only parsing).
Abbreviation ErrInvalidBid := (ErrAuction AuctionErr.ErrInvalidBid) (only parsing).
Abbreviation ErrInvalidStatus := (ErrAuction AuctionErr.ErrInvalidStatus) (only parsing).
Abbreviation ErrInvalidOutcome := (ErrAuction AuctionErr.ErrInvalidOutcome) (only parsing).
Abbreviation ErrInvalidFailureReason := (ErrAuction AuctionErr.ErrInvalidFailureReason) (only parsing).

(** ** Identities *)

Record AuctionID := mkAuctionID { AuctionID_UUID : uuid }.
#[export] Instance AuctionID_eq_dec : EqDecision AuctionID.
Proof. solve_decision. Defined.
#[export] Instance AuctionID_countable : Countable AuctionID :=
  inj_countable' AuctionID_UUID mkAuctionID (fun x => match x with mkAuctionID _ => eq_refl end).
#[export] Instance AuctionID_zero : GoZero AuctionID := mkAuctionID uuid_Nil.

Definition NewAuctionID (id : uuid) : result AuctionID :=
  if bool_decide (id = uuid_Nil) then Fail ErrInvalidID
  else Ok (mkAuctionID id).

Record SellerID := mkSellerID { SellerID_UUID : uuid }.
#[export] Instance SellerID_eq_dec : EqDecision SellerID.
Proof. solve_decision. Defined.
#[export] Instance SellerID_countable : Countable SellerID :=
  inj_countable' SellerID_UUID mkSellerID (fun x => match x with mkSellerID _ => eq_refl end).
#[export] Instance SellerID_zero : GoZero SellerID := mkSellerID uuid_Nil.

Definition NewSellerID (id : uuid) : result SellerID :=
  if bool_decide (id = uuid_Nil) then Fail ErrInvalidID
  else Ok (mkSellerID id).

Record BidderID := mkBidderID { BidderID_UUID : uuid }.
#[export] Instance BidderID_eq_dec : EqDecision BidderID.
Proof. solve_decision. Defined.
#[export] Instance BidderID_countable : Countable BidderID :=
  inj_countable' BidderID_UUID mkBidderID (fun x => match x with mkBidderID _ => eq_refl end).
#[export] Instance BidderID_zero : GoZero BidderID := mkBidderID uuid_Nil.

Definition NewBidderID (id : uuid) : result BidderID :=
  if bool_decide (id = uuid_Nil) then Fail ErrInvalidID
  else Ok (mkBidderID id).

Record BidID := mkBidID { BidID_UUID : uuid }.
#[export] Instance BidID_eq_dec : EqDecision BidID.
Proof. solve_decision. Defined.
#[export] Instance BidID_countable : Countable BidID :=
  inj_countable' BidID_UUID mkBidID (fun x => match x with mkBidID _ => eq_refl end).
#[export] Instance BidID_zero : GoZero BidID := mkBidID uuid_Nil.

Definition NewBidID (id : uuid) : result BidID :=
  if bool_decide (id = uuid_Nil) then Fail ErrInvalidID
  else Ok (mkBidID id).

Record Actor := mkActor { Actor_UUID : uuid }.
#[export] Instance Actor_eq_dec : EqDecision Actor.
Proof. solve_decision. Defined.
#[export] Instance Actor_zero : GoZero Actor := mkActor uuid_Nil.

Definition NewActor (id : uuid) : result Actor :=
  if bool_decide (id = uuid_Nil) then Fail ErrInvalidID else Ok (mkActor id).

Definition ActorFromSeller (s : SellerID) : Actor := mkActor (SellerID_UUID s).
Definition ActorFromBidder (b : BidderID) : Actor := mkActor (BidderID_UUID b).

(** ** Money *)

Record Currency := mkCurrency { c_code : string }.
#[export] Instance Currency_eq_dec : EqDecision Currency.
Proof. solve_decision. Defined.
#[export] Instance Currency_zero : GoZero Currency := mkCurrency "".

(** [r < 'A' || r > 'Z'] for a byte of the code: a multi-byte rune is out
    of the range, and so is each of its bytes. *)
Definition upper_letter (r : Ascii.ascii) : bool :=
  let n := Ascii.N_of_ascii r in (65 <=? n)%N && (n <=? 90)%N.

Fixpoint all_upper (s : string) : bool :=
  match s with
  | "" => true
  | String r rest => upper_letter r && all_upper rest
  end.

Definition NewCurrency (code : string) : result Currency :=
  if negb (Nat.eqb (String.length code) 3) then Fail ErrInvalidCurrency
  else if negb (all_upper code) then Fail ErrInvalidCurrency
  else Ok (mkCurrency code).

Record Money := mkMoney { m_amount : Z; m_currency : Currency }.
#[export] Instance Money_eq_dec : EqDecision Money.
Proof. solve_decision. Defined.
#[export] Instance Money_zero : GoZero Money := mkMoney 0 zero_value.

Definition NewMoney (amountMinor : Z) (currency : Currency) : result Money :=
  if IsZero currency then Fail ErrInvalidCurrency
  else if amountMinor <? 0 then Fail ErrNegativeAmount
  else Ok (mkMoney amountMinor currency).

Definition Money_Add (m o : Money) : result Money :=
  if bool_decide (m_currency m ≠ m_currency o) then Fail ErrCurrencyMismatch
  else Ok (mkMoney (wrap64 (m_amount m + m_amount o)) (m_currency m)).

Definition Money_GTE (m o : Money) : result bool :=
  if bool_decide (m_currency m ≠ m_currency o) then Fail ErrCurrencyMismatch
  else Ok (m_amount o <=? m_amount m).

Definition Money_MulBasisPoints (m : Money) (bp : Z) : Money :=
  mkMoney (Z.quot (wrap64 (m_amount m * bp)) 10000) (m_currency m).

(** ** Reserve price *)

Record ReservePrice := mkReservePrice { r_price : Money }.
#[export] Instance ReservePrice_eq_dec : EqDecision ReservePrice.
Proof. solve_decision. Defined.
#[export] Instance ReservePrice_zero : GoZero ReservePrice :=
  mkReservePrice zero_value.

Definition NewReservePrice (m : Money) : result ReservePrice :=
  if IsZero m || (m_amount m <=? 0) then Fail ErrInvalidReserve
  else Ok (mkReservePrice m).

Definition NoReserve : ReservePrice := zero_value.

Definition ReservePrice_MetBy (r : ReservePrice) (amount : Money) : bool :=
  if IsZero r then true
  else match Money_GTE amount (r_price r) with
       | Ok ok => ok
       | _ => false
       end.

(** ** Lot *)

Record Lot := mkLot { l_title : string; l_description : string }.
#[export] Instance Lot_eq_dec : EqDecision Lot.
Proof. solve_decision. Defined.
#[export] Instance Lot_zero : GoZero Lot := mkLot "" "".

Definition NewLot (title description : string) : result Lot :=
  if bool_decide (TrimSpace title = "") then Fail ErrInvalidLot
  else Ok (mkLot title description).

(** ** Bidding window *)

Record BiddingWindow := mkBiddingWindow {
  w_startsAt : Time;
  w_endsAt : Time;
  w_originalEndsAt : Time;
}.
#[export] Instance BiddingWindow_eq_dec : EqDecision BiddingWindow.
Proof. solve_decision. Defined.
#[export] Instance BiddingWindow_zero : GoZero BiddingWindow :=
  mkBiddingWindow 0 0 0.

Definition NewBiddingWindow (startsAt endsAt : Time) : result BiddingWindow :=
  if time_IsZero startsAt || time_IsZero endsAt || negb (time_After endsAt startsAt)
  then Fail ErrInvalidBiddingWindow
  else Ok (mkBiddingWindow startsAt endsAt endsAt).

Definition UnmarshalBiddingWindow (startsAt endsAt originalEndsAt : Time)
    : result BiddingWindow :=
  if time_IsZero startsAt || time_IsZero endsAt || time_IsZero originalEndsAt
  then Fail ErrInvalidBiddingWindow
  else if negb (time_After endsAt startsAt) || time_Before endsAt originalEndsAt
  then Fail ErrInvalidBiddingWindow
  else Ok (mkBiddingWindow startsAt endsAt originalEndsAt).

Definition BiddingWindow_IsOpenAt (w : BiddingWindow) (now : Time) : bool :=
  negb (time_Before now (w_startsAt w)) && time_Before now (w_endsAt w).

Definition BiddingWindow_ExtendedBy (w : BiddingWindow) (d : Duration) : BiddingWindow :=
  mkBiddingWindow (w_startsAt w) (time_Add (w_endsAt w) d) (w_originalEndsAt w).

(** ** Anti-snipe policy *)

Record AntiSnipePolicy := mkAntiSnipePolicy {
  p_window : Duration;
  p_extension : Duration;
  p_maxExtensions : Z;
}.
#[export] Instance AntiSnipePolicy_eq_dec : EqDecision AntiSnipePolicy.
Proof. solve_decision. Defined.
#[export] Instance AntiSnipePolicy_zero : GoZero AntiSnipePolicy :=
  mkAntiSnipePolicy 0 0 0.

Definition NewAntiSnipePolicy (window extension : Duration) (maxExtensions : Z)
    : result AntiSnipePolicy :=
  if (window <=? 0) || (extension <=? 0) || (maxExtensions <? 0)
  then Fail ErrInvalidAntiSnipePolicy
  else Ok (mkAntiSnipePolicy window extension maxExtensions).

Definition AntiSnipePolicy_TriggersAt (p : AntiSnipePolicy) (now endsAt : Time) : bool :=
  negb (time_Before now (time_Add endsAt (- p_window p))).

(** ** Listing rules *)

Record ListingRules := mkListingRules {
  lr_currency : Currency;
  lr_verifyAbove : Money;
  lr_antiSnipe : AntiSnipePolicy;
}.
#[export] Instance ListingRules_eq_dec : EqDecision ListingRules.
Proof. solve_decision. Defined.
#[export] Instance ListingRules_zero : GoZero ListingRules :=
  mkListingRules zero_value zero_value zero_value.

Definition NewListingRules (currency : Currency) (verifyAbove : Money)
    (antiSnipe : AntiSnipePolicy) : result ListingRules :=
  if IsZero currency then Fail ErrInvalidCurrency
  else if IsZero verifyAbove || bool_decide (m_currency verifyAbove ≠ currency)
  then Fail ErrInvalidListingRules
  else if IsZero antiSnipe then Fail ErrInvalidListingRules
  else Ok (mkListingRules currency verifyAbove antiSnipe).

(** ** Bids and bidders *)

Record Bidder := mkBidder { bd_id : BidderID; bd_verified : bool }.
#[export] Instance Bidder_eq_dec : EqDecision Bidder.
Proof. solve_decision. Defined.
#[export] Instance Bidder_zero : GoZero Bidder := mkBidder zero_value false.

Definition NewBidder (id : BidderID) (verified : bool) : result Bidder :=
  if IsZero id then Fail ErrInvalidID else Ok (mkBidder id verified).

Record Bid := mkBid {
  b_id : BidID;
  b_bidder : BidderID;
  b_amount : Money;
  b_placedAt : Time;
}.
#[export] Instance Bid_eq_dec : EqDecision Bid.
Proof. solve_decision. Defined.
#[export] Instance Bid_zero : GoZero Bid :=
  mkBid zero_value zero_value zero_value 0.

Definition NewBid (id : BidID) (bidder : BidderID) (amount : Money) (placedAt : Time)
    : result Bid :=
  if IsZero id || IsZero bidder || IsZero amount || time_IsZero placedAt
  then Fail ErrInvalidBid
  else Ok (mkBid id bidder amount placedAt).

(** ** Enumerations

    Each is a struct around a string whose constructors only build the
    listed values; the first constructor is the zero value. *)

Inductive Status := StatusZero | StatusListed | StatusCancelled | StatusClosed.
#[export] Instance Status_eq_dec : EqDecision Status.
Proof. solve_decision. Defined.
#[export] Instance Status_zero : GoZero Status := StatusZero.

Definition Status_String (s : Status) : string :=
  match s with
  | StatusZero => ""
  | StatusListed => "listed"
  | StatusCancelled => "cancelled"
  | StatusClosed => "closed"
  end.

Definition NewStatusFromString (s : string) : result Status :=
  if bool_decide (s = Status_String StatusListed) then Ok StatusListed
  else if bool_decide (s = Status_String StatusCancelled) then Ok StatusCancelled
  else if bool_decide (s = Status_String StatusClosed) then Ok StatusClosed
  else Fail (Errorf "%q" ErrInvalidStatus).

Inductive Outcome := OutcomeZero | OutcomeSold | OutcomeNotSold.
#[export] Instance Outcome_eq_dec : EqDecision Outcome.
Proof. solve_decision. Defined.
#[export] Instance Outcome_zero : GoZero Outcome := OutcomeZero.

Definition Outcome_String (o : Outcome) : string :=
  match o with
  | OutcomeZero => ""
  | OutcomeSold => "sold"
  | OutcomeNotSold => "not_sold"
  end.

Definition NewOutcomeFromString (s : string) : result Outcome :=
  if bool_decide (s = Outcome_String OutcomeSold) then Ok OutcomeSold
  else if bool_decide (s = Outcome_String OutcomeNotSold) then Ok OutcomeNotSold
  else Fail (Errorf "%q" ErrInvalidOutcome).

Inductive FailureReason :=
| FailureReasonZero | ReasonPaymentTimeout | ReasonSecondChanceDeclined.
#[export] Instance FailureReason_eq_dec : EqDecision FailureReason.
Proof. solve_decision. Defined.
#[export] Instance FailureReason_zero : GoZero FailureReason := FailureReasonZero.

Definition FailureReason_String (r : FailureReason) : string :=
  match r with
  | FailureReasonZero => ""
  | ReasonPaymentTimeout => "payment_timeout"
  | ReasonSecondChanceDeclined => "second_chance_declined"
  end.

Definition NewFailureReasonFromString (s : string) : result FailureReason :=
  if bool_decide (s = FailureReason_String ReasonPaymentTimeout)
  then Ok ReasonPaymentTimeout
  else if bool_decide (s = FailureReason_String ReasonSecondChanceDeclined)
  then Ok ReasonSecondChanceDeclined
  else Fail (Errorf "%q" ErrInvalidFailureReason).

(** ** Domain events *)

Record ClosingResult := mkClosingResult {
  cr_Outcome : Outcome;
  cr_Winner : Bid;
  cr_RunnerUp : Bid;
  cr_RunnerUpQualifies : bool;
}.
#[export] Instance ClosingResult_eq_dec : EqDecision ClosingResult.
Proof. solve_decision. Defined.

Inductive DomainEvent :=
| AuctionListed (OccurredAt : Time)
| BidPlaced (bid outbid : Bid) (NewEndsAt : Time) (Extended : bool) (OccurredAt : Time)
| AuctionExtended (NewEndsAt OccurredAt : Time)
| AuctionCancelled (OccurredAt : Time)
| AuctionClosed (result : ClosingResult) (OccurredAt : Time)
| WinnerReassigned (NewWinner : Bid) (OccurredAt : Time)
| AuctionRelisted (OriginalID NewID : AuctionID) (StartsAt EndsAt OccurredAt : Time)
| SaleSettled (OccurredAt : Time)
| SaleFailed (Reason : FailureReason) (OccurredAt : Time).
#[export] Instance DomainEvent_eq_dec : EqDecision DomainEvent.
Proof. solve_decision. Defined.

(** ** The aggregate *)
Record Auction := mkAuction {
  a_id : AuctionID;
  a_seller : SellerID;
  a_lot : Lot;
  a_startPrice : Money;
  a_increment : Money;
  a_reserve : ReservePrice;
  a_window : BiddingWindow;
  a_antiSnipe : AntiSnipePolicy;
  a_verifyAbove : Money;
  a_extensionsUsed : Z;
  a_status : Status;
  a_outcome : Outcome;
  a_leadingBid : Bid;
  a_runnerUpBid : Bid;
  a_winnerReassigned : bool;
  a_bidCount : Z;
  a_relistOf : AuctionID;
  a_relistGen : Z;
  a_settled : bool;
  a_version : Z;
  a_events : list DomainEvent;
}.
#[export] Instance Auction_eq_dec : EqDecision Auction.
Proof. solve_decision. Defined.

(** Field assignments. *)
Definition set_window (v : BiddingWindow) (a : Auction) : Auction :=
  mkAuction (a_id a) (a_seller a) (a_lot a) (a_startPrice a) (a_increment a) (a_reserve a) v
    (a_antiSnipe a) (a_verifyAbove a) (a_extensionsUsed a) (a_status a) (a_outcome a)
    (a_leadingBid a) (a_runnerUpBid a) (a_winnerReassigned a) (a_bidCount a) (a_relistOf a)
    (a_relistGen a) (a_settled a) (a_version a) (a_events a).
Definition set_extensionsUsed (v : Z) (a : Auction) : Auction :=
  mkAuction (a_id a) (a_seller a) (a_lot a) (a_startPrice a) (a_increment a) (a_reserve a)
    (a_window a) (a_antiSnipe a) (a_verifyAbove a) v (a_status a) (a_outcome a)
    (a_leadingBid a) (a_runnerUpBid a) (a_winnerReassigned a) (a_bidCount a) (a_relistOf a)
    (a_relistGen a) (a_settled a) (a_version a) (a_events a).
Definition set_status (v : Status) (a : Auction) : Auction :=
  mkAuction (a_id a) (a_seller a) (a_lot a) (a_startPrice a) (a_increment a) (a_reserve a)
    (a_window a) (a_antiSnipe a) (a_verifyAbove a) (a_extensionsUsed a) v (a_outcome a)
    (a_leadingBid a) (a_runnerUpBid a) (a_winnerReassigned a) (a_bidCount a) (a_relistOf a)
    (a_relistGen a) (a_settled a) (a_version a) (a_events a).
Definition set_outcome (v : Outcome) (a : Auction) : Auction :=
  mkAuction (a_id a) (a_seller a) (a_lot a) (a_startPrice a) (a_increment a) (a_reserve a)
    (a_window a) (a_antiSnipe a) (a_verifyAbove a) (a_extensionsUsed a) (a_status a) v
    (a_leadingBid a) (a_runnerUpBid a) (a_winnerReassigned a) (a_bidCount a) (a_relistOf a)
    (a_relistGen a) (a_settled a) (a_version a) (a_events a).
Definition set_leadingBid (v : Bid) (a : Auction) : Auction :=
  mkAuction (a_id a) (a_seller a) (a_lot a) (a_startPrice a) (a_increment a) (a_reserve a)
    (a_window a) (a_antiSnipe a) (a_verifyAbove a) (a_extensionsUsed a) (a_status a)
    (a_outcome a) v (a_runnerUpBid a) (a_winnerReassigned a) (a_bidCount a) (a_relistOf a)
    (a_relistGen a) (a_settled a) (a_version a) (a_events a).
Definition set_runnerUpBid (v : Bid) (a : Auction) : Auction :=
  mkAuction (a_id a) (a_seller a) (a_lot a) (a_startPrice a) (a_increment a) (a_reserve a)
    (a_window a) (a_antiSnipe a) (a_verifyAbove a) (a_extensionsUsed a) (a_status a)
    (a_outcome a) (a_leadingBid a) v (a_winnerReassigned a) (a_bidCount a) (a_relistOf a)
    (a_relistGen a) (a_settled a) (a_version a) (a_events a).
Definition set_winnerReassigned (v : bool) (a : Auction) : Auction :=
  mkAuction (a_id a) (a_seller a) (a_lot a) (a_startPrice a) (a_increment a) (a_reserve a)
    (a_window a) (a_antiSnipe a) (a_verifyAbove a) (a_extensionsUsed a) (a_status a)
    (a_outcome a) (a_leadingBid a) (a_runnerUpBid a) v (a_bidCount a) (a_relistOf a)
    (a_relistGen a) (a_settled a) (a_version a) (a_events a).
Definition set_bidCount (v : Z) (a : Auction) : Auction :=
  mkAuction (a_id a) (a_seller a) (a_lot a) (a_startPrice a) (a_increment a) (a_reserve a)
    (a_window a) (a_antiSnipe a) (a_verifyAbove a) (a_extensionsUsed a) (a_status a)
    (a_outcome a) (a_leadingBid a) (a_runnerUpBid a) (a_winnerReassigned a) v (a_relistOf a)
    (a_relistGen a) (a_settled a) (a_version a) (a_events a).
Definition set_settled (v : bool) (a : Auction) : Auction :=
  mkAuction (a_id a) (a_seller a) (a_lot a) (a_startPrice a) (a_increment a) (a_reserve a)
    (a_window a) (a_antiSnipe a) (a_verifyAbove a) (a_extensionsUsed a) (a_status a)
    (a_outcome a) (a_leadingBid a) (a_runnerUpBid a) (a_winnerReassigned a) (a_bidCount a)
    (a_relistOf a) (a_relistGen a) v (a_version a) (a_events a).
Definition set_version (v : Z) (a : Auction) : Auction :=
  mkAuction (a_id a) (a_seller a) (a_lot a) (a_startPrice a) (a_increment a) (a_reserve a)
    (a_window a) (a_antiSnipe a) (a_verifyAbove a) (a_extensionsUsed a) (a_status a)
    (a_outcome a) (a_leadingBid a) (a_runnerUpBid a) (a_winnerReassigned a) (a_bidCount a)
    (a_relistOf a) (a_relistGen a) (a_settled a) v (a_events a).
Definition set_events (v : list DomainEvent) (a : Auction) : Auction :=
  mkAuction (a_id a) (a_seller a) (a_lot a) (a_startPrice a) (a_increment a) (a_reserve a)
    (a_window a) (a_antiSnipe a) (a_verifyAbove a) (a_extensionsUsed a) (a_status a)
    (a_outcome a) (a_leadingBid a) (a_runnerUpBid a) (a_winnerReassigned a) (a_bidCount a)
    (a_relistOf a) (a_relistGen a) (a_settled a) (a_version a) v.

Definition record (e : DomainEvent) : M Auction unit :=
  modify (fun a => set_events (a_events a ++ [e]) a).

(** ** Predicates and package functions *)

Definition Auction_IsOpenAt (a : Auction) (now : Time) : bool :=
  bool_decide (a_status a = StatusListed) && BiddingWindow_IsOpenAt (a_window a) now.

Definition HasBids (a : Auction) : bool := 0 <? a_bidCount a.

Definition EndsAt (a : Auction) : Time := w_endsAt (a_window a).

Definition MinimalNextBid (a : Auction) : result Money :=
  if IsZero (a_leadingBid a) then Ok (a_startPrice a)
  else
    match Money_Add (b_amount (a_leadingBid a)) (a_increment a) with
    | Ok minNext => Ok minNext
    | Fail _ => Panic "auction: leading bid and increment currency diverged"
    | Panic p => Panic p
    end.

Definition CanSellerManageAuction (s : SellerID) (a : Auction) : result unit :=
  if bool_decide (s ≠ a_seller a)
  then Fail (ForbiddenAuctionManagementError (SellerID_UUID s) (SellerID_UUID (a_seller a)))
  else Ok tt.

(** ** Factories *)

Definition New (id : AuctionID) (seller : SellerID) (lot : Lot)
    (startPrice increment : Money) (reserve : ReservePrice) (window : BiddingWindow)
    (rules : ListingRules) (now : Time) : result Auction :=
  if IsZero id || IsZero seller then Fail ErrInvalidID
  else if IsZero lot then Fail ErrInvalidLot
  else if IsZero rules then Fail ErrInvalidListingRules
  else if time_IsZero now then Fail (ErrNew "now must not be zero")
  else if IsZero startPrice || (m_amount startPrice <=? 0) then Fail ErrInvalidStartPrice
  else if bool_decide (m_currency startPrice ≠ lr_currency rules)
  then Fail ErrUnsupportedCurrency
  else if IsZero increment || (m_amount increment <=? 0) then Fail ErrInvalidIncrement
  else if bool_decide (m_currency increment ≠ m_currency startPrice)
  then Fail ErrCurrencyMismatch
  else if negb (IsZero reserve)
          && bool_decide (m_currency (r_price reserve) ≠ m_currency startPrice)
  then Fail ErrCurrencyMismatch
  else if IsZero window then Fail ErrInvalidBiddingWindow
  else if negb (time_After (w_endsAt window) now) then Fail ErrInvalidBiddingWindow
  else
    let a := mkAuction id seller lot startPrice increment reserve window
               (lr_antiSnipe rules) (lr_verifyAbove rules) 0 StatusListed zero_value
               zero_value zero_value false 0 zero_value 0 false 1 [] in
    closure (record (AuctionListed now)) a.

(** [None] is the nil pointer. *)
Definition RelistedFrom (orig : option Auction) (newID : AuctionID)
    (window : BiddingWindow) (now : Time) : result Auction :=
  match orig with
  | None => Fail (ErrNew "original auction must not be nil")
  | Some orig =>
    if IsZero newID then Fail ErrInvalidID
    else if 1 <=? a_relistGen orig then Fail ErrRelistLimitReached
    else if IsZero window || negb (time_After (w_endsAt window) now)
    then Fail ErrInvalidBiddingWindow
    else
      let a := mkAuction newID (a_seller orig) (a_lot orig) (a_startPrice orig)
                 (a_increment orig) (a_reserve orig) window (a_antiSnipe orig)
                 (a_verifyAbove orig) 0 StatusListed zero_value zero_value zero_value
                 false 0 (a_id orig) (wrap64 (a_relistGen orig + 1)) false 1 [] in
      closure (record (AuctionListed now);;
               record (AuctionRelisted (a_id orig) newID (w_startsAt window)
                         (w_endsAt window) now)) a
  end.

(** ** Behaviour methods *)

Definition PlaceBid (id : BidID) (b : Bidder) (amount : Money) (now : Time)
    : M Auction Bid :=
  throw_if (IsZero b) ErrInvalidID;;
  a ← get;
  throw_if (bool_decide (a_status a ≠ StatusListed)
            || negb (BiddingWindow_IsOpenAt (a_window a) now)) ErrAuctionNotOpen;;
  throw_if (bool_decide (BidderID_UUID (bd_id b) = SellerID_UUID (a_seller a)))
    ErrSellerCannotBid;;
  throw_if (negb (IsZero (a_leadingBid a))
            && bool_decide (b_bidder (a_leadingBid a) = bd_id b))
    ErrLeaderCannotOutbidSelf;;
  throw_if (bool_decide (m_currency amount ≠ m_currency (a_startPrice a)))
    ErrCurrencyMismatch;;
  minNext ← lift (MinimalNextBid a);
  meetsMin ← test (Money_GTE amount minNext) false;
  throw_if (negb meetsMin) ErrBidBelowMinimum;;
  needsVerification ←
    (if negb (bd_verified b) then test (Money_GTE amount (a_verifyAbove a)) true
     else mret false);
  throw_if needsVerification ErrVerificationRequired;;
  bid ← lift (NewBid id (bd_id b) amount now);
  let outbid := a_leadingBid a in
  modify (set_runnerUpBid (a_leadingBid a));;
  modify (set_leadingBid bid);;
  modify (fun a => set_bidCount (wrap64 (a_bidCount a + 1)) a);;
  extended ←
    (if AntiSnipePolicy_TriggersAt (a_antiSnipe a) now (w_endsAt (a_window a))
        && (a_extensionsUsed a <? p_maxExtensions (a_antiSnipe a))
     then
       let window := BiddingWindow_ExtendedBy (a_window a) (p_extension (a_antiSnipe a)) in
       modify (set_window window);;
       modify (fun a => set_extensionsUsed (wrap64 (a_extensionsUsed a + 1)) a);;
       record (AuctionExtended (w_endsAt window) now);;
       mret true
     else mret false);
  a' ← get;
  record (BidPlaced bid outbid (w_endsAt (a_window a')) extended now);;
  mret bid.

Definition unknown_status {S A} : M S A := crash "auction: unknown status ".

Definition Cancel (by_ : SellerID) (now : Time) : M Auction unit :=
  a ← get;
  lift (CanSellerManageAuction by_ a);;
  match a_status a with
  | StatusCancelled => throw ErrAuctionCancelled
  | StatusClosed => throw ErrAlreadyClosed
  | StatusListed =>
      throw_if (HasBids a) ErrAuctionHasBids;;
      modify (set_status StatusCancelled);;
      record (AuctionCancelled now)
  | StatusZero => unknown_status
  end.

Definition Close (now : Time) : M Auction ClosingResult :=
  a ← get;
  match a_status a with
  | StatusClosed => throw ErrAlreadyClosed
  | StatusCancelled => throw ErrAuctionCancelled
  | StatusListed =>
      throw_if (time_Before now (w_endsAt (a_window a))) ErrBiddingStillOpen;;
      let sold := negb (IsZero (a_leadingBid a))
                  && ReservePrice_MetBy (a_reserve a) (b_amount (a_leadingBid a)) in
      modify (set_status StatusClosed);;
      modify (set_outcome (if sold then OutcomeSold else OutcomeNotSold));;
      let result :=
        mkClosingResult (if sold then OutcomeSold else OutcomeNotSold)
          (if sold then a_leadingBid a else zero_value)
          (a_runnerUpBid a)
          (negb (IsZero (a_runnerUpBid a))
           && ReservePrice_MetBy (a_reserve a) (b_amount (a_runnerUpBid a))) in
      record (AuctionClosed result now);;
      mret result
  | StatusZero => unknown_status
  end.

Definition AwardToRunnerUp (now : Time) : M Auction Bid :=
  a ← get;
  throw_if (a_winnerReassigned a) ErrWinnerAlreadyReassigned;;
  match a_status a with
  | StatusCancelled => throw ErrAuctionCancelled
  | StatusListed => throw ErrBiddingStillOpen
  | StatusClosed =>
      (if a_settled a
       then throw_if (bool_decide (a_outcome a = OutcomeNotSold)) ErrSaleAlreadyFailed;;
            throw ErrAlreadySettled
       else mret tt);;
      throw_if (bool_decide (a_outcome a ≠ OutcomeSold) || IsZero (a_runnerUpBid a))
        ErrNoQualifyingRunnerUp;;
      modify (set_leadingBid (a_runnerUpBid a));;
      modify (set_runnerUpBid zero_value);;
      modify (set_winnerReassigned true);;
      a' ← get;
      record (WinnerReassigned (a_leadingBid a') now);;
      mret (a_leadingBid a')
  | StatusZero => unknown_status
  end.

Definition ConfirmSettlement (now : Time) : M Auction unit :=
  a ← get;
  match a_status a with
  | StatusCancelled => throw ErrAuctionCancelled
  | StatusListed => throw ErrBiddingStillOpen
  | StatusClosed =>
      throw_if (bool_decide (a_outcome a ≠ OutcomeSold)) ErrSaleAlreadyFailed;;
      throw_if (a_settled a) ErrAlreadySettled;;
      modify (set_settled true);;
      record (SaleSettled now)
  | StatusZero => unknown_status
  end.

Definition FailSale (reason : FailureReason) (now : Time) : M Auction unit :=
  throw_if (IsZero reason) ErrInvalidFailureReason;;
  a ← get;
  match a_status a with
  | StatusCancelled => throw ErrAuctionCancelled
  | StatusListed => throw ErrBiddingStillOpen
  | StatusClosed =>
      throw_if (bool_decide (a_outcome a = OutcomeNotSold)) ErrSaleAlreadyFailed;;
      throw_if (a_settled a) ErrAlreadySettled;;
      modify (set_outcome OutcomeNotSold);;
      modify (set_settled true);;
      record (SaleFailed reason now)
  | StatusZero => unknown_status
  end.

Definition PullDomainEvents (a : Auction) : list DomainEvent * Auction :=
  (a_events a, set_events [] a).

Definition UnmarshalFromDatabase (id : AuctionID) (seller : SellerID) (lot : Lot)
    (startPrice increment : Money) (reserve : ReservePrice) (window : BiddingWindow)
    (antiSnipe : AntiSnipePolicy) (verifyAbove : Money) (extensionsUsed : Z)
    (status : Status) (outcome : Outcome) (leadingBid runnerUpBid : Bid)
    (winnerReassigned : bool) (bidCount : Z) (relistOf : AuctionID) (relistGen : Z)
    (settled : bool) (version : Z) : result Auction :=
  if IsZero id || IsZero seller then Fail ErrInvalidID
  else if IsZero status then Fail ErrInvalidStatus
  else if IsZero window then Fail ErrInvalidBiddingWindow
  else if version <? 1 then Fail (ErrNew "version must be >= 1")
  else Ok (mkAuction id seller lot startPrice increment reserve window antiSnipe
             verifyAbove extensionsUsed status outcome leadingBid runnerUpBid
             winnerReassigned bidCount relistOf relistGen settled version []).

End auction.
