(* ===== verification/AuctionTheory.v ===== *)
(** * Properties of the auction aggregate

    The outcome of each method of [AuctionDomain], the invariant of the
    aggregate, the states a sequence of calls can reach, and the properties
    of the sale's life cycle. *)

From stdpp Require Import base numbers list strings countable.
From Stdlib Require Import ZArith Lia.
From S2P Require Import Prelude Errs AuctionDomain.

Module auction_theory.
Import auction.
Local Open Scope Z_scope.

(** ** What an accepted bid needs, and what it does *)

(** A valid [Money] built by [NewMoney], or the zero value. *)
Definition valid_money (m : Money) : Prop :=
  m = zero_value ∨ (m_currency m ≠ zero_value ∧ 0 ≤ m_amount m ≤ int64_max).

Definition headroom (a : Auction) : Prop :=
  m_amount (b_amount (a_leadingBid a)) + m_amount (a_increment a) ≤ int64_max
  ∧ a_bidCount a < int64_max.

(** The lowest acceptable amount without the machine's wrap-around. *)
Definition ideal_min (a : Auction) : Z :=
  if IsZero (a_leadingBid a) then m_amount (a_startPrice a)
  else m_amount (b_amount (a_leadingBid a)) + m_amount (a_increment a).

Definition extends (a : Auction) (now : Time) : bool :=
  AntiSnipePolicy_TriggersAt (a_antiSnipe a) now (EndsAt a)
  && (a_extensionsUsed a <? p_maxExtensions (a_antiSnipe a)).

Record acceptable (a : Auction) (id : BidID) (b : Bidder) (amount : Money)
    (now : Time) : Prop := {
  acc_open : Auction_IsOpenAt a now = true;
  acc_not_seller : BidderID_UUID (bd_id b) ≠ SellerID_UUID (a_seller a);
  acc_not_leader : a_leadingBid a = zero_value ∨ b_bidder (a_leadingBid a) ≠ bd_id b;
  acc_currency : m_currency amount = m_currency (a_startPrice a);
  acc_minimum : ∃ m, MinimalNextBid a = Ok m ∧ Money_GTE amount m = Ok true;
  acc_verified : bd_verified b = true ∨ Money_GTE amount (a_verifyAbove a) = Ok false;
  acc_bid : NewBid id (bd_id b) amount now = Ok (mkBid id (bd_id b) amount now);
}.

Definition accept (bid : Bid) (now : Time) (a : Auction) : Auction :=
  let ext := extends a now in
  let w := if ext then BiddingWindow_ExtendedBy (a_window a) (p_extension (a_antiSnipe a))
           else a_window a in
  set_events
    (a_events a
     ++ (if ext then [AuctionExtended (w_endsAt w) now] else [])
     ++ [BidPlaced bid (a_leadingBid a) (w_endsAt w) ext now])
    (set_extensionsUsed
       (if ext then wrap64 (a_extensionsUsed a + 1) else a_extensionsUsed a)
       (set_window w
          (set_bidCount (wrap64 (a_bidCount a + 1))
             (set_leadingBid bid (set_runnerUpBid (a_leadingBid a) a))))).

(** ** Calls *)

Inductive call :=
| CPlaceBid (id : BidID) (b : Bidder) (amount : Money) (now : Time)
| CCancel (by_ : SellerID) (now : Time)
| CClose (now : Time)
| CAwardToRunnerUp (now : Time)
| CConfirmSettlement (now : Time)
| CFailSale (reason : FailureReason) (now : Time).

Definition forget {A} (r : result A * Auction) : result unit * Auction :=
  (r.1 ≫= (fun _ => Ok tt), r.2).

(** The error of the call, if any, and the aggregate after it. *)
Definition run (c : call) (a : Auction) : result unit * Auction :=
  match c with
  | CPlaceBid id b amount now => forget (PlaceBid id b amount now a)
  | CCancel s now => Cancel s now a
  | CClose now => forget (Close now a)
  | CAwardToRunnerUp now => forget (AwardToRunnerUp now a)
  | CConfirmSettlement now => ConfirmSettlement now a
  | CFailSale reason now => FailSale reason now a
  end.

(** ** Outcomes of the methods *)

Ltac solve_method :=
  run_go; unfold test; repeat (case_match; run_go; simplify_eq/=; try done).

Lemma PlaceBid_fail id b amount now a e a' :
  PlaceBid id b amount now a = (Fail e, a') → a' = a.
Proof. unfold PlaceBid. solve_method; by intros [=]. Qed.

Lemma Cancel_fail s now a e a' : Cancel s now a = (Fail e, a') → a' = a.
Proof. unfold Cancel, unknown_status. solve_method; by intros [=]. Qed.

Lemma Close_fail now a e a' : Close now a = (Fail e, a') → a' = a.
Proof. unfold Close, unknown_status. solve_method; by intros [=]. Qed.

Lemma AwardToRunnerUp_fail now a e a' : AwardToRunnerUp now a = (Fail e, a') → a' = a.
Proof. unfold AwardToRunnerUp, unknown_status. solve_method; by intros [=]. Qed.

Lemma ConfirmSettlement_fail now a e a' :
  ConfirmSettlement now a = (Fail e, a') → a' = a.
Proof. unfold ConfirmSettlement, unknown_status. solve_method; by intros [=]. Qed.

Lemma FailSale_fail r now a e a' : FailSale r now a = (Fail e, a') → a' = a.
Proof. unfold FailSale, unknown_status. solve_method; by intros [=]. Qed.

Lemma forget_fail {A} (r : result A * Auction) e a' :
  forget r = (Fail e, a') → r = (Fail e, a').
Proof. destruct r as [[] ?]; unfold forget; simpl; by intros [= -> ->]. Qed.

Lemma forget_ok {A} (r : result A * Auction) x a' :
  forget r = (Ok x, a') → ∃ y, r = (Ok y, a').
Proof. destruct r as [[] ?]; unfold forget; simpl; intros [=]; subst; eauto. Qed.

(** A method that returns an error has written nothing. *)
Lemma run_fail c a e a' : run c a = (Fail e, a') → a' = a.
Proof.
  destruct c; simpl; intros H; try apply forget_fail in H;
    eauto using PlaceBid_fail, Cancel_fail, Close_fail, AwardToRunnerUp_fail,
      ConfirmSettlement_fail, FailSale_fail.
Qed.

Lemma set_events_twice l l' a : set_events l (set_events l' a) = set_events l a.
Proof. done. Qed.

Lemma set_events_same a : set_events (a_events a) a = a.
Proof. by destruct a. Qed.

(** A branch of a method that ends in an error or a panic: refute it. *)
Ltac refute := first [by intros [=] | by intros [= ?] | done].

Lemma NewBid_ok id b m t bid :
  NewBid id b m t = Ok bid → bid = mkBid id b m t.
Proof. unfold NewBid. case_match; by intros [= ->]. Qed.

Lemma MinimalNextBid_not_Fail a e : MinimalNextBid a ≠ Fail e.
Proof. unfold MinimalNextBid, Money_Add. repeat case_match; by intros [=]. Qed.



Lemma PlaceBid_ok_inv id b amount now a bid a' :
  PlaceBid id b amount now a = (Ok bid, a') →
  IsZero b = false ∧ acceptable a id b amount now
  ∧ bid = mkBid id (bd_id b) amount now ∧ a' = accept bid now a.
Proof.
  unfold PlaceBid, record. intros H. inv_ok H.
  all: repeat match goal with
       | H : _ ∨ (∃ _, _) ∧ _ |- _ => destruct H as [?|[[? ?] ?]]; simplify_eq/=
       | H : NewBid _ _ _ _ = Ok _ |- _ =>
           pose proof (NewBid_ok _ _ _ _ _ H); subst; revert H
       end; intros Hbid.
  all: split_and!; try done;
    [| unfold accept, extends, EndsAt;
       repeat match goal with E : AntiSnipePolicy_TriggersAt _ _ _ = _ |- _ => rewrite E
         | E : (_ && _)%bool = _ |- _ => rewrite E end;
       rewrite ?set_events_twice, <-?app_assoc; reflexivity].
  all: breflect; simplify_eq; constructor; unfold Auction_IsOpenAt;
    rewrite ?andb_true_iff, ?bool_decide_eq_true; eauto 3.
Qed.

(** Nothing else is asked of a bid: an acceptable bid is accepted. *)
Lemma PlaceBid_accepts id b amount now a :
  IsZero b = false → acceptable a id b amount now →
  PlaceBid id b amount now a =
    (Ok (mkBid id (bd_id b) amount now), accept (mkBid id (bd_id b) amount now) now a).
Proof.
  intros Hb [Hopen Hs Hl Hc (m & Hm & Hge) Hv Hbid].
  unfold Auction_IsOpenAt in Hopen.
  apply andb_true_iff in Hopen as [Hst%bool_decide_eq_true Hopen].
  unfold PlaceBid, record. run_go.
  rewrite Hb, (bool_decide_eq_false_2 (a_status a ≠ StatusListed)) by auto.
  rewrite Hopen; simpl. rewrite (bool_decide_eq_false_2 _ Hs).
  assert (negb (IsZero (a_leadingBid a))
          && bool_decide (b_bidder (a_leadingBid a) = bd_id b) = false) as ->.
  { destruct Hl as [->|Hl]; [by rewrite IsZero_zero|].
    by rewrite (bool_decide_eq_false_2 _ Hl), andb_false_r. }
  rewrite (bool_decide_eq_false_2 (m_currency amount ≠ _)) by auto.
  rewrite Hm, Hge; simpl. run_go.
  destruct (bd_verified b);
    [|destruct Hv as [?|Hv]; [done|rewrite Hv]]; simpl;
    run_go; rewrite Hbid; run_go; unfold accept, extends, EndsAt;
    destruct (AntiSnipePolicy_TriggersAt _ _ _ && _); run_go; simpl;
    rewrite ?set_events_twice, <-?app_assoc; reflexivity.
Qed.

Lemma Cancel_ok_inv s now a x a' :
  Cancel s now a = (Ok x, a') →
  s = a_seller a ∧ a_status a = StatusListed ∧ HasBids a = false
  ∧ a' = set_events (a_events a ++ [AuctionCancelled now]) (set_status StatusCancelled a).
Proof.
  unfold Cancel, record, unknown_status, CanSellerManageAuction. intros H. inv_ok H.
  case_bool_decide as Hs; [done|].
  destruct (a_status a) eqn:Est; inv_ok H. by simplify_eq/=.
Qed.

Definition sells (a : Auction) : bool :=
  negb (IsZero (a_leadingBid a)) && ReservePrice_MetBy (a_reserve a) (b_amount (a_leadingBid a)).

Definition closing_result (a : Auction) : ClosingResult :=
  mkClosingResult (if sells a then OutcomeSold else OutcomeNotSold)
    (if sells a then a_leadingBid a else zero_value) (a_runnerUpBid a)
    (negb (IsZero (a_runnerUpBid a))
     && ReservePrice_MetBy (a_reserve a) (b_amount (a_runnerUpBid a))).

Lemma Close_ok_inv now a r a' :
  Close now a = (Ok r, a') →
  a_status a = StatusListed ∧ EndsAt a ≤ now ∧ r = closing_result a
  ∧ a' = set_events (a_events a ++ [AuctionClosed r now])
           (set_outcome (if sells a then OutcomeSold else OutcomeNotSold)
              (set_status StatusClosed a)).
Proof.
  unfold Close, record, unknown_status, time_Before. intros H. inv_ok H.
  destruct (a_status a) eqn:Est; inv_ok H. unfold EndsAt. breflect. by simplify_eq/=.
Qed.

Lemma AwardToRunnerUp_ok_inv now a b a' :
  AwardToRunnerUp now a = (Ok b, a') →
  a_status a = StatusClosed ∧ a_winnerReassigned a = false ∧ a_settled a = false
  ∧ a_outcome a = OutcomeSold ∧ a_runnerUpBid a ≠ zero_value ∧ b = a_runnerUpBid a
  ∧ a' = set_events (a_events a ++ [WinnerReassigned b now])
           (set_winnerReassigned true
              (set_runnerUpBid zero_value (set_leadingBid (a_runnerUpBid a) a))).
Proof.
  unfold AwardToRunnerUp, record, unknown_status. intros H. inv_ok H.
  destruct (a_status a) eqn:Est; inv_ok H. breflect. by simplify_eq/=.
Qed.

Lemma ConfirmSettlement_ok_inv now a x a' :
  ConfirmSettlement now a = (Ok x, a') →
  a_status a = StatusClosed ∧ a_outcome a = OutcomeSold ∧ a_settled a = false
  ∧ a' = set_events (a_events a ++ [SaleSettled now]) (set_settled true a).
Proof.
  unfold ConfirmSettlement, record, unknown_status. intros H. inv_ok H.
  destruct (a_status a) eqn:Est; inv_ok H. breflect. by simplify_eq/=.
Qed.

Lemma FailSale_ok_inv r now a x a' :
  FailSale r now a = (Ok x, a') →
  r ≠ zero_value ∧ a_status a = StatusClosed ∧ a_outcome a ≠ OutcomeNotSold
  ∧ a_settled a = false
  ∧ a' = set_events (a_events a ++ [SaleFailed r now])
           (set_settled true (set_outcome OutcomeNotSold a)).
Proof.
  unfold FailSale, record, unknown_status. intros H. inv_ok H.
  destruct (a_status a) eqn:Est; inv_ok H. breflect. by simplify_eq/=.
Qed.

(** ** The invariant of the aggregate *)

(** A stored bid: in the auction's currency, at least the start price, never
    the seller's. *)
Record good_bid (a : Auction) (b : Bid) : Prop := {
  gb_currency : m_currency (b_amount b) = m_currency (a_startPrice a);
  gb_amount : m_amount (a_startPrice a) ≤ m_amount (b_amount b) ≤ int64_max;
  gb_bidder : b_bidder b ≠ zero_value;
  gb_not_seller : BidderID_UUID (b_bidder b) ≠ SellerID_UUID (a_seller a);
}.

(** What the constructors and [New] establish once and for all. *)
Record Static (a : Auction) : Prop := {
  st_id : a_id a ≠ zero_value;
  st_seller : a_seller a ≠ zero_value;
  st_currency : m_currency (a_startPrice a) ≠ zero_value;
  st_start : 0 < m_amount (a_startPrice a) ≤ int64_max;
  st_increment : 0 < m_amount (a_increment a) ≤ int64_max
    ∧ m_currency (a_increment a) = m_currency (a_startPrice a);
  st_reserve : a_reserve a = zero_value
    ∨ (0 < m_amount (r_price (a_reserve a))
       ∧ m_currency (r_price (a_reserve a)) = m_currency (a_startPrice a));
  st_policy : 0 < p_window (a_antiSnipe a) ∧ 0 < p_extension (a_antiSnipe a)
    ∧ 0 ≤ p_maxExtensions (a_antiSnipe a) ≤ int64_max;
  st_verify : m_currency (a_verifyAbove a) = m_currency (a_startPrice a);
  st_gen : (a_relistGen a = 0 ∧ a_relistOf a = zero_value)
    ∨ (a_relistGen a = 1 ∧ a_relistOf a ≠ zero_value);
  st_version : 1 ≤ a_version a;
}.

Record Window (a : Auction) : Prop := {
  wi_open : 0 < w_startsAt (a_window a) < w_originalEndsAt (a_window a);
  wi_used : 0 ≤ a_extensionsUsed a ≤ p_maxExtensions (a_antiSnipe a);
  wi_end : w_endsAt (a_window a) =
    w_originalEndsAt (a_window a) + a_extensionsUsed a * p_extension (a_antiSnipe a);
}.

Record Bids (a : Auction) : Prop := {
  bi_leading : a_leadingBid a = zero_value ∨ good_bid a (a_leadingBid a);
  bi_runner : a_runnerUpBid a = zero_value
    ∨ (good_bid a (a_runnerUpBid a)
       ∧ m_amount (b_amount (a_runnerUpBid a)) + m_amount (a_increment a)
           ≤ m_amount (b_amount (a_leadingBid a))
       ∧ b_bidder (a_leadingBid a) ≠ b_bidder (a_runnerUpBid a));
  bi_count : 0 ≤ a_bidCount a ≤ int64_max;
  bi_none : a_leadingBid a = zero_value ↔ a_bidCount a = 0;
}.

Record Lifecycle (a : Auction) : Prop := {
  lc_status : a_status a ≠ zero_value;
  lc_open : a_status a ≠ StatusClosed →
    a_outcome a = OutcomeZero ∧ a_settled a = false ∧ a_winnerReassigned a = false;
  lc_closed : a_status a = StatusClosed → a_outcome a ≠ OutcomeZero;
  lc_sold : a_outcome a = OutcomeSold → a_leadingBid a ≠ zero_value;
  lc_reserve : a_outcome a = OutcomeSold → a_winnerReassigned a = false →
    ReservePrice_MetBy (a_reserve a) (b_amount (a_leadingBid a)) = true;
  lc_reassigned : a_winnerReassigned a = true →
    a_leadingBid a ≠ zero_value ∧ a_runnerUpBid a = zero_value;
}.

(** What remains of [Bids] when the minimum of a bid has wrapped around:
    everything but the amounts and the counter. *)
Record sound_bid (a : Auction) (b : Bid) : Prop := {
  nb_currency : m_currency (b_amount b) = m_currency (a_startPrice a);
  nb_bidder : b_bidder b ≠ zero_value;
  nb_not_seller : BidderID_UUID (b_bidder b) ≠ SellerID_UUID (a_seller a);
}.

Record SoundBids (a : Auction) : Prop := {
  sbs_leading : a_leadingBid a = zero_value ∨ sound_bid a (a_leadingBid a);
  sbs_runner : a_runnerUpBid a = zero_value
    ∨ (sound_bid a (a_runnerUpBid a) ∧ a_leadingBid a ≠ zero_value
       ∧ b_bidder (a_leadingBid a) ≠ b_bidder (a_runnerUpBid a));
}.

(** The invariant of every call, and the one of the calls in range. *)
Record Sound (a : Auction) : Prop := {
  sound_static : Static a;
  sound_window : Window a;
  sound_bids : SoundBids a;
  sound_lifecycle : Lifecycle a;
}.

Record Inv (a : Auction) : Prop := {
  inv_sound : Sound a;
  inv_bids : Bids a;
  inv_cancelled : a_status a = StatusCancelled → a_bidCount a = 0;
}.

(** The calls in range: amounts fit in an [int64], and
    accepting one more bid does not overflow the two sums [PlaceBid] makes. *)
Definition call_ok (c : call) (a : Auction) : Prop :=
  match c with
  | CPlaceBid _ _ amount _ => m_amount amount ≤ int64_max ∧ headroom a
  | _ => True
  end.

Lemma good_sound a b : good_bid a b → sound_bid a b.
Proof. by intros []. Qed.

Lemma sound_bid_ext a a' b :
  a_startPrice a' = a_startPrice a → a_seller a' = a_seller a →
  sound_bid a b → sound_bid a' b.
Proof. intros Hs Hl [? ? ?]. constructor; by rewrite ?Hs, ?Hl. Qed.

Lemma good_bid_ext a a' b :
  a_startPrice a' = a_startPrice a → a_seller a' = a_seller a →
  good_bid a b → good_bid a' b.
Proof. intros Hs Hl [? ? ? ?]. constructor; by rewrite ?Hs, ?Hl. Qed.

Lemma MinimalNextBid_ideal a m :
  Static a → Bids a → headroom a → MinimalNextBid a = Ok m →
  m_amount m = ideal_min a ∧ m_currency m = m_currency (a_startPrice a).
Proof.
  intros Hst Hb [Hh _]. unfold MinimalNextBid, ideal_min, Money_Add.
  destruct (IsZero (a_leadingBid a)) eqn:E; [by intros [= <-]|].
  case_bool_decide; [done|]. intros [= <-]; simpl.
  destruct (bi_leading a Hb) as [Hz|[Hc Ha _ _]].
  { apply IsZero_false in E. done. }
  pose proof (st_increment a Hst). pose proof (st_start a Hst).
  split; [|done]. apply wrap64_small. unfold in_int64, int64_min in *. lia.
Qed.

Lemma accepted_amount a id b amount now :
  Static a → Bids a → headroom a → acceptable a id b amount now →
  ideal_min a ≤ m_amount amount.
Proof.
  intros Hst Hb Hh Hacc. destruct (acc_minimum _ _ _ _ _ Hacc) as (m & Hm & Hge).
  destruct (MinimalNextBid_ideal a m) as [<- _]; try done.
  unfold Money_GTE in Hge. case_bool_decide; [done|]. injection Hge as Hge.
  by breflect.
Qed.

Lemma accepted_good a id b amount now :
  Static a → Bids a → headroom a → m_amount amount ≤ int64_max →
  acceptable a id b amount now → good_bid a (mkBid id (bd_id b) amount now).
Proof.
  intros Hst Hb Hh Hmax Hacc.
  pose proof (accepted_amount _ _ _ _ _ Hst Hb Hh Hacc) as Hmin.
  destruct Hacc as [_ Hs _ Hc _ _ Hbid].
  unfold NewBid in Hbid. case_match; [done|]. breflect.
  constructor; simpl; try done. split; [|done].
  unfold ideal_min in Hmin. destruct (IsZero (a_leadingBid a)) eqn:E; [done|].
  pose proof (st_increment a Hst).
  destruct (bi_leading a Hb) as [?|Hg]; [by apply IsZero_false in E|].
  pose proof (gb_amount _ _ Hg). lia.
Qed.

(** *** The invariant is established *)

Definition valid_rules (r : ListingRules) : Prop :=
  0 < p_window (lr_antiSnipe r) ∧ 0 < p_extension (lr_antiSnipe r)
  ∧ 0 ≤ p_maxExtensions (lr_antiSnipe r) ≤ int64_max
  ∧ m_currency (lr_verifyAbove r) = lr_currency r.

Definition fresh_window (w : BiddingWindow) : Prop :=
  0 < w_startsAt w < w_endsAt w ∧ w_originalEndsAt w = w_endsAt w.

Lemma NewListingRules_valid c va p r pw pe pm :
  NewAntiSnipePolicy pw pe pm = Ok p → pm ≤ int64_max →
  NewListingRules c va p = Ok r → valid_rules r.
Proof.
  unfold NewAntiSnipePolicy, NewListingRules, valid_rules. intros Hp Hm Hr.
  repeat case_match; simplify_eq/=. breflect. split_and!; lia || done.
Qed.

Record Fresh (a : Auction) : Prop := {
  fr_status : a_status a = StatusListed;
  fr_outcome : a_outcome a = OutcomeZero;
  fr_leading : a_leadingBid a = zero_value;
  fr_runner : a_runnerUpBid a = zero_value;
  fr_reassigned : a_winnerReassigned a = false;
  fr_settled : a_settled a = false;
  fr_count : a_bidCount a = 0;
  fr_used : a_extensionsUsed a = 0;
}.

Lemma Fresh_Inv a : Static a → fresh_window (a_window a) → Fresh a → Inv a.
Proof.
  intros Hst [Hw Ho] [Hs Hoc Hl Hr Hre Hse Hc Hu].
  pose proof (st_policy a Hst).
  split; [split; [done|constructor|constructor|constructor]|constructor|];
    rewrite ?Hs, ?Hoc, ?Hl, ?Hr, ?Hre, ?Hse, ?Hc, ?Hu, ?Ho; try done; try lia; auto.
Qed.

Lemma New_Inv id seller lot sp inc rsv w rules now a :
  m_amount sp ≤ int64_max → m_amount inc ≤ int64_max →
  m_currency sp ≠ zero_value → valid_rules rules → fresh_window w →
  (rsv = zero_value ∨ 0 < m_amount (r_price rsv)) →
  New id seller lot sp inc rsv w rules now = Ok a → Inv a ∧ Fresh a.
Proof.
  unfold New, closure, record, modify. intros Hsp Hinc Hc Hvr Hw Hrs H.
  repeat (case_match; [done|]). simpl in H. injection H as <-.
  destruct Hvr as (?&?&?&?).
  assert (rsv = zero_value ∨
          0 < m_amount (r_price rsv) ∧ m_currency (r_price rsv) = m_currency sp) as Hrsv.
  { destruct Hrs as [?|?]; [by left|].
    destruct (IsZero rsv) eqn:E; [left; by apply IsZero_true|].
    simpl in H8. breflect. auto. }
  clear H8 Hrs. breflect.
  match goal with |- Inv ?a ∧ _ => enough (Fresh a ∧ Static a) as [Hf Hst] end.
  { split; [by apply Fresh_Inv|done]. }
  split; constructor; simpl; try done; try lia; auto; congruence.
Qed.

Lemma RelistedFrom_Inv orig newID w now a :
  Static orig → fresh_window w →
  RelistedFrom (Some orig) newID w now = Ok a → Inv a ∧ Fresh a.
Proof.
  unfold RelistedFrom, closure, record, modify. intros Hst Hw H.
  repeat (case_match; [done|]). simpl in H. injection H as <-. breflect.
  match goal with |- Inv ?a ∧ _ => enough (Fresh a ∧ Static a) as [Hf Hst'] end.
  { split; [by apply Fresh_Inv|done]. }
  destruct Hst as [? ? ? ? ? ? ? ? Hgen ?].
  split; constructor; simpl; auto; [|lia].
  right. destruct Hgen as [[E _]|[E _]]; [by rewrite E|lia].
Qed.

(** *** The invariant is preserved *)

(** A call changes none of the fields fixed at listing. *)
Record same_listing (a a' : Auction) : Prop := {
  sl_id : a_id a' = a_id a;
  sl_seller : a_seller a' = a_seller a;
  sl_lot : a_lot a' = a_lot a;
  sl_start : a_startPrice a' = a_startPrice a;
  sl_increment : a_increment a' = a_increment a;
  sl_reserve : a_reserve a' = a_reserve a;
  sl_policy : a_antiSnipe a' = a_antiSnipe a;
  sl_verify : a_verifyAbove a' = a_verifyAbove a;
  sl_relistOf : a_relistOf a' = a_relistOf a;
  sl_relistGen : a_relistGen a' = a_relistGen a;
  sl_version : a_version a' = a_version a;
  sl_startsAt : w_startsAt (a_window a') = w_startsAt (a_window a);
  sl_original : w_originalEndsAt (a_window a') = w_originalEndsAt (a_window a);
}.

Lemma same_listing_refl a : same_listing a a.
Proof. by constructor. Qed.

Lemma accept_same_listing bid now a : same_listing a (accept bid now a).
Proof. unfold accept. constructor; simpl; try done; by destruct (extends a now). Qed.

Lemma Static_same a a' : same_listing a a' → Static a → Static a'.
Proof.
  intros [] []. constructor; by
    repeat match goal with E : _ a' = _ a |- _ => rewrite !E; clear E end.
Qed.

(** What an [Ok] call of each kind did. *)
Lemma run_ok_inv c a x a' :
  run c a = (Ok x, a') →
  match c with
  | CPlaceBid id b amount now =>
      acceptable a id b amount now ∧ a' = accept (mkBid id (bd_id b) amount now) now a
  | CCancel s now => HasBids a = false ∧ a_status a = StatusListed
      ∧ a' = set_events (a_events a ++ [AuctionCancelled now]) (set_status StatusCancelled a)
  | CClose now => a_status a = StatusListed ∧ ∃ r,
      a' = set_events (a_events a ++ [AuctionClosed r now])
             (set_outcome (if sells a then OutcomeSold else OutcomeNotSold)
                (set_status StatusClosed a))
  | CAwardToRunnerUp now => a_status a = StatusClosed ∧ a_runnerUpBid a ≠ zero_value ∧ ∃ b,
      a' = set_events (a_events a ++ [WinnerReassigned b now])
             (set_winnerReassigned true
                (set_runnerUpBid zero_value (set_leadingBid (a_runnerUpBid a) a)))
  | CConfirmSettlement now => a_status a = StatusClosed
      ∧ a' = set_events (a_events a ++ [SaleSettled now]) (set_settled true a)
  | CFailSale r now => a_status a = StatusClosed
      ∧ a' = set_events (a_events a ++ [SaleFailed r now])
               (set_settled true (set_outcome OutcomeNotSold a))
  end.
Proof.
  destruct c; simpl; intros H; try (apply forget_ok in H as [y H]).
  - apply PlaceBid_ok_inv in H as (_ & ? & -> & ?). auto.
  - apply Cancel_ok_inv in H as (_ & ? & ? & ?). auto.
  - apply Close_ok_inv in H as (? & _ & _ & ?). eauto.
  - apply AwardToRunnerUp_ok_inv in H as (? & _ & _ & _ & ? & _ & ?). eauto.
  - apply ConfirmSettlement_ok_inv in H as (? & _ & _ & ?). eauto.
  - apply FailSale_ok_inv in H as (_ & ? & _ & _ & ?). eauto.
Qed.

Lemma run_ok_same_listing c a x a' : run c a = (Ok x, a') → same_listing a a'.
Proof.
  intros H%run_ok_inv. destruct c; [destruct H as [_ ->]; apply accept_same_listing|..];
    break; by constructor.
Qed.

Lemma extends_policy a now :
  extends a now = true → a_extensionsUsed a < p_maxExtensions (a_antiSnipe a).
Proof. unfold extends. intros ?. by breflect. Qed.

Lemma accept_Window bid now a : Static a → Window a → Window (accept bid now a).
Proof.
  intros Hst [Ho Hu He]. pose proof (st_policy a Hst) as (_ & _ & Hm).
  unfold accept. destruct (extends a now) eqn:E; [|by constructor].
  apply extends_policy in E.
  assert (wrap64 (a_extensionsUsed a + 1) = a_extensionsUsed a + 1) as Hw.
  { apply wrap64_small. unfold in_int64, int64_min in *. lia. }
  constructor; simpl; rewrite ?Hw; [done|lia|]. unfold time_Add. lia.
Qed.

Lemma accept_Bids id b amount now a :
  Static a → Bids a → m_amount amount ≤ int64_max → headroom a →
  acceptable a id b amount now → Bids (accept (mkBid id (bd_id b) amount now) now a).
Proof.
  intros Hst Hb Hmax Hh Hacc.
  pose proof (accepted_good _ _ _ _ _ Hst Hb Hh Hmax Hacc) as Hg.
  pose proof (accepted_amount _ _ _ _ _ Hst Hb Hh Hacc) as Hmin.
  pose proof (accept_same_listing (mkBid id (bd_id b) amount now) now a) as Hsl.
  destruct Hb as [Hl Hr Hc Hn], Hh as [_ Hh].
  assert (wrap64 (a_bidCount a + 1) = a_bidCount a + 1) as Hw.
  { apply wrap64_small. unfold in_int64, int64_min in *. lia. }
  constructor; simpl; rewrite ?Hw; [|  |lia|].
  - right. by eapply good_bid_ext; [apply Hsl..|].
  - destruct Hl as [->|Hl]; [by left|right].
    assert (IsZero (a_leadingBid a) = false) as Hnz.
    { apply IsZero_false. intros Hz. apply (gb_bidder _ _ Hl). by rewrite Hz. }
    unfold ideal_min in Hmin. rewrite Hnz in Hmin.
    split_and!; [by eapply good_bid_ext; [apply Hsl..|]|done|].
    destruct (acc_not_leader _ _ _ _ _ Hacc) as [Hz|]; [|done].
    by apply IsZero_false in Hnz.
  - split; [|lia]. intros Hz. exfalso. apply (gb_bidder _ _ Hg).
    by injection Hz as _ -> _ _.
Qed.

Lemma Bids_same a a' :
  same_listing a a' → a_leadingBid a' = a_leadingBid a →
  a_runnerUpBid a' = a_runnerUpBid a → a_bidCount a' = a_bidCount a → Bids a → Bids a'.
Proof.
  intros Hsl El Er Ec [Hl Hr Hc Hn].
  constructor; rewrite ?El, ?Er, ?Ec, ?(sl_increment _ _ Hsl); try done.
  - destruct Hl; [by left|right]. by eapply good_bid_ext; [apply Hsl..|].
  - destruct Hr as [?|[??]]; [by left|right]. split; [|done].
    by eapply good_bid_ext; [apply Hsl..|].
Qed.

(** There is no second bid without a first. *)
Lemma runner_leading a : SoundBids a →
  a_runnerUpBid a ≠ zero_value → a_leadingBid a ≠ zero_value.
Proof. intros [_ [?|(_ & ? & _)]]; done. Qed.

Lemma accepted_sound a id b amount now :
  acceptable a id b amount now → sound_bid a (mkBid id (bd_id b) amount now).
Proof.
  intros [_ Hs _ Hc _ _ Hbid]. unfold NewBid in Hbid. case_match; [done|]. breflect.
  by constructor.
Qed.

Lemma sound_nonzero a b : sound_bid a b → b ≠ zero_value.
Proof. intros Hb ->. by apply (nb_bidder _ _ Hb). Qed.

Lemma accept_SoundBids id b amount now a :
  SoundBids a → acceptable a id b amount now →
  SoundBids (accept (mkBid id (bd_id b) amount now) now a).
Proof.
  intros [Hl _] Hacc. pose proof (accepted_sound _ _ _ _ _ Hacc) as Hg.
  pose proof (accept_same_listing (mkBid id (bd_id b) amount now) now a) as Hsl.
  constructor; simpl; [right; by eapply sound_bid_ext; [apply Hsl..|]|].
  destruct (acc_not_leader _ _ _ _ _ Hacc) as [->|Hn]; [by left|].
  destruct Hl as [->|Hl]; [by left|right]. split_and!; [|by eapply sound_nonzero|done].
  by eapply sound_bid_ext; [apply Hsl..|].
Qed.

Lemma SoundBids_same a a' :
  same_listing a a' → a_leadingBid a' = a_leadingBid a →
  a_runnerUpBid a' = a_runnerUpBid a → SoundBids a → SoundBids a'.
Proof.
  intros Hsl El Er [Hl Hr]. constructor; rewrite ?El, ?Er.
  - destruct Hl; [by left|right]. by eapply sound_bid_ext; [apply Hsl..|].
  - destruct Hr as [?|[??]]; [by left|right]. split; [|done].
    by eapply sound_bid_ext; [apply Hsl..|].
Qed.

Lemma run_SoundBids c a x a' : SoundBids a → run c a = (Ok x, a') → SoundBids a'.
Proof.
  intros Hb Hrun. pose proof (run_ok_same_listing _ _ _ _ Hrun) as Hsl.
  apply run_ok_inv in Hrun.
  destruct c; break; try (by apply (SoundBids_same a)); [by apply accept_SoundBids|].
  destruct (sbs_runner a Hb) as [?|(Hg & _)]; [done|].
  constructor; simpl; [right|by left]. by eapply sound_bid_ext; [apply Hsl..|].
Qed.

Lemma run_Bids c a x a' :
  Static a → SoundBids a → Bids a → call_ok c a → run c a = (Ok x, a') → Bids a'.
Proof.
  intros Hst Hsb Hb Hok Hrun. pose proof (run_ok_same_listing _ _ _ _ Hrun) as Hsl.
  apply run_ok_inv in Hrun.
  destruct c; break; try (by apply (Bids_same a)); [destruct Hok; by apply accept_Bids|].
  assert (Hlz : a_leadingBid a ≠ zero_value) by (by apply runner_leading).
  destruct (bi_runner a Hb) as [?|(Hg & _ & _)]; [done|].
  constructor; simpl; [right|by left|apply Hb|].
  - by eapply good_bid_ext; [apply Hsl..|].
  - split; [done|]. intros ?. exfalso. by apply Hlz, (bi_none a Hb).
Qed.

Lemma HasBids_false a : Bids a → HasBids a = false → a_bidCount a = 0.
Proof. intros Hb ?. unfold HasBids in *. pose proof (bi_count a Hb). breflect. lia. Qed.

Lemma run_Lifecycle c a x a' :
  SoundBids a → Lifecycle a → run c a = (Ok x, a') → Lifecycle a'.
Proof.
  intros Hb [Hs Ho Hcl Hso Hre Hra] Hrun. apply run_ok_inv in Hrun.
  destruct c.
  - destruct Hrun as [Hacc ->].
    assert (a_status a = StatusListed) as Hst'.
    { pose proof (acc_open _ _ _ _ _ Hacc). unfold Auction_IsOpenAt in *. by breflect. }
    destruct Ho as (Hoc & Hse & Hwr); [by rewrite Hst'|].
    constructor; simpl; rewrite ?Hst', ?Hoc, ?Hse, ?Hwr; done.
  - break. destruct Ho as (Hoc & Hse & Hwr); [congruence|].
    constructor; simpl; rewrite ?Hoc, ?Hse, ?Hwr; done.
  - break. destruct Ho as (Hoc & Hse & Hwr); [congruence|].
    unfold sells. destruct (negb _ && _) eqn:E; breflect;
      constructor; simpl; rewrite ?Hwr; done.
  - break. pose proof (runner_leading a Hb H0).
    constructor; simpl; intros; try congruence; auto.
  - break. constructor; simpl; intros; try congruence; auto.
  - break. constructor; simpl; intros; try congruence; auto.
Qed.

(** The panics of the aggregate are unreachable. *)
Lemma MinimalNextBid_no_panic a p : Static a → SoundBids a → MinimalNextBid a ≠ Panic p.
Proof.
  intros Hst Hb. unfold MinimalNextBid, Money_Add.
  destruct (IsZero (a_leadingBid a)) eqn:E; [done|]. case_bool_decide as Hc; [|done].
  destruct Hc. destruct (sbs_leading a Hb) as [?|Hg]; [by apply IsZero_false in E|].
  rewrite (nb_currency _ _ Hg). by destruct (st_increment a Hst) as [_ ->].
Qed.

Lemma Money_GTE_no_panic m o p : Money_GTE m o ≠ Panic p.
Proof. unfold Money_GTE. by case_bool_decide. Qed.

Lemma NewBid_no_panic id b m t p : NewBid id b m t ≠ Panic p.
Proof. unfold NewBid. by case_match. Qed.

Lemma PlaceBid_panic_inv id b amount now a p a' :
  PlaceBid id b amount now a = (Panic p, a') → ∃ q, MinimalNextBid a = Panic q.
Proof.
  unfold PlaceBid. run_go.
  repeat (case_match; run_go; unfold test, throw_if; try (by intros [=]));
    try (by eauto); try (by exfalso; eapply Money_GTE_no_panic);
    try (by exfalso; eapply NewBid_no_panic).
Qed.

Lemma PlaceBid_no_panic id b amount now a p a' :
  Static a → SoundBids a → PlaceBid id b amount now a ≠ (Panic p, a').
Proof. intros Hst Hb [q Hq]%PlaceBid_panic_inv. by eapply MinimalNextBid_no_panic. Qed.

Lemma run_no_panic c a p a' : Sound a → run c a ≠ (Panic p, a').
Proof.
  intros [Hst _ Hb [Hs _ _ _ _ _]]. destruct c; simpl; unfold forget.
  - destruct (PlaceBid _ _ _ _ a) as [[] ?] eqn:E; simpl; try by intros [=].
    exfalso. by eapply PlaceBid_no_panic.
  - unfold Cancel, CanSellerManageAuction. solve_method; by intros [=].
  - unfold Close. destruct (a_status a) eqn:E; try done; run_go; rewrite E; solve_method;
      by intros [=].
  - unfold AwardToRunnerUp. solve_method; by intros [=].
  - unfold ConfirmSettlement. solve_method; by intros [=].
  - unfold FailSale. solve_method; by intros [=].
Qed.

Lemma run_Sound c a r a' : Sound a → run c a = (r, a') → Sound a'.
Proof.
  intros Hi Hrun. pose proof Hi as [Hst Hw Hb Hl].
  destruct r as [x|e|p]; [|by apply run_fail in Hrun as ->|by apply run_no_panic in Hrun].
  pose proof (run_ok_same_listing _ _ _ _ Hrun) as Hsl.
  split; [by eapply Static_same| |by eapply run_SoundBids|by eapply run_Lifecycle].
  apply run_ok_inv in Hrun. destruct c; break; [by apply accept_Window|..];
    destruct Hw; by constructor.
Qed.

Lemma run_cancelled c a x a' :
  Sound a → Bids a → run c a = (Ok x, a') →
  a_status a' = StatusCancelled → a_bidCount a' = 0.
Proof.
  intros Hs Hb Hrun%run_ok_inv Hca. destruct c; break; simpl in *; try congruence.
  - pose proof (acc_open _ _ _ _ _ H). unfold Auction_IsOpenAt in *. breflect. congruence.
  - by apply HasBids_false.
Qed.

Lemma run_Inv c a r a' : Inv a → call_ok c a → run c a = (r, a') → Inv a'.
Proof.
  intros [Hi Hb Hca] Hok Hrun.
  destruct r as [x|e|p]; [|by apply run_fail in Hrun as ->|by apply run_no_panic in Hrun].
  split; [by eapply run_Sound|by eapply run_Bids; [apply Hi|apply Hi|..]|by eapply run_cancelled].
Qed.

(** ** Reachable states

    An auction comes from one of the factories, with arguments built by the
    value objects' constructors, then lives through calls; the repository
    drains its events and bumps its version between two of them. *)
Inductive reached (ok : call → Auction → Prop) : Auction → Prop :=
| reach_New id seller lot sp inc rsv w rules now a :
    m_amount sp ≤ int64_max → m_amount inc ≤ int64_max → m_currency sp ≠ zero_value →
    valid_rules rules → fresh_window w → (rsv = zero_value ∨ 0 < m_amount (r_price rsv)) →
    New id seller lot sp inc rsv w rules now = Ok a → reached ok a
| reach_Relisted orig newID w now a :
    reached ok orig → fresh_window w →
    RelistedFrom (Some orig) newID w now = Ok a → reached ok a
| reach_call c a r a' :
    reached ok a → ok c a → run c a = (r, a') → reached ok a'
| reach_store a v :
    reached ok a → 1 ≤ v → reached ok (set_version v (PullDomainEvents a).2).

(** By any calls, and by calls of which none makes a sum overflow. *)
Definition reachable : Auction → Prop := reached (fun _ _ => True).
Definition reachable_in_range : Auction → Prop := reached call_ok.

Lemma in_range_reachable a : reachable_in_range a → reachable a.
Proof.
  unfold reachable. induction 1;
    [eapply reach_New; [..|eassumption]; done|by eapply reach_Relisted|by eapply (reach_call _ c a)|by apply reach_store].
Qed.

Lemma stored_Sound a v : Sound a → 1 ≤ v → Sound (set_version v (PullDomainEvents a).2).
Proof.
  intros [Hst Hw Hb Hl] Hv. split.
  - destruct Hst; by constructor.
  - destruct Hw; by constructor.
  - destruct Hb as [? Hr]; constructor; simpl; auto.
    + destruct sbs_leading0 as [?|[]]; [by left|right; by constructor].
    + destruct Hr as [?|[[] ?]]; [by left|right; split; [by constructor|done]].
  - destruct Hl; by constructor.
Qed.

Lemma stored_Inv a v : Inv a → 1 ≤ v → Inv (set_version v (PullDomainEvents a).2).
Proof.
  intros [Hs Hb Hc] Hv. split; [by apply stored_Sound| |done].
  destruct Hb as [? Hr ? ?]; constructor; simpl; auto.
  - destruct bi_leading0 as [?|[]]; [by left|right; by constructor].
  - destruct Hr as [?|[[] ?]]; [by left|right; split; [by constructor|done]].
Qed.

Lemma reachable_Sound a : reachable a → Sound a.
Proof.
  induction 1.
  - eapply inv_sound, New_Inv; [..|eassumption]; done.
  - eapply inv_sound, RelistedFrom_Inv; [|eassumption..]. by destruct IHreached.
  - by eapply run_Sound.
  - by apply stored_Sound.
Qed.

Lemma reachable_Inv a : reachable_in_range a → Inv a.
Proof.
  induction 1.
  - by eapply New_Inv; [..|eassumption].
  - eapply RelistedFrom_Inv; [|eassumption..]. by destruct IHreached as [[]].
  - by eapply run_Inv.
  - by apply stored_Inv.
Qed.

(** ** A concrete auction, for the witnesses *)

Module demo.
Definition EUR : Currency := mkCurrency "EUR".
Definition eur (n : Z) : Money := mkMoney n EUR.
Definition policy : AntiSnipePolicy := mkAntiSnipePolicy (60 * Second) (120 * Second) 2.
Definition rules : ListingRules := mkListingRules EUR (eur 100000) policy.
Definition window : BiddingWindow :=
  mkBiddingWindow (1000 * Second) (2000 * Second) (2000 * Second).
Definition a0 : Auction :=
  mkAuction (mkAuctionID 1) (mkSellerID 2) (mkLot "clock" "") (eur 1000) (eur 100)
    (mkReservePrice (eur 1500)) window policy (eur 100000) 0 StatusListed OutcomeZero
    zero_value zero_value false 0 zero_value 0 false 1 [AuctionListed Second].

Lemma a0_New :
  New (mkAuctionID 1) (mkSellerID 2) (mkLot "clock" "") (eur 1000) (eur 100)
    (mkReservePrice (eur 1500)) window rules Second = Ok a0.
Proof. reflexivity. Defined.

Lemma a0_reachable : reachable_in_range a0.
Proof.
  eapply reach_New; [..|exact a0_New]; unfold valid_rules, fresh_window, int64_max, Second;
    simpl; try lia; try done.
Defined.

Definition bidder (n : N) : Bidder := mkBidder (mkBidderID n) false.
Definition bid1 : call := CPlaceBid (mkBidID 11) (bidder 3) (eur 1000) (1500 * Second).
Definition bid2 : call := CPlaceBid (mkBidID 12) (bidder 4) (eur 1600) (1950 * Second).

(** Run a list of calls that all succeed. *)
Definition runs (cs : list call) (a : Auction) : Auction :=
  foldl (fun a c => (run c a).2) a cs.

Fixpoint runs_ok (cs : list call) (a : Auction) : bool :=
  match cs with
  | [] => true
  | c :: cs =>
      match c with
      | CPlaceBid _ _ amount _ =>
          (m_amount amount <=? int64_max)
          && (m_amount (b_amount (a_leadingBid a)) + m_amount (a_increment a) <=? int64_max)
          && (a_bidCount a <? int64_max)
      | _ => true
      end && runs_ok cs (run c a).2
  end.

Lemma runs_reachable cs a :
  reachable_in_range a → runs_ok cs a = true → reachable_in_range (runs cs a).
Proof.
  revert a; induction cs as [|c cs IH]; intros a Ha Hok; [done|].
  cbn [runs_ok] in Hok. apply andb_true_iff in Hok as [Hc Hok].
  apply IH; [|done]. destruct (run c a) as [r a'] eqn:E. simpl.
  eapply reach_call; [exact Ha| |exact E].
  destruct c; try done. breflect. by repeat split.
Qed.

Definition sold : Auction := runs [bid1; bid2; CClose (2200 * Second)] a0.
Lemma sold_reachable : reachable_in_range sold.
Proof. apply runs_reachable; [apply a0_reachable|vm_compute; reflexivity]. Defined.
End demo.

(** ** The properties of the aggregate *)

(** C5: in every state the factories and any calls can reach, the stored bids
    are in the auction's currency, never the seller's, of two different
    bidders, with no second bid without a first; the deadline is the original
    one plus the extensions used; outcome, settlement and reassignment marks
    agree with the status; a first-hand sale meets the reserve.  No method
    panics on such a state, and a method that returns an error has changed
    nothing.  If no bid on the way was accepted with the leading amount plus
    the increment beyond the largest [int64] ([call_ok]; [PlaceBid_overflow]
    shows such a bid), the bids are also at least the start price and one
    increment apart, the counter counts them, and only an auction without bids
    was cancelled. *)
Theorem reachable_sound a c r a' :
  reachable a → run c a = (r, a') →
  Sound a ∧ is_panic r = false ∧ (is_ok r = false → a' = a) ∧ (reachable_in_range a → Inv a).
Proof.
  intros Ha Hr. apply reachable_Sound in Ha. split; [done|].
  destruct r as [x|e|p]; [|split_and!; [done|intros _; by eapply run_fail|]|].
  - split_and!; [done..|apply reachable_Inv].
  - apply reachable_Inv.
  - by apply run_no_panic in Hr.
Qed.

Lemma reachable_sound_witness :
  Inv demo.sold ∧ is_panic (run (CConfirmSettlement 1) demo.sold).1 = false.
Proof.
  destruct (reachable_sound demo.sold (CConfirmSettlement 1) _ _
              (in_range_reachable _ demo.sold_reachable) (surjective_pairing _)) as (_ & H2 & _ & H1).
  exact (conj (H1 demo.sold_reachable) H2).
Defined.

(** C6: [PlaceBid] succeeds exactly on the bids that pass the whole guard
    cascade, and its effect is then fixed: the bid leads, the previous leader
    is the runner-up, the counter is incremented, and the deadline is pushed
    exactly when the bid lands in the snipe window with extensions left. *)
Theorem PlaceBid_spec id b amount now a bid a' :
  PlaceBid id b amount now a = (Ok bid, a') ↔
  IsZero b = false ∧ acceptable a id b amount now
  ∧ bid = mkBid id (bd_id b) amount now ∧ a' = accept bid now a.
Proof.
  split; [apply PlaceBid_ok_inv|]. intros (Hb & Hacc & -> & ->). by apply PlaceBid_accepts.
Qed.

(** The states nothing can leave: the sale settled or failed, or the listing
    was withdrawn. *)
Definition final (a : Auction) : bool :=
  a_settled a || bool_decide (a_outcome a = OutcomeNotSold)
  || bool_decide (a_status a = StatusCancelled).

(** C18: a settled, failed or cancelled auction is final: every later call
    fails and leaves it as it is. *)
Theorem final_is_final a c :
  reachable a → final a = true → ∃ e, run c a = (Fail e, a).
Proof.
  intros Ha%reachable_Sound Hf. destruct (run c a) as [[x|e|p] a'] eqn:Hr.
  - exfalso. destruct (sound_lifecycle a Ha) as [_ Ho _ _ _ _].
    assert (a_status a = StatusListed → final a = false) as HL.
    { intros Hs. destruct Ho as (Hoc & Hse & _); [by rewrite Hs|].
      unfold final. by rewrite Hoc, Hse, Hs. }
    destruct c; simpl in Hr; try (apply forget_ok in Hr as [y Hr]).
    + apply PlaceBid_ok_inv in Hr as (_ & Hacc & _).
      pose proof (acc_open _ _ _ _ _ Hacc) as Hop. unfold Auction_IsOpenAt in Hop.
      breflect. rewrite HL in Hf; done.
    + apply Cancel_ok_inv in Hr as (_ & Hs & _). rewrite HL in Hf; done.
    + apply Close_ok_inv in Hr as (Hs & _). rewrite HL in Hf; done.
    + apply AwardToRunnerUp_ok_inv in Hr as (Hs & _ & Hse & Hoc & _).
      unfold final in Hf. by rewrite Hs, Hse, Hoc in Hf.
    + apply ConfirmSettlement_ok_inv in Hr as (Hs & Hoc & Hse & _).
      unfold final in Hf. by rewrite Hs, Hse, Hoc in Hf.
    + apply FailSale_ok_inv in Hr as (_ & Hs & Hoc & Hse & _).
      unfold final in Hf. rewrite Hs, Hse, (bool_decide_eq_false_2 _ Hoc) in Hf. done.
  - exists e. by rewrite (run_fail _ _ _ _ Hr).
  - by apply run_no_panic in Hr.
Qed.

Definition demo_settled : Auction := demo.runs [CConfirmSettlement (2300 * Second)] demo.sold.

Lemma final_is_final_witness :
  final demo_settled = true ∧ ∃ e, run (CFailSale ReasonPaymentTimeout 5) demo_settled = (Fail e, demo_settled).
Proof.
  split; [vm_compute; reflexivity|].
  apply final_is_final; [|vm_compute; reflexivity].
  apply in_range_reachable, demo.runs_reachable; [apply demo.sold_reachable|vm_compute; reflexivity].
Defined.

(** [MetBy] in words, on an auction that satisfies its invariant. *)
Definition meets_reserve (a : Auction) (b : Bid) : Prop :=
  b ≠ zero_value
  ∧ (a_reserve a = zero_value ∨ m_amount (r_price (a_reserve a)) ≤ m_amount (b_amount b)).

Lemma MetBy_spec a b :
  Static a → (b = zero_value ∨ sound_bid a b) →
  negb (IsZero b) && ReservePrice_MetBy (a_reserve a) (b_amount b) = true ↔ meets_reserve a b.
Proof.
  intros Hst Hb. unfold meets_reserve, ReservePrice_MetBy, Money_GTE.
  rewrite andb_true_iff, negb_true_iff, IsZero_false.
  destruct (IsZero (a_reserve a)) eqn:Er; breflect; [naive_solver|].
  destruct Hb as [->|Hg]; [naive_solver|].
  destruct (st_reserve a Hst) as [?|[_ Hc]]; [done|].
  rewrite bool_decide_eq_false_2 by (rewrite Hc, (nb_currency _ _ Hg); auto).
  rewrite Z.leb_le. naive_solver.
Qed.

(** C13: [Close] gives the verdict of the sale: it sells exactly when there is
    a leading bid that meets the reserve, names the leader as the winner then
    and nobody otherwise, and the second-chance verdict says exactly whether
    the runner-up meets the reserve. *)
Theorem Close_verdict a now r a' :
  reachable a → Close now a = (Ok r, a') →
  EndsAt a ≤ now ∧ a_status a = StatusListed ∧ a_status a' = StatusClosed
  ∧ a_outcome a' = cr_Outcome r
  ∧ (cr_Outcome r = OutcomeSold ∧ cr_Winner r = a_leadingBid a ∧ meets_reserve a (a_leadingBid a)
     ∨ cr_Outcome r = OutcomeNotSold ∧ cr_Winner r = zero_value
       ∧ ¬ meets_reserve a (a_leadingBid a))
  ∧ cr_RunnerUp r = a_runnerUpBid a
  ∧ (cr_RunnerUpQualifies r = true ↔ meets_reserve a (a_runnerUpBid a)).
Proof.
  intros [Hst _ Hb _]%reachable_Sound H.
  apply Close_ok_inv in H as (Hs & He & -> & ->). simpl.
  assert (a_runnerUpBid a = zero_value ∨ sound_bid a (a_runnerUpBid a)) as Hr
    by (destruct (sbs_runner a Hb) as [?|[??]]; auto).
  pose proof (MetBy_spec a _ Hst (sbs_leading a Hb)) as Hl.
  split_and!; [done..| |done|by apply MetBy_spec].
  unfold sells. destruct (_ && _); [left|right]; split_and!; naive_solver.
Qed.

Lemma Close_verdict_witness :
  let a := demo.runs [demo.bid1; demo.bid2] demo.a0 in
  a_outcome (Close (2200 * Second) a).2 = OutcomeSold.
Proof.
  assert (Ha : reachable (demo.runs [demo.bid1; demo.bid2] demo.a0))
    by (apply in_range_reachable, demo.runs_reachable; [apply demo.a0_reachable|vm_compute; reflexivity]).
  eassert (Hc : Close (2200 * Second) (demo.runs [demo.bid1; demo.bid2] demo.a0) = (Ok _, _))
    by (apply run_Ok; vm_compute; reflexivity).
  destruct (Close_verdict _ _ _ _ Ha Hc) as (_ & _ & _ & H & _).
  etransitivity; [|exact H]. cbv zeta. by rewrite Hc.
Defined.

(** C28: bidding ends.  Whatever was bid, once the original deadline and the
    policy's extensions have passed, every bid is refused because the auction
    is not open, and closing succeeds. *)
Theorem bidding_ends a now :
  reachable a → a_status a = StatusListed →
  w_originalEndsAt (a_window a)
    + p_maxExtensions (a_antiSnipe a) * p_extension (a_antiSnipe a) ≤ now →
  (∀ id b amount, IsZero b = false →
     PlaceBid id b amount now a = (Fail ErrAuctionNotOpen, a))
  ∧ ∃ r a', Close now a = (Ok r, a').
Proof.
  intros [Hst [_ Hu He] _ _]%reachable_Sound Hs Hnow.
  pose proof (st_policy a Hst) as (_ & Hext & _).
  assert (w_endsAt (a_window a) ≤ now) as Hend by nia.
  split.
  - intros id b amount Hb. unfold PlaceBid. run_go.
    rewrite Hb, (bool_decide_eq_false_2 (a_status a ≠ StatusListed)) by auto.
    unfold BiddingWindow_IsOpenAt, time_Before.
    assert ((now <? w_endsAt (a_window a)) = false) as -> by (apply Z.ltb_ge; lia).
    by rewrite andb_false_r.
  - unfold Close, time_Before. run_go. rewrite Hs. run_go.
    assert ((now <? w_endsAt (a_window a)) = false) as -> by (apply Z.ltb_ge; lia). eauto.
Qed.

Lemma bidding_ends_witness :
  let a := demo.runs [demo.bid1; demo.bid2] demo.a0 in
  ∃ r a', Close (2240 * Second) a = (Ok r, a').
Proof.
  apply (bidding_ends (demo.runs [demo.bid1; demo.bid2] demo.a0) (2240 * Second)).
  - apply in_range_reachable, demo.runs_reachable; [apply demo.a0_reachable|vm_compute; reflexivity].
  - vm_compute; reflexivity.
  - vm_compute; discriminate.
Defined.

(** [Money.Add] wraps around, so the minimum is not monotone near the end
    of the [int64] range: after a leading bid of the largest amount, a bid of
    one euro is accepted and takes the lead. *)
Theorem PlaceBid_overflow :
  ∃ a id b amount now bid a',
    reachable_in_range a ∧ PlaceBid id b amount now a = (Ok bid, a')
    ∧ m_amount amount < m_amount (b_amount (a_leadingBid a)).
Proof.
  pose (c := CPlaceBid (mkBidID 11) (mkBidder (mkBidderID 3) true) (demo.eur int64_max)
               (1500 * Second)).
  exists (demo.runs [c] demo.a0), (mkBidID 12), (demo.bidder 4), (demo.eur 100), (1600 * Second).
  eexists _, _. split_and!.
  - apply demo.runs_reachable; [apply demo.a0_reachable|vm_compute; reflexivity].
  - vm_compute. reflexivity.
  - vm_compute. reflexivity.
Qed.

(** [AwardToRunnerUp] promotes whatever runner-up there is: the bid it
    sells to may be below the reserve, so "qualifying" is only the caller's
    check of [RunnerUpQualifies]. *)
Theorem AwardToRunnerUp_below_reserve :
  ∃ a now b a',
    reachable a ∧ AwardToRunnerUp now a = (Ok b, a')
    ∧ ReservePrice_MetBy (a_reserve a) (b_amount b) = false.
Proof.
  exists demo.sold, (2300 * Second). eexists _, _.
  split_and!; [apply in_range_reachable, demo.sold_reachable|vm_compute; reflexivity..].
Qed.
End auction_theory.
