(* ===== verification/AuctionRepo.v ===== *)
(** * Storage of auctions

    [internal/auction/adapters]: the domain-to-integration event mapper, the
    storage model [pgAuction] with its two mappings, the in-memory and the
    Postgres repository, and the interface both implement. *)

From stdpp Require Import base numbers list strings gmap fin_maps sorting.
From Stdlib Require Import ZArith Lia.
From S2P Require Import Prelude Errs Postgres Events AuctionDomain.

(** ** The repository interface

    [domain/auction/repository.go] and the closing worker's candidate scan.
    [S] is the state of the store; an update closure is a function from the
    loaded aggregate to the aggregate to store.  [None] is a nil pointer. *)
Class AuctionRepository (S : Type) := {
  repo_Add : option auction.Auction → M S unit;
  repo_Get : auction.AuctionID → S → result auction.Auction;
  repo_Update : auction.AuctionID → auction.Actor →
    (auction.Auction → result auction.Auction) → M S unit;
  repo_UpdateAsSystem : auction.AuctionID →
    (auction.Auction → result auction.Auction) → M S unit;
  repo_DueForClosing : Time → Z → S → result (list auction.AuctionID);
}.

Module auction_repo.
Import auction.
Local Open Scope Z_scope.

(** ** [mapDomainEvent] *)

Section Mapper.
Context `{UUIDLib}.

Definition AuctionID_String (i : AuctionID) : string := uuid_String (AuctionID_UUID i).
Definition SellerID_String (i : SellerID) : string := uuid_String (SellerID_UUID i).
Definition BidderID_String (i : BidderID) : string := uuid_String (BidderID_UUID i).
Definition BidID_String (i : BidID) : string := uuid_String (BidID_UUID i).

(** [n] is the index of the [uuid.NewString()] drawn for the event; [None]
    is the nil return. *)
Definition mapDomainEvent (n : nat) (a : Auction) (e : DomainEvent) : option AuctionEvent :=
  let currency := c_code (m_currency (a_startPrice a)) in
  match e with
  | AuctionListed t =>
      Some (EvAuctionListedV1 (mkAuctionListedV1 (uuid_NewString n)
        (AuctionID_String (a_id a)) (SellerID_String (a_seller a)) (l_title (a_lot a))
        (m_amount (a_startPrice a)) currency (w_startsAt (a_window a))
        (w_endsAt (a_window a)) (a_relistGen a) t))
  | BidPlaced bid outbid newEndsAt extended t =>
      let outbidBidder :=
        if negb (IsZero outbid) then BidderID_String (b_bidder outbid) else "" in
      Some (EvBidPlacedV1 (mkBidPlacedV1 (uuid_NewString n)
        (AuctionID_String (a_id a)) (BidID_String (b_id bid))
        (BidderID_String (b_bidder bid)) (m_amount (b_amount bid)) currency
        (a_bidCount a) extended newEndsAt outbidBidder t))
  | AuctionExtended _ _ => None
  | AuctionCancelled t =>
      Some (EvAuctionCancelledV1 (mkAuctionCancelledV1 (uuid_NewString n)
        (AuctionID_String (a_id a)) (SellerID_String (a_seller a)) t))
  | AuctionClosed r t =>
      let w := cr_Winner r in
      let ru := cr_RunnerUp r in
      Some (EvAuctionClosedV1 (mkAuctionClosedV1 (uuid_NewString n)
        (AuctionID_String (a_id a)) (SellerID_String (a_seller a))
        (Outcome_String (cr_Outcome r))
        (if negb (IsZero w) then BidderID_String (b_bidder w) else "")
        (if negb (IsZero w) then m_amount (b_amount w) else 0)
        currency
        (if negb (IsZero ru) then BidderID_String (b_bidder ru) else "")
        (if negb (IsZero ru) then m_amount (b_amount ru) else 0)
        (cr_RunnerUpQualifies r) (a_relistGen a) t))
  | WinnerReassigned w t =>
      Some (EvWinnerReassignedV1 (mkWinnerReassignedV1 (uuid_NewString n)
        (AuctionID_String (a_id a)) (BidderID_String (b_bidder w))
        (m_amount (b_amount w)) currency t))
  | AuctionRelisted orig new startsAt endsAt t =>
      Some (EvAuctionRelistedV1 (mkAuctionRelistedV1 (uuid_NewString n)
        (AuctionID_String orig) (AuctionID_String new) startsAt endsAt t))
  | SaleSettled t =>
      Some (EvSaleSettledV1 (mkSaleSettledV1 (uuid_NewString n)
        (AuctionID_String (a_id a)) (BidderID_String (b_bidder (a_leadingBid a))) t))
  | SaleFailed reason t =>
      Some (EvSaleFailedV1 (mkSaleFailedV1 (uuid_NewString n)
        (AuctionID_String (a_id a)) (FailureReason_String reason) t))
  end.

(** The events [publishMapped] sends, with the identities drawn from [n] on. *)
Fixpoint mapEvents (n : nat) (a : Auction) (es : list DomainEvent)
    : list AuctionEvent * nat :=
  match es with
  | [] => ([], n)
  | e :: es =>
      match mapDomainEvent n a e with
      | None => mapEvents n a es
      | Some ev => let '(evs, n') := mapEvents (S n) a es in (ev :: evs, n')
      end
  end.
End Mapper.

(** ** The storage model *)

Record pgAuction := mkPgAuction {
  p_ID : uuid;
  p_SellerID : uuid;
  p_Title : string;
  p_Description : string;
  p_Currency : string;
  p_StartPriceMinor : Z;
  p_IncrementMinor : Z;
  p_ReservePriceMinor : option Z;
  p_StartsAt : Time;
  p_EndsAt : Time;
  p_OriginalEndsAt : Time;
  p_SnipeWindowSec : Z;
  p_SnipeExtensionSec : Z;
  p_SnipeMaxExt : Z;
  p_VerifyAboveMinor : Z;
  p_ExtensionsUsed : Z;
  p_Status : string;
  p_Outcome : option string;
  p_LeadingBidID : option uuid;
  p_LeadingBidderID : option uuid;
  p_LeadingAmountMinor : option Z;
  p_LeadingPlacedAt : option Time;
  p_RunnerUpBidID : option uuid;
  p_RunnerUpBidderID : option uuid;
  p_RunnerUpAmountMinor : option Z;
  p_RunnerUpPlacedAt : option Time;
  p_WinnerReassigned : bool;
  p_BidCount : Z;
  p_RelistOf : option uuid;
  p_RelistGeneration : Z;
  p_Settled : bool;
  p_Version : Z;
}.

(** [int64(d.Seconds())]: the whole seconds, towards zero. *)
Definition whole_seconds (d : Duration) : Z := Z.quot d Second.

(** [time.Duration(s) * time.Second]. *)
Definition seconds (s : Z) : Duration := wrap64 (s * Second).

Definition opt_unless {A B} `{GoZero A, EqDecision A} (f : A → B) (a : A) : option B :=
  if negb (IsZero a) then Some (f a) else None.

Definition toPgAuction (a : Auction) : pgAuction :=
  mkPgAuction (AuctionID_UUID (a_id a)) (SellerID_UUID (a_seller a))
    (l_title (a_lot a)) (l_description (a_lot a))
    (c_code (m_currency (a_startPrice a)))
    (m_amount (a_startPrice a)) (m_amount (a_increment a))
    (opt_unless (fun r => m_amount (r_price r)) (a_reserve a))
    (w_startsAt (a_window a)) (w_endsAt (a_window a)) (w_originalEndsAt (a_window a))
    (whole_seconds (p_window (a_antiSnipe a)))
    (whole_seconds (p_extension (a_antiSnipe a)))
    (p_maxExtensions (a_antiSnipe a))
    (m_amount (a_verifyAbove a)) (a_extensionsUsed a)
    (Status_String (a_status a)) (opt_unless Outcome_String (a_outcome a))
    (opt_unless (fun b => BidID_UUID (b_id b)) (a_leadingBid a))
    (opt_unless (fun b => BidderID_UUID (b_bidder b)) (a_leadingBid a))
    (opt_unless (fun b => m_amount (b_amount b)) (a_leadingBid a))
    (opt_unless b_placedAt (a_leadingBid a))
    (opt_unless (fun b => BidID_UUID (b_id b)) (a_runnerUpBid a))
    (opt_unless (fun b => BidderID_UUID (b_bidder b)) (a_runnerUpBid a))
    (opt_unless (fun b => m_amount (b_amount b)) (a_runnerUpBid a))
    (opt_unless b_placedAt (a_runnerUpBid a))
    (a_winnerReassigned a) (a_bidCount a)
    (opt_unless AuctionID_UUID (a_relistOf a)) (a_relistGen a) (a_settled a) (a_version a).

Definition bidFromColumns (bidID bidderID : option uuid) (amount : option Z)
    (placedAt : option Time) (currency : Currency) : result Bid :=
  match bidID with
  | None => Ok zero_value
  | Some bidID =>
      match bidderID, amount, placedAt with
      | Some bidderID, Some amount, Some placedAt =>
          typedBidID ← NewBidID bidID;
          typedBidderID ← NewBidderID bidderID;
          money ← NewMoney amount currency;
          NewBid typedBidID typedBidderID money placedAt
      | _, _, _ => Fail (ErrNew "partially populated bid columns")
      end
  end.

Definition toDomainAuction (p : pgAuction) : result Auction :=
  id ← wrap_err "invalid auction id in db" (NewAuctionID (p_ID p));
  seller ← wrap_err "invalid seller id in db" (NewSellerID (p_SellerID p));
  lot ← wrap_err "invalid lot in db" (NewLot (p_Title p) (p_Description p));
  currency ← wrap_err "invalid currency in db" (NewCurrency (p_Currency p));
  startPrice ← wrap_err "invalid start price in db" (NewMoney (p_StartPriceMinor p) currency);
  increment ← wrap_err "invalid increment in db" (NewMoney (p_IncrementMinor p) currency);
  reserve ←
    match p_ReservePriceMinor p with
    | None => Ok NoReserve
    | Some minor =>
        reserveMoney ← wrap_err "invalid reserve in db" (NewMoney minor currency);
        wrap_err "invalid reserve in db" (NewReservePrice reserveMoney)
    end;
  window ← wrap_err "invalid bidding window in db"
    (UnmarshalBiddingWindow (p_StartsAt p) (p_EndsAt p) (p_OriginalEndsAt p));
  antiSnipe ← wrap_err "invalid anti-snipe policy in db"
    (NewAntiSnipePolicy (seconds (p_SnipeWindowSec p)) (seconds (p_SnipeExtensionSec p))
       (p_SnipeMaxExt p));
  verifyAbove ← wrap_err "invalid verify threshold in db"
    (NewMoney (p_VerifyAboveMinor p) currency);
  status ← wrap_err "invalid status in db" (NewStatusFromString (p_Status p));
  outcome ←
    match p_Outcome p with
    | None => Ok OutcomeZero
    | Some s => wrap_err "invalid outcome in db" (NewOutcomeFromString s)
    end;
  leadingBid ← wrap_err "invalid leading bid in db"
    (bidFromColumns (p_LeadingBidID p) (p_LeadingBidderID p) (p_LeadingAmountMinor p)
       (p_LeadingPlacedAt p) currency);
  runnerUpBid ← wrap_err "invalid runner-up bid in db"
    (bidFromColumns (p_RunnerUpBidID p) (p_RunnerUpBidderID p) (p_RunnerUpAmountMinor p)
       (p_RunnerUpPlacedAt p) currency);
  relistOf ←
    match p_RelistOf p with
    | None => Ok (zero_value : AuctionID)
    | Some u => wrap_err "invalid relist_of in db" (NewAuctionID u)
    end;
  UnmarshalFromDatabase id seller lot startPrice increment reserve window antiSnipe
    verifyAbove (p_ExtensionsUsed p) status outcome leadingBid runnerUpBid
    (p_WinnerReassigned p) (p_BidCount p) relistOf (p_RelistGeneration p) (p_Settled p)
    (p_Version p).

Definition cloneWithVersion (a : Auction) (version : Z) : result Auction :=
  UnmarshalFromDatabase (a_id a) (a_seller a) (a_lot a) (a_startPrice a) (a_increment a)
    (a_reserve a) (a_window a) (a_antiSnipe a) (a_verifyAbove a) (a_extensionsUsed a)
    (a_status a) (a_outcome a) (a_leadingBid a) (a_runnerUpBid a) (a_winnerReassigned a)
    (a_bidCount a) (a_relistOf a) (a_relistGen a) (a_settled a) version.

(** ** The in-memory repository *)

Record AuctionInMemRepository := mkAuctionInMemRepository {
  auctions : gmap AuctionID Auction;
}.

Module inmem.
Section Ops.
(** The order a Go [range] visits a map in is not specified: it is a
    parameter, a permutation of the entries. *)
Context (range : list (AuctionID * Auction) → list (AuctionID * Auction)).

Definition entries (r : AuctionInMemRepository) : list (AuctionID * Auction) :=
  range (map_to_list (auctions r)).

Definition put (id : AuctionID) (a : Auction) (r : AuctionInMemRepository)
    : AuctionInMemRepository :=
  mkAuctionInMemRepository (<[id := a]> (auctions r)).

Definition Add (a : option Auction) : M AuctionInMemRepository unit :=
  match a with
  | None => throw (ErrNew "auction must not be nil")
  | Some a =>
      r ← get;
      match auctions r !! a_id a with
      | Some _ => mret tt
      | None =>
          throw_if (negb (IsZero (a_relistOf a))
                    && existsb (fun e => bool_decide (a_relistOf e.2 = a_relistOf a)) (entries r))
            ErrAlreadyRelisted;;
          modify (put (a_id a) (PullDomainEvents a).2)
      end
  end.

Definition Get (id : AuctionID) (r : AuctionInMemRepository) : result Auction :=
  match auctions r !! id with
  | None => Fail (AuctionNotFoundError (AuctionID_UUID id))
  | Some stored => Ok stored
  end.

Definition update (id : AuctionID) (updateFn : Auction → result Auction)
    : M AuctionInMemRepository unit :=
  r ← get;
  match auctions r !! id with
  | None => throw (AuctionNotFoundError (AuctionID_UUID id))
  | Some stored =>
      updated ← lift (updateFn stored);
      let updated := (PullDomainEvents updated).2 in
      bumped ← lift (cloneWithVersion updated (wrap64 (a_version updated + 1)));
      modify (put id bumped)
  end.

Definition Update (id : AuctionID) (actor : Actor) (updateFn : Auction → result Auction)
    : M AuctionInMemRepository unit :=
  throw_if (IsZero actor)
    (ErrNew "update requires an acting user; system flows use UpdateAsSystem");;
  update id updateFn.

Definition UpdateAsSystem (id : AuctionID) (updateFn : Auction → result Auction)
    : M AuctionInMemRepository unit :=
  update id updateFn.

Definition due (before : Time) (a : Auction) : bool :=
  bool_decide (a_status a = StatusListed) && negb (time_After (EndsAt a) before).

(** The loop stops before the entry that finds [limit] identities. *)
Fixpoint collect (before : Time) (limit : Z) (ids : list AuctionID)
    (es : list (AuctionID * Auction)) : list AuctionID :=
  match es with
  | [] => ids
  | (id, a) :: es =>
      if limit <=? Z.of_nat (length ids) then ids
      else collect before limit (if due before a then ids ++ [id] else ids) es
  end.

Definition DueForClosing (before : Time) (limit : Z) (r : AuctionInMemRepository)
    : result (list AuctionID) :=
  Ok (collect before limit [] (entries r)).
End Ops.

#[export] Instance repository range : AuctionRepository AuctionInMemRepository := {
  repo_Add := Add range;
  repo_Get := Get;
  repo_Update := Update;
  repo_UpdateAsSystem := UpdateAsSystem;
  repo_DueForClosing := DueForClosing range;
}.
End inmem.

(** ** The Postgres repository *)

Record pgBid := mkPgBid {
  pb_bid_id : uuid;
  pb_auction_id : uuid;
  pb_bidder_id : uuid;
  pb_amount_minor : Z;
  pb_currency : string;
  pb_placed_at : Time;
}.
#[export] Instance pgBid_eq_dec : EqDecision pgBid.
Proof. solve_decision. Defined.

(** The part of the database the repository uses: [auction.auctions] by its
    primary key, the append-only [auction.auction_bids] (oldest first), the
    outbox table, and the number of event identities drawn so far. *)
Record AuctionDB := mkAuctionDB {
  db_auctions : gmap uuid pgAuction;
  db_bids : list pgBid;
  db_outbox : list AuctionEvent;
  db_drawn : nat;
}.

Module pg.
Section Ops.
Context `{UUIDLib}.

Definition publishMapped (a : Auction) (es : list DomainEvent) : M AuctionDB unit :=
  modify (fun db =>
    let '(evs, n) := mapEvents (db_drawn db) a es in
    mkAuctionDB (db_auctions db) (db_bids db) (db_outbox db ++ evs) n).

Definition publishIntegrationEvents (a : Auction) : M AuctionDB unit :=
  publishMapped a (PullDomainEvents a).1.

Definition relist_of_taken (u : uuid) (db : AuctionDB) : bool :=
  existsb (fun e => bool_decide (p_RelistOf e.2 = Some u)) (map_to_list (db_auctions db)).

Definition put_row (p : pgAuction) (db : AuctionDB) : AuctionDB :=
  mkAuctionDB (<[p_ID p := p]> (db_auctions db)) (db_bids db) (db_outbox db) (db_drawn db).

(** [INSERT INTO auction.auctions ... ON CONFLICT (id) DO NOTHING] under
    [UNIQUE (relist_of)]; the number of rows inserted. *)
Definition insert_auction (p : pgAuction) : M AuctionDB Z :=
  db ← get;
  match db_auctions db !! p_ID p with
  | Some _ => mret 0
  | None =>
      throw_if (match p_RelistOf p with
                | Some u => relist_of_taken u db
                | None => false
                end) ErrAlreadyRelisted;;
      modify (put_row p);;
      mret 1
  end.

Definition Add (f : TxFaults) (a : option Auction) : M AuctionDB unit :=
  match a with
  | None => throw (ErrNew "auction must not be nil")
  | Some a =>
      RunInTx f
        (inserted ← insert_auction (toPgAuction a);
         if inserted =? 0 then mret tt else publishIntegrationEvents a)
  end.

Definition Get (id : AuctionID) (db : AuctionDB) : result Auction :=
  match db_auctions db !! AuctionID_UUID id with
  | None => Fail (AuctionNotFoundError (AuctionID_UUID id))
  | Some p => toDomainAuction p
  end.

(** The columns [UPDATE auction.auctions] sets; the others keep their value. *)
Definition update_columns (up : pgAuction) (version : Z) (row : pgAuction) : pgAuction :=
  mkPgAuction (p_ID row) (p_SellerID row) (p_Title row) (p_Description row)
    (p_Currency row) (p_StartPriceMinor row) (p_IncrementMinor row)
    (p_ReservePriceMinor row) (p_StartsAt row) (p_EndsAt up) (p_OriginalEndsAt row)
    (p_SnipeWindowSec row) (p_SnipeExtensionSec row) (p_SnipeMaxExt row)
    (p_VerifyAboveMinor row) (p_ExtensionsUsed up) (p_Status up) (p_Outcome up)
    (p_LeadingBidID up) (p_LeadingBidderID up) (p_LeadingAmountMinor up)
    (p_LeadingPlacedAt up) (p_RunnerUpBidID up) (p_RunnerUpBidderID up)
    (p_RunnerUpAmountMinor up) (p_RunnerUpPlacedAt up) (p_WinnerReassigned up)
    (p_BidCount up) (p_RelistOf row) (p_RelistGeneration row) (p_Settled up) (version + 1).

(** [UPDATE ... WHERE id = $1 AND version = $17]; the number of rows. *)
Definition update_auction (up : pgAuction) (version : Z) : M AuctionDB Z :=
  db ← get;
  match db_auctions db !! p_ID up with
  | Some row =>
      if p_Version row =? version
      then modify (put_row (update_columns up version row));; mret 1
      else mret 0
  | None => mret 0
  end.

(** [INSERT INTO auction.auction_bids] under its primary key. *)
Definition insert_bid (b : pgBid) : M AuctionDB unit :=
  db ← get;
  throw_if (existsb (fun b' => bool_decide (pb_bid_id b' = pb_bid_id b)) (db_bids db))
    (Errorf "unable to append bid to history" (ErrNew "unique_violation"));;
  modify (fun db => mkAuctionDB (db_auctions db) (db_bids db ++ [b]) (db_outbox db)
                      (db_drawn db)).

Definition bid_row (a : Auction) (b : Bid) : pgBid :=
  mkPgBid (BidID_UUID (b_id b)) (AuctionID_UUID (a_id a)) (BidderID_UUID (b_bidder b))
    (m_amount (b_amount b)) (c_code (m_currency (b_amount b))) (b_placedAt b).

Fixpoint append_bids (a : Auction) (es : list DomainEvent) : M AuctionDB unit :=
  match es with
  | [] => mret tt
  | BidPlaced bid _ _ _ _ :: es => insert_bid (bid_row a bid);; append_bids a es
  | _ :: es => append_bids a es
  end.

Definition update (f : TxFaults) (id : AuctionID) (updateFn : Auction → result Auction)
    : M AuctionDB unit :=
  RunInTx f
    (db ← get;
     match db_auctions db !! AuctionID_UUID id with
     | None => throw (AuctionNotFoundError (AuctionID_UUID id))
     | Some p =>
         a ← lift (toDomainAuction p);
         updated ← lift (updateFn a);
         affected ← update_auction (toPgAuction updated) (p_Version p);
         throw_if (affected =? 0)
           (ErrNew "optimistic lock conflict on auction %s (version %d)");;
         let '(events, updated) := PullDomainEvents updated in
         append_bids updated events;;
         publishMapped updated events
     end).

Definition Update (f : TxFaults) (id : AuctionID) (actor : Actor)
    (updateFn : Auction → result Auction) : M AuctionDB unit :=
  throw_if (IsZero actor)
    (ErrNew "update requires an acting user; system flows use UpdateAsSystem");;
  update f id updateFn.

Definition UpdateAsSystem (f : TxFaults) (id : AuctionID)
    (updateFn : Auction → result Auction) : M AuctionDB unit :=
  update f id updateFn.

Definition ends_before (p q : pgAuction) : Prop := p_EndsAt p ≤ p_EndsAt q.
#[global] Instance ends_before_dec : RelDecision ends_before.
Proof. unfold ends_before. solve_decision. Defined.

(** [WHERE status = 'listed' AND ends_at <= $1 ORDER BY ends_at LIMIT $2]. *)
Definition due_rows (before : Time) (limit : Z) (db : AuctionDB) : list pgAuction :=
  take (Z.to_nat limit)
    (merge_sort ends_before
       (filter (fun p => p_Status p = "listed" ∧ p_EndsAt p ≤ before)
          (map_to_list (db_auctions db)).*2)).

Fixpoint scan_ids (rows : list pgAuction) : result (list AuctionID) :=
  match rows with
  | [] => Ok []
  | p :: rows =>
      id ← wrap_err "invalid auction id in db" (NewAuctionID (p_ID p));
      ids ← scan_ids rows;
      Ok (id :: ids)
  end.

Definition DueForClosing (before : Time) (limit : Z) (db : AuctionDB)
    : result (list AuctionID) :=
  scan_ids (due_rows before limit db).
End Ops.

#[export] Instance repository `{UUIDLib} (f : TxFaults) : AuctionRepository AuctionDB := {
  repo_Add := Add f;
  repo_Get := Get;
  repo_Update := Update f;
  repo_UpdateAsSystem := UpdateAsSystem f;
  repo_DueForClosing := DueForClosing;
}.
End pg.
End auction_repo.
