(* ===== verification/AuctionApp.v ===== *)
(** * The auction application

    The command handlers ([app/command]), the facade the settlement saga
    calls ([service/facade.go]), the closing worker ([ports/worker.go]), the
    command endpoints ([ports/http.go]) and the assembly of the platform's
    listing rules ([service/service.go]).  Everything is written against the
    interface [AuctionRepository]; [now] is what the handler's clock answers. *)

From stdpp Require Import base numbers list strings.
From Stdlib Require Import ZArith Lia.
From S2P Require Import Prelude Errs Auth Events AuctionDomain AuctionRepo.

Module auction_app.
Import auction.
Local Open Scope Z_scope.

(** ** Commands *)

Record ListAuction := mkListAuction {
  la_AuctionID : AuctionID;
  la_Seller : SellerID;
  la_Lot : Lot;
  la_StartPrice : Money;
  la_Increment : Money;
  la_Reserve : ReservePrice;
  la_Window : BiddingWindow;
}.

Record PlaceBid := mkPlaceBid {
  pb_AuctionID : AuctionID;
  pb_BidID : BidID;
  pb_Bidder : BidderID;
  pb_Amount : Money;
}.

Record CancelAuction := mkCancelAuction { ca_AuctionID : AuctionID; ca_Seller : SellerID }.
Record CloseAuction := mkCloseAuction { cl_AuctionID : AuctionID }.
Record AwardToRunnerUp := mkAwardToRunnerUp { aw_AuctionID : AuctionID }.
Record ConfirmSettlement := mkConfirmSettlement { cs_AuctionID : AuctionID }.
Record MarkSaleFailed := mkMarkSaleFailed { mf_AuctionID : AuctionID; mf_Reason : FailureReason }.
Record RelistAuction := mkRelistAuction {
  re_OriginalID : AuctionID;
  re_NewID : AuctionID;
  re_Window : BiddingWindow;
}.

(** ** Error mapping *)

Definition mapNotFound (err : error) : error * bool :=
  if found (errors_As as_AuctionNotFound err)
  then (WithCause (NewNotFoundError "auction-not-found") err, true)
  else (err, false).

Definition mapListingError (err : error) : error :=
  if errors_Is err ErrUnsupportedCurrency
  then WithCause (NewIncorrectInputError "unsupported-currency") err
  else if errors_Is err ErrInvalidBiddingWindow
  then WithCause (NewIncorrectInputError "invalid-window") err
  else if errors_Is err ErrInvalidIncrement || errors_Is err ErrCurrencyMismatch
  then WithCause (NewIncorrectInputError "invalid-increment") err
  else WithCause (NewIncorrectInputError "invalid-listing") err.

Definition mapPlaceBidError (err : error) : error :=
  let '(mapped, ok) := mapNotFound err in
  if ok then mapped
  else if errors_Is err ErrAuctionNotOpen
  then WithCause (NewConflictError "auction-not-open") err
  else if errors_Is err ErrSellerCannotBid
  then WithCause (NewForbiddenError "seller-cannot-bid") err
  else if errors_Is err ErrLeaderCannotOutbidSelf
  then WithCause (NewConflictError "leader-cannot-outbid-self") err
  else if errors_Is err ErrCurrencyMismatch
  then WithCause (NewIncorrectInputError "currency-mismatch") err
  else if errors_Is err ErrBidBelowMinimum
  then WithCause (NewConflictError "bid-below-minimum") err
  else if errors_Is err ErrVerificationRequired
  then WithCause (NewForbiddenError "verification-required") err
  else if errors_Is err ErrInvalidBid || errors_Is err ErrInvalidID
  then WithCause (NewIncorrectInputError "invalid-bid") err
  else err.

Definition mapCancelError (err : error) : error :=
  let '(mapped, ok) := mapNotFound err in
  if ok then mapped
  else if found (errors_As as_ForbiddenAuctionManagement err)
  then WithCause (NewForbiddenError "not-seller") err
  else if errors_Is err ErrAuctionHasBids
  then WithCause (NewConflictError "auction-has-bids") err
  else if errors_Is err ErrAlreadyClosed
  then WithCause (NewConflictError "already-closed") err
  else if errors_Is err ErrAuctionCancelled
  then WithCause (NewConflictError "auction-cancelled") err
  else err.

(** [None] is a nil error: the auction is already in the target state. *)
Definition mapRelistError (err : error) : option error :=
  if errors_Is err ErrAlreadyRelisted then None
  else if errors_Is err ErrRelistLimitReached
  then Some (WithCause (NewConflictError "relist-limit-reached") err)
  else if errors_Is err ErrInvalidBiddingWindow
  then Some (WithCause (NewIncorrectInputError "invalid-window") err)
  else Some err.

Definition close_switch (err : error) : option error :=
  if errors_Is err ErrAlreadyClosed || errors_Is err ErrBiddingStillOpen
     || errors_Is err ErrAuctionCancelled
  then None
  else Some (mapNotFound err).1.

Definition not_closed_switch (err : error) : option error :=
  if errors_Is err ErrBiddingStillOpen || errors_Is err ErrAuctionCancelled
  then Some (WithCause (NewConflictError "auction-not-closed") err)
  else Some (mapNotFound err).1.

Definition award_switch (err : error) : option error :=
  if errors_Is err ErrWinnerAlreadyReassigned then None
  else if errors_Is err ErrNoQualifyingRunnerUp
  then Some (WithCause (NewConflictError "no-qualifying-runner-up") err)
  else if errors_Is err ErrAlreadySettled
  then Some (WithCause (NewConflictError "already-settled") err)
  else if errors_Is err ErrSaleAlreadyFailed
  then Some (WithCause (NewConflictError "sale-already-failed") err)
  else not_closed_switch err.

Definition confirm_switch (err : error) : option error :=
  if errors_Is err ErrAlreadySettled then None
  else if errors_Is err ErrSaleAlreadyFailed
  then Some (WithCause (NewConflictError "sale-already-failed") err)
  else not_closed_switch err.

Definition fail_switch (err : error) : option error :=
  if errors_Is err ErrSaleAlreadyFailed then None
  else if errors_Is err ErrAlreadySettled
  then Some (WithCause (NewConflictError "already-settled") err)
  else if errors_Is err ErrInvalidFailureReason
  then Some (WithCause (NewIncorrectInputError "invalid-failure-reason") err)
  else not_closed_switch err.

(** ** Handlers *)

Section Handlers.
Context {S : Type} `{AuctionRepository S}.

Definition ListAuctionHandler (rules : ListingRules) (now : Time) (cmd : ListAuction)
    : M S unit :=
  match New (la_AuctionID cmd) (la_Seller cmd) (la_Lot cmd) (la_StartPrice cmd)
          (la_Increment cmd) (la_Reserve cmd) (la_Window cmd) rules now with
  | Ok a => repo_Add (Some a)
  | Fail err => throw (mapListingError err)
  | Panic p => crash p
  end.

(** [profiles] is the projection read by [BidderByID]. *)
Definition PlaceBidHandler (profiles : BidderID → result Bidder) (now : Time)
    (cmd : PlaceBid) : M S unit :=
  bidder ← lift (profiles (pb_Bidder cmd));
  on_error
    (repo_Update (pb_AuctionID cmd) (ActorFromBidder (pb_Bidder cmd))
       (closure (auction.PlaceBid (pb_BidID cmd) bidder (pb_Amount cmd) now)))
    (fun err => Some (mapPlaceBidError err)).

Definition CancelAuctionHandler (now : Time) (cmd : CancelAuction) : M S unit :=
  on_error
    (repo_Update (ca_AuctionID cmd) (ActorFromSeller (ca_Seller cmd))
       (closure (Cancel (ca_Seller cmd) now)))
    (fun err => Some (mapCancelError err)).

Definition CloseAuctionHandler (now : Time) (cmd : CloseAuction) : M S unit :=
  on_error (repo_UpdateAsSystem (cl_AuctionID cmd) (closure (Close now))) close_switch.

Definition AwardToRunnerUpHandler (now : Time) (cmd : AwardToRunnerUp) : M S unit :=
  on_error
    (repo_UpdateAsSystem (aw_AuctionID cmd) (closure (auction.AwardToRunnerUp now)))
    award_switch.

Definition ConfirmSettlementHandler (now : Time) (cmd : ConfirmSettlement) : M S unit :=
  on_error
    (repo_UpdateAsSystem (cs_AuctionID cmd) (closure (auction.ConfirmSettlement now)))
    confirm_switch.

Definition MarkSaleFailedHandler (now : Time) (cmd : MarkSaleFailed) : M S unit :=
  on_error
    (repo_UpdateAsSystem (mf_AuctionID cmd) (closure (FailSale (mf_Reason cmd) now)))
    fail_switch.

Definition RelistAuctionHandler (now : Time) (cmd : RelistAuction) : M S unit :=
  s ← get;
  match repo_Get (re_OriginalID cmd) s with
  | Ok orig =>
      match RelistedFrom (Some orig) (re_NewID cmd) (re_Window cmd) now with
      | Ok relisted => on_error (repo_Add (Some relisted)) mapRelistError
      | Fail err => on_error (throw err) mapRelistError
      | Panic p => crash p
      end
  | Fail err => throw (mapNotFound err).1
  | Panic p => crash p
  end.

(** ** The facade *)

Definition Facade_AwardToRunnerUp (now : Time) (auctionID : uuid) : M S unit :=
  id ← lift (with_cause (NewIncorrectInputError "invalid-id") (NewAuctionID auctionID));
  AwardToRunnerUpHandler now (mkAwardToRunnerUp id).

Definition Facade_Relist (now : Time) (originalID newID : uuid) (startsAt endsAt : Time)
    : M S unit :=
  origID ← lift (with_cause (NewIncorrectInputError "invalid-id") (NewAuctionID originalID));
  relistID ← lift (with_cause (NewIncorrectInputError "invalid-id") (NewAuctionID newID));
  window ← lift (with_cause (NewIncorrectInputError "invalid-window")
                   (NewBiddingWindow startsAt endsAt));
  RelistAuctionHandler now (mkRelistAuction origID relistID window).

Definition Facade_MarkSaleFailed (now : Time) (auctionID : uuid) (reason : string) : M S unit :=
  id ← lift (with_cause (NewIncorrectInputError "invalid-id") (NewAuctionID auctionID));
  failureReason ← lift (with_cause (NewIncorrectInputError "invalid-failure-reason")
                          (NewFailureReasonFromString reason));
  MarkSaleFailedHandler now (mkMarkSaleFailed id failureReason).

Definition Facade_ConfirmSettlement (now : Time) (auctionID : uuid) : M S unit :=
  id ← lift (with_cause (NewIncorrectInputError "invalid-id") (NewAuctionID auctionID));
  ConfirmSettlementHandler now (mkConfirmSettlement id).

(** ** The closing worker *)

Definition closingCandidateLimit : Z := 100.

(** The errors of single candidates are only logged; [clk] is what the clock
    of the handler answers for each of them. *)
Fixpoint close_all (clk : AuctionID → Time) (ids : list AuctionID) : M S unit :=
  match ids with
  | [] => mret tt
  | id :: ids =>
      on_error (CloseAuctionHandler (clk id) (mkCloseAuction id)) (fun _ => None);;
      close_all clk ids
  end.

(** [now] is what the worker's own clock answers. *)
Definition ClosingWorker_tick (now : Time) (clk : AuctionID → Time) : M S unit :=
  s ← get;
  match repo_DueForClosing now closingCandidateLimit s with
  | Ok ids => close_all clk ids
  | Fail _ => mret tt
  | Panic p => crash p
  end.

(** ** HTTP *)

Record ListAuctionBody := mkListAuctionBody {
  lb_Id : uuid;
  lb_Title : string;
  lb_Description : option string;
  lb_Currency : string;
  lb_StartPriceMinor : Z;
  lb_IncrementMinor : Z;
  lb_ReservePriceMinor : option Z;
  lb_StartsAt : Time;
  lb_EndsAt : Time;
}.

Record PlaceBidBody := mkPlaceBidBody {
  bb_BidId : uuid;
  bb_AmountMinor : Z;
  bb_Currency : string;
}.

(** The command the request body asks for. *)
Definition list_auction_command (user : auth.User) (body : ListAuctionBody)
    : result ListAuction :=
  seller ← with_cause (NewIncorrectInputError "invalid-id") (NewSellerID (auth.u_ID user));
  auctionID ← with_cause (NewIncorrectInputError "invalid-id") (NewAuctionID (lb_Id body));
  currency ← with_cause (NewIncorrectInputError "unsupported-currency")
    (NewCurrency (lb_Currency body));
  startPrice ← with_cause (NewIncorrectInputError "invalid-listing")
    (NewMoney (lb_StartPriceMinor body) currency);
  increment ← with_cause (NewIncorrectInputError "invalid-increment")
    (NewMoney (lb_IncrementMinor body) currency);
  reserve ←
    match lb_ReservePriceMinor body with
    | None => Ok NoReserve
    | Some minor =>
        reserveMoney ← with_cause (NewIncorrectInputError "invalid-reserve")
          (NewMoney minor currency);
        with_cause (NewIncorrectInputError "invalid-reserve") (NewReservePrice reserveMoney)
    end;
  let description := default "" (lb_Description body) in
  lot ← with_cause (NewIncorrectInputError "invalid-lot") (NewLot (lb_Title body) description);
  window ← with_cause (NewIncorrectInputError "invalid-window")
    (NewBiddingWindow (lb_StartsAt body) (lb_EndsAt body));
  Ok (mkListAuction auctionID seller lot startPrice increment reserve window).

Definition Http_ListAuction `{UUIDLib} (rules : ListingRules) (now : Time)
    (ctx : option auth.User) (body : ListAuctionBody) : M S string :=
  user ← lift (auth.UserFromCtx ctx);
  cmd ← lift (list_auction_command user body);
  ListAuctionHandler rules now cmd;;
  mret ("/api/auctions/" +:+ uuid_String (AuctionID_UUID (la_AuctionID cmd))).

Definition place_bid_command (user : auth.User) (auctionID : uuid) (body : PlaceBidBody)
    : result PlaceBid :=
  bidder ← with_cause (NewIncorrectInputError "invalid-id") (NewBidderID (auth.u_ID user));
  auctionID ← with_cause (NewIncorrectInputError "invalid-id") (NewAuctionID auctionID);
  bidID ← with_cause (NewIncorrectInputError "invalid-bid") (NewBidID (bb_BidId body));
  currency ← with_cause (NewIncorrectInputError "currency-mismatch")
    (NewCurrency (bb_Currency body));
  amount ← with_cause (NewIncorrectInputError "invalid-bid")
    (NewMoney (bb_AmountMinor body) currency);
  Ok (mkPlaceBid auctionID bidID bidder amount).

Definition Http_PlaceBid `{UUIDLib} (profiles : BidderID → result Bidder) (now : Time)
    (ctx : option auth.User) (auctionID : uuid) (body : PlaceBidBody) : M S string :=
  user ← lift (auth.UserFromCtx ctx);
  cmd ← lift (place_bid_command user auctionID body);
  PlaceBidHandler profiles now cmd;;
  mret ("/api/auctions/" +:+ uuid_String (AuctionID_UUID (pb_AuctionID cmd)) +:+ "/bids/"
        +:+ uuid_String (BidID_UUID (pb_BidID cmd))).

Definition Http_CancelAuction (now : Time) (ctx : option auth.User) (auctionID : uuid)
    : M S unit :=
  user ← lift (auth.UserFromCtx ctx);
  seller ← lift (with_cause (NewIncorrectInputError "invalid-id")
                   (NewSellerID (auth.u_ID user)));
  auctionID ← lift (with_cause (NewIncorrectInputError "invalid-id")
                      (NewAuctionID auctionID));
  CancelAuctionHandler now (mkCancelAuction auctionID seller).

(** What the generated server does with the outcome of a strict handler: 204
    on success, [ResponseErrorHandlerFunc] otherwise. *)
Definition respond {A} (m : M S A) (s : S) : Response * S :=
  match m s with
  | (Ok _, s') => (mkResponse 204 "", s')
  | (Fail e, s') => (RespondWithSlugError (Some e), s')
  | (Panic _, s') => (mkResponse 500 "", s')
  end.
End Handlers.

(** ** Assembly *)

Record Deps := mkDeps {
  d_PlatformCurrency : string;
  d_VerifyAboveMinor : Z;
  d_SnipeWindow : Duration;
  d_SnipeExtension : Duration;
  d_SnipeMaxExtensions : Z;
  d_ClosingPollInterval : Duration;
}.

Definition listingRules (deps : Deps) : result ListingRules :=
  currency ← wrap_err "auction service: platform currency" (NewCurrency (d_PlatformCurrency deps));
  verifyAbove ← wrap_err "auction service: verify-above threshold"
    (NewMoney (d_VerifyAboveMinor deps) currency);
  antiSnipe ← wrap_err "auction service: anti-snipe policy"
    (NewAntiSnipePolicy (d_SnipeWindow deps) (d_SnipeExtension deps)
       (d_SnipeMaxExtensions deps));
  wrap_err "auction service: listing rules" (NewListingRules currency verifyAbove antiSnipe).

(** The interval of [ports.NewClosingWorker], which panics on one that is not
    positive. *)
Definition NewClosingWorker (interval : Duration) : result Duration :=
  if interval <=? 0 then Panic "NewClosingWorker: non-positive interval" else Ok interval.

(** The values [NewService] builds from its dependencies: the listing rules
    and the interval of the worker. *)
Definition NewService (deps : Deps) : result (ListingRules * Duration) :=
  rules ← listingRules deps;
  let interval := d_ClosingPollInterval deps in
  let interval := if interval <=? 0 then Second else interval in
  worker ← NewClosingWorker interval;
  Ok (rules, worker).

(** [strings.HasSuffix]. *)
Definition HasSuffix (s suffix : string) : bool :=
  String.prefix (String.rev suffix) (String.rev s).

Definition topicForEvent (eventName : string) : string :=
  if HasSuffix eventName "ParticipantRegisteredV1"
     || HasSuffix eventName "ParticipantVerifiedV1"
  then participant_Topic
  else auction_Topic.
End auction_app.
