(* ===== verification/AuctionRepoTheory.v ===== *)
(** * Properties of the storage of auctions

    The aggregate and its row, the laws of the
    repository interface, their proof for both repositories, and the
    atomicity of the Postgres one. *)

From stdpp Require Import base numbers list strings gmap fin_maps sorting.
From Stdlib Require Import ZArith Lia.
From S2P Require Import Prelude DemoUUID Errs Postgres Events AuctionDomain AuctionTheory AuctionRepo.

Module auction_repo_theory.
Import auction auction_theory auction_repo.
Local Open Scope Z_scope.

(** ** What a row can hold

    The aggregates whose value objects came from their constructors, with
    anti-snipe durations of whole seconds. *)

Record storable_bid (cur : Currency) (b : Bid) : Prop := {
  sb_id : b_id b ≠ zero_value;
  sb_bidder : b_bidder b ≠ zero_value;
  sb_currency : m_currency (b_amount b) = cur;
  sb_amount : 0 ≤ m_amount (b_amount b);
  sb_placedAt : b_placedAt b ≠ 0;
}.

Definition opt_storable_bid (cur : Currency) (b : Bid) : Prop :=
  b = zero_value ∨ storable_bid cur b.

Definition whole (d : Duration) : Prop :=
  ∃ k, d = k * Second ∧ 0 < k ∧ d ≤ int64_max.

Record storable (a : Auction) : Prop := {
  so_id : a_id a ≠ zero_value;
  so_seller : a_seller a ≠ zero_value;
  so_lot : TrimSpace (l_title (a_lot a)) ≠ "";
  so_currency : NewCurrency (c_code (m_currency (a_startPrice a)))
    = Ok (m_currency (a_startPrice a));
  so_start : 0 ≤ m_amount (a_startPrice a);
  so_increment : 0 ≤ m_amount (a_increment a)
    ∧ m_currency (a_increment a) = m_currency (a_startPrice a);
  so_verify : 0 ≤ m_amount (a_verifyAbove a)
    ∧ m_currency (a_verifyAbove a) = m_currency (a_startPrice a);
  so_reserve : a_reserve a = zero_value
    ∨ (0 < m_amount (r_price (a_reserve a))
       ∧ m_currency (r_price (a_reserve a)) = m_currency (a_startPrice a));
  so_window : UnmarshalBiddingWindow (w_startsAt (a_window a)) (w_endsAt (a_window a))
    (w_originalEndsAt (a_window a)) = Ok (a_window a);
  so_startsAt : 0 < w_startsAt (a_window a);
  so_policy : whole (p_window (a_antiSnipe a)) ∧ whole (p_extension (a_antiSnipe a))
    ∧ 0 ≤ p_maxExtensions (a_antiSnipe a);
  so_status : a_status a ≠ zero_value;
  so_leading : opt_storable_bid (m_currency (a_startPrice a)) (a_leadingBid a);
  so_runner : opt_storable_bid (m_currency (a_startPrice a)) (a_runnerUpBid a);
  so_version : 1 ≤ a_version a;
}.

Lemma NewCurrency_nonzero s c : NewCurrency s = Ok c → c ≠ zero_value ∧ s = c_code c.
Proof.
  unfold NewCurrency. intros H. repeat (case_match; try done). simplify_eq/=.
  split; [|done]. intros Hz. injection Hz as ->. done.
Qed.

Lemma NewMoney_Ok n c : c ≠ zero_value → 0 ≤ n → NewMoney n c = Ok (mkMoney n c).
Proof.
  intros Hc Hn. unfold NewMoney. rewrite (proj2 (IsZero_false c) Hc).
  by assert ((n <? 0) = false) as -> by (apply Z.ltb_ge; lia).
Qed.

Lemma NewAuctionID_Ok i : i ≠ zero_value → NewAuctionID (AuctionID_UUID i) = Ok i.
Proof.
  intros Hi. unfold NewAuctionID. case_bool_decide as E; [|by destruct i].
  destruct Hi. destruct i. by simpl in E; subst.
Qed.
Lemma NewSellerID_Ok i : i ≠ zero_value → NewSellerID (SellerID_UUID i) = Ok i.
Proof.
  intros Hi. unfold NewSellerID. case_bool_decide as E; [|by destruct i].
  destruct Hi. destruct i. by simpl in E; subst.
Qed.
Lemma NewBidderID_Ok i : i ≠ zero_value → NewBidderID (BidderID_UUID i) = Ok i.
Proof.
  intros Hi. unfold NewBidderID. case_bool_decide as E; [|by destruct i].
  destruct Hi. destruct i. by simpl in E; subst.
Qed.
Lemma NewBidID_Ok i : i ≠ zero_value → NewBidID (BidID_UUID i) = Ok i.
Proof.
  intros Hi. unfold NewBidID. case_bool_decide as E; [|by destruct i].
  destruct Hi. destruct i. by simpl in E; subst.
Qed.

Lemma NewStatusFromString_Ok s :
  s ≠ zero_value → NewStatusFromString (Status_String s) = Ok s.
Proof. by destruct s. Qed.

Lemma NewOutcomeFromString_Ok o :
  o ≠ zero_value → NewOutcomeFromString (Outcome_String o) = Ok o.
Proof. by destruct o. Qed.

Lemma opt_unless_Some {A B} `{GoZero A, EqDecision A} (f : A → B) (a : A) :
  a ≠ zero_value → opt_unless f a = Some (f a).
Proof. intros Ha. unfold opt_unless. by rewrite (proj2 (IsZero_false a) Ha). Qed.

Lemma opt_unless_zero {A B} `{GoZero A, EqDecision A} (f : A → B) :
  opt_unless f (zero_value : A) = None.
Proof. unfold opt_unless. by rewrite IsZero_zero. Qed.

Lemma whole_roundtrip d : whole d → seconds (whole_seconds d) = d.
Proof.
  intros (k & -> & Hk & Hm). unfold seconds, whole_seconds.
  rewrite Z.quot_mul by done. apply wrap64_small.
  unfold in_int64, int64_min, Second in *. lia.
Qed.

Lemma bid_roundtrip cur b :
  cur ≠ zero_value → opt_storable_bid cur b →
  bidFromColumns (opt_unless (fun b => BidID_UUID (b_id b)) b)
    (opt_unless (fun b => BidderID_UUID (b_bidder b)) b)
    (opt_unless (fun b => m_amount (b_amount b)) b) (opt_unless b_placedAt b) cur = Ok b.
Proof.
  intros Hcur [->|[Hi Hb Hc Ha Hp]]; [by rewrite opt_unless_zero|].
  assert (b ≠ zero_value) as Hz by (intros ->; by apply Hi).
  rewrite !opt_unless_Some by done. unfold bidFromColumns.
  rewrite NewBidID_Ok, NewBidderID_Ok, NewMoney_Ok by done. simpl.
  unfold NewBid. rewrite (proj2 (IsZero_false _) Hi), (proj2 (IsZero_false _) Hb).
  rewrite (proj2 (IsZero_false (mkMoney _ cur))) by (intros Hm; by injection Hm).
  unfold time_IsZero. rewrite (proj2 (Z.eqb_neq _ 0) Hp). simpl.
  destruct b as [i bd [m c] t]; simpl in *. by subst.
Qed.

Lemma money_eta m c : m_currency m = c → mkMoney (m_amount m) c = m.
Proof. destruct m; simpl. by intros ->. Qed.

Lemma reserve_roundtrip a :
  storable a →
  match opt_unless (fun r => m_amount (r_price r)) (a_reserve a) with
  | None => Ok NoReserve
  | Some minor =>
      reserveMoney ← wrap_err "invalid reserve in db"
                       (NewMoney minor (m_currency (a_startPrice a)));
      wrap_err "invalid reserve in db" (NewReservePrice reserveMoney)
  end = (Ok (a_reserve a) : result ReservePrice).
Proof.
  intros Hs. destruct (NewCurrency_nonzero _ _ (so_currency a Hs)) as [Hnz _].
  destruct (so_reserve a Hs) as [->|[Hp Hc]]; [by rewrite opt_unless_zero|].
  rewrite opt_unless_Some by (intros Hz; rewrite Hz in Hp; simpl in Hp; lia).
  rewrite NewMoney_Ok by (done || lia). cbn. rewrite (money_eta _ _ Hc).
  unfold NewReservePrice.
  assert (IsZero (r_price (a_reserve a)) = false) as ->
    by (apply IsZero_false; intros Hz; rewrite Hz in Hp; simpl in Hp; lia).
  rewrite (proj2 (Z.leb_gt _ 0) Hp). simpl. by destruct (a_reserve a).
Qed.

Lemma outcome_roundtrip o :
  match opt_unless Outcome_String o with
  | None => Ok OutcomeZero
  | Some s => wrap_err "invalid outcome in db" (NewOutcomeFromString s)
  end = (Ok o : result Outcome).
Proof. by destruct o. Qed.

Lemma relistOf_roundtrip i :
  match opt_unless AuctionID_UUID i with
  | None => Ok (zero_value : AuctionID)
  | Some u => wrap_err "invalid relist_of in db" (NewAuctionID u)
  end = (Ok i : result AuctionID).
Proof.
  destruct (decide (i = zero_value)) as [->|Hi]; [by rewrite opt_unless_zero|].
  by rewrite opt_unless_Some, NewAuctionID_Ok.
Qed.

Lemma policy_roundtrip a : storable a →
  NewAntiSnipePolicy (seconds (whole_seconds (p_window (a_antiSnipe a))))
    (seconds (whole_seconds (p_extension (a_antiSnipe a))))
    (p_maxExtensions (a_antiSnipe a)) = Ok (a_antiSnipe a).
Proof.
  intros Hs. destruct (so_policy a Hs) as (Hw & He & Hm).
  rewrite !whole_roundtrip by done.
  destruct Hw as (k & Hk & ? & _), He as (k' & Hk' & ? & _). unfold NewAntiSnipePolicy.
  unfold Second in *. rewrite Hk, Hk'.
  rewrite (proj2 (Z.leb_gt (k * _) 0)), (proj2 (Z.leb_gt (k' * _) 0)),
    (proj2 (Z.ltb_ge _ 0)) by lia.
  simpl. rewrite <-Hk, <-Hk'. by destruct (a_antiSnipe a).
Qed.

Lemma Unmarshal_Ok a v :
  a_id a ≠ zero_value → a_seller a ≠ zero_value → a_status a ≠ zero_value →
  a_window a ≠ zero_value → 1 ≤ v →
  cloneWithVersion a v = Ok (set_version v (set_events [] a)).
Proof.
  intros Hid Hse Hst Hw Hv. unfold cloneWithVersion, UnmarshalFromDatabase.
  rewrite (proj2 (IsZero_false _) Hid), (proj2 (IsZero_false _) Hse),
    (proj2 (IsZero_false _) Hst), (proj2 (IsZero_false _) Hw), (proj2 (Z.ltb_ge _ _) Hv).
  done.
Qed.

Lemma Unmarshal_window_nonzero s e o w : UnmarshalBiddingWindow s e o = Ok w → w ≠ zero_value.
Proof.
  unfold UnmarshalBiddingWindow. intros H. repeat (case_match; try done). simplify_eq.
  intros Hz. injection Hz as -> -> ->. done.
Qed.

(** Reading back the row of a storable aggregate gives the aggregate, less
    the events the repository drains. *)
Lemma toDomain_toPg a : storable a → toDomainAuction (toPgAuction a) = Ok (set_events [] a).
Proof.
  intros Hs. pose proof (reserve_roundtrip a Hs) as Hre.
  pose proof (policy_roundtrip a Hs) as Hpol.
  destruct Hs as [Hid Hse Hlot Hcur Hst [Hin Hinc] [Hve Hvec] _ Hwi _ _ Hsta Hl Hr Hv].
  destruct (NewCurrency_nonzero _ _ Hcur) as [Hnz _].
  unfold toDomainAuction, toPgAuction; cbn -[Z.quot seconds whole_seconds].
  rewrite NewAuctionID_Ok by done; cbn -[seconds whole_seconds].
  rewrite NewSellerID_Ok by done; cbn -[seconds whole_seconds].
  unfold NewLot. rewrite bool_decide_eq_false_2 by done; cbn -[seconds whole_seconds].
  rewrite Hcur; cbn -[seconds whole_seconds].
  rewrite !NewMoney_Ok by done; cbn -[seconds whole_seconds].
  rewrite (money_eta _ _ eq_refl), (money_eta _ _ Hinc), Hre; cbn -[seconds whole_seconds].
  rewrite Hwi; cbn -[seconds whole_seconds]. rewrite Hpol; cbn.
  rewrite NewStatusFromString_Ok by done; cbn.
  rewrite outcome_roundtrip; cbn.
  rewrite (bid_roundtrip _ _ Hnz Hl); cbn. rewrite (bid_roundtrip _ _ Hnz Hr); cbn.
  rewrite relistOf_roundtrip; cbn. rewrite (money_eta _ _ Hvec).
  assert (Lot_eta : mkLot (l_title (a_lot a)) (l_description (a_lot a)) = a_lot a)
    by (by destruct (a_lot a)).
  rewrite Lot_eta. change (cloneWithVersion a (a_version a) = Ok (set_events [] a)).
  rewrite Unmarshal_Ok by (try done; by eapply Unmarshal_window_nonzero).
  by destruct a.
Qed.

(** ** The laws of the interface *)

(** The aggregate a successful update leaves in the store. *)
Definition stored (a : Auction) : Auction :=
  set_version (a_version a + 1) (set_events [] a).

(** What an update closure may return for the aggregate [a]: what one of its
    methods left. *)
Record admissible (a a' : Auction) : Prop := {
  ad_method : ∃ c r, run c a = (Ok r, a');
  ad_listing : same_listing a a';
  ad_storable : storable a';
  ad_version : a_version a < int64_max;
}.

(** The bids an aggregate is about to append to the history. *)
Definition placed (es : list DomainEvent) : list Bid :=
  omap (fun e => match e with BidPlaced b _ _ _ _ => Some b | _ => None end) es.

(** What a domain event says of the aggregate that recorded it. *)
Definition event_says (a : Auction) (e : DomainEvent) : Prop :=
  match e with
  | AuctionListed _ | AuctionExtended _ _ => True
  | BidPlaced bid _ _ _ _ => a_leadingBid a = bid
  | AuctionCancelled _ => a_status a = StatusCancelled
  | AuctionClosed r _ =>
      a_status a = StatusClosed ∧ a_winnerReassigned a = false ∧ a_outcome a ≠ OutcomeZero
      ∧ cr_Outcome r = a_outcome a
      ∧ cr_Winner r = (if bool_decide (a_outcome a = OutcomeSold) then a_leadingBid a
                       else zero_value)
      ∧ cr_RunnerUp r = a_runnerUpBid a
  | WinnerReassigned bid _ =>
      a_status a = StatusClosed ∧ a_winnerReassigned a = true ∧ a_leadingBid a = bid
  | AuctionRelisted orig new _ _ _ => a_id a = new ∧ a_relistOf a = orig
  | SaleSettled _ => a_status a = StatusClosed ∧ a_outcome a = OutcomeSold ∧ a_settled a = true
  | SaleFailed _ _ => a_status a = StatusClosed ∧ a_outcome a = OutcomeNotSold
  end.

(** An auction as the factories build it. *)
Definition opens (a : Auction) : Prop :=
  a_status a = StatusListed ∧ a_winnerReassigned a = false
  ∧ placed (a_events a) = [] ∧ Forall (event_says a) (a_events a).

(** A candidate for closing. *)
Definition is_due (before : Time) (a : Auction) : Prop :=
  a_status a = StatusListed ∧ EndsAt a ≤ before.

(** What the application relies on: a view of the store as a map of
    aggregates, which [Get] reads and the mutations update.  [bids_fresh]
    is the uniqueness of bid identities, which only the Postgres history
    enforces. *)
Class AuctionRepositoryLaws (S : Type) `{AuctionRepository S} := {
  repo_ok : S → Prop;
  repo_view : S → gmap AuctionID Auction;
  bids_fresh : S → list Bid → Prop;
  bids_fresh_nil : ∀ s, bids_fresh s [];
  view_ok : ∀ s id a, repo_ok s → repo_view s !! id = Some a →
    storable a ∧ a_id a = id ∧ a_events a = [];
  Get_Some : ∀ s id a, repo_ok s → repo_view s !! id = Some a → repo_Get id s = Ok a;
  Get_None : ∀ s id, repo_ok s → repo_view s !! id = None →
    repo_Get id s = Fail (AuctionNotFoundError (AuctionID_UUID id));
  Update_as_system : ∀ id actor fn (s : S), actor ≠ zero_value →
    repo_Update id actor fn s = repo_UpdateAsSystem id fn s;
  Update_no_actor : ∀ id fn (s : S), ∃ e, repo_Update id zero_value fn s = (Fail e, s);
  Update_missing : ∀ id fn s, repo_ok s → repo_view s !! id = None →
    repo_UpdateAsSystem id fn s = (Fail (AuctionNotFoundError (AuctionID_UUID id)), s);
  Update_fail : ∀ id fn s a e, repo_ok s → repo_view s !! id = Some a → fn a = Fail e →
    repo_UpdateAsSystem id fn s = (Fail e, s);
  Update_ok : ∀ id fn s a a', repo_ok s → repo_view s !! id = Some a → fn a = Ok a' →
    admissible a a' → bids_fresh s (placed (a_events a')) →
    ∃ s', repo_UpdateAsSystem id fn s = (Ok tt, s') ∧ repo_ok s'
          ∧ repo_view s' = <[id := stored a']> (repo_view s);
  Add_exists : ∀ s a a0, repo_ok s → repo_view s !! a_id a = Some a0 →
    repo_Add (Some a) s = (Ok tt, s);
  Add_relisted : ∀ s a id' a', repo_ok s → repo_view s !! a_id a = None →
    a_relistOf a ≠ zero_value → repo_view s !! id' = Some a' → a_relistOf a' = a_relistOf a →
    repo_Add (Some a) s = (Fail ErrAlreadyRelisted, s);
  Add_ok : ∀ s a, repo_ok s → storable a → opens a → repo_view s !! a_id a = None →
    (a_relistOf a ≠ zero_value →
     ∀ id' a', repo_view s !! id' = Some a' → a_relistOf a' ≠ a_relistOf a) →
    ∃ s', repo_Add (Some a) s = (Ok tt, s') ∧ repo_ok s'
          ∧ repo_view s' = <[a_id a := set_events [] a]> (repo_view s);
  Due_spec : ∀ s before limit, repo_ok s → 0 ≤ limit →
    ∃ ids, repo_DueForClosing before limit s = Ok ids
      ∧ (∀ id, id ∈ ids → ∃ a, repo_view s !! id = Some a ∧ is_due before a)
      ∧ (Z.of_nat (length ids) < limit →
         ∀ id a, repo_view s !! id = Some a → is_due before a → id ∈ ids)
      ∧ Z.of_nat (length ids) ≤ limit;
}.

(** ** The in-memory repository satisfies them *)

Lemma storable_stored a : storable a → storable (stored a).
Proof. intros []. constructor; simpl; try done; lia. Qed.

Lemma storable_drained a : storable a → storable (set_events [] a).
Proof. intros []. by constructor. Qed.

Section InMem.
Context (range : list (AuctionID * Auction) → list (AuctionID * Auction)).
Hypothesis range_perm : ∀ l, range l ≡ₚ l.

Definition inmem_ok (r : AuctionInMemRepository) : Prop :=
  ∀ id a, auctions r !! id = Some a → storable a ∧ a_id a = id ∧ a_events a = [].

Lemma inmem_ok_put r a : inmem_ok r → storable a → a_events a = [] →
  inmem_ok (inmem.put (a_id a) a r).
Proof.
  intros Hr Ha He id b. simpl. rewrite lookup_insert_Some. intros [[<- <-]|[_ Hb]]; auto.
Qed.

Lemma inmem_relisted r a :
  existsb (fun e => bool_decide (a_relistOf e.2 = a_relistOf a)) (inmem.entries range r) = true
  ↔ ∃ id' a', auctions r !! id' = Some a' ∧ a_relistOf a' = a_relistOf a.
Proof.
  rewrite existsb_exists. unfold inmem.entries. split.
  - intros ([id' a'] & Hin & Hb). simpl in Hb. exists id', a'.
    split; [|by apply bool_decide_eq_true in Hb].
    apply elem_of_map_to_list. rewrite <-range_perm. by apply list_elem_of_In.
  - intros (id' & a' & Hl & Hr). exists (id', a'). split; [|by apply bool_decide_eq_true].
    apply list_elem_of_In. rewrite range_perm. by apply elem_of_map_to_list.
Qed.

Lemma inmem_update_ok r id a a' fn :
  inmem_ok r → auctions r !! id = Some a → fn a = Ok a' → admissible a a' →
  inmem.update id fn r = (Ok tt, inmem.put id (stored a') r).
Proof.
  intros Hr Hl Hfn [_ Hsl Hso Hv]. unfold inmem.update. run_go. rewrite Hl. run_go.
  rewrite Hfn. destruct Hso as [? ? ? ? ? ? ? ? Hw ? ? ? ? ? ?].
  simpl. rewrite (sl_version _ _ Hsl).
  rewrite wrap64_small by (pose proof (sl_version _ _ Hsl); unfold in_int64, int64_min; lia).
  unfold lift at 1, mbind, GoM_bind.
  rewrite Unmarshal_Ok by (simpl; try done; try (by eapply Unmarshal_window_nonzero);
    pose proof (sl_version _ _ Hsl); lia).
  unfold stored. by rewrite (sl_version _ _ Hsl).
Qed.

Lemma inmem_due before a : inmem.due before a = true ↔ is_due before a.
Proof.
  unfold inmem.due, is_due, time_After.
  rewrite andb_true_iff, bool_decide_eq_true, negb_true_iff, Z.ltb_ge. done.
Qed.

(** The scan keeps due entries only, and all of them when it is not cut short. *)
Lemma collect_spec before limit es ids :
  let ids' := inmem.collect before limit ids es in
  (∀ id, id ∈ ids' → id ∈ ids ∨ ∃ a, (id, a) ∈ es ∧ is_due before a)
  ∧ (∀ id, id ∈ ids → id ∈ ids')
  ∧ (Z.of_nat (length ids') < limit → ∀ id a, (id, a) ∈ es → is_due before a → id ∈ ids')
  ∧ (Z.of_nat (length ids) ≤ limit → Z.of_nat (length ids') ≤ limit).
Proof.
  revert ids; induction es as [|[i a] es IH]; intros ids; simpl.
  { split_and!; auto. intros _ id b Hb. by apply not_elem_of_nil in Hb. }
  destruct (limit <=? Z.of_nat (length ids)) eqn:El.
  { split_and!; auto. breflect. lia. }
  destruct (IH (if inmem.due before a then ids ++ [i] else ids)) as (H1 & H2 & H3 & H4).
  split_and!; [| | |intros _; apply H4; destruct (inmem.due before a);
    rewrite ?length_app; simpl; breflect; lia].
  - intros id Hid. apply H1 in Hid as [Hid|(b & Hb & Hd)].
    + destruct (inmem.due before a) eqn:Ed; [|by left].
      apply inmem_due in Ed. apply elem_of_app in Hid as [?|Hid]; [by left|right].
      apply list_elem_of_singleton in Hid as ->. exists a. split; [apply list_elem_of_here|done].
    + right. exists b. split; [by apply list_elem_of_further|done].
  - intros id Hid. apply H2. destruct (inmem.due before a); [|done].
    apply elem_of_app. by left.
  - intros Hlen id b Hb Hd. apply elem_of_cons in Hb as [Hb|Hb]; [|by eapply H3].
    injection Hb as -> ->. apply H2. rewrite (proj2 (inmem_due before a) Hd).
    apply elem_of_app. right. apply list_elem_of_here.
Qed.

#[export] Instance inmem_laws :
  @AuctionRepositoryLaws AuctionInMemRepository (inmem.repository range).
Proof.
  refine {| repo_ok := inmem_ok; repo_view := auctions; bids_fresh := fun _ _ => True |};
    simpl.
  - done.
  - intros s id a Hs Hl. by apply Hs.
  - intros s id a _ Hl. unfold inmem.Get. by rewrite Hl.
  - intros s id _ Hl. unfold inmem.Get. by rewrite Hl.
  - intros id actor fn s Ha. unfold inmem.Update. run_go.
    by rewrite (proj2 (IsZero_false _) Ha).
  - intros id fn s. eexists. unfold inmem.Update. run_go. by rewrite IsZero_zero.
  - intros id fn s _ Hl. unfold inmem.UpdateAsSystem, inmem.update. run_go. by rewrite Hl.
  - intros id fn s a e _ Hl Hfn. unfold inmem.UpdateAsSystem, inmem.update. run_go.
    rewrite Hl. run_go. by rewrite Hfn.
  - intros id fn s a a' Hs Hl Hfn Had _. eexists. split; [by eapply inmem_update_ok|].
    split; [|done]. destruct (Hs _ _ Hl) as (_ & Hid & _).
    destruct Had as [_ Hsl Hso _]. rewrite <-Hid, <-(sl_id _ _ Hsl).
    apply (inmem_ok_put s (stored a')); [done|by apply storable_stored|done].
  - intros s a a0 _ Hl. unfold inmem.Add. run_go. by rewrite Hl.
  - intros s a id' a' _ Hl Hz Hl' Hr. unfold inmem.Add. run_go. rewrite Hl. run_go.
    rewrite (proj2 (IsZero_false _) Hz). simpl.
    by rewrite (proj2 (inmem_relisted s a)) by eauto.
  - intros s a Hs Ha _ Hl Hr. unfold inmem.Add. run_go. rewrite Hl. run_go.
    assert (negb (IsZero (a_relistOf a))
            && existsb (fun e => bool_decide (a_relistOf e.2 = a_relistOf a))
                 (inmem.entries range s) = false) as ->.
    { destruct (IsZero (a_relistOf a)) eqn:Hz; [done|]. apply IsZero_false in Hz. simpl.
      apply not_true_is_false. rewrite inmem_relisted. intros (id' & a' & Hl' & He).
      by eapply Hr. }
    run_go. eexists. split; [done|]. split; [|done].
    apply (inmem_ok_put s (set_events [] a)); [done|by apply storable_drained|done].
  - intros s before limit Hs Hlim. eexists. split; [done|].
    destruct (collect_spec before limit (inmem.entries range s) [])
      as (H1 & _ & H3 & H4). unfold inmem.entries in *. split_and!; [| |by apply H4].
    + intros id Hid. destruct (H1 id Hid) as [Hn|(a & Ha & Hd)].
      { by apply not_elem_of_nil in Hn. }
      exists a. split; [|done]. apply elem_of_map_to_list. by rewrite <-(range_perm (map_to_list _)).
    + intros Hlen id a Hl Hd. eapply H3; [done| |done].
      rewrite range_perm. by apply elem_of_map_to_list.
Defined.
End InMem.

(** ** The Postgres repository satisfies them *)

Section Pg.
Context `{UUIDLib}.

Definition pg_ok (db : AuctionDB) : Prop :=
  ∀ u p, db_auctions db !! u = Some p →
    ∃ a, storable a ∧ a_events a = [] ∧ AuctionID_UUID (a_id a) = u ∧ p = toPgAuction a.

Definition ok_option {A} (r : result A) : option A :=
  match r with Ok a => Some a | _ => None end.

Definition pg_view (db : AuctionDB) : gmap AuctionID Auction :=
  kmap mkAuctionID (omap (fun p => ok_option (toDomainAuction p)) (db_auctions db)).

#[local] Instance mkAuctionID_inj : Inj eq eq mkAuctionID.
Proof. by intros ? ? [=]. Qed.

Lemma drained_same a : a_events a = [] → set_events [] a = a.
Proof. intros E. rewrite <-E. apply set_events_same. Qed.

Lemma AuctionID_eta i : mkAuctionID (AuctionID_UUID i) = i.
Proof. by destruct i. Qed.

Lemma pg_view_lookup db id a :
  pg_ok db →
  pg_view db !! id = Some a ↔
  db_auctions db !! AuctionID_UUID id = Some (toPgAuction a)
  ∧ storable a ∧ a_events a = [] ∧ a_id a = id.
Proof.
  intros Hok. unfold pg_view. rewrite <-(AuctionID_eta id), lookup_kmap, lookup_omap by apply _.
  simpl. split.
  - destruct (db_auctions db !! _) as [p|] eqn:E; [simpl|done].
    destruct (Hok _ _ E) as (b & Hb & He & Hid & ->).
    rewrite toDomain_toPg by done. rewrite (drained_same b He). intros [= ->].
    by rewrite <-Hid, AuctionID_eta.
  - intros (-> & Hs & He & Hid). simpl. rewrite toDomain_toPg by done.
    by rewrite (drained_same a He).
Qed.

Lemma pg_view_None db id :
  pg_ok db → pg_view db !! id = None ↔ db_auctions db !! AuctionID_UUID id = None.
Proof.
  intros Hok. unfold pg_view. rewrite <-(AuctionID_eta id), lookup_kmap, lookup_omap by apply _.
  simpl. destruct (db_auctions db !! _) as [p|] eqn:E; [simpl|done].
  destruct (Hok _ _ E) as (b & Hb & He & Hid & ->). by rewrite toDomain_toPg.
Qed.

Lemma toPg_drained a : toPgAuction (set_events [] a) = toPgAuction a.
Proof. done. Qed.

(** The columns the update leaves alone are those no call changes. *)
Lemma update_columns_stored a a' :
  same_listing a a' →
  pg.update_columns (toPgAuction a') (p_Version (toPgAuction a)) (toPgAuction a)
    = toPgAuction (stored a').
Proof.
  intros [Hi Hs Hl Hsp Hin Hre Hpo Hve Hro Hrg Hv Hst Hor].
  unfold pg.update_columns, toPgAuction, stored; simpl.
  by rewrite Hi, Hs, Hl, Hsp, Hin, Hre, Hpo, Hve, Hro, Hrg, Hv, Hst, Hor.
Qed.

(** *** The bid history *)

Definition fresh_bids (db : AuctionDB) (bs : list Bid) : Prop :=
  NoDup ((fun b => BidID_UUID (b_id b)) <$> bs)
  ∧ ∀ b r, b ∈ bs → r ∈ db_bids db → pb_bid_id r ≠ BidID_UUID (b_id b).

Lemma append_bids_ok a es db :
  fresh_bids db (placed es) →
  pg.append_bids a es db =
    (Ok tt, mkAuctionDB (db_auctions db) (db_bids db ++ (pg.bid_row a <$> placed es))
              (db_outbox db) (db_drawn db)).
Proof.
  revert db; induction es as [|e es IH]; intros db [Hnd Hfr].
  { simpl. rewrite app_nil_r. by destruct db. }
  destruct e as [| b ? ? ? ? | | | | | | |]; try (apply IH; by split).
  cbn [pg.append_bids]. unfold pg.insert_bid. run_go.
  assert (existsb (fun b' => bool_decide (pb_bid_id b' = pb_bid_id (pg.bid_row a b)))
            (db_bids db) = false) as ->.
  { apply not_true_is_false. rewrite existsb_exists. intros (r & Hr & He).
    apply bool_decide_eq_true in He. apply list_elem_of_In in Hr.
    eapply Hfr; [|exact Hr|exact He]. simpl. apply list_elem_of_here. }
  run_go. simpl in Hnd. apply NoDup_cons in Hnd as [Hn Hnd].
  rewrite IH; simpl; [by rewrite <-app_assoc|].
  split; [done|]. simpl. intros b' r Hb' [Hr | ->%list_elem_of_singleton]%elem_of_app.
  - eapply Hfr; [|done]. by apply list_elem_of_further.
  - simpl. intros He. apply Hn. rewrite He. by apply (list_elem_of_fmap_2 (fun b => BidID_UUID (b_id b))).
Qed.

(** *** One update *)

(** The database after a committed update to [a']. *)
Definition pg_updated (a' : Auction) (db : AuctionDB) : AuctionDB :=
  let '(evs, n) := mapEvents (db_drawn db) (set_events [] a') (a_events a') in
  mkAuctionDB (<[AuctionID_UUID (a_id a') := toPgAuction (stored a')]> (db_auctions db))
    (db_bids db ++ (pg.bid_row (set_events [] a') <$> placed (a_events a')))
    (db_outbox db ++ evs) n.

Lemma pg_update_run f id fn db a a' :
  pg_ok db → pg_view db !! id = Some a → fn a = Ok a' → admissible a a' →
  fresh_bids db (placed (a_events a')) →
  pg.update f id fn db = RunInTx f (fun db => (Ok tt, pg_updated a' db)) db.
Proof.
  intros Hok Hl Hfn [_ Hsl Hso _] Hfr. apply pg_view_lookup in Hl as (Hl & Hs & He & Hid); [|done].
  unfold pg.update. apply RunInTx_ext.
  run_go. rewrite Hl. run_go. rewrite toDomain_toPg by done. rewrite (drained_same a He), Hfn.
  unfold pg.update_auction. run_go.
  change (p_ID (toPgAuction a')) with (AuctionID_UUID (a_id a')).
  rewrite (sl_id _ _ Hsl), Hid, Hl, Z.eqb_refl. run_go.
  rewrite (update_columns_stored _ _ Hsl). simpl.
  unfold pg_updated. rewrite (sl_id _ _ Hsl), Hid.
  unfold mbind at 1, GoM_bind at 1. rewrite append_bids_ok by done.
  unfold pg.publishMapped, modify, pg.put_row. simpl.
  rewrite (sl_id _ _ Hsl), Hid.
  by destruct (mapEvents _ _ _).
Qed.

Lemma pg_ok_put a db bids out n :
  pg_ok db → storable a → a_events a = [] →
  pg_ok (mkAuctionDB (<[AuctionID_UUID (a_id a) := toPgAuction a]> (db_auctions db)) bids out n).
Proof.
  intros Hok Ha He u p. simpl. rewrite lookup_insert_Some. intros [[<- <-]|[_ Hl]]; eauto.
Qed.

Lemma pg_view_put a db bids out n :
  storable a → a_events a = [] →
  pg_view (mkAuctionDB (<[AuctionID_UUID (a_id a) := toPgAuction a]> (db_auctions db)) bids out n)
    = <[a_id a := a]> (pg_view db).
Proof.
  intros Ha He. unfold pg_view; simpl.
  rewrite (omap_insert_Some _ _ _ _ a) by (rewrite toDomain_toPg, (drained_same a He); done).
  by rewrite kmap_insert, AuctionID_eta by apply _.
Qed.

Lemma pg_ok_updated a' db : pg_ok db → storable a' → pg_ok (pg_updated a' db).
Proof.
  intros Hok Ha. unfold pg_updated. destruct (mapEvents _ _ _).
  apply (pg_ok_put (stored a')); [done|by apply storable_stored|done].
Qed.

Lemma pg_view_updated a' db :
  storable a' → pg_view (pg_updated a' db) = <[a_id a' := stored a']> (pg_view db).
Proof.
  intros Ha. unfold pg_updated. destruct (mapEvents _ _ _).
  apply (pg_view_put (stored a')); [by apply storable_stored|done].
Qed.

(** *** Adding *)

Lemma relist_of_taken_true db i :
  pg_ok db → i ≠ zero_value →
  pg.relist_of_taken (AuctionID_UUID i) db = true
  ↔ ∃ id' a', pg_view db !! id' = Some a' ∧ a_relistOf a' = i.
Proof.
  intros Hok Hi. unfold pg.relist_of_taken. rewrite existsb_exists. split.
  - intros ([u p] & Hin & Hb%bool_decide_eq_true). simpl in Hb.
    apply list_elem_of_In, elem_of_map_to_list in Hin.
    destruct (Hok _ _ Hin) as (a & Hs & He & Hu & ->).
    exists (a_id a), a. split; [apply pg_view_lookup; [done|]; by rewrite Hu|].
    simpl in Hb. unfold opt_unless in Hb. destruct (negb _); simplify_eq/=.
    by rewrite <-(AuctionID_eta (a_relistOf a)), Hb, AuctionID_eta.
  - intros (id' & a' & Hl & <-). apply pg_view_lookup in Hl as (Hl & _); [|done].
    eexists (_, _). split; [by apply list_elem_of_In, elem_of_map_to_list|].
    apply bool_decide_eq_true. simpl. by rewrite opt_unless_Some.
Qed.

(** The database after a committed [Add] of a new identity. *)
Definition pg_added (a : Auction) (db : AuctionDB) : AuctionDB :=
  let '(evs, n) := mapEvents (db_drawn db) a (a_events a) in
  mkAuctionDB (<[AuctionID_UUID (a_id a) := toPgAuction a]> (db_auctions db))
    (db_bids db) (db_outbox db ++ evs) n.

Lemma pg_add_run f a db :
  pg_ok db → pg_view db !! a_id a = None →
  (a_relistOf a ≠ zero_value →
   ∀ id' a', pg_view db !! id' = Some a' → a_relistOf a' ≠ a_relistOf a) →
  pg.Add f (Some a) db = RunInTx f (fun db => (Ok tt, pg_added a db)) db.
Proof.
  intros Hok Hl Hr. apply pg_view_None in Hl; [|done].
  unfold pg.Add. apply RunInTx_ext. unfold pg.insert_auction. run_go. simpl. rewrite Hl. run_go.
  assert (match opt_unless AuctionID_UUID (a_relistOf a) with
          | Some u => pg.relist_of_taken u db | None => false end = false) as ->.
  { destruct (decide (a_relistOf a = zero_value)) as [->|Hz]; [done|].
    rewrite opt_unless_Some by done. apply not_true_is_false.
    rewrite relist_of_taken_true by done. intros (id' & a' & Hl' & He). by eapply Hr. }
  run_go. unfold pg.publishIntegrationEvents, pg.publishMapped, pg_added, pg.put_row, modify.
  simpl. by destruct (mapEvents _ _ _).
Qed.

(** *** The candidate scan *)

Lemma scan_ids_ok rows :
  Forall (fun p => ∃ a, storable a ∧ p = toPgAuction a) rows →
  pg.scan_ids rows = Ok (mkAuctionID ∘ p_ID <$> rows).
Proof.
  induction 1 as [|p rows (a & Ha & ->) _ IH]; [done|]. simpl.
  rewrite NewAuctionID_Ok by apply Ha. simpl. rewrite IH. simpl. by rewrite AuctionID_eta.
Qed.

Definition due_all (before : Time) (db : AuctionDB) : list pgAuction :=
  merge_sort pg.ends_before
    (filter (fun p => p_Status p = "listed" ∧ p_EndsAt p ≤ before)
       (map_to_list (db_auctions db)).*2).

Lemma due_all_elem db before p :
  p ∈ due_all before db ↔
  ∃ u, db_auctions db !! u = Some p ∧ p_Status p = "listed" ∧ p_EndsAt p ≤ before.
Proof.
  unfold due_all. rewrite merge_sort_Permutation, list_elem_of_filter, list_elem_of_fmap. split.
  - intros [[Hs He] ([u q] & -> & Hq)]. exists u. by rewrite elem_of_map_to_list in Hq.
  - intros (u & Hl & Hs & He). split; [done|]. exists (u, p). by rewrite elem_of_map_to_list.
Qed.

Lemma Status_listed s : Status_String s = "listed" ↔ s = StatusListed.
Proof. by destruct s. Qed.

Lemma pg_due_spec db before limit :
  pg_ok db → 0 ≤ limit →
  ∃ ids, pg.DueForClosing before limit db = Ok ids
    ∧ (∀ id, id ∈ ids → ∃ a, pg_view db !! id = Some a ∧ is_due before a)
    ∧ (Z.of_nat (length ids) < limit →
       ∀ id a, pg_view db !! id = Some a → is_due before a → id ∈ ids)
    ∧ Z.of_nat (length ids) ≤ limit.
Proof.
  intros Hok Hlim. unfold pg.DueForClosing. change (pg.due_rows before limit db)
    with (take (Z.to_nat limit) (due_all before db)).
  assert (∀ p, p ∈ due_all before db → ∃ a, pg_view db !! a_id a = Some a ∧ is_due before a
            ∧ storable a ∧ p = toPgAuction a) as Hall.
  { intros p (u & Hl & Hs & He)%due_all_elem. destruct (Hok _ _ Hl) as (a & Ha & Hev & Hu & ->).
    apply Status_listed in Hs. exists a. split_and!; [|done..].
    apply pg_view_lookup; [done|]. by rewrite Hu. }
  exists (mkAuctionID ∘ p_ID <$> take (Z.to_nat limit) (due_all before db)).
  split_and!; [| | |rewrite length_fmap, length_take; lia].
  - apply scan_ids_ok, Forall_forall. intros p (i & Hp & _)%elem_of_take.
    apply list_elem_of_lookup_2, Hall in Hp as (a & _ & _ & ? & ?). eauto.
  - intros id (p & -> & (i & Hp & _)%elem_of_take)%list_elem_of_fmap.
    apply list_elem_of_lookup_2, Hall in Hp as (a & Hv & Hd & _ & ->).
    exists a. simpl. by rewrite AuctionID_eta.
  - rewrite length_fmap, length_take. intros Hlen id a Hv [Hs He].
    rewrite take_ge by lia. apply pg_view_lookup in Hv as (Hl & Ha & _ & <-); [|done].
    apply list_elem_of_fmap. exists (toPgAuction a). split; [simpl; by rewrite AuctionID_eta|].
    apply due_all_elem. exists (AuctionID_UUID (a_id a)). split_and!; [done| |done].
    simpl. by rewrite Hs.
Qed.

#[export] Instance pg_laws : @AuctionRepositoryLaws AuctionDB (pg.repository no_faults).
Proof.
  refine {| repo_ok := pg_ok; repo_view := pg_view; bids_fresh := fresh_bids |}; simpl.
  - intros s. split; [constructor|]. intros ? ? Hb. by apply not_elem_of_nil in Hb.
  - intros s id a Hs Hl. by apply pg_view_lookup in Hl as (_ & ? & ? & ?).
  - intros s id a Hs Hl. unfold pg.Get.
    apply pg_view_lookup in Hl as (-> & Ha & He & _); [|done].
    by rewrite toDomain_toPg, (drained_same a He).
  - intros s id Hs Hl. unfold pg.Get. by rewrite (proj1 (pg_view_None s id Hs) Hl).
  - intros id actor fn s Ha. unfold pg.Update. run_go. by rewrite (proj2 (IsZero_false _) Ha).
  - intros id fn s. eexists. unfold pg.Update. run_go. by rewrite IsZero_zero.
  - intros id fn s Hs Hl. unfold pg.UpdateAsSystem, pg.update. rewrite RunInTx_no_faults. run_go.
    by rewrite (proj1 (pg_view_None s id Hs) Hl).
  - intros id fn s a e Hs Hl Hfn. unfold pg.UpdateAsSystem, pg.update.
    rewrite RunInTx_no_faults. run_go.
    apply pg_view_lookup in Hl as (-> & Ha & He & _); [|done]. run_go.
    by rewrite toDomain_toPg, (drained_same a He), Hfn.
  - intros id fn s a a' Hs Hl Hfn Had Hfr. pose proof Had as [_ Hsl Hso _].
    exists (pg_updated a' s). unfold pg.UpdateAsSystem.
    rewrite (pg_update_run _ _ _ _ a a') by done. split; [done|].
    split; [by apply pg_ok_updated|]. rewrite pg_view_updated, (sl_id _ _ Hsl) by done.
    by apply pg_view_lookup in Hl as (_ & _ & _ & ->).
  - intros s a a0 Hs Hl. apply pg_view_lookup in Hl as (Hl & _); [|done].
    unfold pg.Add, pg.insert_auction. rewrite RunInTx_no_faults. run_go. simpl. by rewrite Hl.
  - intros s a id' a' Hs Hl Hz Hl' Hr. unfold pg.Add, pg.insert_auction.
    rewrite RunInTx_no_faults. run_go. simpl. rewrite (proj1 (pg_view_None s _ Hs) Hl). run_go.
    rewrite opt_unless_Some by done.
    by rewrite (proj2 (relist_of_taken_true s _ Hs Hz)) by eauto.
  - intros s a Hs Ha _ Hl Hr. exists (pg_added a s).
    split; [exact (pg_add_run no_faults a s Hs Hl Hr)|]. unfold pg_added. destruct (mapEvents _ _ _).
    split; [by apply (pg_ok_put (set_events [] a)); [|apply storable_drained|]|].
    by apply (pg_view_put (set_events [] a)); [apply storable_drained|].
  - intros s before limit. apply pg_due_spec.
Defined.
End Pg.

(** ** Calls keep aggregates storable *)

Definition amount_nonneg (c : call) : Prop :=
  match c with CPlaceBid _ _ amount _ => 0 ≤ m_amount amount | _ => True end.

Lemma opt_storable_bid_zero cur : opt_storable_bid cur zero_value.
Proof. by left. Qed.

Lemma window_extended a d :
  storable a → 0 ≤ d →
  UnmarshalBiddingWindow (w_startsAt (a_window a)) (w_endsAt (a_window a) + d)
    (w_originalEndsAt (a_window a)) = Ok (BiddingWindow_ExtendedBy (a_window a) d).
Proof.
  intros Hs Hd. pose proof (so_window a Hs) as Hw. pose proof (so_startsAt a Hs) as Hst.
  unfold UnmarshalBiddingWindow, time_IsZero, time_After, time_Before in *.
  destruct (a_window a) as [st en or]; simpl in *.
  case_match eqn:E1; [done|]. case_match eqn:E2; [done|]. breflect.
  rewrite (proj2 (Z.eqb_neq st 0)), (proj2 (Z.eqb_neq or 0)), (proj2 (Z.eqb_neq (en + d) 0)),
    (proj2 (Z.ltb_lt st (en + d))), (proj2 (Z.ltb_ge (en + d) or)) by lia.
  done.
Qed.

Lemma accept_storable a id b amount now :
  storable a → 0 ≤ m_amount amount → acceptable a id b amount now →
  storable (accept (mkBid id (bd_id b) amount now) now a).
Proof.
  intros Hs Hn Hacc. pose proof Hs as [Hid Hse Hlot Hcur Hst Hin Hve Hre Hwi Hss Hpo Hsta Hl Hr Hv].
  destruct Hacc as [_ _ _ Hc _ _ Hbid].
  assert (opt_storable_bid (m_currency (a_startPrice a)) (mkBid id (bd_id b) amount now)).
  { right. unfold NewBid in Hbid. case_match eqn:E; [done|]. unfold time_IsZero in E. breflect.
    by constructor. }
  unfold accept. destruct (extends a now); constructor; simpl; try done.
  apply window_extended; [done|]. destruct Hpo as (_ & (k & -> & ? & _) & _).
  unfold Second. lia.
Qed.

Lemma run_storable c a x a' :
  storable a → amount_nonneg c → run c a = (Ok x, a') → storable a'.
Proof.
  intros Hs Hn Hrun%run_ok_inv.
  destruct c; break; [by apply accept_storable|..];
    pose proof Hs as [Hid Hse Hlot Hcur Hst Hin Hve Hre Hwi Hss Hpo Hsta Hl Hr Hv];
    constructor; simpl; try done; by apply opt_storable_bid_zero.
Qed.

(** ** The properties of the storage *)

Lemma demo_storable : storable demo.a0.
Proof.
  constructor; try done; try (by left); try (vm_compute; by split).
  - right. by split.
  - split; [exists 60|split; [exists 120|]]; by split_and?.
Defined.

(** Durations are stored in whole seconds.  A platform whose anti-snipe
    window is half a second lists an auction and stores it; from then on the
    row cannot be loaded, so the auction can be neither read nor closed.  One
    and a half seconds silently becomes one. *)
Theorem policy_truncated :
  (∃ rules a, New (mkAuctionID 1) (mkSellerID 2) (mkLot "clock" "") (demo.eur 1000)
      (demo.eur 100) NoReserve demo.window rules Second = Ok a
    ∧ NewAntiSnipePolicy (Second / 2) Second 1 = Ok (lr_antiSnipe rules)
    ∧ ∃ e, toDomainAuction (toPgAuction a) = Fail e)
  ∧ seconds (whole_seconds (3 * Second / 2)) = Second.
Proof.
  split; [|vm_compute; reflexivity].
  exists (mkListingRules demo.EUR (demo.eur 5) (mkAntiSnipePolicy (Second / 2) Second 1)).
  eexists. split; [vm_compute; reflexivity|].
  split; [vm_compute; reflexivity|]. eexists. vm_compute. reflexivity.
Qed.

(** C11: one transaction writes the row, the bid history and the outbox.  With
    any driver faults, an update that reports success has left exactly the new
    row (version incremented), the accepted bids appended and the mapped
    events published; an update that reports an error has left the database as
    it was, unless the commit was applied and only its answer lost, when all
    three are there. *)
Theorem pg_update_atomic `{UUIDLib} f id fn db a a' r db' :
  pg_ok db → pg_view db !! id = Some a → fn a = Ok a' → admissible a a' →
  fresh_bids db (placed (a_events a')) →
  pg.UpdateAsSystem f id fn db = (r, db') →
  match r with
  | Ok _ => db' = pg_updated a' db
  | Fail _ => db' = db
      ∨ (db' = pg_updated a' db ∧ commit_applied f = true ∧ is_Some (commit_err f))
  | Panic _ => False
  end.
Proof.
  intros Hok Hl Hfn Had Hfr. unfold pg.UpdateAsSystem.
  rewrite (pg_update_run _ _ _ _ a a') by done. intros Hr. destruct r as [x|e|p].
  - apply RunInTx_ok_inv in Hr. by simplify_eq.
  - apply RunInTx_fail_inv in Hr as [|(x & Hx & Hc)]; [by left|right]. by simplify_eq.
  - unfold RunInTx in Hr. destruct (begin_err f); [done|]. simpl in Hr.
    by destruct (commit_err f).
Qed.

Import demo_uuid.

(** A store with the demonstration auction, and a bid placed on it. *)
Definition demo_db : AuctionDB :=
  mkAuctionDB {[ 1%N := toPgAuction (set_events [] demo.a0) ]} [] [] 0.
Definition demo_mem : AuctionInMemRepository :=
  mkAuctionInMemRepository {[ mkAuctionID 1 := set_events [] demo.a0 ]}.
Definition demo_fn (a : Auction) : result Auction :=
  closure (PlaceBid (mkBidID 11) (demo.bidder 3) (demo.eur 1000) (1500 * Second)) a.

Lemma demo_drained_storable : storable (set_events [] demo.a0).
Proof. apply storable_drained, demo_storable. Defined.

Lemma demo_pg_ok : pg_ok demo_db.
Proof.
  intros u p. simpl. rewrite lookup_singleton_Some. intros [<- <-].
  exists (set_events [] demo.a0). split_and!; try done. apply demo_drained_storable.
Defined.

Lemma demo_inmem_ok : inmem_ok demo_mem.
Proof.
  intros id a. simpl. rewrite lookup_singleton_Some. intros [<- <-].
  split_and!; try done. apply demo_drained_storable.
Defined.

Lemma demo_admissible a' :
  demo_fn (set_events [] demo.a0) = Ok a' → admissible (set_events [] demo.a0) a'.
Proof.
  intros Hf.
  assert (run (CPlaceBid (mkBidID 11) (demo.bidder 3) (demo.eur 1000) (1500 * Second))
            (set_events [] demo.a0) = (Ok tt, a')) as Hr.
  { unfold demo_fn, closure in Hf. simpl. unfold forget.
    destruct (PlaceBid _ _ _ _ _) as [[] ?]; simpl; try done. by injection Hf as ->. }
  split; [by eexists _, _|by eapply run_ok_same_listing| |by vm_compute].
  eapply run_storable; [apply demo_drained_storable| |exact Hr]. by vm_compute.
Qed.

Lemma demo_fresh a' :
  demo_fn (set_events [] demo.a0) = Ok a' → fresh_bids demo_db (placed (a_events a')).
Proof.
  intros Hf. vm_compute in Hf. injection Hf as <-. split.
  - apply NoDup_singleton.
  - intros b r _ Hr. by apply not_elem_of_nil in Hr.
Qed.

Lemma pg_update_atomic_witness :
  is_ok (pg.UpdateAsSystem no_faults (mkAuctionID 1) demo_fn demo_db).1 = true.
Proof.
  destruct (pg.UpdateAsSystem no_faults (mkAuctionID 1) demo_fn demo_db) as [r db'] eqn:E.
  eassert (demo_fn (set_events [] demo.a0) = Ok _) as Hf by (vm_compute; reflexivity).
  assert (Hl : pg_view demo_db !! mkAuctionID 1 = Some (set_events [] demo.a0)).
  { apply pg_view_lookup; [apply demo_pg_ok|].
    split_and!; [vm_compute; reflexivity|apply demo_drained_storable|reflexivity..]. }
  pose proof (pg_update_atomic no_faults (mkAuctionID 1) demo_fn demo_db _ _ r db'
    demo_pg_ok Hl Hf (demo_admissible _ Hf) (demo_fresh _ Hf) E) as H.
  destruct r; [done| |done].
  destruct H as [?|(_ & _ & [? Hs])]; [by vm_compute in E|by vm_compute in Hs].
Defined.

End auction_repo_theory.
