(* ===== verification/AuctionColumns.v ===== *)
(** * The columns of an auction

    [migrations/00001_auction_schema.sql]: what the table keeps of the row the
    repository writes.  A [timestamptz] holds microseconds, an [int] 32 bits, a
    [text] no zero byte.  [row_roundtrip]: what is loaded is the aggregate at
    that precision, and nothing is lost a second time. *)

From stdpp Require Import base numbers list strings.
From Stdlib Require Import ZArith Lia.
From S2P Require Import Prelude Errs AuctionDomain AuctionTheory AuctionRepo AuctionRepoTheory.

Definition Microsecond : Z := 1000.

(** The time that is read back when one is written: the driver and the column
    may truncate or round it. *)
Class TimestampColumn := { timestamptz : Z → Z }.

Class TimestampLaws `{TimestampColumn} := {
  timestamptz_grid : ∀ t, (Microsecond | timestamptz t)%Z;
  timestamptz_exact : ∀ t, (Microsecond | t)%Z → timestamptz t = t;
  timestamptz_mono : ∀ t u, (t ≤ u)%Z → (timestamptz t ≤ timestamptz u)%Z;
}.

Module auction_columns.
Import auction auction_theory auction_repo auction_repo_theory.
Local Open Scope Z_scope.

Section Columns.
Context `{TimestampColumn}.

Definition int4 (n : Z) : bool := (- 2 ^ 31 <=? n) && (n <? 2 ^ 31).
Definition bigint (n : Z) : bool := (int64_min <=? n) && (n <=? int64_max).
Definition text (s : string) : bool :=
  negb (existsb (Ascii.eqb Ascii.zero) (String.list_ascii_of_string s)).

Definition nullable {A} (accepts : A → bool) (v : option A) : bool :=
  match v with Some v => accepts v | None => true end.

(** The row the table holds once [p] is written; [None] when a value is
    refused. *)
Definition columns (p : pgAuction) : option pgAuction :=
  if text (p_Title p) && text (p_Description p)
     && bigint (p_StartPriceMinor p) && bigint (p_IncrementMinor p)
     && nullable bigint (p_ReservePriceMinor p)
     && int4 (p_SnipeWindowSec p) && int4 (p_SnipeExtensionSec p) && int4 (p_SnipeMaxExt p)
     && bigint (p_VerifyAboveMinor p) && int4 (p_ExtensionsUsed p)
     && nullable bigint (p_LeadingAmountMinor p) && nullable bigint (p_RunnerUpAmountMinor p)
     && int4 (p_BidCount p) && int4 (p_RelistGeneration p) && bigint (p_Version p)
  then Some (mkPgAuction (p_ID p) (p_SellerID p) (p_Title p) (p_Description p) (p_Currency p)
    (p_StartPriceMinor p) (p_IncrementMinor p) (p_ReservePriceMinor p)
    (timestamptz (p_StartsAt p)) (timestamptz (p_EndsAt p)) (timestamptz (p_OriginalEndsAt p))
    (p_SnipeWindowSec p) (p_SnipeExtensionSec p) (p_SnipeMaxExt p)
    (p_VerifyAboveMinor p) (p_ExtensionsUsed p) (p_Status p) (p_Outcome p)
    (p_LeadingBidID p) (p_LeadingBidderID p) (p_LeadingAmountMinor p)
    (timestamptz <$> p_LeadingPlacedAt p)
    (p_RunnerUpBidID p) (p_RunnerUpBidderID p) (p_RunnerUpAmountMinor p)
    (timestamptz <$> p_RunnerUpPlacedAt p)
    (p_WinnerReassigned p) (p_BidCount p) (p_RelistOf p) (p_RelistGeneration p)
    (p_Settled p) (p_Version p))
  else None.

(** ** The aggregate at the precision of the columns *)

Definition kept_window (w : BiddingWindow) : BiddingWindow :=
  mkBiddingWindow (timestamptz (w_startsAt w)) (timestamptz (w_endsAt w))
    (timestamptz (w_originalEndsAt w)).

Definition kept_policy (p : AntiSnipePolicy) : AntiSnipePolicy :=
  mkAntiSnipePolicy (seconds (whole_seconds (p_window p))) (seconds (whole_seconds (p_extension p)))
    (p_maxExtensions p).

Definition kept_bid (b : Bid) : Bid :=
  mkBid (b_id b) (b_bidder b) (b_amount b) (timestamptz (b_placedAt b)).

Definition kept (a : Auction) : Auction :=
  mkAuction (a_id a) (a_seller a) (a_lot a) (a_startPrice a) (a_increment a) (a_reserve a)
    (kept_window (a_window a)) (kept_policy (a_antiSnipe a)) (a_verifyAbove a) (a_extensionsUsed a)
    (a_status a) (a_outcome a) (kept_bid (a_leadingBid a)) (kept_bid (a_runnerUpBid a))
    (a_winnerReassigned a) (a_bidCount a) (a_relistOf a) (a_relistGen a) (a_settled a)
    (a_version a) (a_events a).

(** An aggregate that can be loaded once it is stored: its durations are
    [int64]s and its bids come from [NewBid]; at the precision of the columns
    its value objects are still ones the constructors accept. *)
Record loadable (a : Auction) : Prop := {
  ld_kept : storable (kept a);
  ld_policy : in_int64 (p_window (a_antiSnipe a)) ∧ in_int64 (p_extension (a_antiSnipe a));
  ld_leading : opt_storable_bid (m_currency (a_startPrice a)) (a_leadingBid a);
  ld_runner : opt_storable_bid (m_currency (a_startPrice a)) (a_runnerUpBid a);
}.
End Columns.

Section Theory.
Context `{TimestampLaws}.

Lemma timestamptz_zero : timestamptz 0 = 0.
Proof. apply timestamptz_exact, Z.divide_0_r. Qed.

Lemma timestamptz_idem t : timestamptz (timestamptz t) = timestamptz t.
Proof. apply timestamptz_exact, timestamptz_grid. Qed.

Lemma kept_bid_zero : kept_bid zero_value = zero_value.
Proof. unfold kept_bid. simpl. by rewrite timestamptz_zero. Qed.

Lemma kept_bid_IsZero cur b : opt_storable_bid cur b → IsZero (kept_bid b) = IsZero b.
Proof.
  intros [->|Hb]; [by rewrite kept_bid_zero|]. pose proof (sb_id _ _ Hb) as Hi.
  rewrite !(proj2 (IsZero_false _)); [done|..]; intros Hz; apply Hi;
    [by rewrite Hz|]. by injection Hz as ->.
Qed.

Lemma whole_seconds_idem d :
  in_int64 d → whole_seconds (seconds (whole_seconds d)) = whole_seconds d.
Proof.
  intros Hd. unfold seconds, whole_seconds, in_int64, int64_min, int64_max in *.
  rewrite wrap64_small; [by rewrite Z.quot_mul by done|].
  unfold in_int64, int64_min, int64_max. unfold Second.
  pose proof (Z.quot_rem' d 1000000000) as E.
  destruct (decide (0 ≤ d)).
  - pose proof (Z.rem_bound_pos d 1000000000 ltac:(done) ltac:(done)). lia.
  - pose proof (Z.rem_bound_pos (-d) 1000000000 ltac:(lia) ltac:(done)).
    rewrite Z.rem_opp_l' in *. lia.
Qed.

(** What the table holds is the row of the aggregate at its precision. *)
Lemma columns_kept a row :
  loadable a → columns (toPgAuction a) = Some row → row = toPgAuction (kept a).
Proof.
  intros [_ [Hw He] Hl Hr]. unfold columns. case_match; [|done]. intros [= <-].
  unfold toPgAuction, kept, opt_unless; simpl.
  rewrite !whole_seconds_idem by done. rewrite (kept_bid_IsZero _ _ Hl), (kept_bid_IsZero _ _ Hr).
  by destruct (negb (IsZero (a_leadingBid a))), (negb (IsZero (a_runnerUpBid a))).
Qed.
(** Writing what was read changes nothing. *)
Lemma columns_idem p row : columns p = Some row → columns row = Some row.
Proof.
  unfold columns at 1. case_match eqn:E; [|done]. intros [= <-]. unfold columns. simpl.
  rewrite E, !timestamptz_idem.
  by destruct (p_LeadingPlacedAt p), (p_RunnerUpPlacedAt p); simpl; rewrite ?timestamptz_idem.
Qed.

(** ** Nothing is lost twice *)

Record on_grid (a : Auction) : Prop := {
  og_starts : (Microsecond | w_startsAt (a_window a));
  og_ends : (Microsecond | w_endsAt (a_window a));
  og_original : (Microsecond | w_originalEndsAt (a_window a));
  og_policy : whole (p_window (a_antiSnipe a)) ∧ whole (p_extension (a_antiSnipe a));
}.

Lemma kept_on_grid a : storable (kept a) → on_grid (kept a).
Proof.
  intros Hs. constructor; simpl; [apply timestamptz_grid..|].
  destruct (so_policy _ Hs) as (? & ? & _). done.
Qed.

Lemma on_grid_window a : on_grid a → kept_window (a_window a) = a_window a.
Proof. intros []. unfold kept_window. rewrite !timestamptz_exact by done. by destruct (a_window a). Qed.

Lemma on_grid_policy a : on_grid a → kept_policy (a_antiSnipe a) = a_antiSnipe a.
Proof.
  intros [_ _ _ [Hw He]]. unfold kept_policy. rewrite !whole_roundtrip by done.
  by destruct (a_antiSnipe a).
Qed.

(** The time of a bid survives to the precision of the column, and is not the
    zero time. *)
Definition timed (b : Bid) : Prop := b = zero_value ∨ timestamptz (b_placedAt b) ≠ 0.

Lemma timed_kept cur b : opt_storable_bid cur b → timed b → opt_storable_bid cur (kept_bid b).
Proof.
  intros [->|[]] [Hz|Ht]; try (by left; rewrite ?Hz, kept_bid_zero).
  right. by constructor.
Qed.

Lemma loadable_on_grid a :
  storable a → on_grid a → timed (a_leadingBid a) → timed (a_runnerUpBid a) → loadable a.
Proof.
  intros Hs Hg Hl Hr. pose proof (so_leading _ Hs). pose proof (so_runner _ Hs).
  constructor; [|  |done..].
  - destruct Hs. constructor; cbn -[kept_window kept_policy kept_bid];
      rewrite ?on_grid_window, ?on_grid_policy by done; try done;
      by apply timed_kept.
  - destruct (so_policy _ Hs) as ((k&->&?&?) & (k'&->&?&?) & _).
    unfold in_int64, int64_min, Second in *. lia.
Qed.

Lemma kept_bid_timed cur b : opt_storable_bid cur (kept_bid b) → timed (kept_bid b).
Proof. intros [?|[]]; [by left|right]. simpl in *. by rewrite timestamptz_idem. Qed.
(** ** Calls *)

Definition on_microseconds (c : call) : Prop :=
  match c with CPlaceBid _ _ _ now => (Microsecond | now) | _ => True end.

(** The bids of the aggregate after a call. *)
Lemma run_bids c a x a' :
  run c a = (Ok x, a') →
  ∀ P : Bid → Prop, P zero_value → P (a_leadingBid a) → P (a_runnerUpBid a) →
  (∀ id b amount now, c = CPlaceBid id b amount now → acceptable a id b amount now →
     P (mkBid id (bd_id b) amount now)) →
  P (a_leadingBid a') ∧ P (a_runnerUpBid a').
Proof. intros Hr%run_ok_inv P Hz Hl Hru Hn. destruct c; break; simpl; eauto. Qed.

Lemma run_on_grid c a x a' : storable a → on_grid a → run c a = (Ok x, a') → on_grid a'.
Proof.
  intros Hs Hg Hr. pose proof (run_ok_same_listing _ _ _ _ Hr) as Hsl.
  constructor; rewrite ?(sl_startsAt _ _ Hsl), ?(sl_original _ _ Hsl), ?(sl_policy _ _ Hsl);
    try apply Hg.
  apply run_ok_inv in Hr. destruct c; break; try apply Hg.
  unfold accept. destruct (extends a now); [|apply Hg]. simpl. unfold time_Add.
  apply Z.divide_add_r; [apply Hg|]. destruct (og_policy a Hg) as (_ & k & -> & _).
  exists (k * 1000000). unfold Second, Microsecond. lia.
Qed.

Lemma accepted_timed a id b amount now :
  on_grid a → storable a → acceptable a id b amount now → timed (mkBid id (bd_id b) amount now).
Proof.
  intros Hg Hs Hacc. right. simpl. pose proof (so_startsAt _ Hs).
  pose proof (acc_open _ _ _ _ _ Hacc) as Ho.
  unfold Auction_IsOpenAt, BiddingWindow_IsOpenAt, time_Before in Ho. breflect.
  assert (timestamptz (w_startsAt (a_window a)) ≤ timestamptz now) by (apply timestamptz_mono; lia).
  rewrite timestamptz_exact in * by apply Hg. lia.
Qed.

(** A call on what was loaded leaves what can be stored and loaded. *)
Lemma run_loadable c a x a' :
  loadable a → amount_nonneg c → run c (set_events [] (kept a)) = (Ok x, a') →
  loadable a' ∧ (on_microseconds c → kept a' = a').
Proof.
  intros Ha Hn Hr. pose proof (storable_drained _ (ld_kept a Ha)) as Hs.
  assert (on_grid (set_events [] (kept a))) as Hg by (destruct (kept_on_grid a (ld_kept a Ha)); by constructor).
  pose proof (run_storable _ _ _ _ Hs Hn Hr) as Hs'. pose proof (run_on_grid _ _ _ _ Hs Hg Hr) as Hg'.
  split.
  - destruct (run_bids _ _ _ _ Hr timed) as [Hl Hru]; [by left|..|by apply loadable_on_grid].
    + eapply kept_bid_timed, (so_leading _ Hs).
    + eapply kept_bid_timed, (so_runner _ Hs).
    + intros id b amount now _. by apply accepted_timed.
  - intros Hm. destruct (run_bids _ _ _ _ Hr (fun b => kept_bid b = b)) as [Hl Hru].
    + apply kept_bid_zero.
    + unfold kept_bid. simpl. by rewrite timestamptz_idem.
    + unfold kept_bid. simpl. by rewrite timestamptz_idem.
    + intros id b amount now -> _. unfold kept_bid. simpl. by rewrite timestamptz_exact.
    + unfold kept. rewrite on_grid_window, on_grid_policy, Hl, Hru by done. by destruct a'.
Qed.

(** ** The claim *)

(** C16: what is loaded is what was stored, at the precision of the columns:
    times as the [timestamptz] keeps them, durations in whole seconds, without
    the events the repository drains.  Storing it again writes the same row;
    every successful call on it leaves an aggregate that can be stored and
    loaded in turn, and when the call was at a whole microsecond nothing of
    that aggregate is lost.  Of an aggregate whose times are whole
    microseconds and whose durations are whole seconds nothing is lost in the
    first place. *)
Theorem row_roundtrip a row :
  loadable a → columns (toPgAuction a) = Some row →
  toDomainAuction row = Ok (set_events [] (kept a))
  ∧ columns (toPgAuction (kept a)) = Some row
  ∧ (∀ c x a', amount_nonneg c → run c (set_events [] (kept a)) = (Ok x, a') →
       loadable a' ∧ (on_microseconds c → kept a' = a'))
  ∧ (on_grid a → (Microsecond | b_placedAt (a_leadingBid a)) →
       (Microsecond | b_placedAt (a_runnerUpBid a)) → kept a = a).
Proof.
  intros Ha Hrow. pose proof (columns_kept _ _ Ha Hrow) as E. split_and!.
  - rewrite E. apply toDomain_toPg, Ha.
  - rewrite <-E. by eapply columns_idem.
  - intros c x a'. by apply run_loadable.
  - intros Hg Hl Hr. unfold kept, kept_bid.
    rewrite on_grid_window, on_grid_policy, !timestamptz_exact by done.
    destruct a as [????????????[][]]; done.
Qed.
End Theory.

(** ** A column that truncates *)

#[local] Instance demo_column : TimestampColumn := { timestamptz t := t / Microsecond * Microsecond }.
#[local] Instance demo_column_laws : TimestampLaws.
Proof.
  constructor; simpl.
  - intros t. apply Z.divide_factor_r.
  - intros t [k ->]. by rewrite Z.div_mul by done.
  - intros t u Htu. pose proof (Z.div_le_mono t u Microsecond ltac:(done) Htu).
    unfold Microsecond in *. lia.
Qed.

(** The demonstration auction after a bid at a time between two microseconds. *)
Definition demo_bid : call :=
  CPlaceBid (mkBidID 11) (demo.bidder 3) (demo.eur 1000) (1500 * Second + 123456).
Definition demo_live : Auction := (run demo_bid demo.a0).2.

Lemma demo_loadable : loadable demo_live.
Proof.
  assert (storable demo_live) as Hs.
  { apply (run_storable demo_bid demo.a0 tt); [apply demo_storable|done|vm_compute; reflexivity]. }
  apply loadable_on_grid; [done| |right; by vm_compute|by left].
  constructor; [by exists 1000000000|by exists 2000000000|by exists 2000000000|].
  destruct (so_policy _ Hs) as (? & ? & _). done.
Qed.

Lemma row_roundtrip_witness :
  ∃ row a, columns (toPgAuction demo_live) = Some row ∧ toDomainAuction row = Ok a
    ∧ b_placedAt (a_leadingBid a) = 1500 * Second + 123000.
Proof.
  eassert (columns (toPgAuction demo_live) = Some _) as Hc by (vm_compute; reflexivity).
  destruct (row_roundtrip _ _ demo_loadable Hc) as [Hd _].
  eexists _, _. split; [exact Hc|]. split; [exact Hd|]. by vm_compute.
Defined.

(** A listing whose window lies within a microsecond is accepted and stored;
    its row cannot be loaded, so the auction can be neither read nor closed. *)
Lemma window_lost :
  ∃ w a row, NewBiddingWindow (1000 * Second + 100) (1000 * Second + 900) = Ok w
    ∧ New (mkAuctionID 1) (mkSellerID 2) (mkLot "clock" "") (demo.eur 1000) (demo.eur 100)
        NoReserve w demo.rules Second = Ok a
    ∧ columns (toPgAuction a) = Some row ∧ ∃ e, toDomainAuction row = Fail e.
Proof.
  eexists _, _, _. split_and!; [vm_compute; reflexivity..|]. eexists. vm_compute. reflexivity.
Qed.
End auction_columns.
