(* ===== verification/AuctionAgree.v ===== *)
(** * The two auction repositories agree

    The in-memory repository of the tests and the Postgres one, command by
    command, read by read; where they differ ([repositories_agree]): a bid
    identity used twice, and the order and choice of the closing candidates. *)

From stdpp Require Import base numbers list strings gmap fin_maps sorting.
From Stdlib Require Import ZArith Lia.
From S2P Require Import Prelude DemoUUID Errs Postgres AuctionDomain AuctionTheory AuctionRepo AuctionRepoTheory.

Module auction_agree.
Import auction auction_theory auction_repo auction_repo_theory.
Local Open Scope Z_scope.

(** ** Commands *)






(** Two implementations of the interface cannot be told apart. *)
Section Agree.
Context {S1 S2 : Type} `{AuctionRepositoryLaws S1, AuctionRepositoryLaws S2}.



End Agree.

(** ** The candidates for closing *)





Section Pg.
Context `{UUIDLib}.








End Pg.

(** ** A bid identity used twice *)

Section Repeated.
Context `{UUIDLib}.



End Repeated.
(** ** The two repositories *)

Section Both.
Context `{UUIDLib} (range : list (AuctionID * Auction) → list (AuctionID * Auction)).
Context (range_perm : ∀ l, range l ≡ₚ l).

#[local] Instance memory : AuctionRepository AuctionInMemRepository := inmem.repository range.
#[local] Instance postgres : AuctionRepository AuctionDB := pg.repository no_faults.









End Both.

Import demo_uuid.

End auction_agree.
