(* ===== verification/AuctionAppTheory.v ===== *)
(** * Properties of the auction application

    Proved for any repository that satisfies the laws of the interface:
    the outcome of the handlers, their idempotency, the error mapping and
    the closing worker. *)

From stdpp Require Import base numbers list strings gmap fin_maps.
From Stdlib Require Import ZArith Lia.
From S2P Require Import Prelude DemoUUID Errs Auth Postgres Events AuctionDomain AuctionTheory AuctionRepo AuctionApp AuctionRepoTheory.

Module auction_app_theory.
Import auction auction_theory auction_repo auction_repo_theory auction_app.
Local Open Scope Z_scope.

(** ** The errors of the methods *)

(** The conditions each handler's switch takes for "already done". *)
Lemma award_already now a e :
  (auction.AwardToRunnerUp now a).1 = Fail e → award_switch e = None →
  a_winnerReassigned a = true.
Proof.
  unfold auction.AwardToRunnerUp, unknown_status. run_go.
  destruct (a_winnerReassigned a); [done|]. intros H.
  repeat (case_match; run_go; simplify_eq/=; try done).
Qed.

Lemma award_done now a :
  a_winnerReassigned a = true →
  closure (auction.AwardToRunnerUp now) a = Fail ErrWinnerAlreadyReassigned.
Proof. intros Ha. unfold closure, auction.AwardToRunnerUp. run_go. by rewrite Ha. Qed.

Definition settled_sale (a : Auction) : Prop :=
  a_status a = StatusClosed ∧ a_outcome a = OutcomeSold ∧ a_settled a = true.

Lemma confirm_already now a e :
  (auction.ConfirmSettlement now a).1 = Fail e → confirm_switch e = None → settled_sale a.
Proof.
  unfold auction.ConfirmSettlement, unknown_status, settled_sale. run_go. intros H.
  repeat (case_match; run_go; simplify_eq/=; try done). breflect. by subst.
Qed.

Lemma confirm_done now a :
  settled_sale a → closure (auction.ConfirmSettlement now) a = Fail ErrAlreadySettled.
Proof.
  intros (Hs & Ho & Hse). unfold closure, auction.ConfirmSettlement. run_go.
  rewrite Hs. run_go. by rewrite Ho, Hse.
Qed.

Definition failed_sale (a : Auction) : Prop :=
  a_status a = StatusClosed ∧ a_outcome a = OutcomeNotSold.

Lemma fail_already r now a e :
  (FailSale r now a).1 = Fail e → fail_switch e = None → r ≠ zero_value ∧ failed_sale a.
Proof.
  unfold FailSale, unknown_status, failed_sale. run_go. intros H.
  repeat (case_match; run_go; simplify_eq/=; try done). breflect. by subst.
Qed.

Lemma fail_done r now a :
  r ≠ zero_value → failed_sale a → closure (FailSale r now) a = Fail ErrSaleAlreadyFailed.
Proof.
  intros Hr (Hs & Ho). unfold closure, FailSale. run_go.
  rewrite (proj2 (IsZero_false r) Hr), Hs. run_go. by rewrite Ho.
Qed.

(** ** System updates *)

Section Laws.
Context {S : Type} `{AuctionRepositoryLaws S}.
Implicit Types (s : S).

(** Versions below the end of the range: one more update does not overflow. *)
Definition room s : Prop := ∀ id a, repo_view s !! id = Some a → a_version a < int64_max.

Lemma closure_ok {A} (m : GoM error Auction A) a a' :
  closure m a = Ok a' ↔ ∃ x, m a = (Ok x, a').
Proof. unfold closure. destruct (m a) as [[x|e|p] b]; naive_solver. Qed.

Lemma closure_fail {A} (m : GoM error Auction A) a e :
  closure m a = Fail e ↔ ∃ b, m a = (Fail e, b).
Proof. unfold closure. destruct (m a) as [[x|e'|p] b]; naive_solver. Qed.

(** Calls whose closure is stored without appending bids. *)
Definition quiet (c : call) : Prop := match c with CPlaceBid _ _ _ _ => False | _ => True end.

Lemma quiet_not_placed c a x a' :
  quiet c → a_events a = [] → run c a = (Ok x, a') → placed (a_events a') = [].
Proof.
  intros Hq He Hr%run_ok_inv. destruct c; [destruct Hq|..]; break; simpl; by rewrite He.
Qed.

(** The outcome of a handler that runs [c] in an update closure. *)
Lemma system_update c (fn : Auction → result Auction) s id a :
  repo_ok s → room s → repo_view s !! id = Some a → quiet c →
  (∀ b, fn b = closure (run c) b) →
  (∃ x a' s', run c a = (Ok x, a') ∧ repo_UpdateAsSystem id fn s = (Ok tt, s') ∧ repo_ok s'
     ∧ repo_view s' = <[id := stored a']> (repo_view s))
  ∨ (∃ e, run c a = (Fail e, a) ∧ repo_UpdateAsSystem id fn s = (Fail e, s))
  ∨ (∃ p a', run c a = (Panic p, a')).
Proof.
  intros Hok Hroom Hl Hq Hfn. destruct (view_ok s id a Hok Hl) as (Hso & Hid & Hev).
  destruct (run c a) as [[x|e|p] a'] eqn:Hr; [left|right; left|right; right; eauto].
  - destruct (Update_ok id fn s a a') as (s' & ? & ? & ?); [done|done| | | |].
    + rewrite Hfn. apply closure_ok. eauto.
    + split; [by eexists _, _|by eapply run_ok_same_listing| |by eapply Hroom].
      eapply run_storable; [done| |done]. by destruct c.
    + rewrite (quiet_not_placed _ _ _ _ Hq Hev Hr). apply bids_fresh_nil.
    + exists x, a', s'. by split_and!.
  - exists e. pose proof (run_fail _ _ _ _ Hr) as ->. split; [done|].
    eapply Update_fail; [done..|]. rewrite Hfn. apply closure_fail. eauto.
Qed.

Lemma quiet_no_panic c a p a' : a_status a ≠ zero_value → quiet c → run c a ≠ (Panic p, a').
Proof.
  intros Hs. destruct c; intros Hq; [destruct Hq|..]; simpl; unfold forget, Cancel,
    CanSellerManageAuction, Close, auction.AwardToRunnerUp, auction.ConfirmSettlement, FailSale;
    run_go; destruct (a_status a) eqn:E; try done; solve_method; by intros [=].
Qed.

(** A system command that reports success: either its call succeeded, or the
    aggregate was already where the command leads. *)
Lemma system_command_ok c (fn : Auction → result Auction) sw s id s' :
  repo_ok s → room s → quiet c → (∀ b, fn b = closure (run c) b) →
  sw (AuctionNotFoundError (AuctionID_UUID id)) ≠ None →
  on_error (repo_UpdateAsSystem id fn) sw s = (Ok tt, s') →
  ∃ a, repo_view s !! id = Some a ∧ repo_ok s' ∧
    ((∃ x a', run c a = (Ok x, a') ∧ repo_view s' = <[id := stored a']> (repo_view s))
     ∨ (∃ e, run c a = (Fail e, a) ∧ sw e = None ∧ s' = s)).
Proof.
  intros Hok Hroom Hq Hfn Hnf Hrun. unfold on_error in Hrun.
  destruct (repo_view s !! id) as [a|] eqn:Hl.
  - exists a. split; [done|].
    destruct (system_update c fn s id a Hok Hroom Hl Hq Hfn)
      as [(x & a' & s1 & Hr & E & Hok1 & Hv)|[(e & Hr & E)|(p & a' & Hr)]].
    + rewrite E in Hrun. simplify_eq. split; [done|left]. eauto.
    + rewrite E in Hrun. destruct (sw e) eqn:Hsw; simplify_eq. split; [done|right]. eauto.
    + destruct (view_ok s id a Hok Hl) as (Hso & _).
      exfalso. eapply quiet_no_panic; [apply Hso|done|done].
  - rewrite (Update_missing id fn s) in Hrun by done. by destruct (sw _).
Qed.

(** Repeating a command whose target state is reached. *)
Lemma system_command_repeat (fn : Auction → result Auction) sw s id a e :
  repo_ok s → repo_view s !! id = Some a → fn a = Fail e → sw e = None →
  on_error (repo_UpdateAsSystem id fn) sw s = (Ok tt, s).
Proof.
  intros Hok Hl Hfn Hsw. unfold on_error. rewrite (Update_fail id fn s a e) by done.
  by rewrite Hsw.
Qed.

(** *** The commands of the saga *)

Lemma award_closure now b :
  closure (auction.AwardToRunnerUp now) b = closure (run (CAwardToRunnerUp now)) b.
Proof. unfold closure; simpl; unfold forget. by destruct (auction.AwardToRunnerUp now b) as [[] ?]. Qed.

Lemma close_closure now b : closure (Close now) b = closure (run (CClose now)) b.
Proof. unfold closure; simpl; unfold forget. by destruct (Close now b) as [[] ?]. Qed.

Lemma award_ok now id s s' :
  repo_ok s → room s → AwardToRunnerUpHandler now (mkAwardToRunnerUp id) s = (Ok tt, s') →
  repo_ok s' ∧ ∃ a, repo_view s' !! id = Some a ∧ a_winnerReassigned a = true.
Proof.
  intros Hok Hroom Hrun.
  destruct (system_command_ok (CAwardToRunnerUp now) _ award_switch _ id _ Hok Hroom I
              (award_closure now) ltac:(done) Hrun)
    as (a & Hl & Hok' & [(x & a' & Hr & Hv)|(e & Hr & Hsw & ->)]); split; try done.
  - exists (stored a'). rewrite Hv, lookup_insert_eq. split; [done|].
    simpl in Hr. apply forget_ok in Hr as [y Hr].
    apply AwardToRunnerUp_ok_inv in Hr as (_ & _ & _ & _ & _ & _ & ->). done.
  - exists a. split; [done|]. simpl in Hr. apply forget_fail in Hr.
    apply (award_already now a e); [by rewrite Hr|done].
Qed.

Lemma confirm_ok now id s s' :
  repo_ok s → room s → ConfirmSettlementHandler now (mkConfirmSettlement id) s = (Ok tt, s') →
  repo_ok s' ∧ ∃ a, repo_view s' !! id = Some a ∧ settled_sale a.
Proof.
  intros Hok Hroom Hrun.
  destruct (system_command_ok (CConfirmSettlement now) _ confirm_switch _ id _ Hok Hroom I
              (fun _ => eq_refl) ltac:(done) Hrun)
    as (a & Hl & Hok' & [(x & a' & Hr & Hv)|(e & Hr & Hsw & ->)]); split; try done.
  - exists (stored a'). rewrite Hv, lookup_insert_eq. split; [done|].
    simpl in Hr. apply ConfirmSettlement_ok_inv in Hr as (? & ? & _ & ->). done.
  - exists a. split; [done|]. simpl in Hr. apply (confirm_already now a e); [by rewrite Hr|done].
Qed.

Lemma fail_ok r now id s s' :
  repo_ok s → room s → MarkSaleFailedHandler now (mkMarkSaleFailed id r) s = (Ok tt, s') →
  repo_ok s' ∧ r ≠ zero_value ∧ ∃ a, repo_view s' !! id = Some a ∧ failed_sale a.
Proof.
  intros Hok Hroom Hrun.
  destruct (system_command_ok (CFailSale r now) _ fail_switch _ id _ Hok Hroom I
              (fun _ => eq_refl) ltac:(done) Hrun)
    as (a & Hl & Hok' & [(x & a' & Hr & Hv)|(e & Hr & Hsw & ->)]); split; try done.
  - simpl in Hr. apply FailSale_ok_inv in Hr as (? & ? & _ & _ & ->). split; [done|].
    eexists. rewrite Hv, lookup_insert_eq. split; done.
  - simpl in Hr. destruct (fail_already r now a e) as [? ?]; [by rewrite Hr|done|eauto].
Qed.

(** *** Relisting *)

Lemma RelistedFrom_ok_inv orig newID w now a :
  RelistedFrom (Some orig) newID w now = Ok a →
  a_id a = newID ∧ a_relistOf a = a_id orig ∧ a_relistGen orig < 1 ∧ w ≠ zero_value
  ∧ now < w_endsAt w ∧ newID ≠ zero_value.
Proof.
  unfold RelistedFrom, closure, record, modify, time_After. intros Hr.
  repeat (case_match; [done|]). simpl in Hr. injection Hr as <-. breflect. done.
Qed.


Lemma NewBiddingWindow_ok st e w :
  NewBiddingWindow st e = Ok w →
  w = mkBiddingWindow st e e ∧ w ≠ zero_value ∧ UnmarshalBiddingWindow st e e = Ok w.
Proof.
  unfold NewBiddingWindow, UnmarshalBiddingWindow, time_Before. case_match eqn:E; [done|].
  intros [= <-]. apply orb_false_iff in E as [E Ea]. apply orb_false_iff in E as [Es Ee].
  rewrite Es, Ee, Ea, Z.ltb_irrefl. simpl. split_and!; try done.
  intros Hz. injection Hz as -> _. done.
Qed.

Lemma RelistedFrom_storable orig newID st e w now a :
  storable orig → 0 < st → NewBiddingWindow st e = Ok w →
  RelistedFrom (Some orig) newID w now = Ok a → storable a.
Proof.
  intros [] Hst Hw Hr. pose proof (RelistedFrom_ok_inv _ _ _ _ _ Hr) as (_ & _ & _ & _ & _ & Hn).
  apply NewBiddingWindow_ok in Hw as (-> & _ & Hw).
  unfold RelistedFrom, closure, record, modify in Hr.
  repeat (case_match; [done|]). simpl in Hr. injection Hr as <-.
  constructor; simpl; try done; by left.
Qed.

Lemma RelistedFrom_opens orig newID w now a : RelistedFrom (Some orig) newID w now = Ok a → opens a.
Proof.
  unfold RelistedFrom, closure, record, modify. intros Hr.
  repeat (case_match; [done|]). simpl in Hr. injection Hr as <-.
  split_and!; [done..|]. by repeat constructor.
Qed.

(** A relist that is already done, by this call's identity or by another
    replacement of the same original. *)
Definition relisted s (orig newID : AuctionID) : Prop :=
  is_Some (repo_view s !! newID)
  ∨ ∃ id' a', repo_view s !! id' = Some a' ∧ a_relistOf a' = orig.

Lemma relist_repeat s o orig newID w now a :
  repo_ok s → repo_view s !! orig = Some o →
  RelistedFrom (Some o) newID w now = Ok a → relisted s orig newID →
  RelistAuctionHandler now (mkRelistAuction orig newID w) s = (Ok tt, s).
Proof.
  intros Hok Hl Hr Hd. unfold RelistAuctionHandler. run_go. cbn -[RelistedFrom].
  rewrite (Get_Some s orig o) by done. cbn -[RelistedFrom]. rewrite Hr.
  destruct (RelistedFrom_ok_inv _ _ _ _ _ Hr) as (Hi & Hof & _).
  destruct (view_ok s orig o Hok Hl) as (Hso & Hio & _). unfold on_error.
  destruct (repo_view s !! newID) as [a0|] eqn:Hn.
  { rewrite (Add_exists s a a0) by (done || by rewrite Hi). done. }
  destruct Hd as [[? ?]|(id' & a' & Hl' & Ho')]; [congruence|].
  rewrite (Add_relisted s a id' a'); try done.
  - by rewrite Hi.
  - rewrite Hof. apply Hso.
  - by rewrite Hof, Hio.
Qed.

Lemma relist_ok s s' orig newID st e w now :
  repo_ok s → 0 < st → NewBiddingWindow st e = Ok w →
  RelistAuctionHandler now (mkRelistAuction orig newID w) s = (Ok tt, s') →
  repo_ok s' ∧ relisted s' orig newID ∧
  ∃ o a, repo_view s' !! orig = Some o ∧ RelistedFrom (Some o) newID w now = Ok a.
Proof.
  intros Hok Hst Hw Hrun. unfold RelistAuctionHandler in Hrun. rewrite run_get in Hrun.
  cbn -[RelistedFrom] in Hrun. destruct (repo_view s !! orig) as [o|] eqn:Hl.
  2:{ rewrite (Get_None s orig) in Hrun by done. done. }
  rewrite (Get_Some s orig o) in Hrun by done. cbn -[RelistedFrom] in Hrun.
  revert Hrun. destruct (RelistedFrom (Some o) newID w now) as [a|err|?] eqn:Hr;
    intros Hrun; [| |done].
  2:{ unfold on_error, throw in Hrun. simpl in Hrun. exfalso. revert Hr Hrun.
      unfold RelistedFrom. repeat (case_match; [by intros [= <-]|]). done. }
  destruct (RelistedFrom_ok_inv _ _ _ _ _ Hr) as (Hi & Hof & _).
  destruct (view_ok s orig o Hok Hl) as (Hso & Hio & _).
  unfold on_error in Hrun. destruct (repo_view s !! newID) as [a0|] eqn:Hn.
  { rewrite (Add_exists s a a0) in Hrun by (done || by rewrite Hi). simplify_eq.
    split_and!; [done|left; eauto|eauto]. }
  destruct (decide (map_Exists (fun _ a' => a_relistOf a' = orig) (repo_view s)))
    as [(id' & a' & Hl' & Ho')|Hnone].
  { rewrite (Add_relisted s a id' a') in Hrun; try done.
    - simpl in Hrun. simplify_eq. split_and!; [done|right; eauto|eauto].
    - by rewrite Hi.
    - rewrite Hof. apply Hso.
    - by rewrite Hof, Hio. }
  destruct (Add_ok s a) as (s1 & E & Hok1 & Hv); try done.
  - by eapply RelistedFrom_storable.
  - by eapply RelistedFrom_opens.
  - by rewrite Hi.
  - intros _ id' a' Hl' He. apply Hnone. exists id', a'. rewrite Hof, Hio in He. done.
  - rewrite E in Hrun. simplify_eq. split_and!; [done| |].
    + left. rewrite Hv, lookup_insert_eq. eauto.
    + exists o, a. split; [|done]. rewrite Hv, lookup_insert_ne by congruence. done.
Qed.

Lemma RelistedFrom_later o newID w now now' a :
  RelistedFrom (Some o) newID w now = Ok a → now' < w_endsAt w →
  ∃ a', RelistedFrom (Some o) newID w now' = Ok a'.
Proof.
  unfold RelistedFrom, closure, record, modify, time_After. intros Hr Hn.
  destruct (IsZero newID); [done|]. destruct (1 <=? a_relistGen o); [done|].
  destruct (IsZero w); [done|]. simpl in *. rewrite (proj2 (Z.ltb_lt _ _) Hn). simpl. eauto.
Qed.


(** *** Bids *)

Lemma storable_no_panic a p : storable a → MinimalNextBid a ≠ Panic p.
Proof.
  intros Hs. unfold MinimalNextBid, Money_Add.
  destruct (IsZero (a_leadingBid a)) eqn:E; [done|]. case_bool_decide as Hc; [|done].
  destruct Hc. destruct (so_leading a Hs) as [?|Hg]; [by apply IsZero_false in E|].
  rewrite (sb_currency _ _ Hg). symmetry. apply Hs.
Qed.

(** *** The closing worker *)

Definition slack (n : Z) s : Prop :=
  ∀ id a, repo_view s !! id = Some a → a_version a + n < int64_max.

Lemma Close_due now a : is_due now a → ∃ r a', Close now a = (Ok r, a') ∧ a_status a' = StatusClosed.
Proof.
  intros [Hs He]. unfold EndsAt in He. unfold Close, time_Before. run_go. rewrite Hs. run_go.
  rewrite (proj2 (Z.ltb_ge _ _) He). eauto.
Qed.

Lemma Close_not_due now a e : Close now a = (Fail e, a) → ¬ is_due now a ∧ close_switch e = None.
Proof.
  intros Hc. split.
  - intros (r & a' & Hc' & _)%Close_due. by rewrite Hc in Hc'.
  - revert Hc. unfold Close, unknown_status. run_go.
    repeat (case_match; run_go); by intros [= <-].
Qed.

Lemma close_handler now id s a :
  repo_ok s → room s → repo_view s !! id = Some a →
  ∃ s', CloseAuctionHandler now (mkCloseAuction id) s = (Ok tt, s') ∧ repo_ok s'
    ∧ ((∃ a', repo_view s' = <[id := a']> (repo_view s) ∧ a_status a' = StatusClosed
          ∧ a_version a' = a_version a + 1)
       ∨ (s' = s ∧ ¬ is_due now a)).
Proof.
  intros Hok Hroom Hl. unfold CloseAuctionHandler, on_error. cbn [cl_AuctionID].
  destruct (system_update (CClose now) _ s id a Hok Hroom Hl I (close_closure now))
    as [(x & a' & s1 & Hr & -> & Hok1 & Hv)|[(e & Hr & ->)|(p & a' & Hr)]].
  - exists s1. split_and!; [done..|left]. exists (stored a'). split; [done|].
    pose proof (run_ok_same_listing _ _ _ _ Hr) as Hsl.
    simpl in Hr. apply forget_ok in Hr as [r Hr].
    apply Close_ok_inv in Hr as (_ & _ & _ & ->). done.
  - simpl in Hr. apply forget_fail, Close_not_due in Hr as [Hn Hsw].
    exists s. rewrite Hsw. split_and!; [done..|by right].
  - destruct (view_ok s id a Hok Hl) as (Hso & _).
    exfalso. eapply (quiet_no_panic (CClose now)); [apply Hso|done|done].
Qed.

Lemma is_due_later now now' a : now ≤ now' → is_due now a → is_due now' a.
Proof. intros Hle [Hs He]. split; [done|lia]. Qed.

Lemma slack_le n m s : m ≤ n → slack n s → slack m s.
Proof. intros Hle Hsl id a Hl. pose proof (Hsl id a Hl). lia. Qed.

(** One candidate uses up one version. *)
Lemma slack_closed n id s s' a a' :
  slack (n + 1) s → 0 ≤ n → repo_view s !! id = Some a → a_version a' = a_version a + 1 →
  repo_view s' = <[id := a']> (repo_view s) → slack n s'.
Proof.
  intros Hsl Hn Hl Hver Hv i b Hb. rewrite Hv, lookup_insert_Some in Hb.
  destruct Hb as [[<- <-]|[_ Hb]]; [pose proof (Hsl id a Hl)|pose proof (Hsl i b Hb)]; lia.
Qed.

Lemma close_all_spec now clk n ids s :
  repo_ok s → 0 ≤ n → slack (n + Z.of_nat (length ids)) s → (∀ id, now ≤ clk id) →
  (∀ id, id ∈ ids → is_Some (repo_view s !! id)) →
  ∃ s', close_all clk ids s = (Ok tt, s') ∧ repo_ok s' ∧ slack n s'
    ∧ ∀ id a, repo_view s' !! id = Some a → is_due now a →
        (id ∉ ids) ∧ repo_view s !! id = Some a.
Proof.
  intros Hok Hn Hsl Hclk. revert s Hok Hsl; induction ids as [|i ids IH]; intros s Hok Hsl Hin.
  { exists s. split_and!; [done|done|eapply slack_le, Hsl; simpl; lia|].
    intros id a Hl _. split; [apply not_elem_of_nil|done]. }
  destruct (Hin i (list_elem_of_here _ _)) as [a Hl].
  assert (room s) as Hroom by (intros id b Hb; pose proof (Hsl id b Hb); simpl in *; lia).
  destruct (close_handler (clk i) i s a Hok Hroom Hl) as (s1 & E & Hok1 & Hv).
  cbn [close_all]. unfold mbind, GoM_bind, on_error. rewrite E.
  destruct (IH s1 Hok1) as (s' & E' & Hok' & Hsl' & Hd).
  - destruct Hv as [(a' & Hv & _ & Hver)|[-> _]].
    + eapply (slack_closed _ i s s1 a a'); [eapply slack_le, Hsl; simpl; lia|lia|done..].
    + eapply slack_le, Hsl. simpl. lia.
  - intros id Hid. destruct (Hin id (list_elem_of_further _ _ _ Hid)) as [b Hb].
    destruct Hv as [(a' & -> & _)|[-> _]]; [|eauto].
    destruct (decide (i = id)) as [->|]; [rewrite lookup_insert_eq|rewrite lookup_insert_ne by done];
      eauto.
  - exists s'. split_and!; [done..|]. intros id b Hb Hdue. destruct (Hd id b Hb Hdue) as [Hni Hl1].
    destruct Hv as [(a' & Hv & Hst & _)|[-> Hnd]].
    + rewrite Hv, lookup_insert_Some in Hl1. destruct Hl1 as [[<- <-]|[Hne Hl1]].
      * destruct Hdue as [Hs _]. by rewrite Hst in Hs.
      * split; [|done]. rewrite elem_of_cons. naive_solver.
    + split; [|done]. rewrite elem_of_cons. intros [->|?]; [|done].
      rewrite Hl in Hl1. simplify_eq. by apply Hnd, (is_due_later now).
Qed.

(** ** The properties of the application *)


Lemma facade_id (g : AuctionID → M S unit) u s s' :
  (id ← lift (with_cause (NewIncorrectInputError "invalid-id") (NewAuctionID u)); g id) s
    = (Ok tt, s') →
  ∃ id, NewAuctionID u = Ok id ∧ g id s = (Ok tt, s').
Proof. intros Hr. inv_ok Hr. exists x. by apply with_cause_ok in Hr0. Qed.

(** C22: the facade's commands are idempotent.  A command that returned nil can
    be repeated, with any later clock reading, and returns nil without
    touching the store; for [Relist], as long as the window it asks for has
    not ended. *)
Theorem facade_idempotent s s' now now' u u' reason st e :
  repo_ok s → room s →
  (Facade_AwardToRunnerUp now u s = (Ok tt, s') →
   Facade_AwardToRunnerUp now' u s' = (Ok tt, s'))
  ∧ (Facade_ConfirmSettlement now u s = (Ok tt, s') →
     Facade_ConfirmSettlement now' u s' = (Ok tt, s'))
  ∧ (Facade_MarkSaleFailed now u reason s = (Ok tt, s') →
     Facade_MarkSaleFailed now' u reason s' = (Ok tt, s'))
  ∧ (0 < st → now' < e → Facade_Relist now u u' st e s = (Ok tt, s') →
     Facade_Relist now' u u' st e s' = (Ok tt, s')).
Proof.
  intros Hok Hroom. split_and!.
  - intros (id & Hi & Hr)%facade_id. unfold Facade_AwardToRunnerUp. autorewrite with go. rewrite Hi. simpl.
    apply award_ok in Hr as (Hok' & a & Hl & Ha); [|done..].
    eapply system_command_repeat; [done|done|by apply award_done|done].
  - intros (id & Hi & Hr)%facade_id. unfold Facade_ConfirmSettlement. autorewrite with go. rewrite Hi. simpl.
    apply confirm_ok in Hr as (Hok' & a & Hl & Ha); [|done..].
    eapply system_command_repeat; [done|done|by apply confirm_done|done].
  - intros (id & Hi & Hr)%facade_id. unfold Facade_MarkSaleFailed. autorewrite with go. rewrite Hi. simpl.
    inv_ok Hr. autorewrite with go. rewrite Hr0.
    apply fail_ok in Hr as (Hok' & Hz & a & Hl & Ha); [|done..].
    eapply system_command_repeat; [done|done|by apply fail_done|done].
  - intros Hst Hn (id & Hi & Hr)%facade_id. unfold Facade_Relist. autorewrite with go. rewrite Hi. simpl.
    apply ok_lift in Hr as (x & Hr0 & Hr). apply ok_lift in Hr as (x0 & Hr1 & Hr).
    autorewrite with go. rewrite Hr0. autorewrite with go. rewrite Hr1. apply with_cause_ok in Hr1.
    destruct (relist_ok _ _ _ _ _ _ _ _ Hok Hst Hr1 Hr) as (Hok' & Hd & o & a & Hl & Hf).
    apply NewBiddingWindow_ok in Hr1 as (Hw & _).
    destruct (RelistedFrom_later _ _ _ _ now' _ Hf) as [a' Hf']; [by rewrite Hw|].
    by eapply relist_repeat.
Qed.

(** [Relist] is not idempotent for ever.  Once the requested window has
    ended, repeating a relist that was done returns a 400 "invalid-window"
    instead of nil: the window is checked before the identity. *)
Theorem relist_late s s' now now' u u' st e :
  repo_ok s → 0 < st → e ≤ now' →
  Facade_Relist now u u' st e s = (Ok tt, s') →
  ∃ err, Facade_Relist now' u u' st e s' = (Fail err, s')
    ∧ errors_Is err (NewIncorrectInputError "invalid-window") = true.
Proof.
  intros Hok Hst Hn (id & Hi & Hr)%facade_id. unfold Facade_Relist. autorewrite with go. rewrite Hi. simpl.
  apply ok_lift in Hr as (x & Hr0 & Hr). apply ok_lift in Hr as (x0 & Hr1 & Hr).
    autorewrite with go. rewrite Hr0. autorewrite with go. rewrite Hr1. apply with_cause_ok in Hr1.
  destruct (relist_ok _ _ _ _ _ _ _ _ Hok Hst Hr1 Hr) as (Hok' & _ & o & a & Hl & Hf).
  destruct (RelistedFrom_ok_inv _ _ _ _ _ Hf) as (_ & _ & Hg & _ & _ & Hz).
  unfold RelistAuctionHandler. autorewrite with go. cbn -[RelistedFrom].
  rewrite (Get_Some s' id o) by done. unfold RelistedFrom.
  rewrite (proj2 (IsZero_false x) Hz), (proj2 (Z.leb_gt 1 _) Hg).
  apply NewBiddingWindow_ok in Hr1 as (Hw & _).
  rewrite Hw. unfold time_After. simpl. rewrite (proj2 (Z.ltb_ge now' e) Hn), orb_true_r.
  eexists. split; [done|]. vm_compute. done.
Qed.

(** A tick of the closing worker never fails, and unless the scan was cut
    short by its limit, after it no listed auction is past its deadline. *)
Theorem tick_closes_due s n now clk :
  repo_ok s → 0 ≤ n → slack (n + 100) s → (∀ id, now ≤ clk id) →
  ∃ s', ClosingWorker_tick now clk s = (Ok tt, s') ∧ repo_ok s' ∧ slack n s'
    ∧ ∀ ids, repo_DueForClosing now closingCandidateLimit s = Ok ids →
        Z.of_nat (length ids) < closingCandidateLimit →
        ∀ id a, repo_view s' !! id = Some a → ¬ is_due now a.
Proof.
  intros Hok Hn Hsl Hclk. unfold ClosingWorker_tick. autorewrite with go.
  destruct (Due_spec s now closingCandidateLimit Hok) as (ids & E & Hd & Hall & Hlen); [done|].
  rewrite E. destruct (close_all_spec now clk n ids s) as (s' & Ht & Hok' & Hsl' & Hs');
    [done|done| |done| |].
  - eapply slack_le, Hsl. unfold closingCandidateLimit in Hlen. lia.
  - intros id (a & Hl & _)%Hd. eauto.
  - exists s'. split_and!; [done..|]. intros ids' [= <-] Hlt id a Hl Hdue.
    destruct (Hs' id a Hl Hdue) as [Hni Hl0]. by eapply Hni, Hall.
Qed.

(** What the client of a failed command sees: a 4xx response. *)
Definition client_error (e : error) : bool :=
  (400 <=? statusFromKind (KindFromError e)) && (statusFromKind (KindFromError e) <? 500).

Definition opt_client_error (e : option error) : bool :=
  match e with None => true | Some e => client_error e end.
End Laws.

Lemma NewBid_Fail id b m t e : NewBid id b m t = Fail e → e = ErrInvalidBid.
Proof. unfold NewBid. case_match; by intros [=]. Qed.

(** What each handler makes of its method's error; [None] is success. *)
Definition mapped (c : call) (e : error) : option error :=
  match c with
  | CPlaceBid _ _ _ _ => Some (mapPlaceBidError e)
  | CCancel _ _ => Some (mapCancelError e)
  | CClose _ => close_switch e
  | CAwardToRunnerUp _ => award_switch e
  | CConfirmSettlement _ => confirm_switch e
  | CFailSale _ _ => fail_switch e
  end.

(** C38: every error an aggregate method returns is known to its handler: it is
    either "already in the target state" (nil) or a slug of a 4xx kind.  None
    reaches the client as an internal error. *)
Theorem domain_errors_mapped c a e a' :
  run c a = (Fail e, a') → opt_client_error (mapped c e) = true.
Proof.
  destruct c; simpl; intros Hr; try apply forget_fail in Hr; revert Hr.
  - unfold auction.PlaceBid. run_go.
    repeat (case_match; run_go; unfold test, throw_if; try (by intros [=]; subst; reflexivity));
      try (by exfalso; eapply MinimalNextBid_not_Fail).
    all: intros [= <- _];
      match goal with E : NewBid _ _ _ _ = Fail _ |- _ => apply NewBid_Fail in E; by subst end.
  - unfold Cancel, CanSellerManageAuction. solve_method; by intros [= <- _].
  - unfold Close. solve_method; by intros [= <- _].
  - unfold auction.AwardToRunnerUp. solve_method; by intros [= <- _].
  - unfold auction.ConfirmSettlement. solve_method; by intros [= <- _].
  - unfold FailSale. solve_method; by intros [= <- _].
Qed.

(** ** A concrete store, for the witnesses *)

Definition sold_mem : AuctionInMemRepository :=
  mkAuctionInMemRepository {[ mkAuctionID 1 := set_events [] demo.sold ]}.
#[local] Instance demo_repo : AuctionRepository AuctionInMemRepository :=
  inmem.repository (fun l => l).
#[local] Instance demo_laws : AuctionRepositoryLaws AuctionInMemRepository :=
  inmem_laws (fun l => l) (fun l => reflexivity l).

Lemma sold_storable : storable (set_events [] demo.sold).
Proof.
  constructor; try (vm_compute; congruence); try (vm_compute; split; congruence).
  - right. by split.
  - split; [exists 60|split; [exists 120|]]; by split_and?.
  - right. constructor; vm_compute; congruence.
  - right. constructor; vm_compute; congruence.
Defined.

Lemma sold_mem_ok : repo_ok sold_mem.
Proof.
  intros id a. simpl. rewrite lookup_singleton_Some. intros [<- <-].
  split_and!; [apply sold_storable|reflexivity..].
Defined.

Lemma sold_mem_slack : slack 100 sold_mem.
Proof.
  intros id a. simpl. rewrite lookup_singleton_Some. intros [<- <-]. vm_compute. reflexivity.
Defined.

Lemma sold_mem_room : room sold_mem.
Proof.
  intros id a Ha. pose proof (sold_mem_slack id a Ha). lia.
Defined.

Lemma facade_idempotent_witness :
  let s1 := (Facade_ConfirmSettlement (2300 * Second) 1 sold_mem).2 in
  Facade_ConfirmSettlement (9999 * Second) 1 s1 = (Ok tt, s1).
Proof.
  refine (proj1 (proj2 (facade_idempotent sold_mem _ (2300 * Second) (9999 * Second) 1 0
    "" 0 0 sold_mem_ok sold_mem_room)) _).
  apply run_Ok. vm_compute. reflexivity.
Defined.

Lemma relist_late_witness :
  let s1 := (Facade_Relist (2300 * Second) 1 7 (2400 * Second) (2500 * Second) sold_mem).2 in
  ∃ err, Facade_Relist (2600 * Second) 1 7 (2400 * Second) (2500 * Second) s1 = (Fail err, s1)
    ∧ errors_Is err (NewIncorrectInputError "invalid-window") = true.
Proof.
  refine (relist_late sold_mem _ (2300 * Second) (2600 * Second) 1 7 (2400 * Second)
    (2500 * Second) sold_mem_ok _ _ _).
  - vm_compute. reflexivity.
  - vm_compute. congruence.
  - apply run_Ok. vm_compute. reflexivity.
Defined.

Lemma tick_closes_due_witness :
  ∃ s', ClosingWorker_tick (2300 * Second) (fun _ => 2300 * Second) sold_mem = (Ok tt, s')
    ∧ repo_ok s'.
Proof.
  destruct (tick_closes_due sold_mem 0 (2300 * Second) (fun _ => 2300 * Second) sold_mem_ok
    (Z.le_refl 0) sold_mem_slack (fun _ => Z.le_refl _)) as (s' & H1 & H2 & _).
  exists s'. split; assumption.
Defined.

Lemma domain_errors_mapped_witness :
  opt_client_error (mapped (CCancel (mkSellerID 9) Second) (ForbiddenAuctionManagementError 9 2))
  = true.
Proof.
  apply (domain_errors_mapped (CCancel (mkSellerID 9) Second) demo.a0 _ demo.a0).
  vm_compute. reflexivity.
Defined.
End auction_app_theory.
