(* ===== verification/AuctionProjections.v ===== *)
(** * Projections and read models of the auction context

    The three projections ([bidder_profiles_pg.go],
    [catalog_pg_projection.go], [dashboard_pg_projection.go]), the event
    handlers that feed them ([ports/events.go]), the read models
    ([auction_pg_read_models.go], [app/query]) and the query endpoints of
    [ports/http.go]. *)

From stdpp Require Import base numbers list strings gmap fin_maps sorting.
From Stdlib Require Import ZArith Lia.
From S2P Require Import Prelude Errs Auth Postgres Events AuctionDomain AuctionRepo.

Module projections.
Import auction auction_repo.
Local Open Scope Z_scope.

(** ** Tables *)

Record Profile := mkProfile { pf_display_name : string; pf_verified : bool }.

Record CatalogRow := mkCatalogRow {
  ci_title : string;
  ci_seller_id : uuid;
  ci_currency : string;
  ci_current_price_minor : Z;
  ci_minimal_next_bid_minor : Z;
  ci_bid_count : Z;
  ci_ends_at : Time;
}.

Record DashboardRow := mkDashboardRow {
  di_seller_id : uuid;
  di_title : string;
  di_status : string;
  di_outcome : option string;
  di_settlement_status : option string;
  di_hammer_minor : option Z;
  di_currency : string;
  di_bid_count : Z;
  di_ends_at : Time;
}.

(** The projections next to the write tables they read. *)
Record ReadDB := mkReadDB {
  rd_write : AuctionDB;
  rd_profiles : gmap uuid Profile;
  rd_catalog : gmap uuid CatalogRow;
  rd_dashboard : gmap uuid DashboardRow;
}.

Definition set_profiles (v : gmap uuid Profile) (db : ReadDB) : ReadDB :=
  mkReadDB (rd_write db) v (rd_catalog db) (rd_dashboard db).
Definition set_catalog (v : gmap uuid CatalogRow) (db : ReadDB) : ReadDB :=
  mkReadDB (rd_write db) (rd_profiles db) v (rd_dashboard db).
Definition set_dashboard (v : gmap uuid DashboardRow) (db : ReadDB) : ReadDB :=
  mkReadDB (rd_write db) (rd_profiles db) (rd_catalog db) v.

Definition errProjectionLag : error := ErrNew "projection row not ready yet".

(** ** Bidder profiles *)

Definition UpsertRegistered (bidderID : uuid) (displayName : string) : M ReadDB unit :=
  modify (fun db =>
    let row :=
      match rd_profiles db !! bidderID with
      | None => mkProfile displayName false
      | Some p => mkProfile displayName (pf_verified p)
      end in
    set_profiles (<[bidderID := row]> (rd_profiles db)) db).

Definition MarkVerified (bidderID : uuid) : M ReadDB unit :=
  modify (fun db =>
    let row :=
      match rd_profiles db !! bidderID with
      | None => mkProfile "" true
      | Some p => mkProfile (pf_display_name p) true
      end in
    set_profiles (<[bidderID := row]> (rd_profiles db)) db).

Definition BidderByID (db : ReadDB) (id : BidderID) : result Bidder :=
  match rd_profiles db !! BidderID_UUID id with
  | None => NewBidder id false
  | Some p => NewBidder id (pf_verified p)
  end.

(** ** Catalog *)

Definition Catalog_UpsertListed (auctionID : uuid) (title : string) (sellerID : uuid)
    (currency : string) (startPriceMinor : Z) (endsAt : Time) : M ReadDB unit :=
  modify (fun db =>
    match rd_catalog db !! auctionID with
    | Some _ => db
    | None =>
        set_catalog
          (<[auctionID := mkCatalogRow title sellerID currency startPriceMinor
                            startPriceMinor 0 endsAt]> (rd_catalog db)) db
    end).

Definition Catalog_classifyMiss (auctionID : uuid) (bidCount : Z) : M ReadDB unit :=
  db ← get;
  match rd_catalog db !! auctionID with
  | Some row =>
      if bidCount <=? ci_bid_count row then mret tt
      else throw (Errorf "catalog row went backwards for %s" errProjectionLag)
  | None =>
      match db_auctions (rd_write db) !! auctionID with
      | Some p =>
          if bool_decide (p_Status p ≠ "listed") then mret tt
          else throw (Errorf "catalog row for %s missing" errProjectionLag)
      | None => throw (Errorf "catalog row for %s missing" errProjectionLag)
      end
  end.

(** The sum is a [bigint]: Postgres refuses one that does not fit. *)
Definition Catalog_ApplyBid (auctionID : uuid) (amountMinor bidCount : Z) (newEndsAt : Time)
    : M ReadDB unit :=
  db ← get;
  match rd_catalog db !! auctionID, db_auctions (rd_write db) !! auctionID with
  | Some row, Some a =>
      if ci_bid_count row <? bidCount
      then
        throw_if (int64_max <? amountMinor + p_IncrementMinor a)
          (Errorf "unable to apply bid to catalog" (ErrNew "bigint out of range"));;
        modify (set_catalog
          (<[auctionID := mkCatalogRow (ci_title row) (ci_seller_id row) (ci_currency row)
                            amountMinor (amountMinor + p_IncrementMinor a) bidCount newEndsAt]>
             (rd_catalog db)))
      else Catalog_classifyMiss auctionID bidCount
  | _, _ => Catalog_classifyMiss auctionID bidCount
  end.

Definition Catalog_Remove (auctionID : uuid) : M ReadDB unit :=
  modify (fun db => set_catalog (delete auctionID (rd_catalog db)) db).

(** ** Dashboard *)

Definition Dashboard_UpsertListed (auctionID sellerID : uuid) (title currency : string)
    (endsAt : Time) : M ReadDB unit :=
  modify (fun db =>
    match rd_dashboard db !! auctionID with
    | Some _ => db
    | None =>
        set_dashboard
          (<[auctionID := mkDashboardRow sellerID title "listed" None None None currency 0
                            endsAt]> (rd_dashboard db)) db
    end).

(** [UPDATE ... WHERE auction_id = $1 AND guard] followed by [ackOrLag]. *)
Definition Dashboard_update (op : string) (auctionID : uuid)
    (guard : DashboardRow → bool) (f : DashboardRow → DashboardRow) : M ReadDB unit :=
  db ← get;
  match rd_dashboard db !! auctionID with
  | Some row =>
      if guard row
      then modify (set_dashboard (<[auctionID := f row]> (rd_dashboard db)))
      else mret tt
  | None => throw (Errorf "dashboard %s for %s" errProjectionLag)
  end.

Definition Dashboard_ApplyBid (auctionID : uuid) (bidCount : Z) (newEndsAt : Time)
    : M ReadDB unit :=
  Dashboard_update "apply bid" auctionID (fun row => di_bid_count row <? bidCount)
    (fun row => mkDashboardRow (di_seller_id row) (di_title row) (di_status row)
                  (di_outcome row) (di_settlement_status row) (di_hammer_minor row)
                  (di_currency row) bidCount newEndsAt).

Definition Dashboard_ApplyClosed (auctionID : uuid) (outcome : string) (hammerMinor : Z)
    : M ReadDB unit :=
  Dashboard_update "apply close" auctionID (fun _ => true)
    (fun row => mkDashboardRow (di_seller_id row) (di_title row) "closed" (Some outcome)
                  (di_settlement_status row) (Some hammerMinor) (di_currency row)
                  (di_bid_count row) (di_ends_at row)).

Definition Dashboard_ApplyCancelled (auctionID : uuid) : M ReadDB unit :=
  Dashboard_update "apply cancel" auctionID (fun _ => true)
    (fun row => mkDashboardRow (di_seller_id row) (di_title row) "cancelled" (di_outcome row)
                  (di_settlement_status row) (di_hammer_minor row) (di_currency row)
                  (di_bid_count row) (di_ends_at row)).

(** [COALESCE(NULLIF($3, ''), outcome)]. *)
Definition Dashboard_ApplySettlement (auctionID : uuid) (settlementStatus outcome : string)
    : M ReadDB unit :=
  Dashboard_update "apply settlement" auctionID (fun _ => true)
    (fun row => mkDashboardRow (di_seller_id row) (di_title row) (di_status row)
                  (if bool_decide (outcome = "") then di_outcome row else Some outcome)
                  (Some settlementStatus) (di_hammer_minor row) (di_currency row)
                  (di_bid_count row) (di_ends_at row)).

Definition Dashboard_MarkRelisted (originalID : uuid) : M ReadDB unit :=
  Dashboard_update "mark relisted" originalID (fun _ => true)
    (fun row => mkDashboardRow (di_seller_id row) (di_title row) (di_status row)
                  (di_outcome row) (Some "relisted") (di_hammer_minor row) (di_currency row)
                  (di_bid_count row) (di_ends_at row)).

(** ** Event handlers

    [Ok] acknowledges the message; an error makes the bus deliver it again. *)

Section Events.
Context `{UUIDLib}.

Definition parseEventUUID (raw : string) : result uuid :=
  match uuid_Parse raw with
  | Some id => Ok id
  | None => Fail (Errorf "malformed %s %q in event" (ErrNew "invalid UUID"))
  end.

Definition OnParticipantRegistered (e : ParticipantRegisteredV1) : M ReadDB unit :=
  id ← lift (parseEventUUID (pr_ParticipantID e));
  UpsertRegistered id (pr_DisplayName e).

Definition OnParticipantVerified (e : ParticipantVerifiedV1) : M ReadDB unit :=
  id ← lift (parseEventUUID (pv_ParticipantID e));
  MarkVerified id.

Definition OnAuctionListed (e : AuctionListedV1) : M ReadDB unit :=
  auctionID ← lift (parseEventUUID (al_AuctionID e));
  sellerID ← lift (parseEventUUID (al_SellerID e));
  Catalog_UpsertListed auctionID (al_Title e) sellerID (al_Currency e) (al_StartPriceMinor e)
    (al_EndsAt e);;
  Dashboard_UpsertListed auctionID sellerID (al_Title e) (al_Currency e) (al_EndsAt e).

Definition OnBidPlaced (e : BidPlacedV1) : M ReadDB unit :=
  auctionID ← lift (parseEventUUID (bp_AuctionID e));
  Catalog_ApplyBid auctionID (bp_AmountMinor e) (bp_BidCount e) (bp_NewEndsAt e);;
  Dashboard_ApplyBid auctionID (bp_BidCount e) (bp_NewEndsAt e).

Definition OnAuctionClosed (e : AuctionClosedV1) : M ReadDB unit :=
  auctionID ← lift (parseEventUUID (acl_AuctionID e));
  Catalog_Remove auctionID;;
  Dashboard_ApplyClosed auctionID (acl_Outcome e) (acl_HammerPriceMinor e).

Definition OnAuctionCancelled (e : AuctionCancelledV1) : M ReadDB unit :=
  auctionID ← lift (parseEventUUID (acn_AuctionID e));
  Catalog_Remove auctionID;;
  Dashboard_ApplyCancelled auctionID.

Definition OnAuctionRelisted (e : AuctionRelistedV1) : M ReadDB unit :=
  originalID ← lift (parseEventUUID (ar_OriginalAuctionID e));
  Dashboard_MarkRelisted originalID.

Definition OnSaleSettled (e : SaleSettledV1) : M ReadDB unit :=
  auctionID ← lift (parseEventUUID (ss_AuctionID e));
  Dashboard_ApplySettlement auctionID "settled" "".

Definition OnSaleFailed (e : SaleFailedV1) : M ReadDB unit :=
  auctionID ← lift (parseEventUUID (sf_AuctionID e));
  Dashboard_ApplySettlement auctionID "failed" "not_sold".
End Events.

(** ** Queries *)

Definition normalizePaging (page pageSize : Z) : Z * Z :=
  (if page <? 1 then 1 else page,
   let pageSize := if pageSize <? 1 then 20 else pageSize in
   if 100 <? pageSize then 100 else pageSize).

(** [LIMIT limit OFFSET offset]; Postgres refuses a negative offset. *)
Definition paged {A} (msg : string) (limit offset : Z) (l : list A) : result (list A) :=
  if offset <? 0 then Fail (Errorf msg (ErrNew "OFFSET must not be negative"))
  else Ok (take (Z.to_nat limit) (drop (Z.to_nat offset) l)).

Record CatalogItem := mkCatalogItem {
  it_AuctionID : string;
  it_Title : string;
  it_SellerID : string;
  it_CurrentPriceMinor : Z;
  it_MinimalNextBidMinor : Z;
  it_Currency : string;
  it_BidCount : Z;
  it_EndsAt : Time;
  it_EndingSoon : bool;
}.

Record CatalogPage := mkCatalogPage {
  cp_Items : list CatalogItem;
  cp_Total : Z;
  cp_Page : Z;
}.

Record BidView := mkBidView {
  bv_BidID : string;
  bv_BidderDisplayName : string;
  bv_AmountMinor : Z;
  bv_PlacedAt : Time;
}.

Record BidHistoryPage := mkBidHistoryPage {
  bh_Items : list BidView;
  bh_Total : Z;
  bh_Page : Z;
}.

Record AuctionCardView := mkAuctionCardView {
  cv_AuctionID : string;
  cv_Title : string;
  cv_Description : string;
  cv_SellerID : string;
  cv_Status : string;
  cv_Outcome : string;
  cv_StartPriceMinor : Z;
  cv_CurrentPriceMinor : Z;
  cv_MinimalNextBidMinor : Z;
  cv_IncrementMinor : Z;
  cv_Currency : string;
  cv_HasReserve : bool;
  cv_StartsAt : Time;
  cv_EndsAt : Time;
  cv_ExtensionsUsed : Z;
  cv_BidCount : Z;
  cv_LeaderID : string;
  cv_RecentBids : list BidView;
}.

Record DashboardItem := mkDashboardItem {
  dv_AuctionID : string;
  dv_Title : string;
  dv_Status : string;
  dv_Outcome : string;
  dv_SettlementStatus : string;
  dv_HammerPriceMinor : Z;
  dv_BidCount : Z;
  dv_EndsAt : Time;
}.

Record DashboardView := mkDashboardView {
  dw_Items : list DashboardItem;
  dw_ActiveCount : Z;
  dw_SoldTotalMinor : Z;
  dw_Currency : string;
}.

(** The orders of the queries. *)
Definition catalog_order (x y : uuid * CatalogRow) : Prop :=
  ci_ends_at x.2 < ci_ends_at y.2 ∨ (ci_ends_at x.2 = ci_ends_at y.2 ∧ (x.1 ≤ y.1)%N).
#[global] Instance catalog_order_dec : RelDecision catalog_order.
Proof. unfold catalog_order. solve_decision. Defined.

Definition history_order (x y : pgBid) : Prop :=
  pb_placed_at y < pb_placed_at x
  ∨ (pb_placed_at x = pb_placed_at y ∧ (pb_bid_id x ≤ pb_bid_id y)%N).
#[global] Instance history_order_dec : RelDecision history_order.
Proof. unfold history_order. solve_decision. Defined.

Definition dashboard_order (x y : uuid * DashboardRow) : Prop :=
  di_ends_at y.2 < di_ends_at x.2 ∨ (di_ends_at x.2 = di_ends_at y.2 ∧ (x.1 ≤ y.1)%N).
#[global] Instance dashboard_order_dec : RelDecision dashboard_order.
Proof. unfold dashboard_order. solve_decision. Defined.

Section Queries.
Context `{UUIDLib}.

(** [now] is the database's [now()]. *)
Definition catalog_item (now : Time) (x : uuid * CatalogRow) : CatalogItem :=
  mkCatalogItem (uuid_String x.1) (ci_title x.2) (uuid_String (ci_seller_id x.2))
    (ci_current_price_minor x.2) (ci_minimal_next_bid_minor x.2) (ci_currency x.2)
    (ci_bid_count x.2) (ci_ends_at x.2) (ci_ends_at x.2 - now <? 300 * Second).

Definition ActiveAuctions (now : Time) (page pageSize : Z) (db : ReadDB)
    : result CatalogPage :=
  rows ← paged "unable to query catalog" pageSize (wrap64 ((page - 1) * pageSize))
           (merge_sort catalog_order (map_to_list (rd_catalog db)));
  Ok (mkCatalogPage (catalog_item now <$> rows) (Z.of_nat (size (rd_catalog db))) page).

Definition bid_view (db : ReadDB) (b : pgBid) : BidView :=
  mkBidView (uuid_String (pb_bid_id b))
    (match rd_profiles db !! pb_bidder_id b with
     | Some p => pf_display_name p
     | None => ""
     end) (pb_amount_minor b) (pb_placed_at b).

Definition bidViews (id : AuctionID) (limit offset : Z) (db : ReadDB)
    : result (list BidView * Z) :=
  let rows : list pgBid :=
    filter (fun b => pb_auction_id b = AuctionID_UUID id) (db_bids (rd_write db)) in
  (paged "unable to query bid history" limit offset (merge_sort history_order rows)
     : result (list pgBid)) ≫= fun page =>
  Ok (list_fmap _ _ (bid_view db) page, Z.of_nat (length rows)).

Definition Bids (id : AuctionID) (page pageSize : Z) (db : ReadDB) : result BidHistoryPage :=
  r ← bidViews id pageSize (wrap64 ((page - 1) * pageSize)) db;
  Ok (mkBidHistoryPage r.1 r.2 page).

Definition AuctionCard (id : AuctionID) (db : ReadDB) : result AuctionCardView :=
  match db_auctions (rd_write db) !! AuctionID_UUID id with
  | None => Fail (WithCause (NewNotFoundError "auction-not-found") (ErrNew "sql: no rows"))
  | Some p =>
      recent ← bidViews id 10 0 db;
      Ok (mkAuctionCardView (uuid_String (p_ID p)) (p_Title p) (p_Description p)
            (uuid_String (p_SellerID p)) (p_Status p) (default "" (p_Outcome p))
            (p_StartPriceMinor p)
            (match p_LeadingAmountMinor p with
             | Some amount => amount
             | None => p_StartPriceMinor p
             end)
            (match p_LeadingAmountMinor p with
             | Some amount => wrap64 (amount + p_IncrementMinor p)
             | None => p_StartPriceMinor p
             end)
            (p_IncrementMinor p) (p_Currency p)
            (match p_ReservePriceMinor p with Some _ => true | None => false end)
            (p_StartsAt p) (p_EndsAt p) (p_ExtensionsUsed p) (p_BidCount p)
            (match p_LeadingBidderID p with Some u => uuid_String u | None => "" end)
            recent.1)
  end.

Definition dashboard_item (x : uuid * DashboardRow) : DashboardItem :=
  mkDashboardItem (uuid_String x.1) (di_title x.2) (di_status x.2)
    (default "" (di_outcome x.2)) (default "" (di_settlement_status x.2))
    (default 0 (di_hammer_minor x.2)) (di_bid_count x.2) (di_ends_at x.2).

(** The loop over the rows. *)
Definition dashboard_step (view : DashboardView) (x : uuid * DashboardRow) : DashboardView :=
  let item := dashboard_item x in
  mkDashboardView (dw_Items view ++ [item])
    (if bool_decide (dv_Status item = "listed") then dw_ActiveCount view + 1
     else dw_ActiveCount view)
    (if bool_decide (dv_Outcome item = "sold")
     then wrap64 (dw_SoldTotalMinor view + dv_HammerPriceMinor item)
     else dw_SoldTotalMinor view)
    (if bool_decide (dw_Currency view = "") && bool_decide (di_currency x.2 ≠ "")
     then di_currency x.2 else dw_Currency view).

Definition Dashboard (seller : SellerID) (db : ReadDB) : result DashboardView :=
  Ok (foldl dashboard_step (mkDashboardView [] 0 0 "")
        (merge_sort dashboard_order
           (filter (fun x => di_seller_id x.2 = SellerID_UUID seller)
              (map_to_list (rd_dashboard db))))).

(** *** Query handlers and endpoints *)

Definition ActiveAuctionsCatalogHandler (now : Time) (page pageSize : Z) (db : ReadDB)
    : result CatalogPage :=
  let '(page, pageSize) := normalizePaging page pageSize in
  ActiveAuctions now page pageSize db.

Definition BidHistoryHandler (id : AuctionID) (page pageSize : Z) (db : ReadDB)
    : result BidHistoryPage :=
  let '(page, pageSize) := normalizePaging page pageSize in
  Bids id page pageSize db.

(** Absent query parameters are zero. *)
Definition Http_ActiveAuctionsCatalog (now : Time) (page pageSize : option Z) (db : ReadDB)
    : result CatalogPage :=
  page ← ActiveAuctionsCatalogHandler now (default 0 page) (default 0 pageSize) db;
  match mapM (fun item => uuid_Parse (it_AuctionID item) ≫= fun _ => uuid_Parse (it_SellerID item))
          (cp_Items page) with
  | Some _ => Ok page
  | None => Fail (Errorf "invalid id in catalog" (ErrNew "invalid UUID"))
  end.

Definition Http_AuctionCard (auctionID : uuid) (db : ReadDB) : result AuctionCardView :=
  auctionID ← with_cause (NewIncorrectInputError "invalid-id") (NewAuctionID auctionID);
  view ← AuctionCard auctionID db;
  match uuid_Parse (cv_SellerID view) with
  | None => Fail (Errorf "invalid seller id in card" (ErrNew "invalid UUID"))
  | Some _ =>
      if bool_decide (cv_LeaderID view ≠ "") then
        match uuid_Parse (cv_LeaderID view) with
        | None => Fail (Errorf "invalid leader id in card" (ErrNew "invalid UUID"))
        | Some _ => Ok view
        end
      else Ok view
  end.

Definition Http_BidHistory (auctionID : uuid) (page pageSize : option Z) (db : ReadDB)
    : result BidHistoryPage :=
  auctionID ← with_cause (NewIncorrectInputError "invalid-id") (NewAuctionID auctionID);
  BidHistoryHandler auctionID (default 0 page) (default 0 pageSize) db.

Definition Http_SellerDashboard (ctx : option auth.User) (sellerID : uuid) (db : ReadDB)
    : result DashboardView :=
  user ← auth.UserFromCtx ctx;
  if bool_decide (auth.u_ID user ≠ sellerID)
  then Fail (NewForbiddenError "not-dashboard-owner")
  else
    seller ← with_cause (NewIncorrectInputError "invalid-id") (NewSellerID (auth.u_ID user));
    Dashboard seller db.
End Queries.
End projections.
