(* ===== verification/AuctionProjectionsTheory.v ===== *)
(** * Properties of the projections and read models

    Convergence of the monotone projections under redelivery and reordering,
    where the guards do not reach, the auction card and paging. *)

From stdpp Require Import base numbers list strings gmap fin_maps sorting.
From Stdlib Require Import ZArith Lia.
From S2P Require Import Prelude DemoUUID Errs Auth Postgres Events AuctionDomain AuctionTheory AuctionRepo AuctionRepoTheory AuctionProjections.

Module projections_theory.
Import auction auction_theory auction_repo auction_repo_theory projections.
Local Open Scope Z_scope.

(** ** Deliveries

    The bus hands messages to a handler one by one, in any order and as
    often as it likes. *)
Definition deliver {E} (h : E → M ReadDB unit) (es : list E) (db : ReadDB) : ReadDB :=
  foldl (fun db e => (h e db).2) db es.

(** ** Newest wins *)

Section Newest.
Context {E R : Type} (cnt : E → Z) (rcnt : R → Z) (upd : E → R → R).
Hypothesis rcnt_upd : ∀ e r, rcnt (upd e r) = cnt e.
Hypothesis upd_upd : ∀ e e' r, upd e (upd e' r) = upd e r.

Definition newer (r : R) (e : E) : R := if rcnt r <? cnt e then upd e r else r.

Lemma newest es r :
  (foldl newer r es = r ∧ ∀ e, e ∈ es → cnt e ≤ rcnt r)
  ∨ ∃ e, e ∈ es ∧ foldl newer r es = upd e r ∧ rcnt r < cnt e
         ∧ ∀ e', e' ∈ es → cnt e' ≤ cnt e.
Proof.
  revert r. induction es as [|e es IH]; intros r; simpl.
  { left. split; [done|]. by intros ? ?%elem_of_nil. }
  unfold newer at 2 4. destruct (rcnt r <? cnt e) eqn:Hn; breflect.
  - right. destruct (IH (upd e r)) as [[-> Hle]|(x & Hx & -> & Hlt & Hle)].
    + exists e. split_and!; [left|done|done|].
      intros e' [->|He']%elem_of_cons; [done|]. rewrite <- (rcnt_upd e r). auto.
    + exists x. rewrite upd_upd, rcnt_upd in *. split_and!; [by right|done|lia|].
      intros e' [->|He']%elem_of_cons; [lia|auto].
  - destruct (IH r) as [[-> Hle]|(x & Hx & -> & Hlt & Hle)]; [left|right].
    + split; [done|]. intros e' [->|He']%elem_of_cons; auto.
    + exists x. split_and!; [by right|done|done|].
      intros e' [->|He']%elem_of_cons; [lia|auto].
Qed.

Lemma newest_converges es1 es2 r :
  (∀ e, e ∈ es1 ↔ e ∈ es2) →
  (∀ e e', e ∈ es1 → e' ∈ es1 → cnt e = cnt e' → upd e r = upd e' r) →
  foldl newer r es1 = foldl newer r es2.
Proof.
  intros Hes Hdet.
  destruct (newest es1 r) as [[-> Hle1]|(x & Hx & -> & Hlt1 & Hle1)],
    (newest es2 r) as [[-> Hle2]|(y & Hy & -> & Hlt2 & Hle2)]; [done|..].
  - apply Hes, Hle1 in Hy. lia.
  - apply Hes, Hle2 in Hx. lia.
  - pose proof (Hle1 y (proj2 (Hes y) Hy)). pose proof (Hle2 x (proj1 (Hes x) Hx)).
    apply Hdet; [done|by apply Hes|lia].
Qed.
End Newest.

Definition upd_catalog (a : pgAuction) (e : BidPlacedV1) (r : CatalogRow) : CatalogRow :=
  mkCatalogRow (ci_title r) (ci_seller_id r) (ci_currency r) (bp_AmountMinor e)
    (bp_AmountMinor e + p_IncrementMinor a) (bp_BidCount e) (bp_NewEndsAt e).

Definition upd_dashboard (e : BidPlacedV1) (r : DashboardRow) : DashboardRow :=
  mkDashboardRow (di_seller_id r) (di_title r) (di_status r) (di_outcome r)
    (di_settlement_status r) (di_hammer_minor r) (di_currency r) (bp_BidCount e)
    (bp_NewEndsAt e).

Section Bids.
Context `{UUIDLib}.

(** The rows of auction [id] are there and its write row is [a]. *)
Record projected (id : uuid) (a : pgAuction) (row : CatalogRow) (drow : DashboardRow)
    (db : ReadDB) : Prop := {
  pj_catalog : rd_catalog db !! id = Some row;
  pj_dashboard : rd_dashboard db !! id = Some drow;
  pj_write : db_auctions (rd_write db) !! id = Some a;
}.

(** [e] is a bid on [id], and the database can hold the next minimum. *)
Definition bid_on (id : uuid) (a : pgAuction) (e : BidPlacedV1) : Prop :=
  uuid_Parse (bp_AuctionID e) = Some id ∧ bp_AmountMinor e + p_IncrementMinor a ≤ int64_max.

Lemma OnBidPlaced_projected id a row drow db e :
  projected id a row drow db → bid_on id a e →
  (OnBidPlaced e db).1 = Ok tt ∧
  projected id a (newer bp_BidCount ci_bid_count (upd_catalog a) row e)
    (newer bp_BidCount di_bid_count upd_dashboard drow e) (OnBidPlaced e db).2.
Proof.
  intros [Hc Hd Hw] [Hp Ho]. unfold OnBidPlaced, parseEventUUID. rewrite Hp, run_lift.
  unfold Catalog_ApplyBid, newer. rewrite run_bind_assoc, run_get, Hc, Hw.
  destruct (_ <? _) eqn:E1; breflect.
  - rewrite (proj2 (Z.ltb_ge _ _) Ho). rewrite run_bind_assoc, run_throw_if, run_modify.
    unfold Dashboard_ApplyBid, Dashboard_update. rewrite run_get. simpl. rewrite Hd.
    destruct (di_bid_count _ <? _); simpl; (split; [done|]); split; simpl;
      rewrite ?lookup_insert_eq; done.
  - unfold Catalog_classifyMiss. rewrite run_bind_assoc, run_get, Hc.
    rewrite (proj2 (Z.leb_le _ _) E1), run_ret_bind.
    unfold Dashboard_ApplyBid, Dashboard_update. rewrite run_get, Hd.
    destruct (di_bid_count _ <? _); simpl; (split; [done|]); split; simpl;
      rewrite ?lookup_insert_eq; done.
Qed.

Lemma deliver_projected id a row drow db es :
  projected id a row drow db → Forall (bid_on id a) es →
  projected id a (foldl (newer bp_BidCount ci_bid_count (upd_catalog a)) row es)
    (foldl (newer bp_BidCount di_bid_count upd_dashboard) drow es) (deliver OnBidPlaced es db).
Proof.
  intros Hp Hes. revert row drow db Hp.
  induction Hes as [|e es He _ IH]; intros row drow db Hp; simpl; [done|].
  apply IH, OnBidPlaced_projected; done.
Qed.
End Bids.

(** ** Bidder profiles *)

Section Profiles.
Context `{UUIDLib}.

Inductive profile_event :=
| Registered (e : ParticipantRegisteredV1)
| Verified (e : ParticipantVerifiedV1).

Definition OnProfileEvent (e : profile_event) : M ReadDB unit :=
  match e with
  | Registered e => OnParticipantRegistered e
  | Verified e => OnParticipantVerified e
  end.

Definition is_verified (id : uuid) (db : ReadDB) : Prop :=
  ∃ p, rd_profiles db !! id = Some p ∧ pf_verified p = true.

Definition verifies (id : uuid) (e : profile_event) : Prop :=
  match e with
  | Registered _ => False
  | Verified e => uuid_Parse (pv_ParticipantID e) = Some id
  end.

Lemma OnProfileEvent_verified id e db :
  is_verified id (OnProfileEvent e db).2 ↔ is_verified id db ∨ verifies id e.
Proof.
  destruct e as [e|e]; simpl; unfold OnParticipantRegistered, OnParticipantVerified;
    rewrite run_lift; unfold parseEventUUID; destruct (uuid_Parse _) as [u|] eqn:Hu;
    simpl; [|naive_solver| |naive_solver]; unfold is_verified; simpl;
    destruct (decide (u = id)) as [->|Hne];
    rewrite ?lookup_insert_eq, ?lookup_insert_ne by done; try naive_solver;
    destruct (rd_profiles db !! id) as [p|] eqn:Hp; naive_solver.
Qed.

Lemma deliver_verified id es db :
  is_verified id (deliver OnProfileEvent es db) ↔
  is_verified id db ∨ ∃ e, e ∈ es ∧ verifies id e.
Proof.
  revert db. induction es as [|e es IH]; intros db; simpl.
  - split; [by left|]. intros [|(e & []%elem_of_nil & _)]; done.
  - rewrite IH, OnProfileEvent_verified. setoid_rewrite elem_of_cons. naive_solver.
Qed.
End Profiles.

(** ** Paging *)

Lemma paged_ok {A} msg limit offset (l : list A) :
  0 ≤ offset → paged msg limit offset l = Ok (take (Z.to_nat limit) (drop (Z.to_nat offset) l)).
Proof. intros Ho. unfold paged. by rewrite (proj2 (Z.ltb_ge offset 0) Ho). Qed.

Lemma offset_small page size :
  1 ≤ page → 1 ≤ size ≤ 100 → page * size ≤ int64_max →
  wrap64 ((page - 1) * size) = (page - 1) * size.
Proof. intros. apply wrap64_small. unfold in_int64, int64_min, int64_max in *. nia. Qed.

Lemma normalizePaging_spec page size :
  1 ≤ (normalizePaging page size).1 ∧ 1 ≤ (normalizePaging page size).2 ≤ 100
  ∧ (1 ≤ page → (normalizePaging page size).1 = page)
  ∧ (1 ≤ size ≤ 100 → (normalizePaging page size).2 = size).
Proof. unfold normalizePaging. simpl. repeat case_match; breflect; lia. Qed.

(** The pages [1 .. n] one after the other. *)
Fixpoint pages (q : Z → result CatalogPage) (n : nat) : list CatalogItem :=
  match n with
  | O => []
  | S n => pages q n ++ match q (Z.of_nat (S n)) with Ok p => cp_Items p | _ => [] end
  end.

Section Catalog.
Context `{UUIDLib}.

Definition catalog_rows (db : ReadDB) : list (uuid * CatalogRow) :=
  merge_sort catalog_order (map_to_list (rd_catalog db)).

Lemma ActiveAuctionsCatalogHandler_run now page size db :
  1 ≤ page → 1 ≤ size ≤ 100 → page * size ≤ int64_max →
  ActiveAuctionsCatalogHandler now page size db =
    Ok (mkCatalogPage
          (catalog_item now <$> take (Z.to_nat size)
             (drop (Z.to_nat ((page - 1) * size)) (catalog_rows db)))
          (Z.of_nat (base.size (rd_catalog db))) page).
Proof.
  intros Hp Hs Hb. unfold ActiveAuctionsCatalogHandler.
  pose proof (normalizePaging_spec page size) as (_ & _ & Hnp & Hns).
  destruct (normalizePaging page size) as [p s]; simpl in *.
  rewrite Hnp, Hns by done. unfold ActiveAuctions.
  rewrite offset_small, paged_ok by (done || nia). done.
Qed.

Lemma pages_take now size db n :
  1 ≤ size ≤ 100 → Z.of_nat n * size ≤ int64_max →
  pages (fun page => ActiveAuctionsCatalogHandler now page size db) n
  = catalog_item now <$> take (n * Z.to_nat size) (catalog_rows db).
Proof.
  intros Hs. induction n as [|n IH]; intros Hn; simpl; [done|].
  rewrite IH by lia. rewrite ActiveAuctionsCatalogHandler_run by lia. cbn [cp_Items].
  rewrite <- fmap_app. f_equal.
  replace (Z.to_nat ((Z.of_nat (S n) - 1) * size)) with (n * Z.to_nat size)%nat by nia.
  by rewrite take_take_drop, Nat.add_comm.
Qed.

Lemma catalog_order_total : Total catalog_order.
Proof. intros x y. unfold catalog_order. lia. Qed.
Lemma catalog_order_trans : Transitive catalog_order.
Proof. intros x y z. unfold catalog_order. lia. Qed.
End Catalog.

(** ** The auction card *)

(** The row with another reserve. *)
Definition with_reserve (reserve : option Z) (p : pgAuction) : pgAuction :=
  mkPgAuction (p_ID p) (p_SellerID p) (p_Title p) (p_Description p) (p_Currency p)
    (p_StartPriceMinor p) (p_IncrementMinor p) reserve (p_StartsAt p) (p_EndsAt p)
    (p_OriginalEndsAt p) (p_SnipeWindowSec p) (p_SnipeExtensionSec p) (p_SnipeMaxExt p)
    (p_VerifyAboveMinor p) (p_ExtensionsUsed p) (p_Status p) (p_Outcome p)
    (p_LeadingBidID p) (p_LeadingBidderID p) (p_LeadingAmountMinor p) (p_LeadingPlacedAt p)
    (p_RunnerUpBidID p) (p_RunnerUpBidderID p) (p_RunnerUpAmountMinor p)
    (p_RunnerUpPlacedAt p) (p_WinnerReassigned p) (p_BidCount p) (p_RelistOf p)
    (p_RelistGeneration p) (p_Settled p) (p_Version p).

(** The database with another row for an auction. *)
Definition put_row (id : AuctionID) (p : pgAuction) (db : ReadDB) : ReadDB :=
  let w := rd_write db in
  mkReadDB (mkAuctionDB (<[AuctionID_UUID id := p]> (db_auctions w)) (db_bids w) (db_outbox w)
              (db_drawn w))
    (rd_profiles db) (rd_catalog db) (rd_dashboard db).

Section Card.
Context `{UUIDLib}.

Lemma AuctionCard_run id db p view :
  db_auctions (rd_write db) !! AuctionID_UUID id = Some p → AuctionCard id db = Ok view →
  cv_CurrentPriceMinor view = default (p_StartPriceMinor p) (p_LeadingAmountMinor p)
  ∧ cv_MinimalNextBidMinor view
    = match p_LeadingAmountMinor p with
      | Some amount => wrap64 (amount + p_IncrementMinor p)
      | None => p_StartPriceMinor p
      end
  ∧ cv_HasReserve view = match p_ReservePriceMinor p with Some _ => true | None => false end.
Proof.
  unfold AuctionCard. intros ->. destruct (bidViews id 10 0 db); [|done..]. cbn.
  intros [= <-]; simpl. by destruct (p_LeadingAmountMinor p).
Qed.

Lemma AuctionCard_reserve id db p r :
  db_auctions (rd_write db) !! AuctionID_UUID id = Some p →
  (is_Some r ↔ is_Some (p_ReservePriceMinor p)) →
  AuctionCard id (put_row id (with_reserve r p) db) = AuctionCard id db.
Proof.
  intros Hp Hr. unfold AuctionCard. rewrite Hp. cbn [put_row rd_write db_auctions].
  rewrite lookup_insert_eq. change (bidViews id 10 0 (put_row _ _ _)) with (bidViews id 10 0 db).
  destruct (bidViews id 10 0 db); [|done..]. cbn.
  destruct r, (p_ReservePriceMinor p); [done| | |done]; exfalso.
  - by destruct (proj1 Hr (mk_is_Some _ _ eq_refl)).
  - by destruct (proj2 Hr (mk_is_Some _ _ eq_refl)).
Qed.
End Card.

(** * The claims *)

(** C25: once an auction is in the catalog and on the dashboard, its bids may
    be delivered in any order and any number of times: every delivery is
    acknowledged, and any two sequences with the same bids leave the same
    catalog row and the same dashboard row, those of the latest bid. *)
Theorem catalog_converges `{UUIDLib} id a row drow db es1 es2 :
  projected id a row drow db →
  Forall (bid_on id a) es1 → (∀ e, e ∈ es1 ↔ e ∈ es2) →
  (∀ e e', e ∈ es1 → e' ∈ es1 → bp_BidCount e = bp_BidCount e' →
     bp_AmountMinor e = bp_AmountMinor e' ∧ bp_NewEndsAt e = bp_NewEndsAt e') →
  rd_catalog (deliver OnBidPlaced es1 db) !! id = rd_catalog (deliver OnBidPlaced es2 db) !! id
  ∧ rd_dashboard (deliver OnBidPlaced es1 db) !! id
    = rd_dashboard (deliver OnBidPlaced es2 db) !! id
  ∧ (∀ e, e ∈ es1 → (OnBidPlaced e (deliver OnBidPlaced es1 db)).1 = Ok tt)
  ∧ ∃ r, rd_catalog (deliver OnBidPlaced es1 db) !! id = Some r
      ∧ (∀ e, e ∈ es1 → bp_BidCount e ≤ ci_bid_count r)
      ∧ (r = row ∨ ∃ e, e ∈ es1 ∧ r = upd_catalog a e row).
Proof.
  intros Hp Hes Heq Hdet.
  assert (Forall (bid_on id a) es2) as Hes2
    by (apply Forall_forall; intros e He; rewrite Forall_forall in Hes; by apply Hes, Heq).
  pose proof (deliver_projected _ _ _ _ _ _ Hp Hes) as Hp1.
  pose proof (deliver_projected _ _ _ _ _ _ Hp Hes2) as Hp2.
  split_and!.
  - rewrite (pj_catalog _ _ _ _ _ Hp1), (pj_catalog _ _ _ _ _ Hp2). f_equal.
    apply newest_converges; [done..|]. intros e e' He He' Hc. unfold upd_catalog.
    destruct (Hdet e e') as [-> ->]; congruence.
  - rewrite (pj_dashboard _ _ _ _ _ Hp1), (pj_dashboard _ _ _ _ _ Hp2). f_equal.
    apply newest_converges; [done..|]. intros e e' He He' Hc. unfold upd_dashboard.
    destruct (Hdet e e') as [_ ->]; congruence.
  - intros e He. rewrite Forall_forall in Hes.
    by destruct (OnBidPlaced_projected _ _ _ _ _ e Hp1 (Hes e He)).
  - eexists. split; [apply Hp1|].
    destruct (newest bp_BidCount ci_bid_count (upd_catalog a) ltac:(done) ltac:(done) es1 row)
      as [[-> Hle]|(x & Hx & -> & _ & Hle)]; simpl; eauto.
Qed.

(** A participant counts as verified exactly when one of the delivered
    events said so, or the store already did: neither a reordered nor a
    redelivered registration takes the verification back. *)
Lemma BidderByID_verified `{UUIDLib} id db :
  id ≠ zero_value →
  (∃ b, BidderByID db id = Ok b ∧ bd_verified b = true) ↔ is_verified (BidderID_UUID id) db.
Proof.
  intros Hz. unfold BidderByID, is_verified, NewBidder. rewrite (proj2 (IsZero_false _) Hz).
  destruct (rd_profiles db !! _) as [p|]; naive_solver.
Qed.

(** C26: the verification the bidding rules ask for ([BidderByID]) is granted
    exactly when one of the delivered participant events verified the bidder,
    or the projection already said so: no reordered or redelivered
    registration takes it back. *)
Theorem verified_never_reverts `{UUIDLib} id es db :
  id ≠ zero_value →
  (∃ b, BidderByID (deliver OnProfileEvent es db) id = Ok b ∧ bd_verified b = true) ↔
  is_verified (BidderID_UUID id) db ∨ ∃ e, e ∈ es ∧ verifies (BidderID_UUID id) e.
Proof. intros Hz. by rewrite BidderByID_verified, deliver_verified. Qed.

(** An AuctionListed message delivered again after the auction was closed
    puts the auction back into the public catalog, with the start price and no
    bids, although the operation is documented as idempotent; later bid
    messages of the closed auction do not remove it. *)
Theorem catalog_ghost `{UUIDLib} e c db id seller :
  uuid_Parse (al_AuctionID e) = Some id → uuid_Parse (al_SellerID e) = Some seller →
  uuid_Parse (acl_AuctionID c) = Some id →
  let db1 := (OnAuctionClosed c (OnAuctionListed e db).2).2 in
  rd_catalog db1 !! id = None
  ∧ (OnAuctionListed e db1).1 = Ok tt
  ∧ rd_catalog (OnAuctionListed e db1).2 !! id
    = Some (mkCatalogRow (al_Title e) seller (al_Currency e) (al_StartPriceMinor e)
              (al_StartPriceMinor e) 0 (al_EndsAt e)).
Proof.
  intros He Hs Hc. cbn zeta.
  set (db0 := (OnAuctionListed e db).2).
  assert (rd_catalog (OnAuctionClosed c db0).2 !! id = None) as Hn.
  { unfold OnAuctionClosed, parseEventUUID. rewrite Hc, run_lift.
    unfold Catalog_Remove. rewrite run_modify.
    unfold Dashboard_ApplyClosed, Dashboard_update. rewrite run_get. simpl.
    destruct (rd_dashboard db0 !! id); simpl; by rewrite lookup_delete_eq. }
  split; [done|]. unfold OnAuctionListed, parseEventUUID. rewrite He, Hs, !run_lift.
  unfold Catalog_UpsertListed. rewrite run_modify, Hn. simpl.
  destruct (rd_dashboard _ !! id); simpl; by rewrite lookup_insert_eq.
Qed.

(** The dashboard depends on the order in which the sale's failure and
    the auction's closing are handled, though each handler is a consumer group
    of its own with its own offset.  When the failure is handled first (or the
    closing is delivered again), the closing overwrites its verdict: the row
    ends up with the outcome of the closing, so an unpaid sale is counted in
    the seller's sold total. *)
Theorem dashboard_order_sensitive `{UUIDLib} f c db id row :
  uuid_Parse (sf_AuctionID f) = Some id → uuid_Parse (acl_AuctionID c) = Some id →
  rd_dashboard db !! id = Some row →
  (di_outcome <$> rd_dashboard (OnSaleFailed f (OnAuctionClosed c db).2).2 !! id)
    = Some (Some "not_sold")
  ∧ (di_outcome <$> rd_dashboard (OnAuctionClosed c (OnSaleFailed f db).2).2 !! id)
    = Some (Some (acl_Outcome c))
  ∧ (di_settlement_status <$> rd_dashboard (OnAuctionClosed c (OnSaleFailed f db).2).2 !! id)
    = Some (Some "failed").
Proof.
  intros Hf Hc Hr.
  unfold OnSaleFailed, OnAuctionClosed, parseEventUUID. rewrite Hf, Hc.
  rewrite !run_lift. unfold Catalog_Remove. rewrite !run_modify.
  unfold Dashboard_ApplySettlement, Dashboard_ApplyClosed, Dashboard_update.
  rewrite !run_get. simpl. rewrite Hr. simpl. rewrite !lookup_insert_eq. simpl.
  rewrite !lookup_insert_eq. done.
Qed.

(** The auction card agrees with the aggregate it is read from.  For a
    stored auction it shows the price the aggregate holds and, as the next
    minimum, exactly the amount the domain would require of the next bid
    (also where the sum wraps around); and it does not depend on the amount
    of the reserve price, only on whether there is one. *)
Theorem card_faithful `{UUIDLib} a view db :
  storable a → db_auctions (rd_write db) !! AuctionID_UUID (a_id a) = Some (toPgAuction a) →
  AuctionCard (a_id a) db = Ok view →
  MinimalNextBid a = Ok (mkMoney (cv_MinimalNextBidMinor view)
                           (m_currency (a_startPrice a)))
  ∧ cv_CurrentPriceMinor view
    = m_amount (if IsZero (a_leadingBid a) then a_startPrice a else b_amount (a_leadingBid a))
  ∧ cv_HasReserve view = negb (IsZero (a_reserve a))
  ∧ ∀ r, (is_Some r ↔ cv_HasReserve view = true) →
      AuctionCard (a_id a) (put_row (a_id a) (with_reserve r (toPgAuction a)) db) = Ok view.
Proof.
  intros Hs Hp Hv. destruct (AuctionCard_run _ _ _ _ Hp Hv) as (Hc & Hm & Hr).
  rewrite Hc, Hm. simpl. destruct (IsZero (a_leadingBid a)) eqn:Hz; unfold MinimalNextBid;
    rewrite Hz; unfold opt_unless; rewrite Hz; simpl.
  - split_and!; [by rewrite money_eta|done| |].
    + rewrite Hr. simpl. unfold opt_unless. by destruct (IsZero (a_reserve a)).
    + intros r Hir. rewrite (AuctionCard_reserve _ _ _ _ Hp); [done|]. rewrite Hir, Hr.
      destruct (p_ReservePriceMinor _); naive_solver.
  - destruct (so_leading a Hs) as [Hl|Hl]; [by rewrite Hl in Hz|].
    destruct (so_increment a Hs) as [_ Hic]. unfold Money_Add.
    rewrite (sb_currency _ _ Hl), Hic, bool_decide_eq_false_2 by naive_solver.
    split_and!; [done|done| |].
    + rewrite Hr. simpl. unfold opt_unless. by destruct (IsZero (a_reserve a)).
    + intros r Hir. rewrite (AuctionCard_reserve _ _ _ _ Hp); [done|]. rewrite Hir, Hr.
      destruct (p_ReservePriceMinor _); naive_solver.
Qed.

(** The pages of the catalog partition it: the first [n] pages of a valid
    size, one after the other, are the first [n * size] auctions in the order
    of their deadlines, none missing and none twice. *)
Theorem catalog_pages `{UUIDLib} now size db n :
  1 ≤ size ≤ 100 → Z.of_nat n * size ≤ int64_max →
  pages (fun page => ActiveAuctionsCatalogHandler now page size db) n
    = catalog_item now <$> take (n * Z.to_nat size) (catalog_rows db)
  ∧ catalog_rows db ≡ₚ map_to_list (rd_catalog db)
  ∧ Sorted catalog_order (catalog_rows db).
Proof.
  intros Hs Hn. split_and!.
  - by apply pages_take.
  - apply merge_sort_Permutation.
  - apply Sorted_merge_sort, catalog_order_total.
Qed.

(** * Witnesses *)

Import demo_uuid.

Definition demo_row : CatalogRow := mkCatalogRow "clock" 2 "EUR" 1000 1000 0 4600.
Definition demo_drow : DashboardRow :=
  mkDashboardRow 2 "clock" "listed" None None None "EUR" 0 4600.
Definition demo_read : ReadDB :=
  mkReadDB demo_db ∅ {[ 1%N := demo_row ]} {[ 1%N := demo_drow ]}.
Definition demo_bid (n : Z) : BidPlacedV1 :=
  mkBidPlacedV1 "e" (show 1) (show 11) (show 3) (1000 + 100 * n) "EUR" n false 4600
    "" 4000.

Lemma demo_projected :
  projected 1%N (toPgAuction (set_events [] demo.a0)) demo_row demo_drow demo_read.
Proof. by split. Defined.

Lemma catalog_converges_witness :
  rd_catalog (deliver OnBidPlaced [demo_bid 2; demo_bid 1; demo_bid 2] demo_read) !! 1%N
  = rd_catalog (deliver OnBidPlaced [demo_bid 1; demo_bid 2] demo_read) !! 1%N.
Proof.
  refine (proj1 (catalog_converges 1%N _ _ _ demo_read [demo_bid 2; demo_bid 1; demo_bid 2]
    [demo_bid 1; demo_bid 2] demo_projected _ _ _)).
  - repeat constructor; by vm_compute.
  - intros e. rewrite !elem_of_cons, elem_of_nil. tauto.
  - intros e e'. rewrite !elem_of_cons, !elem_of_nil.
    intros [->|[->|[->|[]]]] [->|[->|[->|[]]]];
      cbn; first [by intros _; split | discriminate].
Defined.

Definition demo_view : AuctionCardView := Eval vm_compute in
  match AuctionCard (mkAuctionID 1) demo_read with
  | Ok v => v
  | _ => mkAuctionCardView "" "" "" "" "" "" 0 0 0 0 "" false 0 0 0 0 "" []
  end.

Lemma verified_never_reverts_witness :
  let es := [Verified (mkParticipantVerifiedV1 "e" (show 3) 1);
             Registered (mkParticipantRegisteredV1 "f" (show 3) "ann" "a@b" 1)] in
  (∃ b, BidderByID (deliver OnProfileEvent es demo_read) (mkBidderID 3) = Ok b
        ∧ bd_verified b = true) ↔
  is_verified 3 demo_read ∨ ∃ e, e ∈ es ∧ verifies 3 e.
Proof. apply (verified_never_reverts (mkBidderID 3)). by vm_compute. Defined.

Definition demo_listed : AuctionListedV1 :=
  mkAuctionListedV1 "e" (show 1) (show 2) "clock" 1000 "EUR" 1000 4600 0 900.
Definition demo_closed : AuctionClosedV1 :=
  mkAuctionClosedV1 "e" (show 1) (show 2) "sold" (show 3) 2500 "EUR" "" 0 false 0 4700.
Definition demo_failed : SaleFailedV1 := mkSaleFailedV1 "e" (show 1) "unpaid" 9000.

Lemma catalog_ghost_witness :
  rd_catalog (OnAuctionListed demo_listed
    (OnAuctionClosed demo_closed (OnAuctionListed demo_listed demo_read).2).2).2 !! 1%N
  = Some (mkCatalogRow "clock" 2 "EUR" 1000 1000 0 4600).
Proof.
  apply (catalog_ghost demo_listed demo_closed demo_read 1 2); vm_compute; reflexivity.
Defined.

Lemma dashboard_order_sensitive_witness :
  (di_outcome <$> rd_dashboard (OnAuctionClosed demo_closed
     (OnSaleFailed demo_failed demo_read).2).2 !! 1%N) = Some (Some "sold").
Proof.
  apply (dashboard_order_sensitive demo_failed demo_closed demo_read 1 demo_drow);
    vm_compute; reflexivity.
Defined.

Lemma card_faithful_witness :
  MinimalNextBid (set_events [] demo.a0) = Ok (mkMoney (cv_MinimalNextBidMinor demo_view)
                           (m_currency (a_startPrice demo.a0))).
Proof.
  apply (card_faithful (set_events [] demo.a0) demo_view demo_read);
    [apply demo_drained_storable|vm_compute; reflexivity..].
Defined.

Lemma catalog_pages_witness :
  pages (fun page => ActiveAuctionsCatalogHandler 0 page 1 demo_read) 2
    = catalog_item 0 <$> take 2 (catalog_rows demo_read).
Proof. apply (catalog_pages 0 1 demo_read 2); by vm_compute. Defined.
End projections_theory.
