(* ===== verification/InvoiceDomain.v ===== *)
(** * The invoice aggregate

    [internal/billing/domain/invoice]: the value objects, the [Invoice]
    aggregate with its methods and the domain events it records, in
    [Module invoice]. *)

From stdpp Require Import base numbers list strings countable.
From Stdlib Require Import ZArith Lia.
From S2P Require Import Prelude Errs.

Module invoice.
Local Open Scope Z_scope.

(** The sentinels of [errors.go], as error values. *)
Abbreviation ErrInvoiceAlreadyPaid := (ErrInvoice InvoiceErr.ErrInvoiceAlreadyPaid) (only parsing).
Abbreviation ErrInvoiceExpired := (ErrInvoice InvoiceErr.ErrInvoiceExpired) (only parsing).
Abbreviation ErrInvoiceAlreadyExpired := (ErrInvoice InvoiceErr.ErrInvoiceAlreadyExpired) (only parsing).
Abbreviation ErrInvoiceVoided := (ErrInvoice InvoiceErr.ErrInvoiceVoided) (only parsing).
Abbreviation ErrInvoiceAlreadyVoided := (ErrInvoice InvoiceErr.ErrInvoiceAlreadyVoided) (only parsing).
Abbreviation ErrInvoiceNotDue := (ErrInvoice InvoiceErr.ErrInvoiceNotDue) (only parsing).
Abbreviation ErrInvoiceAlreadyIssued := (ErrInvoice InvoiceErr.ErrInvoiceAlreadyIssued) (only parsing).
Abbreviation ErrPaymentDeclined := (ErrInvoice InvoiceErr.ErrPaymentDeclined) (only parsing).
Abbreviation ErrPSPUnavailable := (ErrInvoice InvoiceErr.ErrPSPUnavailable) (only parsing).
Abbreviation ErrCurrencyMismatch := (ErrInvoice InvoiceErr.ErrCurrencyMismatch) (only parsing).
Abbreviation ErrNegativeAmount := (ErrInvoice InvoiceErr.ErrNegativeAmount) (only parsing).
Abbreviation ErrInvalidCurrency := (ErrInvoice InvoiceErr.ErrInvalidCurrency) (only parsing).
Abbreviation ErrInvalidCommissionRate := (ErrInvoice InvoiceErr.ErrInvalidCommissionRate) (only parsing).
Abbreviation ErrInvalidAttempt := (ErrInvoice InvoiceErr.ErrInvalidAttempt) (only parsing).
Abbreviation ErrInvalidPaymentTerm := (ErrInvoice InvoiceErr.ErrInvalidPaymentTerm) (only parsing).
Abbreviation ErrEmptyPaymentReference := (ErrInvoice InvoiceErr.ErrEmptyPaymentReference) (only parsing).

(** ** Identities *)

Record InvoiceID := mkInvoiceID { InvoiceID_UUID : uuid }.
#[export] Instance InvoiceID_eq_dec : EqDecision InvoiceID.
Proof. solve_decision. Defined.
#[export] Instance InvoiceID_countable : Countable InvoiceID :=
  inj_countable' InvoiceID_UUID mkInvoiceID (fun x => match x with mkInvoiceID _ => eq_refl end).
#[export] Instance InvoiceID_zero : GoZero InvoiceID := mkInvoiceID uuid_Nil.

Definition NewInvoiceID (id : uuid) : result InvoiceID :=
  if bool_decide (id = uuid_Nil) then Fail (ErrNew "invoice id must not be nil")
  else Ok (mkInvoiceID id).

Record AuctionID := mkAuctionID { AuctionID_UUID : uuid }.
#[export] Instance AuctionID_eq_dec : EqDecision AuctionID.
Proof. solve_decision. Defined.
#[export] Instance AuctionID_zero : GoZero AuctionID := mkAuctionID uuid_Nil.

Definition NewAuctionID (id : uuid) : result AuctionID :=
  if bool_decide (id = uuid_Nil) then Fail (ErrNew "auction id must not be nil")
  else Ok (mkAuctionID id).

Record BidderID := mkBidderID { BidderID_UUID : uuid }.
#[export] Instance BidderID_eq_dec : EqDecision BidderID.
Proof. solve_decision. Defined.
#[export] Instance BidderID_zero : GoZero BidderID := mkBidderID uuid_Nil.

Definition NewBidderID (id : uuid) : result BidderID :=
  if bool_decide (id = uuid_Nil) then Fail (ErrNew "bidder id must not be nil")
  else Ok (mkBidderID id).

(** ** Value objects *)

Record Attempt := mkAttempt { Attempt_Int : Z }.
#[export] Instance Attempt_eq_dec : EqDecision Attempt.
Proof. solve_decision. Defined.
#[export] Instance Attempt_zero : GoZero Attempt := mkAttempt 0.

Definition AttemptFirst : Attempt := mkAttempt 1.
Definition AttemptSecondChance : Attempt := mkAttempt 2.

Definition NewAttempt (n : Z) : result Attempt :=
  if (n =? 1) || (n =? 2) then Ok (mkAttempt n) else Fail ErrInvalidAttempt.

Record PaymentTerm := mkPaymentTerm { PaymentTerm_Duration : Duration }.
#[export] Instance PaymentTerm_eq_dec : EqDecision PaymentTerm.
Proof. solve_decision. Defined.
#[export] Instance PaymentTerm_zero : GoZero PaymentTerm := mkPaymentTerm 0.

Definition NewPaymentTerm (d : Duration) : result PaymentTerm :=
  if d <=? 0 then Fail ErrInvalidPaymentTerm else Ok (mkPaymentTerm d).

Record PaymentReference := mkPaymentReference { PaymentReference_String : string }.
#[export] Instance PaymentReference_eq_dec : EqDecision PaymentReference.
Proof. solve_decision. Defined.
#[export] Instance PaymentReference_zero : GoZero PaymentReference := mkPaymentReference "".

Definition NewPaymentReference (ref : string) : result PaymentReference :=
  if bool_decide (ref = "") then Fail ErrEmptyPaymentReference
  else Ok (mkPaymentReference ref).

(** The constructors only build the listed values; [StatusZero] is the zero
    value. *)
Inductive InvoiceStatus :=
| StatusZero | StatusPending | StatusPaid | StatusExpired | StatusVoided.
#[export] Instance InvoiceStatus_eq_dec : EqDecision InvoiceStatus.
Proof. solve_decision. Defined.
#[export] Instance InvoiceStatus_zero : GoZero InvoiceStatus := StatusZero.

Definition InvoiceStatus_String (s : InvoiceStatus) : string :=
  match s with
  | StatusZero => ""
  | StatusPending => "pending"
  | StatusPaid => "paid"
  | StatusExpired => "expired"
  | StatusVoided => "voided"
  end.

Definition NewInvoiceStatusFromString (s : string) : result InvoiceStatus :=
  if bool_decide (s = InvoiceStatus_String StatusPending) then Ok StatusPending
  else if bool_decide (s = InvoiceStatus_String StatusPaid) then Ok StatusPaid
  else if bool_decide (s = InvoiceStatus_String StatusExpired) then Ok StatusExpired
  else if bool_decide (s = InvoiceStatus_String StatusVoided) then Ok StatusVoided
  else Fail (ErrNew ("unknown invoice status: " +:+ s)).

(** ** Money *)

Record Currency := mkCurrency { c_code : string }.
#[export] Instance Currency_eq_dec : EqDecision Currency.
Proof. solve_decision. Defined.
#[export] Instance Currency_zero : GoZero Currency := mkCurrency "".

Definition upper_letter (r : Ascii.ascii) : bool :=
  let n := Ascii.N_of_ascii r in (65 <=? n)%N && (n <=? 90)%N.

Fixpoint all_upper (s : string) : bool :=
  match s with
  | "" => true
  | String r rest => upper_letter r && all_upper rest
  end.

(** The middle test, [strings.ToUpper(code) != code], only refuses codes the
    loop refuses too, with the same error. *)
Definition NewCurrency (code : string) : result Currency :=
  if negb (Nat.eqb (String.length code) 3) then Fail ErrInvalidCurrency
  else if negb (all_upper code) then Fail ErrInvalidCurrency
  else Ok (mkCurrency code).

Record Money := mkMoney { m_amount : Z; m_currency : Currency }.
#[export] Instance Money_eq_dec : EqDecision Money.
Proof. solve_decision. Defined.
#[export] Instance Money_zero : GoZero Money := mkMoney 0 zero_value.

Definition NewMoney (amountMinor : Z) (currency : Currency) : result Money :=
  if amountMinor <? 0 then Fail ErrNegativeAmount
  else if IsZero currency then Fail ErrInvalidCurrency
  else Ok (mkMoney amountMinor currency).

Definition Money_Add (m other : Money) : result Money :=
  if bool_decide (m_currency m ≠ m_currency other) then Fail ErrCurrencyMismatch
  else Ok (mkMoney (wrap64 (m_amount m + m_amount other)) (m_currency m)).

(** [m.amount * int64(bp) / 10_000]: the product wraps, the division
    truncates toward zero. *)
Definition Money_MulBasisPoints (m : Money) (bp : Z) : Money :=
  mkMoney (Z.quot (wrap64 (m_amount m * bp)) 10000) (m_currency m).

(** ** Commission *)

Record CommissionPolicy := mkCommissionPolicy { basisPoints : Z }.

Definition NewCommissionPolicy (bp : Z) : result CommissionPolicy :=
  if (bp <? 0) || (10000 <? bp) then Fail ErrInvalidCommissionRate
  else Ok (mkCommissionPolicy bp).

Definition CommissionFor (hammer : Money) (p : CommissionPolicy) : Money :=
  Money_MulBasisPoints hammer (basisPoints p).

(** ** Domain events *)

Inductive DomainEvent :=
| InvoiceIssued (id : InvoiceID) (auction : AuctionID) (debtor : BidderID)
    (hammer commission total : Money) (dueAt : Time) (attempt : Attempt) (occurredAt : Time)
| InvoicePaid (id : InvoiceID) (auction : AuctionID) (debtor : BidderID) (total : Money)
    (ref : PaymentReference) (occurredAt : Time)
| InvoiceExpired (id : InvoiceID) (auction : AuctionID) (debtor : BidderID)
    (attempt : Attempt) (occurredAt : Time)
| InvoiceVoided (id : InvoiceID) (occurredAt : Time).
#[export] Instance DomainEvent_eq_dec : EqDecision DomainEvent.
Proof. solve_decision. Defined.

(** ** The aggregate *)

Record Invoice := mkInvoice {
  i_id : InvoiceID;
  i_auctionID : AuctionID;
  i_debtor : BidderID;
  i_hammer : Money;
  i_commission : Money;
  i_total : Money;
  i_status : InvoiceStatus;
  i_dueAt : Time;
  i_attempt : Attempt;
  i_pspRef : PaymentReference;
  i_version : Z;
  i_events : list DomainEvent;
}.
#[export] Instance Invoice_eq_dec : EqDecision Invoice.
Proof. solve_decision. Defined.

Definition set_status (v : InvoiceStatus) (i : Invoice) : Invoice :=
  mkInvoice (i_id i) (i_auctionID i) (i_debtor i) (i_hammer i) (i_commission i) (i_total i) v
    (i_dueAt i) (i_attempt i) (i_pspRef i) (i_version i) (i_events i).
Definition set_pspRef (v : PaymentReference) (i : Invoice) : Invoice :=
  mkInvoice (i_id i) (i_auctionID i) (i_debtor i) (i_hammer i) (i_commission i) (i_total i)
    (i_status i) (i_dueAt i) (i_attempt i) v (i_version i) (i_events i).
Definition set_version (v : Z) (i : Invoice) : Invoice :=
  mkInvoice (i_id i) (i_auctionID i) (i_debtor i) (i_hammer i) (i_commission i) (i_total i)
    (i_status i) (i_dueAt i) (i_attempt i) (i_pspRef i) v (i_events i).
Definition set_events (v : list DomainEvent) (i : Invoice) : Invoice :=
  mkInvoice (i_id i) (i_auctionID i) (i_debtor i) (i_hammer i) (i_commission i) (i_total i)
    (i_status i) (i_dueAt i) (i_attempt i) (i_pspRef i) (i_version i) v.

Definition record (e : DomainEvent) : M Invoice unit :=
  modify (fun i => set_events (i_events i ++ [e]) i).

Definition IsPending (i : Invoice) : bool := bool_decide (i_status i = StatusPending).

Definition PullDomainEvents (i : Invoice) : list DomainEvent * Invoice :=
  (i_events i, set_events [] i).

Definition NewInvoice (id : InvoiceID) (auctionID : AuctionID) (debtor : BidderID)
    (hammer : Money) (cp : CommissionPolicy) (pt : PaymentTerm) (attempt : Attempt)
    (now : Time) : result Invoice :=
  if IsZero id then Fail (ErrNew "invoice id is required")
  else if IsZero auctionID then Fail (ErrNew "auction id is required")
  else if IsZero debtor then Fail (ErrNew "debtor is required")
  else if IsZero hammer then Fail (ErrNew "hammer price is required")
  else if IsZero pt then Fail (ErrNew "payment term is required")
  else if IsZero attempt then Fail (ErrNew "attempt is required")
  else if time_IsZero now then Fail (ErrNew "current time is required")
  else
    let commission := CommissionFor hammer cp in
    total ← Money_Add hammer commission;
    let inv := mkInvoice id auctionID debtor hammer commission total StatusPending
                 (time_Add now (PaymentTerm_Duration pt)) attempt zero_value 1 [] in
    closure (record (InvoiceIssued id auctionID debtor hammer commission total (i_dueAt inv)
                       attempt now)) inv.

Definition UnmarshalFromDatabase (id : InvoiceID) (auctionID : AuctionID) (debtor : BidderID)
    (hammer commission total : Money) (status : InvoiceStatus) (dueAt : Time)
    (attempt : Attempt) (pspRef : PaymentReference) (version : Z) : result Invoice :=
  if IsZero id then Fail (ErrNew "invoice id is required")
  else if IsZero auctionID then Fail (ErrNew "auction id is required")
  else if IsZero debtor then Fail (ErrNew "debtor is required")
  else if IsZero hammer then Fail (ErrNew "hammer price is required")
  else if IsZero total then Fail (ErrNew "total is required")
  else if IsZero status then Fail (ErrNew "status is required")
  else if time_IsZero dueAt then Fail (ErrNew "due date is required")
  else if IsZero attempt then Fail (ErrNew "attempt is required")
  else if version <? 1 then Fail (ErrNew "version must be at least 1")
  else Ok (mkInvoice id auctionID debtor hammer commission total status dueAt attempt pspRef
             version []).

Definition unknown_status {S A} : M S A := crash "invoice: unknown status ".

Definition MarkPaid (ref : PaymentReference) (now : Time) : M Invoice unit :=
  throw_if (IsZero ref) ErrEmptyPaymentReference;;
  i ← get;
  match i_status i with
  | StatusPending =>
      modify (set_status StatusPaid);;
      modify (set_pspRef ref);;
      record (InvoicePaid (i_id i) (i_auctionID i) (i_debtor i) (i_total i) ref now)
  | StatusPaid => throw ErrInvoiceAlreadyPaid
  | StatusExpired => throw ErrInvoiceExpired
  | StatusVoided => throw ErrInvoiceVoided
  | StatusZero => unknown_status
  end.

Definition Expire (now : Time) : M Invoice unit :=
  i ← get;
  match i_status i with
  | StatusPending =>
      throw_if (time_Before now (i_dueAt i)) ErrInvoiceNotDue;;
      modify (set_status StatusExpired);;
      record (InvoiceExpired (i_id i) (i_auctionID i) (i_debtor i) (i_attempt i) now)
  | StatusPaid => throw ErrInvoiceAlreadyPaid
  | StatusExpired => throw ErrInvoiceAlreadyExpired
  | StatusVoided => throw ErrInvoiceVoided
  | StatusZero => unknown_status
  end.

Definition Void (now : Time) : M Invoice unit :=
  i ← get;
  match i_status i with
  | StatusPending =>
      modify (set_status StatusVoided);;
      record (InvoiceVoided (i_id i) now)
  | StatusPaid => throw ErrInvoiceAlreadyPaid
  | StatusExpired => throw ErrInvoiceAlreadyExpired
  | StatusVoided => throw ErrInvoiceAlreadyVoided
  | StatusZero => unknown_status
  end.

Definition CanDebtorAccessInvoice (actor : BidderID) (i : Invoice) : result unit :=
  if bool_decide (actor ≠ i_debtor i)
  then Fail (ForbiddenInvoiceAccessError (BidderID_UUID actor) (BidderID_UUID (i_debtor i)))
  else Ok tt.
End invoice.
