(* ===== verification/InvoiceRepo.v ===== *)
(** * Storage of invoices

    [internal/billing/adapters]: the event mapper, the storage model
    [pgInvoice] with its mapping, the in-memory and the Postgres repository
    with its read side, and the interface both implement
    ([domain/invoice/repository.go]). *)

From stdpp Require Import base numbers list strings gmap fin_maps sorting.
From Stdlib Require Import ZArith Lia.
From S2P Require Import Prelude Errs Postgres Events InvoiceDomain.

(** [S] is the state of the store; an update closure is a function from the
    loaded aggregate to the aggregate to store. *)
Class InvoiceRepository (S : Type) := {
  inv_Add : invoice.Invoice → M S unit;
  inv_Get : invoice.InvoiceID → invoice.BidderID → S → result invoice.Invoice;
  inv_Update : invoice.InvoiceID → invoice.BidderID →
    (invoice.Invoice → result invoice.Invoice) → M S unit;
  inv_UpdateAsSystem : invoice.InvoiceID →
    (invoice.Invoice → result invoice.Invoice) → M S unit;
  inv_PendingDueBefore : Time → Z → S → result (list invoice.InvoiceID);
}.

Module invoice_repo.
Import invoice.
Local Open Scope Z_scope.

(** ** [publishDomainEvents] *)

Section Mapper.
Context `{UUIDLib}.

Definition InvoiceID_String (i : InvoiceID) : string := uuid_String (InvoiceID_UUID i).
Definition AuctionID_String (i : AuctionID) : string := uuid_String (AuctionID_UUID i).
Definition BidderID_String (i : BidderID) : string := uuid_String (BidderID_UUID i).

(** [n] is the index of the [uuid.NewString()] drawn; [None] is [nil, false]. *)
Definition toIntegrationEvent (n : nat) (e : DomainEvent) : option BillingEvent :=
  match e with
  | InvoiceIssued id auction debtor hammer commission total dueAt attempt t =>
      Some (EvInvoiceIssuedV1 (mkInvoiceIssuedV1 (uuid_NewString n) (InvoiceID_String id)
        (AuctionID_String auction) (BidderID_String debtor) (m_amount hammer)
        (m_amount commission) (m_amount total) (c_code (m_currency total)) dueAt
        (Attempt_Int attempt) t))
  | InvoicePaid id auction debtor total _ t =>
      Some (EvInvoicePaidV1 (mkInvoicePaidV1 (uuid_NewString n) (InvoiceID_String id)
        (AuctionID_String auction) (BidderID_String debtor) (m_amount total)
        (c_code (m_currency total)) t))
  | InvoiceExpired id auction debtor attempt t =>
      Some (EvInvoiceExpiredV1 (mkInvoiceExpiredV1 (uuid_NewString n) (InvoiceID_String id)
        (AuctionID_String auction) (BidderID_String debtor) (Attempt_Int attempt) t))
  | InvoiceVoided _ _ => None
  end.

(** The events [publishDomainEvents] sends, with the identities from [n] on. *)
Fixpoint mapEvents (n : nat) (es : list DomainEvent) : list BillingEvent * nat :=
  match es with
  | [] => ([], n)
  | e :: es =>
      match toIntegrationEvent n e with
      | None => mapEvents n es
      | Some ev => let '(evs, n') := mapEvents (S n) es in (ev :: evs, n')
      end
  end.
End Mapper.

(** ** The storage model *)

Record pgInvoice := mkPgInvoice {
  p_ID : uuid;
  p_AuctionID : uuid;
  p_DebtorID : uuid;
  p_HammerMinor : Z;
  p_CommissionMinor : Z;
  p_TotalMinor : Z;
  p_Currency : string;
  p_Status : string;
  p_DueAt : Time;
  p_Attempt : Z;
  p_PSPRef : option string;
  p_Version : Z;
}.

Definition nullablePSPRef (ref : PaymentReference) : option string :=
  if IsZero ref then None else Some (PaymentReference_String ref).

(** The values the [INSERT] of [Add] binds. *)
Definition toPgInvoice (i : Invoice) : pgInvoice :=
  mkPgInvoice (InvoiceID_UUID (i_id i)) (AuctionID_UUID (i_auctionID i))
    (BidderID_UUID (i_debtor i)) (m_amount (i_hammer i)) (m_amount (i_commission i))
    (m_amount (i_total i)) (c_code (m_currency (i_total i)))
    (InvoiceStatus_String (i_status i)) (i_dueAt i) (Attempt_Int (i_attempt i))
    (nullablePSPRef (i_pspRef i)) (i_version i).

Definition toDomainInvoice (t : pgInvoice) : result Invoice :=
  id ← wrap_err "invalid invoice id in db" (NewInvoiceID (p_ID t));
  auctionID ← wrap_err "invalid auction id in db" (NewAuctionID (p_AuctionID t));
  debtor ← wrap_err "invalid debtor id in db" (NewBidderID (p_DebtorID t));
  currency ← wrap_err "invalid currency in db" (NewCurrency (p_Currency t));
  hammer ← wrap_err "invalid hammer amount in db" (NewMoney (p_HammerMinor t) currency);
  commission ← wrap_err "invalid commission amount in db"
    (NewMoney (p_CommissionMinor t) currency);
  total ← wrap_err "invalid total amount in db" (NewMoney (p_TotalMinor t) currency);
  status ← wrap_err "invalid status in db" (NewInvoiceStatusFromString (p_Status t));
  attempt ← wrap_err "invalid attempt in db" (NewAttempt (p_Attempt t));
  pspRef ←
    match p_PSPRef t with
    | None => Ok (zero_value : PaymentReference)
    | Some ref => wrap_err "invalid psp reference in db" (NewPaymentReference ref)
    end;
  UnmarshalFromDatabase id auctionID debtor hammer commission total status (p_DueAt t)
    attempt pspRef (p_Version t).

(** ** The in-memory repository *)

Record InvoiceInMemoryRepository := mkInvoiceInMemoryRepository {
  byID : gmap InvoiceID Invoice;
}.

Module inmem.
Section Ops.
(** The order in which [range] visits the map. *)
Context (range : list (InvoiceID * Invoice) → list (InvoiceID * Invoice)).

Definition entries (r : InvoiceInMemoryRepository) : list (InvoiceID * Invoice) :=
  range (map_to_list (byID r)).

Definition put (id : InvoiceID) (i : Invoice) (r : InvoiceInMemoryRepository)
    : InvoiceInMemoryRepository :=
  mkInvoiceInMemoryRepository (<[id := i]> (byID r)).

Definition Add (inv : Invoice) : M InvoiceInMemoryRepository unit :=
  r ← get;
  match byID r !! i_id inv with
  | Some _ => throw ErrInvoiceAlreadyIssued
  | None =>
      throw_if (existsb (fun e => bool_decide (i_auctionID e.2 = i_auctionID inv)
                                  && bool_decide (i_attempt e.2 = i_attempt inv)) (entries r))
        ErrInvoiceAlreadyIssued;;
      modify (put (i_id inv) (PullDomainEvents inv).2)
  end.

Definition Get (id : InvoiceID) (actor : BidderID) (r : InvoiceInMemoryRepository)
    : result Invoice :=
  match byID r !! id with
  | None => Fail (InvoiceNotFoundError (InvoiceID_UUID id))
  | Some stored =>
      match CanDebtorAccessInvoice actor stored with
      | Ok _ => Ok stored
      | Fail _ => Fail (InvoiceNotFoundError (InvoiceID_UUID id))
      | Panic p => Panic p
      end
  end.

Definition update (id : InvoiceID) (actor : option BidderID)
    (updateFn : Invoice → result Invoice) : M InvoiceInMemoryRepository unit :=
  r ← get;
  match byID r !! id with
  | None => throw (InvoiceNotFoundError (InvoiceID_UUID id))
  | Some stored =>
      throw_if (match actor with
                | Some actor => negb (is_ok (CanDebtorAccessInvoice actor stored))
                | None => false
                end) (InvoiceNotFoundError (InvoiceID_UUID id));;
      updated ← lift (updateFn stored);
      modify (put id (PullDomainEvents updated).2)
  end.

Definition Update (id : InvoiceID) (actor : BidderID) (updateFn : Invoice → result Invoice)
    : M InvoiceInMemoryRepository unit :=
  update id (Some actor) updateFn.

Definition UpdateAsSystem (id : InvoiceID) (updateFn : Invoice → result Invoice)
    : M InvoiceInMemoryRepository unit :=
  update id None updateFn.

Definition due_before (x y : InvoiceID * Invoice) : Prop := i_dueAt x.2 ≤ i_dueAt y.2.
#[global] Instance due_before_dec : RelDecision due_before.
Proof. unfold due_before. solve_decision. Defined.

(** [sort.Slice] is not stable: the order of equal deadlines is [range]'s. *)
Definition PendingDueBefore (t : Time) (limit : Z) (r : InvoiceInMemoryRepository)
    : result (list InvoiceID) :=
  let candidates :=
    merge_sort due_before
      (filter (fun e => IsPending e.2 && negb (time_After (i_dueAt e.2) t)) (entries r)) in
  Ok (fst <$> (if limit <? Z.of_nat (length candidates)
               then take (Z.to_nat limit) candidates else candidates)).
End Ops.

#[export] Instance repository range : InvoiceRepository InvoiceInMemoryRepository := {
  inv_Add := Add range;
  inv_Get := Get;
  inv_Update := Update;
  inv_UpdateAsSystem := UpdateAsSystem;
  inv_PendingDueBefore := PendingDueBefore range;
}.
End inmem.

(** ** The Postgres repository *)

(** [billing.invoices] by its primary key, the outbox, and the number of
    event identities drawn so far. *)
Record InvoiceDB := mkInvoiceDB {
  db_invoices : gmap uuid pgInvoice;
  db_outbox : list BillingEvent;
  db_drawn : nat;
}.

(** [query.InvoiceView]. *)
Record InvoiceView := mkInvoiceView {
  v_InvoiceID : string;
  v_AuctionID : string;
  v_Status : string;
  v_HammerMinor : Z;
  v_CommissionMinor : Z;
  v_TotalMinor : Z;
  v_Currency : string;
  v_DueAt : Time;
  v_Attempt : Z;
}.

Module pg.
Section Ops.
Context `{UUIDLib}.

Definition publishDomainEvents (es : list DomainEvent) : M InvoiceDB unit :=
  modify (fun db =>
    let '(evs, n) := mapEvents (db_drawn db) es in
    mkInvoiceDB (db_invoices db) (db_outbox db ++ evs) n).

Definition put_row (p : pgInvoice) (db : InvoiceDB) : InvoiceDB :=
  mkInvoiceDB (<[p_ID p := p]> (db_invoices db)) (db_outbox db) (db_drawn db).

(** [UNIQUE (auction_id, attempt)]. *)
Definition attempt_taken (p : pgInvoice) (db : InvoiceDB) : bool :=
  existsb (fun e => bool_decide (p_AuctionID e.2 = p_AuctionID p)
                    && bool_decide (p_Attempt e.2 = p_Attempt p))
    (map_to_list (db_invoices db)).

(** The [INSERT], and the test of its error for a unique violation. *)
Definition insert_invoice (p : pgInvoice) : M InvoiceDB unit :=
  db ← get;
  throw_if (match db_invoices db !! p_ID p with
            | Some _ => true
            | None => attempt_taken p db
            end) ErrInvoiceAlreadyIssued;;
  modify (put_row p).

Definition Add (f : TxFaults) (inv : Invoice) : M InvoiceDB unit :=
  RunInTx f
    (insert_invoice (toPgInvoice inv);;
     publishDomainEvents (PullDomainEvents inv).1).

(** [WHERE id = $1 AND debtor_id = $2]. *)
Definition select_own (id : InvoiceID) (actor : BidderID) (db : InvoiceDB) : option pgInvoice :=
  match db_invoices db !! InvoiceID_UUID id with
  | Some p => if bool_decide (p_DebtorID p = BidderID_UUID actor) then Some p else None
  | None => None
  end.

Definition Get (id : InvoiceID) (actor : BidderID) (db : InvoiceDB) : result Invoice :=
  match select_own id actor db with
  | None => Fail (InvoiceNotFoundError (InvoiceID_UUID id))
  | Some p => wrap_err "unable to get invoice from db" (toDomainInvoice p)
  end.

(** The columns [UPDATE billing.invoices] sets; the others keep their value. *)
Definition update_columns (up : Invoice) (row : pgInvoice) : pgInvoice :=
  mkPgInvoice (p_ID row) (p_AuctionID row) (p_DebtorID row) (p_HammerMinor row)
    (p_CommissionMinor row) (p_TotalMinor row) (p_Currency row)
    (InvoiceStatus_String (i_status up)) (p_DueAt row) (p_Attempt row)
    (nullablePSPRef (i_pspRef up)) (p_Version row + 1).

(** [UPDATE ... WHERE id = $1 AND version = $4]; the number of rows. *)
Definition update_invoice (id : InvoiceID) (up : Invoice) (expectedVersion : Z)
    : M InvoiceDB Z :=
  db ← get;
  match db_invoices db !! InvoiceID_UUID id with
  | Some row =>
      if p_Version row =? expectedVersion
      then modify (put_row (update_columns up row));; mret 1
      else mret 0
  | None => mret 0
  end.

Definition update (f : TxFaults) (id : InvoiceID) (actor : option BidderID)
    (updateFn : Invoice → result Invoice) : M InvoiceDB unit :=
  RunInTx f
    (db ← get;
     match db_invoices db !! InvoiceID_UUID id with
     | None => throw (InvoiceNotFoundError (InvoiceID_UUID id))
     | Some p =>
         inv ← lift (wrap_err "unable to get invoice from db" (toDomainInvoice p));
         throw_if (match actor with
                   | Some actor => negb (is_ok (CanDebtorAccessInvoice actor inv))
                   | None => false
                   end) (InvoiceNotFoundError (InvoiceID_UUID id));;
         updated ← lift (updateFn inv);
         affected ← update_invoice id updated (i_version inv);
         throw_if (negb (affected =? 1))
           (ErrNew "concurrent modification of invoice %s (version %d)");;
         publishDomainEvents (PullDomainEvents updated).1
     end).

Definition Update (f : TxFaults) (id : InvoiceID) (actor : BidderID)
    (updateFn : Invoice → result Invoice) : M InvoiceDB unit :=
  update f id (Some actor) updateFn.

Definition UpdateAsSystem (f : TxFaults) (id : InvoiceID)
    (updateFn : Invoice → result Invoice) : M InvoiceDB unit :=
  update f id None updateFn.

Definition due_row_before (p q : pgInvoice) : Prop := p_DueAt p ≤ p_DueAt q.
#[global] Instance due_row_before_dec : RelDecision due_row_before.
Proof. unfold due_row_before. solve_decision. Defined.

(** [WHERE status = 'pending' AND due_at <= $1 ORDER BY due_at LIMIT $2]. *)
Definition due_rows (t : Time) (limit : Z) (db : InvoiceDB) : list pgInvoice :=
  take (Z.to_nat limit)
    (merge_sort due_row_before
       (filter (fun p => p_Status p = "pending" ∧ p_DueAt p ≤ t)
          (map_to_list (db_invoices db)).*2)).

Fixpoint scan_ids (rows : list pgInvoice) : result (list InvoiceID) :=
  match rows with
  | [] => Ok []
  | p :: rows =>
      id ← wrap_err "invalid invoice id in db" (NewInvoiceID (p_ID p));
      ids ← scan_ids rows;
      Ok (id :: ids)
  end.

Definition PendingDueBefore (t : Time) (limit : Z) (db : InvoiceDB)
    : result (list InvoiceID) :=
  scan_ids (due_rows t limit db).

(** *** The read side *)

Definition toInvoiceView (t : pgInvoice) : InvoiceView :=
  mkInvoiceView (uuid_String (p_ID t)) (uuid_String (p_AuctionID t)) (p_Status t)
    (p_HammerMinor t) (p_CommissionMinor t) (p_TotalMinor t) (p_Currency t) (p_DueAt t)
    (p_Attempt t).

Definition InvoiceByID (id : InvoiceID) (actor : BidderID) (db : InvoiceDB)
    : result InvoiceView :=
  match select_own id actor db with
  | None => Fail (InvoiceNotFoundError (InvoiceID_UUID id))
  | Some p => Ok (toInvoiceView p)
  end.

Definition PendingOfBidder (b : BidderID) (db : InvoiceDB) : result (list InvoiceView) :=
  Ok (toInvoiceView <$>
        merge_sort due_row_before
          (filter (fun p => p_DebtorID p = BidderID_UUID b ∧ p_Status p = "pending")
             (map_to_list (db_invoices db)).*2)).
End Ops.

#[export] Instance repository `{UUIDLib} (f : TxFaults) : InvoiceRepository InvoiceDB := {
  inv_Add := Add f;
  inv_Get := Get;
  inv_Update := Update f;
  inv_UpdateAsSystem := UpdateAsSystem f;
  inv_PendingDueBefore := PendingDueBefore;
}.
End pg.
End invoice_repo.
