(* ===== verification/Billing.v ===== *)
(** * The billing application

    The command handlers ([app/command]), the payment gateway port with the
    fake provider and its metered wrapper ([adapters/psp_fake.go],
    [adapters/psp_instrumented.go]), the facade the settlement saga calls,
    the expiry worker, the queries, the endpoints and the configuration
    checks of [service/service.go].  Handlers are written against the
    interfaces [InvoiceRepository] and [PaymentGateway]; [now] is what the
    handler's clock answers. *)

From stdpp Require Import base numbers list strings gmap fin_maps.
From Stdlib Require Import ZArith Lia.
From S2P Require Import Prelude Errs Auth Events InvoiceDomain InvoiceRepo.

(** [paymentGateway]: [P] is the state of the provider; the charge key is the
    invoice's identity. *)
Class PaymentGateway (P : Type) := {
  gw_Charge : invoice.InvoiceID → invoice.Money → M P invoice.PaymentReference;
  gw_Refund : invoice.InvoiceID → M P unit;
}.

Module billing.
Import invoice invoice_repo.
Local Open Scope Z_scope.

(** ** The fake provider *)

Inductive PSPMode := PSPModeSuccess | PSPModeDecline | PSPModeFlaky.
#[export] Instance PSPMode_eq_dec : EqDecision PSPMode.
Proof. solve_decision. Defined.

(** [fp_drawn] counts the [uuid.NewString()] drawn so far. *)
Record FakePSP := mkFakePSP {
  fp_mode : PSPMode;
  fp_charges : gmap string PaymentReference;
  fp_failedOnce : gmap string bool;
  fp_refunded : gmap string bool;
  fp_drawn : nat;
}.

Definition NewFakePSP (mode : string) : result FakePSP :=
  mode ←
    (if bool_decide (mode = "success") then Ok PSPModeSuccess
     else if bool_decide (mode = "decline") then Ok PSPModeDecline
     else if bool_decide (mode = "flaky") then Ok PSPModeFlaky
     else Fail (ErrNew "psp: unknown PSP_MODE") : result PSPMode);
  Ok (mkFakePSP mode ∅ ∅ ∅ 0).

Module fake.
Section Ops.
Context `{UUIDLib}.

(** [ChargeKey.String]. *)
Definition ChargeKey_String (key : InvoiceID) : string := InvoiceID_String key.

(** [m[k]] on a map of booleans: false when absent. *)
Definition flag (m : gmap string bool) (k : string) : bool := default false (m !! k).

Definition set_failedOnce (k : string) (p : FakePSP) : FakePSP :=
  mkFakePSP (fp_mode p) (fp_charges p) (<[k := true]> (fp_failedOnce p)) (fp_refunded p)
    (fp_drawn p).
Definition set_refunded (k : string) (p : FakePSP) : FakePSP :=
  mkFakePSP (fp_mode p) (fp_charges p) (fp_failedOnce p) (<[k := true]> (fp_refunded p))
    (fp_drawn p).
Definition set_charge (k : string) (ref : PaymentReference) (p : FakePSP) : FakePSP :=
  mkFakePSP (fp_mode p) (<[k := ref]> (fp_charges p)) (fp_failedOnce p) (fp_refunded p)
    (fp_drawn p).
Definition draw (p : FakePSP) : FakePSP :=
  mkFakePSP (fp_mode p) (fp_charges p) (fp_failedOnce p) (fp_refunded p) (S (fp_drawn p)).

(** The amount is ignored. *)
Definition Charge (key : InvoiceID) (_ : Money) : M FakePSP PaymentReference :=
  p ← get;
  let k := ChargeKey_String key in
  match fp_charges p !! k with
  | Some ref => mret ref
  | None =>
      match fp_mode p with
      | PSPModeDecline => throw (Errorf "psp refused the charge" ErrPaymentDeclined)
      | PSPModeFlaky =>
          if flag (fp_failedOnce p) k then mret tt
          else modify (set_failedOnce k);;
               throw (Errorf "psp network error" ErrPSPUnavailable)
      | PSPModeSuccess => mret tt
      end;;
      modify draw;;
      ref ← lift (wrap_err "psp: build reference"
                    (NewPaymentReference ("psp-" +:+ uuid_NewString (fp_drawn p))));
      modify (set_charge k ref);;
      mret ref
  end.

Definition Refund (key : InvoiceID) : M FakePSP unit :=
  p ← get;
  let k := ChargeKey_String key in
  match fp_charges p !! k with
  | None => mret tt
  | Some _ => modify (set_refunded k)
  end.

Definition HasCharge (key : InvoiceID) (p : FakePSP) : bool :=
  match fp_charges p !! ChargeKey_String key with Some _ => true | None => false end.

Definition IsRefunded (key : InvoiceID) (p : FakePSP) : bool :=
  flag (fp_refunded p) (ChargeKey_String key).
End Ops.

End fake.

#[export] Instance fake_gateway `{UUIDLib} : PaymentGateway FakePSP := {
  gw_Charge := fake.Charge;
  gw_Refund := fake.Refund;
}.

(** ** The metered wrapper

    [calls] are the recordings of the call counter, by operation and result. *)
Record InstrumentedPSP (P : Type) := mkInstrumentedPSP {
  ip_next : P;
  ip_calls : list (string * string);
}.
Arguments mkInstrumentedPSP {_} _ _.
Arguments ip_next {_} _.
Arguments ip_calls {_} _.

(** [None] is a nil error. *)
Definition classifyResult (err : option error) : string :=
  match err with
  | None => "success"
  | Some err =>
      if errors_Is err ErrPaymentDeclined then "declined"
      else if errors_Is err ErrPSPUnavailable then "unavailable"
      else "error"
  end.

(** A call forwarded to [next], then recorded; a panic is not recorded. *)
Definition metered {P A} (op : string) (m : M P A) : M (InstrumentedPSP P) A :=
  fun p =>
    match m (ip_next p) with
    | (Panic q, n) => (Panic q, mkInstrumentedPSP n (ip_calls p))
    | (r, n) =>
        (r, mkInstrumentedPSP n
              (ip_calls p ++
                 [(op, classifyResult (match r with Fail e => Some e | _ => None end))]))
    end.

#[export] Instance instrumented {P} `{PaymentGateway P} : PaymentGateway (InstrumentedPSP P) := {
  gw_Charge key amount := metered "charge" (gw_Charge key amount);
  gw_Refund key := metered "refund" (gw_Refund key);
}.

(** ** Commands *)

Record IssueInvoice := mkIssueInvoice {
  is_InvoiceID : InvoiceID;
  is_AuctionID : AuctionID;
  is_Debtor : BidderID;
  is_Hammer : Money;
  is_Attempt : Attempt;
}.
Record PayInvoice := mkPayInvoice { py_InvoiceID : InvoiceID; py_Payer : BidderID }.
Record ExpireInvoice := mkExpireInvoice { ex_InvoiceID : InvoiceID }.
Record VoidInvoice := mkVoidInvoice { vo_InvoiceID : InvoiceID }.

(** [var notFound NotFoundError; if errors.As(err, &notFound) {...}]. *)
Definition mapNotFound (err : error) : error :=
  if found (errors_As as_InvoiceNotFound err)
  then WithCause (NewNotFoundError "invoice-not-found") err
  else err.

Definition expire_switch (err : error) : option error :=
  if errors_Is err ErrInvoiceAlreadyPaid || errors_Is err ErrInvoiceAlreadyExpired
     || errors_Is err ErrInvoiceVoided
  then None
  else if errors_Is err ErrInvoiceNotDue
  then Some (WithCause (NewConflictError "invoice-not-due") err)
  else Some (mapNotFound err).

Definition void_switch (err : error) : option error :=
  if errors_Is err ErrInvoiceAlreadyVoided || errors_Is err ErrInvoiceAlreadyExpired
  then None
  else if errors_Is err ErrInvoiceAlreadyPaid
  then Some (WithCause (NewConflictError "invoice-already-paid") err)
  else Some (mapNotFound err).

Section Handlers.
Context {S : Type} `{InvoiceRepository S}.

Definition IssueInvoiceHandler (policy : CommissionPolicy) (term : PaymentTerm) (now : Time)
    (cmd : IssueInvoice) : M S unit :=
  inv ← lift (with_cause (NewIncorrectInputError "invalid-invoice")
                (NewInvoice (is_InvoiceID cmd) (is_AuctionID cmd) (is_Debtor cmd)
                   (is_Hammer cmd) policy term (is_Attempt cmd) now));
  on_error (inv_Add inv)
    (fun err => if errors_Is err ErrInvoiceAlreadyIssued then None else Some err).

Definition ExpireInvoiceHandler (now : Time) (cmd : ExpireInvoice) : M S unit :=
  on_error (inv_UpdateAsSystem (ex_InvoiceID cmd) (closure (Expire now))) expire_switch.

Definition VoidInvoiceHandler (now : Time) (cmd : VoidInvoice) : M S unit :=
  on_error (inv_UpdateAsSystem (vo_InvoiceID cmd) (closure (Void now))) void_switch.

(** *** The facade *)

Definition Facade_IssueInvoice (policy : CommissionPolicy) (term : PaymentTerm) (now : Time)
    (invoiceID auctionID debtor : uuid) (hammerMinor : Z) (currency : string) (attempt : Z)
    : M S unit :=
  id ← lift (with_cause (NewIncorrectInputError "invalid-invoice-id") (NewInvoiceID invoiceID));
  aucID ← lift (with_cause (NewIncorrectInputError "invalid-auction-id") (NewAuctionID auctionID));
  debtorID ← lift (with_cause (NewIncorrectInputError "invalid-debtor-id") (NewBidderID debtor));
  cur ← lift (with_cause (NewIncorrectInputError "invalid-currency") (NewCurrency currency));
  hammer ← lift (with_cause (NewIncorrectInputError "invalid-hammer-price")
                   (NewMoney hammerMinor cur));
  att ← lift (with_cause (NewIncorrectInputError "invalid-attempt") (NewAttempt attempt));
  IssueInvoiceHandler policy term now (mkIssueInvoice id aucID debtorID hammer att).

Definition Facade_VoidInvoice (now : Time) (invoiceID : uuid) : M S unit :=
  id ← lift (with_cause (NewIncorrectInputError "invalid-invoice-id") (NewInvoiceID invoiceID));
  VoidInvoiceHandler now (mkVoidInvoice id).

(** *** The expiry worker *)

Definition expiryBatchLimit : Z := 100.

(** The errors of single candidates are only logged; [clk] is what the clock
    of the handler answers for each of them. *)
Fixpoint expire_all (clk : InvoiceID → Time) (ids : list InvoiceID) : M S unit :=
  match ids with
  | [] => mret tt
  | id :: ids =>
      on_error (ExpireInvoiceHandler (clk id) (mkExpireInvoice id)) (fun _ => None);;
      expire_all clk ids
  end.

(** [now] is what the worker's own clock answers. *)
Definition ExpiryWorker_tick (now : Time) (clk : InvoiceID → Time) : M S unit :=
  s ← get;
  match inv_PendingDueBefore now expiryBatchLimit s with
  | Ok ids => expire_all clk ids
  | Fail _ => mret tt
  | Panic p => crash p
  end.
End Handlers.

(** ** Paying

    The handler talks to the repository and to the provider: its state is
    the pair. *)
Section Pay.
Context {S P : Type} `{InvoiceRepository S} `{PaymentGateway P}.

Definition on_repo {A} (m : M S A) : M (S * P) A :=
  fun w => let '(r, s) := m w.1 in (r, (s, w.2)).
Definition on_psp {A} (m : M P A) : M (S * P) A :=
  fun w => let '(r, p) := m w.2 in (r, (w.1, p)).

(** [if err := h.psp.Refund(ctx, key); err != nil {...}]. *)
Definition refund (key : InvoiceID) : M (S * P) unit :=
  on_error (on_psp (gw_Refund key))
    (fun err => Some (WithCause (NewUnavailableError "psp-unavailable") err)).

Definition charge_switch (err : error) : error :=
  if errors_Is err ErrPaymentDeclined
  then WithCause (NewConflictError "payment-declined") err
  else WithCause (NewUnavailableError "psp-unavailable") err.

(** A call whose error is handled by the code that follows. *)
Definition attempt {W A} (m : M W A) : M W (res error A) :=
  fun w =>
    match m w with
    | (Panic p, w') => (Panic p, w')
    | (r, w') => (Ok r, w')
    end.

Definition PayInvoiceHandler (now : Time) (cmd : PayInvoice) : M (S * P) unit :=
  let key := py_InvoiceID cmd in
  w ← get;
  got ← attempt (lift (inv_Get (py_InvoiceID cmd) (py_Payer cmd) w.1));
  match got with
  | Ok inv =>
      match i_status inv with
      | StatusPaid => mret tt
      | StatusExpired | StatusVoided =>
          refund key;;
          throw (NewConflictError "invoice-no-longer-payable")
      | StatusPending =>
          charged ← attempt (on_psp (gw_Charge key (i_total inv)));
          match charged with
          | Ok ref =>
              updated ← attempt (on_repo (inv_Update (py_InvoiceID cmd) (py_Payer cmd)
                                            (closure (MarkPaid ref now))));
              match updated with
              | Ok _ => mret tt
              | Fail err =>
                  if errors_Is err ErrInvoiceAlreadyPaid then mret tt
                  else if errors_Is err ErrInvoiceExpired || errors_Is err ErrInvoiceVoided
                  then
                    refund key;;
                    throw (WithCause (NewConflictError "invoice-no-longer-payable") err)
                  else throw (mapNotFound err)
              | Panic p => crash p
              end
          | Fail err => throw (charge_switch err)
          | Panic p => crash p
          end
      | StatusZero => crash "billing: unknown invoice status "
      end
  | Fail err => throw (mapNotFound err)
  | Panic p => crash p
  end.

(** *** Step by step

    The same handler as a process that stops after each call to the outside:
    other processes may run, or this one may die, between two steps. *)
Inductive pay_pc :=
| PreCheck
| Charging (total : Money)
| Marking (ref : PaymentReference)
| Refunding (answer : error)
| Finished (r : res error unit).

Definition pay_step (now : Time) (cmd : PayInvoice) (pc : pay_pc) (w : S * P)
    : pay_pc * (S * P) :=
  let key := py_InvoiceID cmd in
  match pc with
  | PreCheck =>
      (match inv_Get (py_InvoiceID cmd) (py_Payer cmd) w.1 with
       | Ok inv =>
           match i_status inv with
           | StatusPaid => Finished (Ok tt)
           | StatusExpired | StatusVoided =>
               Refunding (NewConflictError "invoice-no-longer-payable")
           | StatusPending => Charging (i_total inv)
           | StatusZero => Finished (Panic "billing: unknown invoice status ")
           end
       | Fail err => Finished (Fail (mapNotFound err))
       | Panic p => Finished (Panic p)
       end, w)
  | Charging total =>
      let '(r, w') := on_psp (gw_Charge key total) w in
      (match r with
       | Ok ref => Marking ref
       | Fail err => Finished (Fail (charge_switch err))
       | Panic p => Finished (Panic p)
       end, w')
  | Marking ref =>
      let '(r, w') := on_repo (inv_Update (py_InvoiceID cmd) (py_Payer cmd)
                                 (closure (MarkPaid ref now))) w in
      (match r with
       | Ok _ => Finished (Ok tt)
       | Fail err =>
           if errors_Is err ErrInvoiceAlreadyPaid then Finished (Ok tt)
           else if errors_Is err ErrInvoiceExpired || errors_Is err ErrInvoiceVoided
           then Refunding (WithCause (NewConflictError "invoice-no-longer-payable") err)
           else Finished (Fail (mapNotFound err))
       | Panic p => Finished (Panic p)
       end, w')
  | Refunding answer =>
      let '(r, w') := refund key w in
      (match r with
       | Ok _ => Finished (Fail answer)
       | Fail err => Finished (Fail err)
       | Panic p => Finished (Panic p)
       end, w')
  | Finished r => (Finished r, w)
  end.
End Pay.

(** ** Queries *)

(** [query.InvoiceReadModel], implemented by the Postgres repository. *)
Definition InvoiceByIDHandler `{UUIDLib} (id : InvoiceID) (actor : BidderID) (db : InvoiceDB)
    : result InvoiceView :=
  match pg.InvoiceByID id actor db with
  | Fail err => Fail (mapNotFound err)
  | r => r
  end.

Definition PendingInvoicesOfBidderHandler `{UUIDLib} (b : BidderID) (db : InvoiceDB)
    : result (list InvoiceView) :=
  pg.PendingOfBidder b db.

(** ** HTTP *)

Section Http.
Context `{UUIDLib}.

Definition actorFromCtx (ctx : option auth.User) : result BidderID :=
  user ← auth.UserFromCtx ctx;
  with_cause (NewUnknownError "invalid-user-id") (NewBidderID (auth.u_ID user)).

(** [uuid.MustParse] panics. *)
Definition toAPIInvoice (v : InvoiceView) : result InvoiceView :=
  match uuid_Parse (v_InvoiceID v), uuid_Parse (v_AuctionID v) with
  | Some _, Some _ => Ok v
  | _, _ => Panic "uuid: Parse"
  end.

Definition Http_GetInvoice (ctx : option auth.User) (invoiceID : uuid) (db : InvoiceDB)
    : result InvoiceView :=
  actor ← actorFromCtx ctx;
  id ← with_cause (NewIncorrectInputError "invalid-invoice-id") (NewInvoiceID invoiceID);
  view ← InvoiceByIDHandler id actor db;
  toAPIInvoice view.

Fixpoint toAPIInvoices (views : list InvoiceView) : result (list InvoiceView) :=
  match views with
  | [] => Ok []
  | v :: views =>
      v' ← toAPIInvoice v;
      vs ← toAPIInvoices views;
      Ok (v' :: vs)
  end.

(** [status] is the optional query parameter. *)
Definition Http_GetBidderPendingInvoices (ctx : option auth.User) (bidderID : uuid)
    (status : option string) (db : InvoiceDB) : result (list InvoiceView) :=
  user ← auth.UserFromCtx ctx;
  if bool_decide (auth.u_ID user ≠ bidderID) then Fail (NewForbiddenError "not-own-invoices")
  else if match status with Some s => bool_decide (s ≠ "pending") | None => false end
  then Fail (NewIncorrectInputError "unsupported-status-filter")
  else
    bidder ← with_cause (NewIncorrectInputError "invalid-bidder-id") (NewBidderID bidderID);
    views ← PendingInvoicesOfBidderHandler bidder db;
    toAPIInvoices views.

Definition Http_PayInvoice {S P : Type} `{InvoiceRepository S} `{PaymentGateway P}
    (now : Time) (ctx : option auth.User) (invoiceID : uuid) : M (S * P) unit :=
  actor ← lift (actorFromCtx ctx);
  id ← lift (with_cause (NewIncorrectInputError "invalid-invoice-id") (NewInvoiceID invoiceID));
  PayInvoiceHandler now (mkPayInvoice id actor).
End Http.

(** ** Assembly: the values of the configuration [NewService] accepts. *)

Record Deps := mkDeps {
  d_CommissionBasisPoints : Z;
  d_PaymentTerm : Duration;
  d_PSPMode : string;
  d_ExpiryPollInterval : Duration;
}.

(** The interval of [ports.NewExpiryWorker], which panics on one that is not
    positive. *)
Definition NewExpiryWorker (interval : Duration) : result Duration :=
  if interval <=? 0 then Panic "NewExpiryWorker: non-positive interval" else Ok interval.

Definition NewService (deps : Deps) : result (CommissionPolicy * PaymentTerm * FakePSP * Duration) :=
  policy ← wrap_err "billing: commission policy"
    (NewCommissionPolicy (d_CommissionBasisPoints deps));
  term ← wrap_err "billing: payment term" (NewPaymentTerm (d_PaymentTerm deps));
  psp ← wrap_err "billing" (NewFakePSP (d_PSPMode deps));
  if d_ExpiryPollInterval deps <=? 0
  then Fail (ErrNew "billing: expiry poll interval must be positive")
  else
    worker ← NewExpiryWorker (d_ExpiryPollInterval deps);
    Ok (policy, term, psp, worker).
End billing.
