(* ===== verification/InvoiceRepoTheory.v ===== *)
(** * Properties of the storage of invoices

    The round trip between an invoice and its row, the laws of the repository
    interface, and their proof for both repositories. *)

From stdpp Require Import base numbers list strings gmap fin_maps sorting.
From Stdlib Require Import ZArith Lia.
From S2P Require Import Prelude DemoUUID Errs Postgres Events InvoiceDomain InvoiceRepo.

Module invoice_repo_theory.
Import invoice invoice_repo.
Local Open Scope Z_scope.

(** ** What a row can hold *)

Record storable (i : Invoice) : Prop := {
  so_id : i_id i ≠ zero_value;
  so_auction : i_auctionID i ≠ zero_value;
  so_debtor : i_debtor i ≠ zero_value;
  so_currency : NewCurrency (c_code (m_currency (i_total i))) = Ok (m_currency (i_total i));
  so_hammer : 0 ≤ m_amount (i_hammer i) ∧ m_currency (i_hammer i) = m_currency (i_total i);
  so_commission : 0 ≤ m_amount (i_commission i)
    ∧ m_currency (i_commission i) = m_currency (i_total i);
  so_total : 0 ≤ m_amount (i_total i);
  so_status : i_status i ≠ StatusZero;
  so_dueAt : i_dueAt i ≠ 0;
  so_attempt : i_attempt i = AttemptFirst ∨ i_attempt i = AttemptSecondChance;
  so_version : 1 ≤ i_version i;
}.

Lemma inv_NewCurrency_nonzero s c : NewCurrency s = Ok c → c ≠ zero_value.
Proof.
  unfold NewCurrency. intros H. repeat (case_match; [done|]). injection H as <-.
  intros E. injection E as ->. done.
Qed.

Lemma inv_NewMoney_Ok n c : c ≠ zero_value → 0 ≤ n → NewMoney n c = Ok (mkMoney n c).
Proof.
  intros Hc Hn. unfold NewMoney. by rewrite (proj2 (IsZero_false _) Hc), (proj2 (Z.ltb_ge _ 0) Hn).
Qed.

Lemma NewInvoiceID_Ok i : i ≠ zero_value → NewInvoiceID (InvoiceID_UUID i) = Ok i.
Proof.
  destruct i as [u]. intros Hz. unfold NewInvoiceID. case_bool_decide as E; [|done].
  simpl in E. by subst.
Qed.
Lemma inv_NewAuctionID_Ok i : i ≠ zero_value → NewAuctionID (AuctionID_UUID i) = Ok i.
Proof.
  destruct i as [u]. intros Hz. unfold NewAuctionID. case_bool_decide as E; [|done].
  simpl in E. by subst.
Qed.
Lemma inv_NewBidderID_Ok i : i ≠ zero_value → NewBidderID (BidderID_UUID i) = Ok i.
Proof.
  destruct i as [u]. intros Hz. unfold NewBidderID. case_bool_decide as E; [|done].
  simpl in E. by subst.
Qed.
Lemma NewStatus_Ok s : s ≠ StatusZero →
  NewInvoiceStatusFromString (InvoiceStatus_String s) = Ok s.
Proof. by destruct s. Qed.
Lemma NewAttempt_Ok a : a = AttemptFirst ∨ a = AttemptSecondChance →
  NewAttempt (Attempt_Int a) = Ok a.
Proof. by intros [->| ->]. Qed.

Lemma pspRef_roundtrip r :
  match nullablePSPRef r with
  | None => Ok (zero_value : PaymentReference)
  | Some ref => wrap_err "invalid psp reference in db" (NewPaymentReference ref)
  end = (Ok r : result PaymentReference).
Proof.
  unfold nullablePSPRef. destruct (IsZero r) eqn:Hz; breflect; [by rewrite Hz|].
  unfold NewPaymentReference. destruct r as [s]; simpl.
  rewrite bool_decide_eq_false_2; [done|]. intros ->. done.
Qed.

Lemma inv_money_eta m c : m_currency m = c → mkMoney (m_amount m) c = m.
Proof. destruct m; simpl. by intros ->. Qed.

Lemma inv_toDomain_toPg i : storable i → toDomainInvoice (toPgInvoice i) = Ok (set_events [] i).
Proof.
  intros [Hid Hau Hde Hcur [Hh Hhc] [Hc Hcc] Ht Hst Hdue Hat Hv].
  pose proof (inv_NewCurrency_nonzero _ _ Hcur) as Hnz.
  unfold toDomainInvoice, toPgInvoice; cbn.
  rewrite NewInvoiceID_Ok, inv_NewAuctionID_Ok, inv_NewBidderID_Ok by done; cbn.
  rewrite Hcur; cbn. rewrite !inv_NewMoney_Ok by done; cbn.
  rewrite NewStatus_Ok by done; cbn. rewrite NewAttempt_Ok by done; cbn.
  rewrite pspRef_roundtrip; cbn.
  rewrite (inv_money_eta _ _ Hhc), (inv_money_eta _ _ Hcc), (inv_money_eta _ _ eq_refl).
  unfold UnmarshalFromDatabase.
  rewrite (proj2 (IsZero_false _) Hid), (proj2 (IsZero_false _) Hau),
    (proj2 (IsZero_false _) Hde).
  rewrite (proj2 (IsZero_false (i_hammer i))) by (intros E; rewrite E in Hhc; by rewrite <-Hhc in Hnz).
  rewrite (proj2 (IsZero_false (i_total i))) by (intros E; by rewrite E in Hnz).
  rewrite (proj2 (IsZero_false _) Hst). unfold time_IsZero. rewrite (proj2 (Z.eqb_neq _ 0) Hdue).
  rewrite (proj2 (IsZero_false (i_attempt i))) by (destruct Hat as [->| ->]; done).
  rewrite (proj2 (Z.ltb_ge _ 1) Hv). by destruct i.
Qed.

(** ** The laws of the interface *)

(** What a domain event says of the invoice it came from. *)
Definition event_says (i : Invoice) (e : DomainEvent) : Prop :=
  match e with
  | InvoiceIssued id auction debtor hammer commission total dueAt attempt _ =>
      id = i_id i ∧ auction = i_auctionID i ∧ debtor = i_debtor i ∧ hammer = i_hammer i
      ∧ commission = i_commission i ∧ total = i_total i ∧ dueAt = i_dueAt i
      ∧ attempt = i_attempt i
  | InvoicePaid id auction debtor total ref _ =>
      id = i_id i ∧ auction = i_auctionID i ∧ debtor = i_debtor i ∧ total = i_total i
      ∧ ref = i_pspRef i ∧ i_status i = StatusPaid
  | InvoiceExpired id auction debtor attempt _ =>
      id = i_id i ∧ auction = i_auctionID i ∧ debtor = i_debtor i ∧ attempt = i_attempt i
      ∧ i_status i = StatusExpired
  | InvoiceVoided id _ => id = i_id i ∧ i_status i = StatusVoided
  end.

(** What an update closure may return for the invoice [i]: the methods only
    change a pending invoice, write its status and its payment reference, and
    record an event that says so. *)
Definition admissible (i i' : Invoice) : Prop :=
  i_status i = StatusPending
  ∧ ∃ st ref e, st ≠ StatusZero
      ∧ i' = set_events (i_events i ++ [e]) (set_pspRef ref (set_status st i)) ∧ event_says i' e.

Definition is_due (t : Time) (i : Invoice) : Prop :=
  i_status i = StatusPending ∧ i_dueAt i ≤ t.

(** The invoice a successful update leaves in the store: the version is the
    store's business. *)
Definition stored (v : Z) (i : Invoice) : Invoice := set_version v (set_events [] i).

Definition taken (view : gmap InvoiceID Invoice) (i : Invoice) : Prop :=
  is_Some (view !! i_id i)
  ∨ ∃ id' i', view !! id' = Some i' ∧ i_auctionID i' = i_auctionID i ∧ i_attempt i' = i_attempt i.

Class InvoiceRepositoryLaws (S : Type) `{InvoiceRepository S} := {
  inv_ok : S → Prop;
  inv_view : S → gmap InvoiceID Invoice;
  inv_view_ok : ∀ s id i, inv_ok s → inv_view s !! id = Some i →
    storable i ∧ i_id i = id ∧ i_events i = [];
  inv_Get_own : ∀ s id i, inv_ok s → inv_view s !! id = Some i →
    inv_Get id (i_debtor i) s = Ok i;
  inv_Get_foreign : ∀ s id actor, inv_ok s →
    (∀ i, inv_view s !! id = Some i → i_debtor i ≠ actor) →
    inv_Get id actor s = Fail (InvoiceNotFoundError (InvoiceID_UUID id));
  inv_Update_own : ∀ s id i fn, inv_ok s → inv_view s !! id = Some i →
    inv_Update id (i_debtor i) fn s = inv_UpdateAsSystem id fn s;
  inv_Update_foreign : ∀ s id actor fn, inv_ok s →
    (∀ i, inv_view s !! id = Some i → i_debtor i ≠ actor) →
    inv_Update id actor fn s = (Fail (InvoiceNotFoundError (InvoiceID_UUID id)), s);
  inv_System_missing : ∀ s id fn, inv_ok s → inv_view s !! id = None →
    inv_UpdateAsSystem id fn s = (Fail (InvoiceNotFoundError (InvoiceID_UUID id)), s);
  inv_System_fail : ∀ s id i fn e, inv_ok s → inv_view s !! id = Some i → fn i = Fail e →
    inv_UpdateAsSystem id fn s = (Fail e, s);
  inv_System_ok : ∀ s id i i' fn, inv_ok s → inv_view s !! id = Some i → fn i = Ok i' →
    admissible i i' →
    ∃ s' v, inv_UpdateAsSystem id fn s = (Ok tt, s') ∧ inv_ok s'
            ∧ inv_view s' = <[id := stored v i']> (inv_view s);
  inv_Add_taken : ∀ s i, inv_ok s → taken (inv_view s) i →
    inv_Add i s = (Fail ErrInvoiceAlreadyIssued, s);
  inv_Add_ok : ∀ s i, inv_ok s → storable i → Forall (event_says i) (i_events i) →
    ¬ taken (inv_view s) i →
    ∃ s', inv_Add i s = (Ok tt, s') ∧ inv_ok s'
          ∧ inv_view s' = <[i_id i := set_events [] i]> (inv_view s);
  inv_Due_spec : ∀ s t limit, inv_ok s → 0 ≤ limit →
    ∃ ids, inv_PendingDueBefore t limit s = Ok ids
      ∧ (∀ id, id ∈ ids → ∃ i, inv_view s !! id = Some i ∧ is_due t i)
      ∧ (Z.of_nat (length ids) < limit →
         ∀ id i, inv_view s !! id = Some i → is_due t i → id ∈ ids)
      ∧ Z.of_nat (length ids) ≤ limit;
}.

Lemma storable_admissible i i' v :
  storable i → admissible i i' → 1 ≤ v → storable (stored v i').
Proof. intros [] (_ & st & ref & e & Hst & -> & _) Hv. by constructor. Qed.

Lemma inv_storable_drained i : storable i → storable (set_events [] i).
Proof. intros []. by constructor. Qed.

Lemma inv_drained_same i : i_events i = [] → set_events [] i = i.
Proof. destruct i; simpl. by intros ->. Qed.

Lemma InvoiceID_eta i : mkInvoiceID (InvoiceID_UUID i) = i.
Proof. by destruct i. Qed.

Lemma CanDebtorAccess_own i : CanDebtorAccessInvoice (i_debtor i) i = Ok tt.
Proof. unfold CanDebtorAccessInvoice. rewrite bool_decide_eq_false_2; [done|]. by intros ?. Qed.

Lemma CanDebtorAccess_foreign actor i : i_debtor i ≠ actor →
  ∃ e, CanDebtorAccessInvoice actor i = Fail e.
Proof. intros Hne. unfold CanDebtorAccessInvoice. rewrite bool_decide_eq_true_2 by done. eauto. Qed.

(** ** The in-memory repository satisfies them *)

Section InMem.
Context (range : list (InvoiceID * Invoice) → list (InvoiceID * Invoice)).
Hypothesis range_perm : ∀ l, range l ≡ₚ l.

Definition inmem_ok (r : InvoiceInMemoryRepository) : Prop :=
  ∀ id i, byID r !! id = Some i → storable i ∧ i_id i = id ∧ i_events i = [].

Lemma inv_inmem_ok_put r i : inmem_ok r → storable i → i_events i = [] →
  inmem_ok (inmem.put (i_id i) i r).
Proof.
  intros Hr Hi He id j. simpl. rewrite lookup_insert_Some. intros [[<- <-]|[_ Hj]]; auto.
Qed.

Lemma inmem_entry r id i : (id, i) ∈ inmem.entries range r ↔ byID r !! id = Some i.
Proof. unfold inmem.entries. rewrite range_perm. apply elem_of_map_to_list. Qed.

Lemma inmem_attempt_taken r i :
  existsb (fun e => bool_decide (i_auctionID e.2 = i_auctionID i)
                    && bool_decide (i_attempt e.2 = i_attempt i)) (inmem.entries range r) = true
  ↔ ∃ id' i', byID r !! id' = Some i' ∧ i_auctionID i' = i_auctionID i
              ∧ i_attempt i' = i_attempt i.
Proof.
  rewrite existsb_exists. split.
  - intros ([id' i'] & Hin & Hb). breflect. simpl in *. exists id', i'.
    split; [|done]. by apply inmem_entry, list_elem_of_In.
  - intros (id' & i' & Hl & Ha & Ht). exists (id', i'). split.
    + by apply list_elem_of_In, inmem_entry.
    + simpl. by rewrite !bool_decide_eq_true_2.
Qed.

Lemma inmem_due_elem r t e :
  e ∈ filter (fun e => IsPending e.2 && negb (time_After (i_dueAt e.2) t)) (inmem.entries range r)
  ↔ byID r !! e.1 = Some e.2 ∧ is_due t e.2.
Proof.
  destruct e as [id i]. rewrite list_elem_of_filter, inmem_entry. simpl.
  rewrite Is_true_true, andb_true_iff, negb_true_iff. unfold IsPending, time_After, is_due.
  rewrite bool_decide_eq_true, Z.ltb_ge. tauto.
Qed.

Lemma inmem_due_spec s t limit : 0 ≤ limit →
  ∃ ids, inmem.PendingDueBefore range t limit s = Ok ids
    ∧ (∀ id, id ∈ ids → ∃ i, byID s !! id = Some i ∧ is_due t i)
    ∧ (Z.of_nat (length ids) < limit →
       ∀ id i, byID s !! id = Some i → is_due t i → id ∈ ids)
    ∧ Z.of_nat (length ids) ≤ limit.
Proof.
  intros Hlim. unfold inmem.PendingDueBefore. eexists. split; [done|].
  set (l := filter _ _). assert (∀ e, e ∈ merge_sort inmem.due_before l ↔
    byID s !! e.1 = Some e.2 ∧ is_due t e.2) as Hl.
  { intros e. rewrite merge_sort_Permutation. apply inmem_due_elem. }
  set (c := merge_sort _ _) in *.
  destruct (limit <? Z.of_nat (length c)) eqn:El; breflect; rewrite length_fmap.
  - split_and!; [|rewrite length_take; lia..].
    intros id ([id' i] & -> & (k & Hk & _)%elem_of_take)%list_elem_of_fmap.
    apply list_elem_of_lookup_2, Hl in Hk. eauto.
  - split_and!; [| |lia].
    + intros id ([id' i] & -> & Hk%Hl)%list_elem_of_fmap. eauto.
    + intros _ id i Hv Hd. apply list_elem_of_fmap. exists (id, i). by rewrite Hl.
Qed.

#[export] Instance inmem_laws :
  @InvoiceRepositoryLaws InvoiceInMemoryRepository (inmem.repository range).
Proof.
  refine {| inv_ok := inmem_ok; inv_view := byID |}; simpl.
  - intros s id i Hs Hl. by apply Hs.
  - intros s id i _ Hl. unfold inmem.Get. by rewrite Hl, CanDebtorAccess_own.
  - intros s id actor _ Hf. unfold inmem.Get. destruct (byID s !! id) as [i|] eqn:Hl; [|done].
    by destruct (CanDebtorAccess_foreign actor i (Hf i eq_refl)) as [e ->].
  - intros s id i fn _ Hl. unfold inmem.Update, inmem.UpdateAsSystem, inmem.update. run_go.
    rewrite Hl. run_go. by rewrite CanDebtorAccess_own.
  - intros s id actor fn _ Hf. unfold inmem.Update, inmem.update. run_go.
    destruct (byID s !! id) as [i|] eqn:Hl; [|done]. run_go.
    by destruct (CanDebtorAccess_foreign actor i (Hf i eq_refl)) as [e ->].
  - intros s id fn _ Hl. unfold inmem.UpdateAsSystem, inmem.update. run_go. by rewrite Hl.
  - intros s id i fn e _ Hl Hfn. unfold inmem.UpdateAsSystem, inmem.update. run_go.
    rewrite Hl. run_go. by rewrite Hfn.
  - intros s id i i' fn Hs Hl Hfn Had. destruct (Hs _ _ Hl) as (Hi & Hid & He).
    exists (inmem.put id (set_events [] i') s), (i_version i').
    assert (stored (i_version i') i' = set_events [] i') as Hst by done.
    unfold inmem.UpdateAsSystem, inmem.update. run_go. rewrite Hl. run_go. rewrite Hfn.
    split; [done|]. split; [|by rewrite Hst].
    assert (i_id i' = id) as <- by (destruct Had as (_ & ? & ? & ? & _ & -> & _); done).
    apply (inv_inmem_ok_put s (set_events [] i')); [done| |done]. rewrite <-Hst.
    apply (storable_admissible i); [done..|].
    destruct Had as (_ & ? & ? & ? & _ & -> & _). apply Hi.
  - intros s i _ Ht. unfold inmem.Add. run_go. destruct (byID s !! i_id i) eqn:Hl; [done|].
    destruct Ht as [[? Ht]|Ht]; [congruence|]. run_go.
    by rewrite (proj2 (inmem_attempt_taken s i) Ht).
  - intros s i Hs Hi _ Ht. unfold inmem.Add. run_go.
    destruct (byID s !! i_id i) eqn:Hl; [destruct Ht; left; by eexists|]. run_go.
    rewrite (not_true_is_false (existsb _ _)).
    2:{ rewrite inmem_attempt_taken. intros Hx. apply Ht. by right. }
    eexists. split; [done|]. split; [|done].
    apply (inv_inmem_ok_put s (set_events [] i)); [done|by apply inv_storable_drained|done].
  - intros s t limit _. apply inmem_due_spec.
Defined.
End InMem.

(** ** The Postgres repository satisfies them *)

Section Pg.
Context `{UUIDLib}.

Definition pg_ok (db : InvoiceDB) : Prop :=
  ∀ u p, db_invoices db !! u = Some p →
    ∃ i, storable i ∧ i_events i = [] ∧ InvoiceID_UUID (i_id i) = u ∧ p = toPgInvoice i.

Definition ok_option {A} (r : result A) : option A :=
  match r with Ok a => Some a | _ => None end.

Definition pg_view (db : InvoiceDB) : gmap InvoiceID Invoice :=
  kmap mkInvoiceID (omap (fun p => ok_option (toDomainInvoice p)) (db_invoices db)).

#[local] Instance mkInvoiceID_inj : Inj eq eq mkInvoiceID.
Proof. by intros ? ? [=]. Qed.

Lemma inv_pg_view_lookup db id i :
  pg_ok db →
  pg_view db !! id = Some i ↔
  db_invoices db !! InvoiceID_UUID id = Some (toPgInvoice i)
  ∧ storable i ∧ i_events i = [] ∧ i_id i = id.
Proof.
  intros Hok. unfold pg_view. rewrite <-(InvoiceID_eta id), lookup_kmap, lookup_omap by apply _.
  simpl. split.
  - destruct (db_invoices db !! _) as [p|] eqn:E; [simpl|done].
    destruct (Hok _ _ E) as (j & Hj & He & Hid & ->).
    rewrite inv_toDomain_toPg by done. rewrite (inv_drained_same j He). intros [= ->].
    by rewrite <-Hid, InvoiceID_eta.
  - intros (-> & Hs & He & Hid). simpl. rewrite inv_toDomain_toPg by done.
    by rewrite (inv_drained_same i He).
Qed.

Lemma inv_pg_view_None db id :
  pg_ok db → pg_view db !! id = None ↔ db_invoices db !! InvoiceID_UUID id = None.
Proof.
  intros Hok. unfold pg_view. rewrite <-(InvoiceID_eta id), lookup_kmap, lookup_omap by apply _.
  simpl. destruct (db_invoices db !! _) as [p|] eqn:E; [simpl|done].
  destruct (Hok _ _ E) as (j & Hj & He & Hid & ->). by rewrite inv_toDomain_toPg.
Qed.

Lemma inv_pg_ok_put i db out n :
  pg_ok db → storable i → i_events i = [] →
  pg_ok (mkInvoiceDB (<[InvoiceID_UUID (i_id i) := toPgInvoice i]> (db_invoices db)) out n).
Proof.
  intros Hok Hi He u p. simpl. rewrite lookup_insert_Some. intros [[<- <-]|[_ Hl]]; eauto.
Qed.

Lemma inv_pg_view_put i db out n :
  storable i → i_events i = [] →
  pg_view (mkInvoiceDB (<[InvoiceID_UUID (i_id i) := toPgInvoice i]> (db_invoices db)) out n)
    = <[i_id i := i]> (pg_view db).
Proof.
  intros Hi He. unfold pg_view; simpl.
  rewrite (omap_insert_Some _ _ _ _ i) by (rewrite inv_toDomain_toPg, (inv_drained_same i He); done).
  by rewrite kmap_insert, InvoiceID_eta by apply _.
Qed.

(** The load of [update]: the row, then the aggregate. *)
Lemma pg_load db id i :
  pg_ok db → pg_view db !! id = Some i →
  db_invoices db !! InvoiceID_UUID id = Some (toPgInvoice i)
  ∧ wrap_err "unable to get invoice from db" (toDomainInvoice (toPgInvoice i)) = Ok i.
Proof.
  intros Hok Hl. apply inv_pg_view_lookup in Hl as (Hl & Hs & He & _); [|done].
  split; [done|]. by rewrite inv_toDomain_toPg, (inv_drained_same i He).
Qed.

(** The row of a debtor's own invoice, and of nobody else's. *)
Lemma select_own_spec db id actor :
  pg_ok db →
  pg.select_own id actor db =
    match pg_view db !! id with
    | Some i => if bool_decide (i_debtor i = actor) then Some (toPgInvoice i) else None
    | None => None
    end.
Proof.
  intros Hok. unfold pg.select_own. destruct (pg_view db !! id) as [i|] eqn:Hl.
  - apply pg_load in Hl as [-> _]; [|done]. simpl.
    destruct (i_debtor i) as [u], actor as [u']; simpl.
    destruct (decide (u = u')) as [->|Hne]; [by rewrite !bool_decide_eq_true_2|].
    rewrite !bool_decide_eq_false_2 by congruence. done.
  - apply inv_pg_view_None in Hl as ->; done.
Qed.

(** The database after a committed update to [i'] of an invoice of version
    [v]. *)
Definition pg_updated (id : InvoiceID) (v : Z) (i' : Invoice) (db : InvoiceDB) : InvoiceDB :=
  let '(evs, n) := mapEvents (db_drawn db) (i_events i') in
  mkInvoiceDB (<[InvoiceID_UUID id := toPgInvoice (stored (v + 1) i')]> (db_invoices db))
    (db_outbox db ++ evs) n.

Lemma inv_pg_update_run f id actor fn db i i' :
  pg_ok db → pg_view db !! id = Some i → fn i = Ok i' → admissible i i' →
  match actor with Some a => i_debtor i = a | None => True end →
  pg.update f id actor fn db = RunInTx f (fun db => (Ok tt, pg_updated id (i_version i) i' db)) db.
Proof.
  intros Hok Hl Hfn Had Hact. pose proof (pg_load _ _ _ Hok Hl) as [Hrow Hld].
  apply inv_pg_view_lookup in Hl as (_ & Hs & He & Hid); [|done].
  unfold pg.update. apply RunInTx_ext. run_go. rewrite Hrow. run_go. rewrite Hld.
  assert (match actor with
          | Some a => negb (is_ok (CanDebtorAccessInvoice a i)) | None => false end = false) as ->.
  { destruct actor as [a|]; [|done]. subst a. by rewrite CanDebtorAccess_own. }
  run_go. rewrite Hfn. unfold pg.update_invoice. run_go. rewrite Hrow. simpl.
  rewrite Z.eqb_refl. run_go. unfold pg.publishDomainEvents, modify, pg_updated, pg.put_row. simpl.
  destruct (mapEvents _ _). destruct Had as (_ & st & ref & e & _ & -> & _). by rewrite Hid.
Qed.

Lemma inv_pg_ok_updated id i i' v db :
  pg_ok db → storable i → i_id i = id → admissible i i' → 0 ≤ v → pg_ok (pg_updated id v i' db).
Proof.
  intros Hok Hi Hid Had Hv. unfold pg_updated. destruct (mapEvents _ _).
  assert (i_id (stored (v + 1) i') = id) as <-
    by (destruct Had as (_ & ? & ? & ? & _ & -> & _); done).
  apply inv_pg_ok_put; [done| |done]. apply (storable_admissible i); [done..|lia].
Qed.

Lemma inv_pg_view_updated id i i' v db :
  storable i → i_id i = id → admissible i i' → 0 ≤ v →
  pg_view (pg_updated id v i' db) = <[id := stored (v + 1) i']> (pg_view db).
Proof.
  intros Hi Hid Had Hv. unfold pg_updated. destruct (mapEvents _ _).
  assert (i_id (stored (v + 1) i') = id) as <-
    by (destruct Had as (_ & ? & ? & ? & _ & -> & _); done).
  apply inv_pg_view_put; [|done]. apply (storable_admissible i); [done..|lia].
Qed.

Lemma pg_attempt_taken db i :
  pg_ok db →
  pg.attempt_taken (toPgInvoice i) db = true
  ↔ ∃ id' i', pg_view db !! id' = Some i' ∧ i_auctionID i' = i_auctionID i
              ∧ i_attempt i' = i_attempt i.
Proof.
  intros Hok. unfold pg.attempt_taken. rewrite existsb_exists. split.
  - intros ([u p] & Hin & Hb). breflect. apply list_elem_of_In, elem_of_map_to_list in Hin.
    destruct (Hok _ _ Hin) as (j & Hj & He & Hu & ->). simpl in *.
    exists (i_id j), j. split; [apply inv_pg_view_lookup; [done|]; by rewrite Hu|].
    destruct (i_auctionID j), (i_auctionID i), (i_attempt j), (i_attempt i); naive_solver.
  - intros (id' & i' & Hl & Ha & Ht). apply inv_pg_view_lookup in Hl as (Hl & _); [|done].
    eexists (_, _). split; [by apply list_elem_of_In, elem_of_map_to_list|].
    simpl. by rewrite Ha, Ht, !bool_decide_eq_true_2.
Qed.

(** The database after a committed [Add]. *)
Definition pg_added (i : Invoice) (db : InvoiceDB) : InvoiceDB :=
  let '(evs, n) := mapEvents (db_drawn db) (i_events i) in
  mkInvoiceDB (<[InvoiceID_UUID (i_id i) := toPgInvoice i]> (db_invoices db))
    (db_outbox db ++ evs) n.

Lemma inv_pg_add_run f i db :
  pg_ok db → ¬ taken (pg_view db) i →
  pg.Add f i db = RunInTx f (fun db => (Ok tt, pg_added i db)) db.
Proof.
  intros Hok Ht. unfold pg.Add. apply RunInTx_ext. unfold pg.insert_invoice. run_go.
  change (p_ID (toPgInvoice i)) with (InvoiceID_UUID (i_id i)).
  destruct (pg_view db !! i_id i) eqn:Hl; [destruct Ht; left; by eexists|].
  apply inv_pg_view_None in Hl as ->; [|done].
  rewrite (not_true_is_false (pg.attempt_taken _ _)).
  2:{ rewrite pg_attempt_taken by done. intros Hx. apply Ht. by right. }
  unfold pg.publishDomainEvents, pg.put_row, modify, pg_added. simpl.
  by destruct (mapEvents _ _).
Qed.

Lemma inv_scan_ids_ok rows :
  Forall (fun p => ∃ i, storable i ∧ p = toPgInvoice i) rows →
  pg.scan_ids rows = Ok (mkInvoiceID ∘ p_ID <$> rows).
Proof.
  induction 1 as [|p rows (i & Hi & ->) _ IH]; [done|]. simpl.
  rewrite NewInvoiceID_Ok by apply Hi. simpl. rewrite IH. simpl. by rewrite InvoiceID_eta.
Qed.

Definition due_all (t : Time) (db : InvoiceDB) : list pgInvoice :=
  merge_sort pg.due_row_before
    (filter (fun p => p_Status p = "pending" ∧ p_DueAt p ≤ t)
       (map_to_list (db_invoices db)).*2).

Lemma inv_due_all_elem db t p :
  p ∈ due_all t db ↔
  ∃ u, db_invoices db !! u = Some p ∧ p_Status p = "pending" ∧ p_DueAt p ≤ t.
Proof.
  unfold due_all. rewrite merge_sort_Permutation, list_elem_of_filter, list_elem_of_fmap. split.
  - intros [[Hs He] ([u q] & -> & Hq)]. exists u. by rewrite elem_of_map_to_list in Hq.
  - intros (u & Hl & Hs & He). split; [done|]. exists (u, p). by rewrite elem_of_map_to_list.
Qed.

Lemma Status_pending s : InvoiceStatus_String s = "pending" ↔ s = StatusPending.
Proof. by destruct s. Qed.

Lemma inv_pg_due_spec db t limit :
  pg_ok db → 0 ≤ limit →
  ∃ ids, pg.PendingDueBefore t limit db = Ok ids
    ∧ (∀ id, id ∈ ids → ∃ i, pg_view db !! id = Some i ∧ is_due t i)
    ∧ (Z.of_nat (length ids) < limit →
       ∀ id i, pg_view db !! id = Some i → is_due t i → id ∈ ids)
    ∧ Z.of_nat (length ids) ≤ limit.
Proof.
  intros Hok Hlim. unfold pg.PendingDueBefore. change (pg.due_rows t limit db)
    with (take (Z.to_nat limit) (due_all t db)).
  assert (∀ p, p ∈ due_all t db → ∃ i, pg_view db !! i_id i = Some i ∧ is_due t i
            ∧ storable i ∧ p = toPgInvoice i) as Hall.
  { intros p (u & Hl & Hs & He)%inv_due_all_elem. destruct (Hok _ _ Hl) as (i & Hi & Hev & Hu & ->).
    apply Status_pending in Hs. exists i. split_and!; [|done..].
    apply inv_pg_view_lookup; [done|]. by rewrite Hu. }
  exists (mkInvoiceID ∘ p_ID <$> take (Z.to_nat limit) (due_all t db)).
  split_and!; [| | |rewrite length_fmap, length_take; lia].
  - apply inv_scan_ids_ok, Forall_forall. intros p (k & Hp & _)%elem_of_take.
    apply list_elem_of_lookup_2, Hall in Hp as (i & _ & _ & ? & ?). eauto.
  - intros id (p & -> & (k & Hp & _)%elem_of_take)%list_elem_of_fmap.
    apply list_elem_of_lookup_2, Hall in Hp as (i & Hv & Hd & _ & ->).
    exists i. simpl. by rewrite InvoiceID_eta.
  - rewrite length_fmap, length_take. intros Hlen id i Hv [Hs He].
    rewrite take_ge by lia. apply inv_pg_view_lookup in Hv as (Hl & Hi & _ & <-); [|done].
    apply list_elem_of_fmap. exists (toPgInvoice i). split; [simpl; by rewrite InvoiceID_eta|].
    apply inv_due_all_elem. exists (InvoiceID_UUID (i_id i)). split_and!; [done| |done].
    simpl. by rewrite Hs.
Qed.

#[export] Instance pg_laws : @InvoiceRepositoryLaws InvoiceDB (pg.repository no_faults).
Proof.
  refine {| inv_ok := pg_ok; inv_view := pg_view |}; simpl.
  - intros s id i Hs Hl. by apply inv_pg_view_lookup in Hl as (_ & ? & ? & ?).
  - intros s id i Hs Hl. unfold pg.Get. rewrite select_own_spec, Hl by done.
    rewrite bool_decide_eq_true_2 by done. by apply (pg_load s id).
  - intros s id actor Hs Hf. unfold pg.Get. rewrite select_own_spec by done.
    destruct (pg_view s !! id) as [i|]; [|done]. by rewrite bool_decide_eq_false_2 by auto.
  - intros s id i fn Hs Hl. unfold pg.Update, pg.UpdateAsSystem, pg.update.
    apply RunInTx_ext. run_go. destruct (pg_load _ _ _ Hs Hl) as [-> Hld]. run_go. rewrite Hld.
    by rewrite CanDebtorAccess_own.
  - intros s id actor fn Hs Hf. unfold pg.Update, pg.update. rewrite RunInTx_no_faults. run_go.
    destruct (pg_view s !! id) as [i|] eqn:Hl.
    + destruct (pg_load _ _ _ Hs Hl) as [-> Hld]. run_go. rewrite Hld.
      by destruct (CanDebtorAccess_foreign actor i (Hf i eq_refl)) as [e ->].
    + by rewrite (proj1 (inv_pg_view_None s id Hs) Hl).
  - intros s id fn Hs Hl. unfold pg.UpdateAsSystem, pg.update. rewrite RunInTx_no_faults. run_go.
    by rewrite (proj1 (inv_pg_view_None s id Hs) Hl).
  - intros s id i fn e Hs Hl Hfn. unfold pg.UpdateAsSystem, pg.update.
    rewrite RunInTx_no_faults. run_go. destruct (pg_load _ _ _ Hs Hl) as [-> Hld]. run_go.
    by rewrite Hld, Hfn.
  - intros s id i i' fn Hs Hl Hfn Had.
    exists (pg_updated id (i_version i) i' s), (i_version i + 1). unfold pg.UpdateAsSystem.
    rewrite (inv_pg_update_run _ _ _ _ _ i i') by done. split; [done|].
    apply inv_pg_view_lookup in Hl as (_ & Hi & _ & Hid); [|done].
    assert (0 ≤ i_version i) by (pose proof (so_version i Hi); lia).
    split; [by eapply inv_pg_ok_updated|by eapply inv_pg_view_updated].
  - intros s i Hs Ht. unfold pg.Add, pg.insert_invoice. rewrite RunInTx_no_faults. run_go.
    change (p_ID (toPgInvoice i)) with (InvoiceID_UUID (i_id i)).
    destruct (db_invoices s !! InvoiceID_UUID (i_id i)) eqn:Hl; [done|].
    destruct Ht as [[j Hj]|Ht].
    + apply pg_load in Hj as [Hj _]; [|done]. congruence.
    + by rewrite (proj2 (pg_attempt_taken s i Hs) Ht).
  - intros s i Hs Hi _ Ht. exists (pg_added i s).
    split; [exact (inv_pg_add_run no_faults i s Hs Ht)|]. unfold pg_added. destruct (mapEvents _ _).
    split; [by apply (inv_pg_ok_put (set_events [] i)); [|apply inv_storable_drained|]|].
    by apply (inv_pg_view_put (set_events [] i)); [apply inv_storable_drained|].
  - intros s t limit. apply inv_pg_due_spec.
Defined.
End Pg.
End invoice_repo_theory.
