(* ===== verification/InvoiceTheory.v ===== *)
(** * Properties of the invoice aggregate

    What each method does, the life of an invoice under any sequence of
    calls, and the amounts of a new invoice. *)

From stdpp Require Import base numbers list strings gmap.
From Stdlib Require Import ZArith Lia.
From S2P Require Import Prelude DemoUUID Errs InvoiceDomain InvoiceRepo InvoiceRepoTheory.

Module invoice_theory.
Import invoice invoice_repo invoice_repo_theory.
Local Open Scope Z_scope.

(** ** The methods, as equations *)

Definition paid (ref : PaymentReference) (now : Time) (i : Invoice) : Invoice :=
  set_events (i_events i ++ [InvoicePaid (i_id i) (i_auctionID i) (i_debtor i) (i_total i) ref now])
    (set_pspRef ref (set_status StatusPaid i)).
Definition expired (now : Time) (i : Invoice) : Invoice :=
  set_events (i_events i ++ [InvoiceExpired (i_id i) (i_auctionID i) (i_debtor i) (i_attempt i) now])
    (set_status StatusExpired i).
Definition voided (now : Time) (i : Invoice) : Invoice :=
  set_events (i_events i ++ [InvoiceVoided (i_id i) now]) (set_status StatusVoided i).

Lemma MarkPaid_run ref now i : ref ≠ zero_value →
  MarkPaid ref now i =
    match i_status i with
    | StatusPending => (Ok tt, paid ref now i)
    | StatusPaid => (Fail ErrInvoiceAlreadyPaid, i)
    | StatusExpired => (Fail ErrInvoiceExpired, i)
    | StatusVoided => (Fail ErrInvoiceVoided, i)
    | StatusZero => (Panic "invoice: unknown status ", i)
    end.
Proof.
  intros Hr. unfold MarkPaid. run_go. rewrite (proj2 (IsZero_false _) Hr). run_go.
  by destruct (i_status i).
Qed.

Lemma Expire_run now i :
  Expire now i =
    match i_status i with
    | StatusPending =>
        if now <? i_dueAt i then (Fail ErrInvoiceNotDue, i) else (Ok tt, expired now i)
    | StatusPaid => (Fail ErrInvoiceAlreadyPaid, i)
    | StatusExpired => (Fail ErrInvoiceAlreadyExpired, i)
    | StatusVoided => (Fail ErrInvoiceVoided, i)
    | StatusZero => (Panic "invoice: unknown status ", i)
    end.
Proof.
  unfold Expire. run_go. destruct (i_status i); try done. unfold time_Before. run_go.
  by destruct (now <? i_dueAt i).
Qed.

Lemma Void_run now i :
  Void now i =
    match i_status i with
    | StatusPending => (Ok tt, voided now i)
    | StatusPaid => (Fail ErrInvoiceAlreadyPaid, i)
    | StatusExpired => (Fail ErrInvoiceAlreadyExpired, i)
    | StatusVoided => (Fail ErrInvoiceAlreadyVoided, i)
    | StatusZero => (Panic "invoice: unknown status ", i)
    end.
Proof. unfold Void. run_go. by destruct (i_status i). Qed.

Lemma admissible_paid ref now i : i_status i = StatusPending → admissible i (paid ref now i).
Proof. intros Hp. split; [done|]. by eexists StatusPaid, ref, _. Qed.
Lemma admissible_expired now i : i_status i = StatusPending → admissible i (expired now i).
Proof.
  intros Hp. split; [done|]. eexists StatusExpired, (i_pspRef i), _. split; [done|].
  by destruct i.
Qed.
Lemma admissible_voided now i : i_status i = StatusPending → admissible i (voided now i).
Proof.
  intros Hp. split; [done|]. eexists StatusVoided, (i_pspRef i), _. split; [done|].
  by destruct i.
Qed.

(** ** Any sequence of calls *)

Inductive op :=
| OPay (ref : PaymentReference) (now : Time)
| OExpire (now : Time)
| OVoid (now : Time).

Definition run_op (o : op) : M Invoice unit :=
  match o with
  | OPay ref now => MarkPaid ref now
  | OExpire now => Expire now
  | OVoid now => Void now
  end.

Definition runs (ops : list op) (i : Invoice) : Invoice :=
  foldl (fun i o => (run_op o i).2) i ops.

(** [o] took the pending invoice [i] to [j]. *)
Definition won (o : op) (i j : Invoice) : Prop :=
  match o with
  | OPay ref now => ref ≠ zero_value ∧ j = paid ref now i
  | OExpire now => i_dueAt i ≤ now ∧ j = expired now i
  | OVoid now => j = voided now i
  end.

Definition terminal (i : Invoice) : Prop :=
  i_status i = StatusPaid ∨ i_status i = StatusExpired ∨ i_status i = StatusVoided.

Lemma run_op_zero_ref now i : MarkPaid zero_value now i = (Fail ErrEmptyPaymentReference, i).
Proof. done. Qed.

Lemma run_op_terminal o i : terminal i → ∃ e, run_op o i = (Fail e, i).
Proof.
  intros Ht. destruct o as [ref now|now|now]; simpl.
  - destruct (decide (ref = zero_value)) as [->|Hr]; [by eexists|].
    rewrite MarkPaid_run by done. destruct Ht as [->|[->| ->]]; eauto.
  - rewrite Expire_run. destruct Ht as [->|[->| ->]]; eauto.
  - rewrite Void_run. destruct Ht as [->|[->| ->]]; eauto.
Qed.

Lemma run_op_pending o i : i_status i = StatusPending →
  (∃ e, run_op o i = (Fail e, i)) ∨ (∃ j, run_op o i = (Ok tt, j) ∧ won o i j ∧ terminal j).
Proof.
  intros Hp. destruct o as [ref now|now|now]; simpl.
  - destruct (decide (ref = zero_value)) as [->|Hr]; [left; by eexists|].
    rewrite MarkPaid_run, Hp by done. right. eexists. split_and!; [done..|]. by left.
  - rewrite Expire_run, Hp. destruct (now <? i_dueAt i) eqn:E; breflect; [left; by eexists|].
    right. eexists. split_and!; [done..|]. right. by left.
  - rewrite Void_run, Hp. right. eexists. split_and!; [done..|]. by right; right.
Qed.

Lemma runs_terminal ops i : terminal i → runs ops i = i.
Proof.
  intros Ht. induction ops as [|o ops IH]; simpl; [done|].
  by destruct (run_op_terminal o i Ht) as [e ->].
Qed.

(** The calls that can settle a pending invoice. *)
Definition applicable (i : Invoice) (o : op) : bool :=
  match o with
  | OPay ref _ => negb (IsZero ref)
  | OExpire now => i_dueAt i <=? now
  | OVoid _ => true
  end.

Lemma run_op_applicable o i : i_status i = StatusPending →
  if applicable i o then ∃ j, run_op o i = (Ok tt, j) ∧ won o i j ∧ terminal j
  else ∃ e, run_op o i = (Fail e, i).
Proof.
  intros Hp. destruct (run_op_pending o i Hp) as [[e He]|(j & Hj & Hw & Ht)];
    destruct o as [ref now|now|now]; simpl in *.
  - destruct (IsZero ref) eqn:Hr; simpl; [eauto|]. apply IsZero_false in Hr.
    by rewrite MarkPaid_run, Hp in He.
  - pose proof He as He0. rewrite Expire_run, Hp in He0. destruct (now <? i_dueAt i) eqn:E; [|done].
    apply Z.ltb_lt in E. rewrite (proj2 (Z.leb_gt _ _)) by lia. eauto.
  - by rewrite Void_run, Hp in He.
  - pose proof Hw as [Hr _]. rewrite (proj2 (IsZero_false _) Hr). simpl. by exists j.
  - pose proof Hw as [Hd _]. rewrite (proj2 (Z.leb_le _ _) Hd). by exists j.
  - by exists j.
Qed.

Lemma find_existsb {A} (f : A → bool) l :
  match find f l with Some _ => existsb f l = true | None => existsb f l = false end.
Proof. induction l as [|x l IH]; simpl; [done|]. by destruct (f x). Qed.

Lemma runs_first ops i : i_status i = StatusPending →
  match find (applicable i) ops with
  | Some o => won o i (runs ops i) ∧ terminal (runs ops i)
  | None => runs ops i = i
  end.
Proof.
  intros Hp. induction ops as [|o ops IH]; simpl; [done|].
  pose proof (run_op_applicable o i Hp) as Ho. destruct (applicable i o).
  - destruct Ho as (j & -> & Hw & Ht). simpl. change (foldl _ j ops) with (runs ops j).
    by rewrite runs_terminal.
  - destruct Ho as [e ->]. exact IH.
Qed.

(** ** Amounts *)

Definition valid_policy (cp : CommissionPolicy) : Prop := 0 ≤ basisPoints cp ≤ 10000.

Lemma CommissionFor_ideal hammer cp :
  valid_policy cp → 0 ≤ m_amount hammer → m_amount hammer * 10000 ≤ int64_max →
  CommissionFor hammer cp = mkMoney (m_amount hammer * basisPoints cp / 10000) (m_currency hammer)
  ∧ 0 ≤ m_amount hammer * basisPoints cp / 10000 ≤ m_amount hammer.
Proof.
  intros [Hlo Hhi] Hp Hm. unfold CommissionFor, Money_MulBasisPoints, int64_max in *.
  assert (0 ≤ m_amount hammer * basisPoints cp ≤ m_amount hammer * 10000) as Hb by nia.
  rewrite wrap64_small by (unfold in_int64, int64_min, int64_max; lia).
  rewrite Z.quot_div_nonneg by lia. split; [done|]. split.
  - apply Z.div_pos; lia.
  - apply Z.div_le_upper_bound; lia.
Qed.

Lemma NewInvoice_inv id auctionID debtor hammer cp pt attempt now i :
  NewInvoice id auctionID debtor hammer cp pt attempt now = Ok i →
  (id ≠ zero_value ∧ auctionID ≠ zero_value ∧ debtor ≠ zero_value ∧ hammer ≠ zero_value
   ∧ pt ≠ zero_value ∧ attempt ≠ zero_value ∧ now ≠ 0)
  ∧ let commission := CommissionFor hammer cp in
    let total := mkMoney (wrap64 (m_amount hammer + m_amount commission)) (m_currency hammer) in
    let due := now + PaymentTerm_Duration pt in
    i = mkInvoice id auctionID debtor hammer commission total StatusPending due attempt
          zero_value 1 [InvoiceIssued id auctionID debtor hammer commission total due attempt now].
Proof.
  unfold NewInvoice. intros H.
  do 7 (case_match; [done|]). breflect.
  unfold Money_Add in H. simpl in H. rewrite bool_decide_eq_false_2 in H by naive_solver.
  simpl in H. injection H as <-. split; [|done].
  split_and!; try done. unfold time_IsZero in *. by breflect.
Qed.

Lemma NewInvoice_Ok id auctionID debtor hammer cp pt attempt now :
  id ≠ zero_value → auctionID ≠ zero_value → debtor ≠ zero_value → hammer ≠ zero_value →
  pt ≠ zero_value → attempt ≠ zero_value → now ≠ 0 →
  ∃ i, NewInvoice id auctionID debtor hammer cp pt attempt now = Ok i.
Proof.
  intros. unfold NewInvoice, time_IsZero.
  rewrite !(proj2 (IsZero_false _)) by done. rewrite (proj2 (Z.eqb_neq now 0)) by done.
  unfold Money_Add. simpl. rewrite bool_decide_eq_false_2 by naive_solver. simpl. eauto.
Qed.

(** What the facade's validation guarantees, and the amounts that do not
    overflow. *)
Record issuable (hammer : Money) (cp : CommissionPolicy) (pt : PaymentTerm) (attempt : Attempt)
    (now : Time) : Prop := {
  iss_policy : valid_policy cp;
  iss_currency : NewCurrency (c_code (m_currency hammer)) = Ok (m_currency hammer);
  iss_amount : 0 ≤ m_amount hammer ∧ m_amount hammer * 10000 ≤ int64_max;
  iss_term : 0 < PaymentTerm_Duration pt;
  iss_attempt : attempt = AttemptFirst ∨ attempt = AttemptSecondChance;
  iss_now : 0 < now;
}.

Lemma NewInvoice_storable id auctionID debtor hammer cp pt attempt now i :
  issuable hammer cp pt attempt now →
  NewInvoice id auctionID debtor hammer cp pt attempt now = Ok i →
  storable i.
Proof.
  intros [Hp Hc [Ha Hm] Ht Hat Hn] Hi. apply NewInvoice_inv in Hi as [Hz Hi].
  destruct (CommissionFor_ideal hammer cp Hp Ha Hm) as [Hcf [Hlo Hhi]].
  cbv zeta in Hi. rewrite Hcf in Hi. simpl in Hi.
  assert (wrap64 (m_amount hammer + m_amount hammer * basisPoints cp / 10000)
          = m_amount hammer + m_amount hammer * basisPoints cp / 10000) as Hw.
  { apply wrap64_small. unfold in_int64, int64_min, int64_max in *. lia. }
  subst i. destruct Hz as (? & ? & ? & ? & ? & ? & ?). constructor; simpl; try done; rewrite ?Hw; lia.
Qed.

(** * The claims *)

(** C23: an invoice is settled at most once.  Of any payments, expiries and
    voids called on a pending invoice, in whatever order, exactly the first
    that applies takes effect (a payment with a reference, an expiry from the
    deadline on, any void): the invoice is then what that call made of it, with
    its one event, and a payment reference only if it was a payment.  Every
    other call, before or after, is refused and changes nothing; when none
    applies the invoice is unchanged. *)
Theorem settled_once i ops :
  i_status i = StatusPending →
  match find (applicable i) ops with
  | Some o => won o i (runs ops i) ∧ terminal (runs ops i)
  | None => runs ops i = i
  end
  ∧ ∀ ops1 o ops2, ops = ops1 ++ o :: ops2 →
      if applicable i o && negb (existsb (applicable i) ops1)
      then run_op o (runs ops1 i) = (Ok tt, runs ops i)
      else ∃ e, run_op o (runs ops1 i) = (Fail e, runs ops1 i).
Proof.
  intros Hp. split; [by apply runs_first|].
  intros ops1 o ops2 ->. unfold runs at 2. rewrite foldl_app. change (foldl _ i ops1) with (runs ops1 i).
  pose proof (runs_first ops1 i Hp) as Hf. pose proof (find_existsb (applicable i) ops1) as Hx.
  destruct (find (applicable i) ops1) as [o'|].
  - destruct Hf as [_ Ht]. rewrite Hx, andb_false_r. by apply run_op_terminal.
  - rewrite Hx, andb_true_r, Hf. simpl. pose proof (run_op_applicable o i Hp) as Ho.
    destruct (applicable i o); [|done]. destruct Ho as (j & -> & _ & Ht). simpl.
    f_equal. symmetry. by apply runs_terminal.
Qed.

(** C40: the amounts of a new invoice.  While ten thousand times the hammer
    price fits in 64 bits, the commission is the policy's share of the hammer
    price rounded down, between nothing and the hammer price, the total is
    exactly their sum, the deadline is one payment term away, and the stored
    row is read back as the same invoice. *)
Theorem invoice_amounts id auctionID debtor hammer cp pt attempt now i :
  issuable hammer cp pt attempt now →
  NewInvoice id auctionID debtor hammer cp pt attempt now = Ok i →
  m_amount (i_commission i) = m_amount hammer * basisPoints cp / 10000
  ∧ 0 ≤ m_amount (i_commission i) ≤ m_amount hammer
  ∧ m_amount (i_total i) = m_amount hammer + m_amount (i_commission i)
  ∧ m_currency (i_total i) = m_currency hammer
  ∧ i_dueAt i = now + PaymentTerm_Duration pt
  ∧ toDomainInvoice (toPgInvoice i) = Ok (set_events [] i).
Proof.
  intros Hiss Hi. pose proof (NewInvoice_storable _ _ _ _ _ _ _ _ _ Hiss Hi) as Hst.
  destruct Hiss as [Hp Hc [Ha Hm] Ht Hat Hn]. apply NewInvoice_inv in Hi as [_ Hi].
  destruct (CommissionFor_ideal hammer cp Hp Ha Hm) as [Hcf [Hlo Hhi]].
  rewrite inv_toDomain_toPg by done. cbv zeta in Hi. rewrite Hcf in Hi. subst i; simpl.
  split_and!; try done. apply wrap64_small. unfold in_int64, int64_min, int64_max in *. lia.
Qed.

(** With a commission of ten percent and a hammer price of ten million
    billion minor units the product overflows: a pending invoice with a
    negative commission is issued and stored, and the row cannot be loaded
    again, so the invoice can be neither paid, nor expired, nor voided. *)
Theorem commission_overflow :
  ∃ hammer cp pt i e,
    NewCommissionPolicy 1000 = Ok cp ∧ NewMoney (10 ^ 16) (mkCurrency "EUR") = Ok hammer
    ∧ NewInvoice (mkInvoiceID 1) (mkAuctionID 2) (mkBidderID 3) hammer cp pt AttemptFirst Second
      = Ok i
    ∧ m_amount (i_commission i) < 0
    ∧ toDomainInvoice (toPgInvoice i) = Fail e.
Proof.
  exists (mkMoney (10 ^ 16) (mkCurrency "EUR")), (mkCommissionPolicy 1000),
    (mkPaymentTerm Second). do 2 eexists.
  split; [reflexivity|]. split; [reflexivity|]. split; [vm_compute; reflexivity|].
  split; [vm_compute; reflexivity|]. vm_compute. reflexivity.
Qed.

(** * Witnesses *)

Definition demo_hammer : Money := mkMoney 100000 (mkCurrency "EUR").
Definition demo_invoice : Invoice := Eval vm_compute in
  match NewInvoice (mkInvoiceID 1) (mkAuctionID 2) (mkBidderID 3) demo_hammer
          (mkCommissionPolicy 1000) (mkPaymentTerm Second) AttemptFirst Second with
  | Ok i => i
  | _ => mkInvoice zero_value zero_value zero_value zero_value zero_value zero_value StatusZero 0
           zero_value zero_value 0 []
  end.

Lemma demo_issuable : issuable demo_hammer (mkCommissionPolicy 1000) (mkPaymentTerm Second)
  AttemptFirst Second.
Proof. constructor; try done; by left. Defined.

Lemma settled_once_witness :
  let ops := [OExpire 5; OPay (mkPaymentReference "psp-1") 6; OVoid 7] in
  won (OPay (mkPaymentReference "psp-1") 6) demo_invoice (runs ops demo_invoice)
  ∧ terminal (runs ops demo_invoice).
Proof.
  exact (proj1 (settled_once demo_invoice
    [OExpire 5; OPay (mkPaymentReference "psp-1") 6; OVoid 7] eq_refl)).
Defined.

Lemma invoice_amounts_witness :
  m_amount (i_total demo_invoice) = m_amount demo_hammer + m_amount (i_commission demo_invoice).
Proof.
  apply (invoice_amounts (mkInvoiceID 1) (mkAuctionID 2) (mkBidderID 3) demo_hammer
    (mkCommissionPolicy 1000) (mkPaymentTerm Second) AttemptFirst Second demo_invoice).
  - apply demo_issuable.
  - vm_compute. reflexivity.
Defined.
End invoice_theory.
