(* ===== verification/BillingTheory.v ===== *)
(** * Properties of the billing application

    The contract of the payment gateway and its proof for the fake provider
    and the metered wrapper, what each handler answers, and the expiry
    worker. *)

From stdpp Require Import base numbers list strings gmap fin_maps.
From Stdlib Require Import ZArith Lia.
From S2P Require Import Prelude DemoUUID Errs Auth Postgres Events InvoiceDomain InvoiceRepo Billing InvoiceRepoTheory InvoiceTheory.

Module billing_theory.
Import invoice invoice_repo billing invoice_repo_theory invoice_theory.
Local Open Scope Z_scope.

(** ** The contract of the payment gateway

    The provider remembers at most one charge per key and whether it was
    refunded.  A call that fails may still have charged or refunded: only its
    answer may be lost. *)

Definition charges_kept {P} (charge : P → InvoiceID → option PaymentReference)
    (key : InvoiceID) (p p' : P) : Prop :=
  (∀ k ref, charge p k = Some ref → charge p' k = Some ref)
  ∧ (∀ k, k ≠ key → charge p' k = charge p k).

Definition refunds_kept {P} (refunded : P → InvoiceID → bool) (key : InvoiceID) (p p' : P) : Prop :=
  (∀ k, refunded p k = true → refunded p' k = true)
  ∧ (∀ k, k ≠ key → refunded p' k = refunded p k).

Class PaymentGatewayLaws (P : Type) `{PaymentGateway P} := {
  gw_ok : P → Prop;
  gw_charge : P → InvoiceID → option PaymentReference;
  gw_refunded : P → InvoiceID → bool;
  gw_Charge_spec : ∀ p key amount, gw_ok p →
    let '(r, p') := gw_Charge key amount p in
    gw_ok p' ∧ charges_kept gw_charge key p p' ∧ (∀ k, gw_refunded p' k = gw_refunded p k)
    ∧ match r with
      | Ok ref => ref ≠ zero_value ∧ gw_charge p' key = Some ref
      | Fail _ => True
      | Panic _ => False
      end;
  gw_Refund_spec : ∀ p key, gw_ok p →
    let '(r, p') := gw_Refund key p in
    gw_ok p' ∧ (∀ k, gw_charge p' k = gw_charge p k) ∧ refunds_kept gw_refunded key p p'
    ∧ match r with
      | Ok _ => is_Some (gw_charge p key) → gw_refunded p' key = true
      | Fail _ => True
      | Panic _ => False
      end;
}.

(** ** The fake provider honours it *)

Section Fake.
Context `{UUIDLaws}.

Definition fake_ok (p : FakePSP) : Prop :=
  ∀ k ref, fp_charges p !! k = Some ref → ref ≠ zero_value.

Definition fake_charge (p : FakePSP) (key : InvoiceID) : option PaymentReference :=
  fp_charges p !! fake.ChargeKey_String key.

Lemma ChargeKey_inj k k' : fake.ChargeKey_String k = fake.ChargeKey_String k' → k = k'.
Proof.
  unfold fake.ChargeKey_String, InvoiceID_String. intros E.
  apply (f_equal uuid_Parse) in E. rewrite !uuid_Parse_String in E. injection E as E.
  by rewrite <-(InvoiceID_eta k), E, InvoiceID_eta.
Qed.

(** The charge that is taken, once the mode lets it through. *)
Lemma fake_take key (p : FakePSP) :
  fake_ok p → fake_charge p key = None →
  ∃ ref, ref ≠ zero_value ∧
    NewPaymentReference ("psp-" +:+ uuid_NewString (fp_drawn p)) = Ok ref
    ∧ fake_ok (fake.set_charge (fake.ChargeKey_String key) ref (fake.draw p))
    ∧ charges_kept fake_charge key p (fake.set_charge (fake.ChargeKey_String key) ref (fake.draw p)).
Proof.
  intros Hok Hn. exists (mkPaymentReference ("psp-" +:+ uuid_NewString (fp_drawn p))).
  split_and!; [done|done| |].
  - intros k ref. simpl. rewrite lookup_insert_Some. intros [[_ <-]|[_ Hl]]; [done|by eapply Hok].
  - split; unfold fake_charge; simpl.
    + intros k ref Hk. rewrite lookup_insert_ne; [done|]. intros E%ChargeKey_inj. subst k.
      unfold fake_charge in Hn. congruence.
    + intros k Hne. rewrite lookup_insert_ne; [done|]. intros E%ChargeKey_inj. by subst.
Qed.

Lemma charges_kept_refl {P} (charge : P → InvoiceID → option PaymentReference) key p :
  charges_kept charge key p p.
Proof. by split. Qed.

Lemma fake_Charge_spec p key amount : fake_ok p →
  let '(r, p') := fake.Charge key amount p in
  fake_ok p' ∧ charges_kept fake_charge key p p'
  ∧ (∀ k, fake.IsRefunded k p' = fake.IsRefunded k p)
  ∧ match r with
    | Ok ref => ref ≠ zero_value ∧ fake_charge p' key = Some ref
    | Fail _ => True
    | Panic _ => False
    end.
Proof.
  intros Hok. unfold fake.Charge. rewrite run_get.
  destruct (fp_charges p !! fake.ChargeKey_String key) as [ref|] eqn:Hl.
  { run_go. split_and!; [done|apply charges_kept_refl|done|by eapply Hok|done]. }
  destruct (fake_take key p Hok Hl) as (ref & Hz & Hnew & Hok' & Hk).
  destruct (fp_mode p) eqn:Hm; run_go.
  - rewrite Hnew. simpl. split_and!; [done|done|done|done|]. apply lookup_insert_eq.
  - split_and!; [done|apply charges_kept_refl|done|done].
  - destruct (fake.flag (fp_failedOnce p) (fake.ChargeKey_String key)); run_go.
    + rewrite Hnew. simpl. split_and!; [done|done|done|done|]. apply lookup_insert_eq.
    + split_and!; [done| |done|done]. by split.
Qed.

Lemma fake_Refund_spec p key : fake_ok p →
  let '(r, p') := fake.Refund key p in
  fake_ok p' ∧ (∀ k, fake_charge p' k = fake_charge p k)
  ∧ refunds_kept (fun p k => fake.IsRefunded k p) key p p'
  ∧ match r with
    | Ok _ => is_Some (fake_charge p key) → fake.IsRefunded key p' = true
    | Fail _ => True
    | Panic _ => False
    end.
Proof.
  intros Hok. unfold fake.Refund. rewrite run_get. unfold fake_charge at 3.
  destruct (fp_charges p !! fake.ChargeKey_String key) as [ref|] eqn:Hl; simpl.
  - split_and!; [done|done| |].
    + unfold fake.IsRefunded, fake.flag. split; simpl; intros k.
      * destruct (decide (fake.ChargeKey_String k = fake.ChargeKey_String key)) as [->|Hne];
          [by rewrite lookup_insert_eq|by rewrite lookup_insert_ne].
      * intros Hne. rewrite lookup_insert_ne; [done|]. by intros E%ChargeKey_inj.
    + intros _. unfold fake.IsRefunded, fake.flag. simpl. by rewrite lookup_insert_eq.
  - split_and!; [done|done|by split|]. intros [? [=]].
Qed.

#[export] Instance fake_laws : PaymentGatewayLaws FakePSP := {
  gw_ok := fake_ok;
  gw_charge := fake_charge;
  gw_refunded := fun p k => fake.IsRefunded k p;
  gw_Charge_spec := fake_Charge_spec;
  gw_Refund_spec := fake_Refund_spec;
}.
End Fake.

(** ** The metered wrapper is transparent *)

Section Metered.
Context {P : Type} `{PaymentGatewayLaws P}.

Lemma metered_run {A} op (m : M P A) (p : InstrumentedPSP P) :
  (metered op m p).1 = (m (ip_next p)).1 ∧ ip_next (metered op m p).2 = (m (ip_next p)).2.
Proof. unfold metered. by destruct (m (ip_next p)) as [[] ?]. Qed.

#[export] Instance metered_laws : PaymentGatewayLaws (InstrumentedPSP P).
Proof.
  refine {| gw_ok := fun p => gw_ok (ip_next p);
            gw_charge := fun p => gw_charge (ip_next p);
            gw_refunded := fun p => gw_refunded (ip_next p) |}.
  - intros p key amount Hok. cbn [gw_Charge instrumented].
    destruct (metered_run "charge" (gw_Charge key amount) p) as [H1 H2].
    pose proof (gw_Charge_spec (ip_next p) key amount Hok) as Hs.
    destruct (metered _ _ p) as [r p'], (gw_Charge key amount (ip_next p)) as [r0 q].
    simpl in *. subst. exact Hs.
  - intros p key Hok. cbn [gw_Refund instrumented].
    destruct (metered_run "refund" (gw_Refund key) p) as [H1 H2].
    pose proof (gw_Refund_spec (ip_next p) key Hok) as Hs.
    destruct (metered _ _ p) as [r p'], (gw_Refund key (ip_next p)) as [r0 q].
    simpl in *. subst. exact Hs.
Defined.
End Metered.

(** ** System commands *)

Section System.
Context {S : Type} `{InvoiceRepositoryLaws S}.

Lemma closure_Expire now i :
  i_status i ≠ StatusZero →
  closure (Expire now) i =
    match i_status i with
    | StatusPending => if now <? i_dueAt i then Fail ErrInvoiceNotDue else Ok (expired now i)
    | StatusPaid => Fail ErrInvoiceAlreadyPaid
    | StatusExpired => Fail ErrInvoiceAlreadyExpired
    | _ => Fail ErrInvoiceVoided
    end.
Proof.
  intros Hz. unfold closure. rewrite Expire_run.
  destruct (i_status i); try done. by destruct (now <? i_dueAt i).
Qed.

Lemma closure_Void now i :
  i_status i ≠ StatusZero →
  closure (Void now) i =
    match i_status i with
    | StatusPending => Ok (voided now i)
    | StatusPaid => Fail ErrInvoiceAlreadyPaid
    | StatusExpired => Fail ErrInvoiceAlreadyExpired
    | _ => Fail ErrInvoiceAlreadyVoided
    end.
Proof. intros Hz. unfold closure. rewrite Void_run. by destruct (i_status i). Qed.

Lemma closure_MarkPaid ref now i :
  i_status i ≠ StatusZero → ref ≠ zero_value →
  closure (MarkPaid ref now) i =
    match i_status i with
    | StatusPending => Ok (paid ref now i)
    | StatusPaid => Fail ErrInvoiceAlreadyPaid
    | StatusExpired => Fail ErrInvoiceExpired
    | _ => Fail ErrInvoiceVoided
    end.
Proof. intros Hz Hr. unfold closure. rewrite MarkPaid_run by done. by destruct (i_status i). Qed.

Lemma on_error_run {W} (m : M W unit) f w :
  on_error m f w =
    match m w with
    | (Fail e, w') => (match f e with Some e' => Fail e' | None => Ok tt end, w')
    | r => r
    end.
Proof. done. Qed.

(** What one system command does to a stored invoice. *)
Lemma expire_spec now s id i :
  inv_ok s → inv_view s !! id = Some i →
  match i_status i with
  | StatusPending =>
      if now <? i_dueAt i
      then ExpireInvoiceHandler now (mkExpireInvoice id) s =
           (Fail (WithCause (NewConflictError "invoice-not-due") ErrInvoiceNotDue), s)
      else ∃ s' v, ExpireInvoiceHandler now (mkExpireInvoice id) s = (Ok tt, s') ∧ inv_ok s'
             ∧ inv_view s' = <[id := stored v (expired now i)]> (inv_view s)
  | _ => ExpireInvoiceHandler now (mkExpireInvoice id) s = (Ok tt, s)
  end.
Proof.
  intros Hok Hl. destruct (inv_view_ok s id i Hok Hl) as (Hst & _ & _).
  pose proof (closure_Expire now i (so_status i Hst)) as Hc.
  unfold ExpireInvoiceHandler. simpl.
  destruct (i_status i) eqn:E; [by destruct (so_status i Hst)| |..].
  - destruct (now <? i_dueAt i).
    + rewrite on_error_run, (inv_System_fail _ _ _ _ _ Hok Hl Hc). done.
    + destruct (inv_System_ok _ _ _ _ _ Hok Hl Hc (admissible_expired _ _ E)) as (s' & v & Hr & ?).
      exists s', v. by rewrite on_error_run, Hr.
  - by rewrite on_error_run, (inv_System_fail _ _ _ _ _ Hok Hl Hc).
  - by rewrite on_error_run, (inv_System_fail _ _ _ _ _ Hok Hl Hc).
  - by rewrite on_error_run, (inv_System_fail _ _ _ _ _ Hok Hl Hc).
Qed.

Lemma void_spec now s id i :
  inv_ok s → inv_view s !! id = Some i →
  match i_status i with
  | StatusPending =>
      ∃ s' v, VoidInvoiceHandler now (mkVoidInvoice id) s = (Ok tt, s') ∧ inv_ok s'
        ∧ inv_view s' = <[id := stored v (voided now i)]> (inv_view s)
  | StatusPaid =>
      VoidInvoiceHandler now (mkVoidInvoice id) s =
        (Fail (WithCause (NewConflictError "invoice-already-paid") ErrInvoiceAlreadyPaid), s)
  | _ => VoidInvoiceHandler now (mkVoidInvoice id) s = (Ok tt, s)
  end.
Proof.
  intros Hok Hl. destruct (inv_view_ok s id i Hok Hl) as (Hst & _ & _).
  pose proof (closure_Void now i (so_status i Hst)) as Hc.
  unfold VoidInvoiceHandler. simpl.
  destruct (i_status i) eqn:E; [by destruct (so_status i Hst)| |..].
  - destruct (inv_System_ok _ _ _ _ _ Hok Hl Hc (admissible_voided _ _ E)) as (s' & v & Hr & ?).
    exists s', v. by rewrite on_error_run, Hr.
  - by rewrite on_error_run, (inv_System_fail _ _ _ _ _ Hok Hl Hc).
  - by rewrite on_error_run, (inv_System_fail _ _ _ _ _ Hok Hl Hc).
  - by rewrite on_error_run, (inv_System_fail _ _ _ _ _ Hok Hl Hc).
Qed.

Lemma system_missing now s id : inv_ok s → inv_view s !! id = None →
  ExpireInvoiceHandler now (mkExpireInvoice id) s =
    (Fail (WithCause (NewNotFoundError "invoice-not-found")
             (InvoiceNotFoundError (InvoiceID_UUID id))), s)
  ∧ VoidInvoiceHandler now (mkVoidInvoice id) s =
    (Fail (WithCause (NewNotFoundError "invoice-not-found")
             (InvoiceNotFoundError (InvoiceID_UUID id))), s).
Proof.
  intros Hok Hl. unfold ExpireInvoiceHandler, VoidInvoiceHandler. simpl.
  by rewrite !on_error_run, !inv_System_missing.
Qed.

(** *** Issuing *)

Definition cmd_issuable (policy : CommissionPolicy) (term : PaymentTerm) (now : Time)
    (cmd : IssueInvoice) : Prop :=
  issuable (is_Hammer cmd) policy term (is_Attempt cmd) now
  ∧ is_InvoiceID cmd ≠ zero_value ∧ is_AuctionID cmd ≠ zero_value ∧ is_Debtor cmd ≠ zero_value.

Definition cmd_invoice (policy : CommissionPolicy) (term : PaymentTerm) (now : Time)
    (cmd : IssueInvoice) : result Invoice :=
  NewInvoice (is_InvoiceID cmd) (is_AuctionID cmd) (is_Debtor cmd) (is_Hammer cmd) policy term
    (is_Attempt cmd) now.

Lemma cmd_invoice_Ok policy term now cmd : cmd_issuable policy term now cmd →
  ∃ i, cmd_invoice policy term now cmd = Ok i ∧ storable i ∧ i_status i = StatusPending
       ∧ i_id i = is_InvoiceID cmd ∧ i_auctionID i = is_AuctionID cmd
       ∧ i_debtor i = is_Debtor cmd ∧ i_hammer i = is_Hammer cmd ∧ i_attempt i = is_Attempt cmd
       ∧ Forall (event_says i) (i_events i).
Proof.
  intros (Hiss & Hi & Ha & Hd). pose proof Hiss as [_ Hc _ Ht Hat Hn].
  destruct (NewInvoice_Ok (is_InvoiceID cmd) (is_AuctionID cmd) (is_Debtor cmd) (is_Hammer cmd)
              policy term (is_Attempt cmd) now) as [i Hi']; try done.
  - intros E. rewrite E in Hc. done.
  - intros ->. done.
  - destruct Hat as [->| ->]; done.
  - lia.
  - exists i. split; [done|]. split; [by eapply NewInvoice_storable|].
    apply NewInvoice_inv in Hi' as [_ ->]. split_and!; try done. by repeat constructor.
Qed.

Lemma issue_spec policy term now cmd s :
  inv_ok s → cmd_issuable policy term now cmd →
  ∃ i, cmd_invoice policy term now cmd = Ok i ∧
    (taken (inv_view s) i ∧ IssueInvoiceHandler policy term now cmd s = (Ok tt, s)
     ∨ ¬ taken (inv_view s) i ∧ ∃ s', IssueInvoiceHandler policy term now cmd s = (Ok tt, s')
         ∧ inv_ok s' ∧ inv_view s' = <[is_InvoiceID cmd := set_events [] i]> (inv_view s)).
Proof.
  intros Hok Hc. destruct (cmd_invoice_Ok _ _ _ _ Hc) as (i & Hi & Hst & _ & Hid & _ & _ & _ & _ & Hsays).
  exists i. split; [done|]. unfold IssueInvoiceHandler.
  change (NewInvoice _ _ _ _ _ _ _ _) with (cmd_invoice policy term now cmd).
  rewrite Hi. cbn [with_cause]. rewrite run_lift, on_error_run.
  assert (Decision (taken (inv_view s) i)) as Hdec.
  { unfold taken. destruct (inv_view s !! i_id i) eqn:E; [left; left; by eexists|].
    destruct (decide (map_Exists (fun _ i' => i_auctionID i' = i_auctionID i
                                              ∧ i_attempt i' = i_attempt i) (inv_view s))) as [Hx|Hx].
    - left. right. destruct Hx as (k & j & ? & ? & ?). eauto 10.
    - right. intros [[? [=]]|(k & j & ? & ? & ?)]. apply Hx. exists k, j. eauto. }
  destruct (decide (taken (inv_view s) i)) as [Ht|Ht]; [left|right]; (split; [done|]).
  - by rewrite inv_Add_taken.
  - destruct (inv_Add_ok s i Hok Hst Hsays Ht) as (s' & -> & ? & Hv). exists s'.
    split_and!; [done..|]. by rewrite Hv, Hid.
Qed.

(** *** The expiry worker *)

(** One candidate: afterwards it is not due, and nothing else changed. *)
Lemma expire_candidate now id s i :
  inv_ok s → inv_view s !! id = Some i →
  ∃ s', on_error (ExpireInvoiceHandler now (mkExpireInvoice id)) (fun _ => None) s = (Ok tt, s')
    ∧ inv_ok s' ∧ is_Some (inv_view s' !! id)
    ∧ (∀ j, inv_view s' !! id = Some j → ¬ is_due now j)
    ∧ ∀ k, k ≠ id → inv_view s' !! k = inv_view s !! k.
Proof.
  intros Hok Hl. rewrite on_error_run. pose proof (expire_spec now s id i Hok Hl) as Hs.
  destruct (i_status i) eqn:E; [|destruct (now <? i_dueAt i) eqn:Ed|..].
  3:{ destruct Hs as (s' & v & -> & Hok' & Hv). exists s'. rewrite Hv, lookup_insert_eq.
      split_and!; [done..|eauto| |].
      - intros j [= <-] [Hp _]. done.
      - intros k Hk. by rewrite lookup_insert_ne. }
  all: rewrite Hs; exists s; split_and!; [done..|eauto| |done].
  all: intros j Hj [Hp Hd]; rewrite Hl in Hj; injection Hj as <-; try congruence.
  breflect. lia.
Qed.

Lemma expire_all_spec now clk ids s :
  inv_ok s → (∀ id, now ≤ clk id) → (∀ id, id ∈ ids → is_Some (inv_view s !! id)) →
  ∃ s', expire_all clk ids s = (Ok tt, s') ∧ inv_ok s'
    ∧ ∀ id i, inv_view s' !! id = Some i → is_due now i →
        (id ∉ ids) ∧ inv_view s !! id = Some i.
Proof.
  intros Hok Hclk. revert s Hok; induction ids as [|id ids IH]; intros s Hok Hin.
  { exists s. split_and!; [done..|]. intros id i Hl _. split; [apply not_elem_of_nil|done]. }
  destruct (Hin id (list_elem_of_here _ _)) as [i Hl].
  destruct (expire_candidate (clk id) id s i Hok Hl) as (s1 & E & Hok1 & Hs1 & Hnd & Hfr).
  cbn [expire_all]. unfold mbind at 1, GoM_bind at 1. rewrite E.
  destruct (IH s1 Hok1) as (s' & E' & Hok' & Hd).
  { intros k Hk. destruct (decide (k = id)) as [->|Hne]; [done|].
    rewrite Hfr by done. by apply Hin, list_elem_of_further. }
  exists s'. split_and!; [done..|]. intros k j Hj Hdue. destruct (Hd k j Hj Hdue) as [Hn Hj1].
  assert (k ≠ id) as Hne.
  { intros ->. apply (Hnd j Hj1). destruct Hdue. split; [done|]. pose proof (Hclk id). lia. }
  split; [by rewrite elem_of_cons; naive_solver|]. by rewrite <-Hfr.
Qed.

(** *** The facade *)


(** The command a facade call stands for. *)
Definition facade_command (invoiceID auctionID debtor : uuid) (hammerMinor : Z)
    (currency : string) (attempt : Z) : IssueInvoice :=
  mkIssueInvoice (mkInvoiceID invoiceID) (mkAuctionID auctionID) (mkBidderID debtor)
    (mkMoney hammerMinor (mkCurrency currency)) (mkAttempt attempt).

Lemma NewCurrency_cases s : NewCurrency s = Ok (mkCurrency s) ∨ NewCurrency s = Fail ErrInvalidCurrency.
Proof. unfold NewCurrency. repeat (case_match; [by right|]). by left. Qed.

(** The arguments the facade lets through. *)
Record valid_issue (invoiceID auctionID debtor : uuid) (hammer : Z) (currency : string)
    (attempt : Z) : Prop := {
  vi_invoice : invoiceID ≠ uuid_Nil;
  vi_auction : auctionID ≠ uuid_Nil;
  vi_debtor : debtor ≠ uuid_Nil;
  vi_currency : NewCurrency currency = Ok (mkCurrency currency);
  vi_hammer : 0 ≤ hammer;
  vi_attempt : attempt = 1 ∨ attempt = 2;
}.

(** A facade call is refused by the validation, whatever the store, or it is
    the handler on its command. *)
Lemma facade_issue_cases invoiceID auctionID debtor hammer currency attempt :
  (∃ e, ∀ p t n (s : S),
     Facade_IssueInvoice p t n invoiceID auctionID debtor hammer currency attempt s = (Fail e, s))
  ∨ valid_issue invoiceID auctionID debtor hammer currency attempt
    ∧ ∀ p t n (s : S),
     Facade_IssueInvoice p t n invoiceID auctionID debtor hammer currency attempt s
     = IssueInvoiceHandler p t n
         (facade_command invoiceID auctionID debtor hammer currency attempt) s.
Proof.
  unfold Facade_IssueInvoice, NewInvoiceID, NewAuctionID, NewBidderID, NewAttempt.
  destruct (bool_decide (invoiceID = uuid_Nil)) eqn:Ei; [left; eexists; intros; reflexivity|].
  destruct (bool_decide (auctionID = uuid_Nil)) eqn:Ea; [left; eexists; intros; reflexivity|].
  destruct (bool_decide (debtor = uuid_Nil)) eqn:Ed; [left; eexists; intros; reflexivity|].
  destruct (NewCurrency_cases currency) as [E|E].
  2:{ left. eexists. intros. rewrite E. reflexivity. }
  assert (hammer < 0 ∧ NewMoney hammer (mkCurrency currency) = Fail ErrNegativeAmount
    ∨ 0 ≤ hammer ∧ NewMoney hammer (mkCurrency currency) = Ok (mkMoney hammer (mkCurrency currency)))
    as [[Hh Hm]|[Hh Hm]].
  { destruct (decide (0 ≤ hammer)); [right|left].
    - split; [done|]. apply inv_NewMoney_Ok; [by eapply inv_NewCurrency_nonzero|done].
    - split; [lia|]. unfold NewMoney. by rewrite (proj2 (Z.ltb_lt hammer 0)) by lia. }
  { left. eexists. intros. do 5 (rewrite run_lift, ?E, ?Hm; cbn [with_cause]). reflexivity. }
  destruct ((attempt =? 1) || (attempt =? 2)) eqn:Et.
  2:{ left. eexists. intros. do 6 (rewrite run_lift, ?E, ?Hm; cbn [with_cause]). reflexivity. }
  right. split.
  - breflect; constructor; auto.
  - intros. do 6 (rewrite run_lift, ?E, ?Hm; cbn [with_cause]). done.
Qed.

Lemma valid_cmd_issuable policy term now invoiceID auctionID debtor hammer currency attempt :
  valid_issue invoiceID auctionID debtor hammer currency attempt →
  valid_policy policy → 0 < PaymentTerm_Duration term → 0 < now → hammer * 10000 ≤ int64_max →
  cmd_issuable policy term now
    (facade_command invoiceID auctionID debtor hammer currency attempt).
Proof.
  intros [Hi Ha Hd Hc Hh Ht] Hpol Hterm Hnow Hmax. split.
  - constructor; simpl; try done.
    destruct Ht as [-> | ->]; [by left|by right].
  - split_and!; simpl; intros E; injection E as E; done.
Qed.

(** Whether a command's invoice is taken only depends on its identity, its
    auction and its attempt. *)
Lemma taken_same view i j :
  i_id i = i_id j → i_auctionID i = i_auctionID j → i_attempt i = i_attempt j →
  taken view i → taken view j.
Proof. unfold taken. by intros -> -> ->. Qed.

(** * The claims *)

(** The commands of the saga and the worker, on every status.  Expiring
    takes a pending invoice whose deadline has passed to expired, is refused
    with 409 before the deadline, and is a no-op on a settled one; voiding
    takes a pending invoice to voided, is a no-op on an expired or voided one,
    and is refused with 409 [invoice-already-paid], never ignored, on a paid
    one; an unknown invoice is a 404. *)
Theorem system_commands now s id :
  inv_ok s →
  match inv_view s !! id with
  | None =>
      ∃ e, KindFromError e = ErrorKindNotFound
        ∧ ExpireInvoiceHandler now (mkExpireInvoice id) s = (Fail e, s)
        ∧ VoidInvoiceHandler now (mkVoidInvoice id) s = (Fail e, s)
  | Some i =>
      let unchanged (r : result unit * S) := r = (Ok tt, s) in
      let becomes (r : result unit * S) (j : Invoice) :=
        ∃ s' v, r = (Ok tt, s') ∧ inv_ok s' ∧ inv_view s' = <[id := stored v j]> (inv_view s) in
      let conflict (r : result unit * S) (slug : string) :=
        ∃ e, r = (Fail e, s) ∧ RespondWithSlugError (Some e) = mkResponse 409 slug in
      let expire := ExpireInvoiceHandler now (mkExpireInvoice id) s in
      let void := VoidInvoiceHandler now (mkVoidInvoice id) s in
      match i_status i with
      | StatusPending =>
          becomes void (voided now i)
          ∧ (i_dueAt i ≤ now → becomes expire (expired now i))
          ∧ (now < i_dueAt i → conflict expire "invoice-not-due")
      | StatusPaid => unchanged expire ∧ conflict void "invoice-already-paid"
      | _ => unchanged expire ∧ unchanged void
      end
  end.
Proof.
  intros Hok. destruct (inv_view s !! id) as [i|] eqn:Hl.
  - pose proof (expire_spec now s id i Hok Hl) as He. pose proof (void_spec now s id i Hok Hl) as Hv.
    cbv zeta. destruct (i_status i); try done.
    + split_and!; [done| |]; intros Hd; destruct (now <? i_dueAt i) eqn:E; breflect; try lia; [done|].
      by eexists.
    + split; [done|]. by eexists.
  - destruct (system_missing now s id Hok Hl). eexists.
    split; [|split; eassumption]. done.
Qed.

(** Issuing is idempotent.  Once the facade answered nil for an invoice,
    that invoice (or another one of the same auction and attempt) is stored,
    and no later call for the same invoice, auction and attempt changes the
    store, whatever debtor, amount, currency and time it comes with; the exact
    repeat answers nil again. *)
Theorem issue_idempotent policy term now now' invoiceID auctionID debtor hammer currency attempt
    debtor' hammer' currency' s s' :
  inv_ok s → valid_policy policy → 0 < PaymentTerm_Duration term → 0 < now → 0 < now' →
  hammer * 10000 ≤ int64_max → hammer' * 10000 ≤ int64_max →
  Facade_IssueInvoice policy term now invoiceID auctionID debtor hammer currency attempt s
    = (Ok tt, s') →
  (∃ i, inv_view s' !! mkInvoiceID invoiceID = Some i
        ∨ ∃ id, inv_view s' !! id = Some i ∧ i_auctionID i = mkAuctionID auctionID
                ∧ i_attempt i = mkAttempt attempt)
  ∧ (Facade_IssueInvoice policy term now' invoiceID auctionID debtor' hammer' currency' attempt
       s').2 = s'
  ∧ Facade_IssueInvoice policy term now' invoiceID auctionID debtor hammer currency attempt s'
    = (Ok tt, s').
Proof.
  intros Hok Hpol Hterm Hnow Hnow' Hmax Hmax' H1.
  destruct (facade_issue_cases invoiceID auctionID debtor hammer currency attempt)
    as [[e E]|[Hval E]]; rewrite E in H1; [done|].
  set (cmd := facade_command _ _ _ _ _ _) in *.
  pose proof (valid_cmd_issuable policy term now _ _ _ _ _ _ Hval Hpol Hterm Hnow Hmax) as Hi1.
  pose proof (valid_cmd_issuable policy term now' _ _ _ _ _ _ Hval Hpol Hterm Hnow' Hmax) as Hi2.
  destruct (issue_spec _ _ _ _ s Hok Hi1) as (i & Hi & Hcase).
  destruct (cmd_invoice_Ok _ _ _ _ Hi1) as (i0 & Hi0 & _ & _ & Hid & Hau & _ & _ & Hat & _).
  rewrite Hi in Hi0. injection Hi0 as <-.
  assert (inv_ok s' ∧ taken (inv_view s') i) as [Hok' Ht].
  { destruct Hcase as [[Ht E1]|(_ & s1 & E1 & Hok1 & Hv)]; fold cmd in E1; rewrite E1 in H1;
      injection H1 as <-; [done|]. split; [done|]. left. rewrite Hv, Hid, lookup_insert_eq. by eexists. }
  assert (∀ d h c, h * 10000 ≤ int64_max →
    valid_issue invoiceID auctionID d h c attempt →
    IssueInvoiceHandler policy term now' (facade_command invoiceID auctionID d h c attempt) s'
    = (Ok tt, s')) as Hrep.
  { intros d h c Hh Hv.
    pose proof (valid_cmd_issuable policy term now' _ _ _ _ _ _ Hv Hpol Hterm Hnow' Hh) as Hi3.
    destruct (issue_spec _ _ _ _ s' Hok' Hi3) as (j & Hj & [[_ ?]|[Hnt _]]); [done|].
    destruct Hnt. destruct (cmd_invoice_Ok _ _ _ _ Hi3) as (j0 & Hj0 & _ & _ & Hjd & Hja & _ & _ & Hjt & _).
    rewrite Hj in Hj0. injection Hj0 as <-.
    eapply taken_same, Ht; [by rewrite Hid, Hjd|by rewrite Hau, Hja|by rewrite Hat, Hjt]. }
  split_and!; [| |rewrite E; by apply Hrep].
  - destruct Ht as [[j Hj]|(id & j & Hj & Ha & Hb)].
    + exists j. left. by rewrite Hid in Hj.
    + exists j. right. exists id. by rewrite Ha, Hb, Hau, Hat.
  - destruct (facade_issue_cases invoiceID auctionID debtor' hammer' currency' attempt)
      as [[e' E']|[Hval' E']]; rewrite E'; [done|]. by rewrite Hrep.
Qed.

(** A tick of the expiry worker never fails, and unless the scan was cut
    short by its limit, after it no pending invoice is past its deadline. *)
Theorem tick_expires_due now clk s :
  inv_ok s → (∀ id, now ≤ clk id) →
  ∃ s', ExpiryWorker_tick now clk s = (Ok tt, s') ∧ inv_ok s'
    ∧ ∀ ids, inv_PendingDueBefore now expiryBatchLimit s = Ok ids →
        Z.of_nat (length ids) < expiryBatchLimit →
        ∀ id i, inv_view s' !! id = Some i → ¬ is_due now i.
Proof.
  intros Hok Hclk. unfold ExpiryWorker_tick. rewrite run_get.
  destruct (inv_Due_spec s now expiryBatchLimit Hok) as (ids & E & Hd & Hall & _); [done|].
  rewrite E. destruct (expire_all_spec now clk ids s Hok Hclk) as (s' & Ht & Hok' & Hs').
  { intros id (i & Hl & _)%Hd. eauto. }
  exists s'. split_and!; [done..|]. intros ids' [= <-] Hlt id i Hl Hdue.
  destruct (Hs' id i Hl Hdue) as [Hn Hl0]. by eapply Hn, Hall.
Qed.
End System.

(** The fake provider keeps the gateway's contract: it never debits a key
    twice (a second charge, of any amount, returns the first reference and
    changes nothing), a refused charge leaves no debit and in the flaky mode
    the retry succeeds, and a refund is idempotent, touches no charge, and is
    a no-op without one. *)
Theorem fake_psp_contract `{UUIDLaws} key amount amount' (p : FakePSP) :
  fake_ok p →
  (let '(r, p1) := fake.Charge key amount p in
   match r with
   | Ok ref => fake.Charge key amount' p1 = (Ok ref, p1) ∧ fake.HasCharge key p1 = true
   | Fail _ => fp_charges p1 = fp_charges p ∧ fake.HasCharge key p1 = false
       ∧ (fp_mode p = PSPModeFlaky → is_ok (fake.Charge key amount' p1).1 = true)
   | Panic _ => False
   end)
  ∧ (let '(r, p1) := fake.Refund key p in
     r = Ok tt ∧ fake.Refund key p1 = (Ok tt, p1) ∧ fp_charges p1 = fp_charges p
     ∧ fake.IsRefunded key p1 = fake.IsRefunded key p || fake.HasCharge key p
     ∧ (fake.HasCharge key p = false → p1 = p)).
Proof.
  intros Hok. split.
  - pose proof (fake_Charge_spec p key amount Hok) as Hs.
    destruct (fake.Charge key amount p) as [[ref|e|q] p1] eqn:E; [| |tauto].
    + destruct Hs as (_ & _ & _ & _ & Hc). unfold fake_charge in Hc.
      unfold fake.Charge, fake.HasCharge. by rewrite run_get, Hc.
    + unfold fake.Charge in E. rewrite run_get in E.
      destruct (fp_charges p !! fake.ChargeKey_String key) eqn:Hl; [done|].
      destruct (fake_take key p Hok Hl) as (ref & Hz & Hnew & _ & _).
      destruct (fp_mode p) eqn:Hm; run_go.
      * by rewrite Hnew in E.
      * simplify_eq. unfold fake.HasCharge. by rewrite Hl.
      * destruct (fake.flag _ _); run_go; [by rewrite Hnew in E|]. simplify_eq.
        unfold fake.HasCharge. simpl. rewrite Hl. split_and!; [done..|]. intros _.
        unfold fake.Charge. rewrite run_get. simpl. rewrite Hl, Hm. unfold fake.flag. simpl.
        rewrite lookup_insert_eq. simpl. done.
  - unfold fake.Refund, fake.HasCharge, fake.IsRefunded. rewrite run_get.
    destruct (fp_charges p !! fake.ChargeKey_String key) eqn:Hl; simpl.
    + rewrite run_get. simpl. rewrite Hl. unfold modify, fake.set_refunded. simpl.
      split_and!; try done; [by rewrite insert_insert_eq|].
      unfold fake.flag. simpl. by rewrite lookup_insert_eq, orb_true_r.
    + rewrite run_get, Hl. split_and!; try done. by rewrite orb_false_r.
Qed.

(** * Witnesses *)

Import demo_uuid.

#[export] Instance demo_repository : InvoiceRepository InvoiceInMemoryRepository :=
  inmem.repository (fun l => l).
#[export] Instance demo_laws : InvoiceRepositoryLaws InvoiceInMemoryRepository :=
  inmem_laws (fun l => l) (fun l => reflexivity l).

Definition demo_store : InvoiceInMemoryRepository :=
  mkInvoiceInMemoryRepository {[ mkInvoiceID 1 := set_events [] demo_invoice ]}.

Lemma demo_store_ok : inv_ok demo_store.
Proof.
  intros id i. simpl. rewrite lookup_singleton_Some. intros [<- <-]. split; [|done].
  constructor; try done. by left.
Defined.

Lemma system_commands_witness :
  ∃ s' v, VoidInvoiceHandler 5 (mkVoidInvoice (mkInvoiceID 1)) demo_store = (Ok tt, s')
    ∧ inv_ok s' ∧ inv_view s' = <[mkInvoiceID 1 := stored v (voided 5 (set_events [] demo_invoice))]>
                                  (inv_view demo_store).
Proof. exact (proj1 (system_commands 5 demo_store (mkInvoiceID 1) demo_store_ok)). Defined.

Definition demo_issue (now : Time) : M InvoiceInMemoryRepository unit :=
  Facade_IssueInvoice (mkCommissionPolicy 1000) (mkPaymentTerm Second) now 4 5 6 70000 "EUR" 2.

Lemma demo_issue_run : demo_issue Second demo_store = (Ok tt, (demo_issue Second demo_store).2).
Proof. apply run_Ok. vm_compute. reflexivity. Qed.

Lemma issue_idempotent_witness :
  let s' := (demo_issue Second demo_store).2 in
  Facade_IssueInvoice (mkCommissionPolicy 1000) (mkPaymentTerm Second) (2 * Second) 4 5 6 70000
    "EUR" 2 s' = (Ok tt, s').
Proof.
  assert (valid_policy (mkCommissionPolicy 1000)) as H1 by (split; done).
  assert (0 < Second) as H2 by done. assert (0 < 2 * Second) as H3 by done.
  assert (70000 * 10000 ≤ int64_max) as H4 by done.
  pose proof (issue_idempotent (mkCommissionPolicy 1000) (mkPaymentTerm Second) Second
    (2 * Second) 4 5 6 70000 "EUR" 2 6 70000 "EUR" demo_store (demo_issue Second demo_store).2
    demo_store_ok H1 H2 H2 H3 H4 H4 demo_issue_run) as H.
  destruct H as (_ & _ & H). exact H.
Defined.

Lemma tick_expires_due_witness :
  ∃ s', ExpiryWorker_tick (3 * Second) (fun _ => 3 * Second) demo_store = (Ok tt, s') ∧ inv_ok s'.
Proof.
  destruct (tick_expires_due (3 * Second) (fun _ => 3 * Second) demo_store demo_store_ok
    (fun _ => Z.le_refl _)) as (s' & H1 & H2 & _).
  exists s'. split; assumption.
Defined.

Definition demo_psp : FakePSP := mkFakePSP PSPModeFlaky ∅ ∅ ∅ 0.
Lemma demo_psp_ok : fake_ok demo_psp.
Proof. intros k ref E. simpl in E. by rewrite lookup_empty in E. Defined.

Lemma fake_psp_contract_witness :
  (fake.Refund (mkInvoiceID 1) demo_psp).1 = Ok tt.
Proof. exact (proj1 (proj2 (fake_psp_contract (mkInvoiceID 1) demo_hammer demo_hammer demo_psp demo_psp_ok))). Defined.
End billing_theory.
