(* ===== verification/Outbox.v ===== *)
(** * What the outboxes say

    The integration events the auction and the billing repositories write to
    their outboxes, in the transaction that changes the aggregate, stay true
    of the aggregates they name: what a subscriber reads, however late, is so.
    The laws of the two repository interfaces hold with this invariant. *)

From stdpp Require Import base numbers list strings gmap fin_maps.
From Stdlib Require Import ZArith Lia.
From S2P Require Import Prelude Errs Postgres Events AuctionDomain AuctionTheory AuctionRepo AuctionRepoTheory InvoiceDomain InvoiceRepo InvoiceRepoTheory InvoiceTheory.

(** ** Auctions *)

Module auction_outbox.
Import auction auction_theory auction_repo auction_repo_theory.
Local Open Scope Z_scope.

Section Auctions.
Context `{UUIDLib}.
Implicit Types (x : Auction) (ev : AuctionEvent).

(** How an event names a bid, absent or not. *)
Definition told_bidder (b : Bid) : string :=
  if negb (IsZero b) then BidderID_String (b_bidder b) else "".
Definition told_amount (b : Bid) : Z := if negb (IsZero b) then m_amount (b_amount b) else 0.

(** The bids a sale was closed with: the auction still has them, or had its
    runner-up promoted. *)
Definition closing_bids x (e : AuctionClosedV1) : Prop :=
  if a_winnerReassigned x
  then acl_RunnerUpBidderID e = told_bidder (a_leadingBid x)
       ∧ acl_RunnerUpAmountMinor e = told_amount (a_leadingBid x)
  else acl_WinnerID e = told_bidder (a_leadingBid x)
       ∧ acl_HammerPriceMinor e = told_amount (a_leadingBid x)
       ∧ acl_RunnerUpBidderID e = told_bidder (a_runnerUpBid x)
       ∧ acl_RunnerUpAmountMinor e = told_amount (a_runnerUpBid x).

(** [ev] is true of the stored auction [x]. *)
Definition published x ev : Prop :=
  let id := AuctionID_String (a_id x) in
  let seller := SellerID_String (a_seller x) in
  let currency := c_code (m_currency (a_startPrice x)) in
  match ev with
  | EvAuctionListedV1 e =>
      al_AuctionID e = id ∧ al_SellerID e = seller ∧ al_Title e = l_title (a_lot x)
      ∧ al_StartPriceMinor e = m_amount (a_startPrice x) ∧ al_Currency e = currency
      ∧ al_StartsAt e = w_startsAt (a_window x) ∧ al_RelistGeneration e = a_relistGen x
  | EvBidPlacedV1 e => bp_AuctionID e = id ∧ bp_Currency e = currency
  | EvAuctionCancelledV1 e =>
      acn_AuctionID e = id ∧ acn_SellerID e = seller ∧ a_status x = StatusCancelled
  | EvAuctionClosedV1 e =>
      acl_AuctionID e = id ∧ acl_SellerID e = seller ∧ acl_Currency e = currency
      ∧ acl_RelistGeneration e = a_relistGen x ∧ a_status x = StatusClosed
      ∧ (acl_Outcome e = Outcome_String OutcomeSold ∧ closing_bids x e
         ∨ acl_Outcome e = Outcome_String OutcomeNotSold ∧ acl_WinnerID e = ""
           ∧ a_outcome x = OutcomeNotSold)
  | EvWinnerReassignedV1 e =>
      wr_AuctionID e = id ∧ wr_Currency e = currency ∧ a_status x = StatusClosed
      ∧ a_winnerReassigned x = true ∧ wr_NewWinnerID e = BidderID_String (b_bidder (a_leadingBid x))
      ∧ wr_PriceMinor e = m_amount (b_amount (a_leadingBid x))
  | EvAuctionRelistedV1 e =>
      ar_NewAuctionID e = id ∧ ar_OriginalAuctionID e = AuctionID_String (a_relistOf x)
  | EvSaleSettledV1 e =>
      ss_AuctionID e = id ∧ ss_WinnerID e = BidderID_String (b_bidder (a_leadingBid x))
      ∧ a_status x = StatusClosed ∧ a_outcome x = OutcomeSold ∧ a_settled x = true
  | EvSaleFailedV1 e =>
      sf_AuctionID e = id ∧ a_status x = StatusClosed ∧ a_outcome x = OutcomeNotSold
  end.

(** *** What a method records, and what it leaves *)

(** Only an auction that is listed, or sold and neither settled nor failed,
    has a method that succeeds. *)
Lemma run_live c x r x' : run c x = (Ok r, x') →
  a_status x = StatusListed
  ∨ a_status x = StatusClosed ∧ a_outcome x ≠ OutcomeNotSold ∧ a_settled x = false.
Proof.
  destruct c; simpl; intros Hr; try (apply forget_ok in Hr as [y Hr]).
  - apply PlaceBid_ok_inv in Hr as (_ & Ha & _). left. pose proof (acc_open _ _ _ _ _ Ha) as Ho.
    unfold Auction_IsOpenAt in Ho. by breflect.
  - apply Cancel_ok_inv in Hr as (_ & ? & _). by left.
  - apply Close_ok_inv in Hr as (? & _). by left.
  - apply AwardToRunnerUp_ok_inv in Hr as (? & _ & ? & E & _). right. by rewrite E.
  - apply ConfirmSettlement_ok_inv in Hr as (? & E & ? & _). right. by rewrite E.
  - apply FailSale_ok_inv in Hr as (_ & ? & ? & ? & _). by right.
Qed.

Lemma run_event_says c x r x' :
  a_events x = [] → a_winnerReassigned x = false ∨ a_status x = StatusClosed →
  run c x = (Ok r, x') → Forall (event_says x') (a_events x').
Proof.
  intros He Hw. destruct c; simpl; intros Hr; try (apply forget_ok in Hr as [y Hr]).
  - apply PlaceBid_ok_inv in Hr as (_ & _ & _ & ->). unfold accept.
    destruct (extends x now); simpl; rewrite He; by repeat constructor.
  - apply Cancel_ok_inv in Hr as (_ & _ & _ & ->). simpl. rewrite He. by repeat constructor.
  - apply Close_ok_inv in Hr as (Hs & _ & -> & ->). simpl. rewrite He.
    constructor; [|done]. simpl. destruct Hw as [Hw|Hw]; [|congruence].
    split_and!; try done; destruct (sells x); try done.
  - apply AwardToRunnerUp_ok_inv in Hr as (? & _ & _ & _ & _ & -> & ->). simpl. rewrite He.
    by repeat constructor.
  - apply ConfirmSettlement_ok_inv in Hr as (? & ? & _ & ->). simpl. rewrite He.
    by repeat constructor.
  - apply FailSale_ok_inv in Hr as (_ & ? & _ & _ & ->). simpl. rewrite He. by repeat constructor.
Qed.

(** What is published is what the domain events say, and stays true. *)
Lemma event_published n x e ev :
  event_says x e → mapDomainEvent n x e = Some ev → published x ev.
Proof.
  destruct e as [t|bid out t1 b t|t1 t|t|r t|bid t|o i t1 t2 t|t|why t]; simpl;
    intros Hs Hm; simplify_eq/=; try done.
  - destruct Hs as (Hst & Hw & Hz & Ho & Hwin & Hru). split_and!; try done.
    unfold closing_bids, told_bidder, told_amount. rewrite Hw, Hwin, Hru, Ho.
    destruct (a_outcome x) eqn:E; [done|left|right]; simpl; [by split_and!|].
    by split_and!.
  - destruct Hs as (? & ? & <-). by split_and!.
  - by destruct Hs as [<- <-].
Qed.

Lemma published_stored x ev : published (stored x) ev ↔ published x ev.
Proof. by destruct ev. Qed.

(** What a method does to the bids of a closed auction. *)
Lemma run_closed c x r x' : a_status x = StatusClosed → run c x = (Ok r, x') →
  a_status x' = StatusClosed
  ∧ (a_winnerReassigned x' = a_winnerReassigned x ∧ a_leadingBid x' = a_leadingBid x
       ∧ a_runnerUpBid x' = a_runnerUpBid x
     ∨ a_winnerReassigned x = false ∧ a_winnerReassigned x' = true
       ∧ a_leadingBid x' = a_runnerUpBid x).
Proof.
  intros Hc. destruct c; simpl; intros Hr; try (apply forget_ok in Hr as [y Hr]).
  - apply PlaceBid_ok_inv in Hr as (_ & Ha & _). pose proof (acc_open _ _ _ _ _ Ha) as Ho.
    unfold Auction_IsOpenAt in Ho. breflect. congruence.
  - apply Cancel_ok_inv in Hr as (_ & ? & _). congruence.
  - apply Close_ok_inv in Hr as (? & _). congruence.
  - apply AwardToRunnerUp_ok_inv in Hr as (_ & ? & _ & _ & _ & _ & ->). split; [done|by right].
  - apply ConfirmSettlement_ok_inv in Hr as (_ & _ & _ & ->). split; [done|by left].
  - apply FailSale_ok_inv in Hr as (_ & _ & _ & _ & ->). split; [done|by left].
Qed.

Lemma published_run c x r x' ev : run c x = (Ok r, x') → published x ev → published x' ev.
Proof.
  intros Hr. pose proof (run_ok_same_listing _ _ _ _ Hr) as
    [Hi Hse Hlo Hst _ _ _ _ Hof Hge _ Hsa _].
  destruct (run_live _ _ _ _ Hr) as [Hl|(Hc & Ho & Hn)];
    destruct ev as [e|e|e|e|e|e|e|e]; simpl; rewrite ?Hi, ?Hse, ?Hlo, ?Hst, ?Hof, ?Hge, ?Hsa;
    try done; try (intros; destruct_and?; congruence).
  - intros (? & ? & ? & ? & _ & [(? & Hb)|(_ & _ & ?)]); [|done].
    destruct (run_closed _ _ _ _ Hc Hr) as [? Hk]. split_and!; try done. left. split; [done|].
    unfold closing_bids in *.
    destruct Hk as [(-> & -> & ->)|(Hw & -> & ->)]; [done|]. rewrite Hw in Hb. by destruct_and!.
  - intros (? & ? & _ & Hw & ? & ?). destruct (run_closed _ _ _ _ Hc Hr) as [? Hk].
    destruct Hk as [(-> & -> & _)|(? & _)]; [by split_and!|congruence].
Qed.

Lemma run_open c x r x' :
  a_winnerReassigned x = false ∨ a_status x = StatusClosed → run c x = (Ok r, x') →
  a_winnerReassigned x' = false ∨ a_status x' = StatusClosed.
Proof.
  intros [Hw|Hc] Hr; [|right; by eapply run_closed].
  apply run_ok_inv in Hr. destruct c; break; auto.
Qed.

(** *** The events of one change *)

Lemma mapEvents_elem n x es ev : ev ∈ (mapEvents n x es).1 →
  ∃ m e, e ∈ es ∧ mapDomainEvent m x e = Some ev.
Proof.
  revert n. induction es as [|e es IH]; intros n; simpl; [by intros ?%not_elem_of_nil|].
  destruct (mapDomainEvent n x e) as [ev'|] eqn:E.
  - specialize (IH (S n)). destruct (mapEvents (S n) x es) as [evs k]. simpl in *.
    intros [->|Hin]%elem_of_cons; [exists n, e; split; [by left|done]|].
    destruct (IH Hin) as (m & e' & ? & ?). exists m, e'. split; [by right|done].
  - intros (m & e' & ? & ?)%IH. exists m, e'. split; [by right|done].
Qed.

Lemma mapEvents_drained n x es : mapEvents n (set_events [] x) es = mapEvents n x es.
Proof.
  revert n. induction es as [|e es IH]; intros n; [done|]. simpl.
  assert (mapDomainEvent n (set_events [] x) e = mapDomainEvent n x e) as -> by (by destruct e).
  by rewrite !IH.
Qed.

(** The auction whose closing an event announces. *)
Definition closing_of ev : option string :=
  match ev with EvAuctionClosedV1 e => Some (acl_AuctionID e) | _ => None end.

(** A method announces a closing only when it closes. *)
Lemma run_closings n c x r x' : a_events x = [] → run c x = (Ok r, x') →
  omap closing_of (mapEvents n x' (a_events x')).1 = []
  ∨ a_status x = StatusListed
    ∧ omap closing_of (mapEvents n x' (a_events x')).1 = [AuctionID_String (a_id x)].
Proof.
  intros He. destruct c; simpl; intros Hr; try (apply forget_ok in Hr as [y Hr]).
  - apply PlaceBid_ok_inv in Hr as (_ & _ & _ & ->). unfold accept. left.
    destruct (extends x now); simpl; by rewrite He.
  - apply Cancel_ok_inv in Hr as (_ & _ & _ & ->). left. simpl. by rewrite He.
  - apply Close_ok_inv in Hr as (? & _ & _ & ->). right. split; [done|]. simpl. by rewrite He.
  - apply AwardToRunnerUp_ok_inv in Hr as (_ & _ & _ & _ & _ & _ & ->). left. simpl. by rewrite He.
  - apply ConfirmSettlement_ok_inv in Hr as (_ & _ & _ & ->). left. simpl. by rewrite He.
  - apply FailSale_ok_inv in Hr as (_ & _ & _ & _ & ->). left. simpl. by rewrite He.
Qed.

Lemma opens_closings n x : opens x → omap closing_of (mapEvents n x (a_events x)).1 = [].
Proof.
  intros (Hs & _ & _ & Hf). apply elem_of_nil_inv. intros c (ev & Hin & Hc)%list_elem_of_omap. apply mapEvents_elem in Hin as (m & e & Hin & Hm).
  rewrite Forall_forall in Hf. specialize (Hf e Hin). destruct e; simplify_eq/=; destruct_and?; congruence.
Qed.

(** What an event announces of a bid, and what the bid history holds of it:
    the bid, the auction, the bidder and the amount. *)
Definition announced_bid ev : option (string * string * string * Z) :=
  match ev with
  | EvBidPlacedV1 e => Some (bp_BidID e, bp_AuctionID e, bp_BidderID e, bp_AmountMinor e)
  | _ => None
  end.
Definition recorded_bid (r : pgBid) : string * string * string * Z :=
  (uuid_String (pb_bid_id r), uuid_String (pb_auction_id r), uuid_String (pb_bidder_id r),
   pb_amount_minor r).

(** The repository announces the very bids it appends to the history. *)
Lemma announced_recorded n x y es : a_id y = a_id x →
  omap announced_bid (mapEvents n x es).1 = recorded_bid <$> (pg.bid_row y <$> placed es).
Proof.
  intros Hi. revert n. induction es as [|e es IH]; intros n; [done|].
  destruct e as [| b ? ? ? ? | | | | | | |]; simpl; try apply IH;
    specialize (IH (S n)); destruct (mapEvents (S n) x es) as [evs k]; try exact IH.
  simpl. f_equal; [|exact IH]. unfold recorded_bid. simpl. by rewrite Hi.
Qed.

(** *** The database *)

(** Everything in the outbox is true, no closing is announced twice, and the
    bids announced are those of the history, in its order. *)
Record told (db : AuctionDB) : Prop := {
  to_true : ∀ ev, ev ∈ db_outbox db → ∃ x, pg_view db !! a_id x = Some x ∧ published x ev;
  to_once : NoDup (omap closing_of (db_outbox db));
  to_bids : omap announced_bid (db_outbox db) = recorded_bid <$> db_bids db;
  to_open : ∀ id x, pg_view db !! id = Some x →
    a_winnerReassigned x = false ∨ a_status x = StatusClosed;
}.


Context `{!UUIDLaws}.

Lemma AuctionID_String_inj i j : AuctionID_String i = AuctionID_String j → i = j.
Proof.
  unfold AuctionID_String. intros E. apply (f_equal uuid_Parse) in E.
  rewrite !uuid_Parse_String in E. destruct i, j. simpl in *. congruence.
Qed.

(** One change: the auction [x] is put under its identity and its events are
    appended. *)
Lemma told_put db db' x evs bids :
  told db → pg_view db' = <[a_id x := x]> (pg_view db) →
  db_outbox db' = db_outbox db ++ evs → db_bids db' = db_bids db ++ bids →
  omap announced_bid evs = recorded_bid <$> bids →
  (∀ ev, ev ∈ evs → published x ev) →
  (∀ y ev, pg_view db !! a_id x = Some y → published y ev → published x ev) →
  omap closing_of evs = []
    ∨ (∀ y, pg_view db !! a_id x = Some y → a_status y = StatusListed)
      ∧ omap closing_of evs = [AuctionID_String (a_id x)] →
  a_winnerReassigned x = false ∨ a_status x = StatusClosed →
  told db'.
Proof.
  intros [Ht Ho Hb Hw] Hv Hout Hbids Hann Hnew Hold Hcl Hx. split.
  - intros ev. rewrite Hout, Hv. intros [Hin|Hin]%elem_of_app.
    + destruct (Ht ev Hin) as (y & Hy & Hp). destruct (decide (a_id y = a_id x)) as [E|Hne].
      * exists x. rewrite lookup_insert_eq. split; [done|]. rewrite E in Hy. eauto.
      * exists y. by rewrite lookup_insert_ne.
    + exists x. rewrite lookup_insert_eq. auto.
  - rewrite Hout, omap_app. destruct Hcl as [->|[Hl ->]]; [by rewrite app_nil_r|].
    apply NoDup_app. split_and!; [done| |apply NoDup_singleton].
    intros c (ev & Hin & Hc)%list_elem_of_omap ->%list_elem_of_singleton.
    destruct (Ht ev Hin) as (y & Hy & Hp). destruct ev as [| | |e| | | |]; simplify_eq/=.
    destruct Hp as (Hid & _ & _ & _ & Hs & _). rewrite Hid in Hc.
    apply AuctionID_String_inj in Hc. rewrite Hc in Hy. rewrite (Hl y Hy) in Hs. done.
  - by rewrite Hout, Hbids, omap_app, fmap_app, Hb, Hann.
  - intros id y. rewrite Hv, lookup_insert_Some. intros [[_ <-]|[_ Hy]]; [done|by eapply Hw].
Qed.

(** *** The laws, with the outbox *)

Definition pg_told (db : AuctionDB) : Prop := pg_ok db ∧ told db.

Lemma told_updated c db x r x' :
  pg_told db → pg_view db !! a_id x = Some x → run c x = (Ok r, x') → storable x' →
  told (pg_updated x' db).
Proof.
  intros [Hok Ht] Hl Hr Hs. pose proof (sl_id _ _ (run_ok_same_listing _ _ _ _ Hr)) as Hid.
  pose proof (to_open db Ht _ _ Hl) as Hop.
  destruct (proj1 (pg_view_lookup db _ x Hok) Hl) as (_ & _ & He & _).
  apply (told_put db _ (stored x') (mapEvents (db_drawn db) x' (a_events x')).1
    (pg.bid_row (set_events [] x') <$> placed (a_events x'))).
  - done.
  - exact (pg_view_updated x' db Hs).
  - unfold pg_updated. rewrite mapEvents_drained. by destruct (mapEvents _ _ _).
  - unfold pg_updated. by destruct (mapEvents _ _ _).
  - by apply announced_recorded.
  - intros ev (m & e & Hin & Hm)%mapEvents_elem. apply published_stored.
    pose proof (run_event_says _ _ _ _ He Hop Hr) as Hf. rewrite Forall_forall in Hf.
    eapply (event_published m); [by apply Hf|done].
  - simpl. rewrite Hid, Hl. intros y ev [= <-] Hp. apply published_stored. by eapply published_run.
  - simpl. rewrite Hid, Hl. destruct (run_closings (db_drawn db) _ _ _ _ He Hr) as [E|[Hst E]].
    + by left.
    + right. split; [|done]. by intros y [= <-].
  - exact (run_open _ _ _ _ Hop Hr).
Qed.

Lemma told_added db x :
  pg_told db → pg_view db !! a_id x = None → storable x → opens x → told (pg_added x db).
Proof.
  intros [Hok Ht] Hl Hs Ho. pose proof Ho as (_ & Hw & Hp & Hf).
  apply (told_put db _ (set_events [] x) (mapEvents (db_drawn db) x (a_events x)).1 []).
  - done.
  - unfold pg_added. destruct (mapEvents _ _ _).
    by apply (pg_view_put (set_events [] x)); [apply storable_drained|].
  - unfold pg_added. by destruct (mapEvents _ _ _).
  - unfold pg_added. rewrite app_nil_r. by destruct (mapEvents _ _ _).
  - rewrite (announced_recorded _ x x _ eq_refl). by rewrite Hp.
  - intros ev (m & e & Hin & Hm)%mapEvents_elem. rewrite Forall_forall in Hf.
    eapply (event_published m); [by apply (Hf e)|done].
  - simpl. by rewrite Hl.
  - left. by apply opens_closings.
  - by left.
Qed.

Definition pg_told_laws : @AuctionRepositoryLaws AuctionDB (pg.repository no_faults).
Proof.
  refine {| repo_ok := pg_told; repo_view := pg_view; bids_fresh := fresh_bids |}.
  - apply (bids_fresh_nil (AuctionRepositoryLaws := pg_laws)).
  - intros s id a [Hs _]. by apply (view_ok (AuctionRepositoryLaws := pg_laws)).
  - intros s id a [Hs _]. by apply (Get_Some (AuctionRepositoryLaws := pg_laws)).
  - intros s id [Hs _]. by apply (Get_None (AuctionRepositoryLaws := pg_laws)).
  - apply (Update_as_system (AuctionRepositoryLaws := pg_laws)).
  - apply (Update_no_actor (AuctionRepositoryLaws := pg_laws)).
  - intros id fn s [Hs _]. by apply (Update_missing (AuctionRepositoryLaws := pg_laws)).
  - intros id fn s a e [Hs _]. by apply (Update_fail (AuctionRepositoryLaws := pg_laws)).
  - intros id fn s a a' Hs Hl Hfn Had Hfr. exists (pg_updated a' s).
    pose proof Had as [(c & r & Hr) Hsl Hso _].
    destruct (proj1 (pg_view_lookup s id a (proj1 Hs)) Hl) as (_ & _ & _ & Hid).
    split_and!.
    + change (repo_UpdateAsSystem id fn s) with (pg.update no_faults id fn s).
      by rewrite (pg_update_run _ _ _ _ a a') by (done || apply Hs).
    + split; [apply pg_ok_updated; [apply Hs|done]|]. eapply told_updated; [done| |done..].
      by rewrite Hid.
    + by rewrite pg_view_updated, (sl_id _ _ Hsl), Hid.
  - intros s a a0 [Hs _]. by apply (Add_exists (AuctionRepositoryLaws := pg_laws)).
  - intros s a id' a' [Hs _]. by apply (Add_relisted (AuctionRepositoryLaws := pg_laws)).
  - intros s a Hs Ha Ho Hl Hr. exists (pg_added a s).
    assert (pg_view (pg_added a s) = <[a_id a := set_events [] a]> (pg_view s)) as Hv.
    { unfold pg_added. destruct (mapEvents _ _ _).
      by apply (pg_view_put (set_events [] a)); [apply storable_drained|]. }
    split_and!; [exact (pg_add_run no_faults a s (proj1 Hs) Hl Hr)| |done].
    split; [|by apply told_added]. unfold pg_added. destruct (mapEvents _ _ _).
    apply (pg_ok_put (set_events [] a)); [apply Hs|by apply storable_drained|done].
  - intros s before limit [Hs _]. by apply (Due_spec (AuctionRepositoryLaws := pg_laws)).
Defined.
End Auctions.
End auction_outbox.

(** ** Invoices *)

Module billing_outbox.
Import invoice invoice_repo invoice_repo_theory.
Local Open Scope Z_scope.

Section Invoices.
Context `{UUIDLib}.
Implicit Types (i : Invoice) (ev : BillingEvent).

(** [ev] is true of the stored invoice [i]. *)
Definition published i ev : Prop :=
  let id := InvoiceID_String (i_id i) in
  let auction := AuctionID_String (i_auctionID i) in
  let debtor := BidderID_String (i_debtor i) in
  let currency := c_code (m_currency (i_total i)) in
  match ev with
  | EvInvoiceIssuedV1 e =>
      ii_InvoiceID e = id ∧ ii_AuctionID e = auction ∧ ii_DebtorID e = debtor
      ∧ ii_HammerMinor e = m_amount (i_hammer i) ∧ ii_CommissionMinor e = m_amount (i_commission i)
      ∧ ii_TotalMinor e = m_amount (i_total i) ∧ ii_Currency e = currency
      ∧ ii_DueAt e = i_dueAt i ∧ ii_Attempt e = Attempt_Int (i_attempt i)
  | EvInvoicePaidV1 e =>
      ip_InvoiceID e = id ∧ ip_AuctionID e = auction ∧ ip_DebtorID e = debtor
      ∧ ip_TotalMinor e = m_amount (i_total i) ∧ ip_Currency e = currency
      ∧ i_status i = StatusPaid
  | EvInvoiceExpiredV1 e =>
      ie_InvoiceID e = id ∧ ie_AuctionID e = auction ∧ ie_DebtorID e = debtor
      ∧ ie_Attempt e = Attempt_Int (i_attempt i) ∧ i_status i = StatusExpired
  end.

Lemma bill_event_published n i e ev :
  event_says i e → toIntegrationEvent n e = Some ev → published i ev.
Proof. destruct e; simpl; intros Hs Hm; simplify_eq/=; destruct_and?; subst; by split_and!. Qed.

(** A pending invoice has told nothing a method could make false. *)
Lemma bill_published_admissible i i' ev : admissible i i' → published i ev → published i' ev.
Proof.
  intros (Hp & st & ref & e & _ & -> & _).
  destruct ev; simpl; [done|..]; intros; destruct_and?; congruence.
Qed.

Lemma bill_mapEvents_elem n es ev : ev ∈ (mapEvents n es).1 →
  ∃ m e, e ∈ es ∧ toIntegrationEvent m e = Some ev.
Proof.
  revert n. induction es as [|e es IH]; intros n; simpl; [by intros ?%not_elem_of_nil|].
  destruct (toIntegrationEvent n e) as [ev'|] eqn:E.
  - specialize (IH (S n)). destruct (mapEvents (S n) es) as [evs k]. simpl in *.
    intros [->|Hin]%elem_of_cons; [exists n, e; split; [by left|done]|].
    destruct (IH Hin) as (m & e' & ? & ?). exists m, e'. split; [by right|done].
  - intros (m & e' & ? & ?)%IH. exists m, e'. split; [by right|done].
Qed.

(** Everything in the outbox is true. *)
Definition told (db : InvoiceDB) : Prop :=
  ∀ ev, ev ∈ db_outbox db → ∃ i, pg_view db !! i_id i = Some i ∧ published i ev.

Definition pg_told (db : InvoiceDB) : Prop := pg_ok db ∧ told db.

(** One change: the invoice [i] is put under its identity and its events are
    appended. *)
Lemma bill_told_put db db' i evs :
  told db → pg_view db' = <[i_id i := i]> (pg_view db) → db_outbox db' = db_outbox db ++ evs →
  (∀ ev, ev ∈ evs → published i ev) →
  (∀ j ev, pg_view db !! i_id i = Some j → published j ev → published i ev) →
  told db'.
Proof.
  intros Ht Hv Hout Hnew Hold ev. rewrite Hout, Hv. intros [Hin|Hin]%elem_of_app.
  - destruct (Ht ev Hin) as (j & Hj & Hp). destruct (decide (i_id j = i_id i)) as [E|Hne].
    + exists i. rewrite lookup_insert_eq. split; [done|]. rewrite E in Hj. eauto.
    + exists j. by rewrite lookup_insert_ne.
  - exists i. rewrite lookup_insert_eq. auto.
Qed.

Lemma bill_told_updated db id i i' :
  pg_told db → pg_view db !! id = Some i → admissible i i' →
  told (pg_updated id (i_version i) i' db).
Proof.
  intros [Hok Ht] Hl Had. destruct (proj1 (inv_pg_view_lookup db id i Hok) Hl) as (_ & Hst & He & Hid).
  assert (0 ≤ i_version i) as Hv by (pose proof (so_version i Hst); lia).
  assert (i_id i' = id) as Hid' by (destruct Had as (_ & ? & ? & ? & _ & -> & _); done).
  apply (bill_told_put db _ (stored (i_version i + 1) i') (mapEvents (db_drawn db) (i_events i')).1).
  - done.
  - rewrite (inv_pg_view_updated id i) by done. by rewrite <-Hid'.
  - unfold pg_updated. by destruct (mapEvents _ _).
  - intros ev (m & e & Hin & Hm)%bill_mapEvents_elem. eapply (bill_event_published m); [|done].
    destruct Had as (_ & st & ref & e' & _ & -> & Hs). simpl in Hin. rewrite He in Hin.
    by apply list_elem_of_singleton in Hin as ->.
  - simpl. rewrite Hid', Hl. intros j ev [= <-] Hp. by apply (bill_published_admissible i i').
Qed.

Lemma bill_told_added db i :
  pg_told db → storable i → Forall (event_says i) (i_events i) → pg_view db !! i_id i = None →
  told (pg_added i db).
Proof.
  intros [Hok Ht] Hst Hf Hl.
  apply (bill_told_put db _ (set_events [] i) (mapEvents (db_drawn db) (i_events i)).1).
  - done.
  - unfold pg_added. destruct (mapEvents _ _).
    by apply (inv_pg_view_put (set_events [] i)); [apply inv_storable_drained|].
  - unfold pg_added. by destruct (mapEvents _ _).
  - intros ev (m & e & Hin & Hm)%bill_mapEvents_elem. rewrite Forall_forall in Hf.
    eapply (bill_event_published m); [by apply (Hf e)|done].
  - simpl. by rewrite Hl.
Qed.

Definition pg_told_laws : @InvoiceRepositoryLaws InvoiceDB (pg.repository no_faults).
Proof.
  refine {| inv_ok := pg_told; inv_view := pg_view |}.
  - intros s id i [Hs _]. by apply (inv_view_ok (InvoiceRepositoryLaws := pg_laws)).
  - intros s id i [Hs _]. by apply (inv_Get_own (InvoiceRepositoryLaws := pg_laws)).
  - intros s id actor [Hs _]. by apply (inv_Get_foreign (InvoiceRepositoryLaws := pg_laws)).
  - intros s id i fn [Hs _]. by apply (inv_Update_own (InvoiceRepositoryLaws := pg_laws)).
  - intros s id actor fn [Hs _]. by apply (inv_Update_foreign (InvoiceRepositoryLaws := pg_laws)).
  - intros s id fn [Hs _]. by apply (inv_System_missing (InvoiceRepositoryLaws := pg_laws)).
  - intros s id i fn e [Hs _]. by apply (inv_System_fail (InvoiceRepositoryLaws := pg_laws)).
  - intros s id i i' fn Hs Hl Hfn Had. pose proof Hs as [Hok _].
    destruct (proj1 (inv_pg_view_lookup s id i Hok) Hl) as (_ & Hst & _ & Hid).
    assert (0 ≤ i_version i) as Hv by (pose proof (so_version i Hst); lia).
    exists (pg_updated id (i_version i) i' s), (i_version i + 1). split_and!.
    + change (inv_UpdateAsSystem id fn s) with (pg.update no_faults id None fn s).
      by rewrite (inv_pg_update_run _ _ _ _ _ i i').
    + split; [by eapply inv_pg_ok_updated|by apply bill_told_updated].
    + by eapply inv_pg_view_updated.
  - intros s i [Hs _]. by apply (inv_Add_taken (InvoiceRepositoryLaws := pg_laws)).
  - intros s i Hs Hi Hf Ht. exists (pg_added i s).
    assert (pg_view s !! i_id i = None) as Hn.
    { destruct (pg_view s !! i_id i) eqn:E; [|done]. destruct Ht. left. by rewrite E. }
    split_and!; [exact (inv_pg_add_run no_faults i s (proj1 Hs) Ht)| |].
    + split; [|by apply bill_told_added]. unfold pg_added. destruct (mapEvents _ _).
      by apply (inv_pg_ok_put (set_events [] i)); [apply Hs|apply inv_storable_drained|].
    + unfold pg_added. destruct (mapEvents _ _).
      by apply (inv_pg_view_put (set_events [] i)); [apply inv_storable_drained|].
  - intros s t limit [Hs _]. by apply (inv_Due_spec (InvoiceRepositoryLaws := pg_laws)).
Defined.
End Invoices.
End billing_outbox.
