(* ===== verification/PaymentProtocol.v ===== *)
(** * The payment protocol

    [PayInvoice] as one run and as a process whose steps interleave with
    other payments, the expiry worker, the saga's commands and crashes; the
    invariant of the interleaving, over any repository and provider that
    satisfy their contracts. *)

From stdpp Require Import base numbers list strings gmap fin_maps.
From Stdlib Require Import ZArith Lia.
From S2P Require Import Prelude DemoUUID Errs Auth Postgres Events InvoiceDomain InvoiceRepo Billing InvoiceRepoTheory InvoiceTheory BillingTheory.

Module payment.
Import invoice invoice_repo billing invoice_repo_theory invoice_theory billing_theory.
Local Open Scope Z_scope.

Section Pay.
Context {S P : Type} `{InvoiceRepositoryLaws S} `{PaymentGatewayLaws P}.
Implicit Types (m : S * P) (cmd : PayInvoice) (id : InvoiceID).

(** ** Running the handler *)

Lemma run_attempt {W A B} (c : M W A) (k : res error A → M W B) w :
  (attempt c ≫= k) w =
    match c w with
    | (Ok a, w') => k (Ok a) w'
    | (Fail e, w') => k (Fail e) w'
    | (Panic p, w') => (Panic p, w')
    end.
Proof. unfold attempt, mbind, GoM_bind. by destruct (c w) as [[] ?]. Qed.

Lemma refund_throw key answer m :
  (refund (S := S) (P := P) key;; throw answer : M (S * P) unit) m =
    match refund key m with
    | (Ok _, m') => (Fail answer, m')
    | (Fail e, m') => (Fail e, m')
    | (Panic p, m') => (Panic p, m')
    end.
Proof. unfold mbind, GoM_bind. by destruct (refund key m) as [[] ?]. Qed.

(** [n] steps of a payment. *)
Fixpoint pay_steps (now : Time) cmd (n : nat) (c : pay_pc * (S * P)) : pay_pc * (S * P) :=
  match n with
  | O => c
  | Datatypes.S n => pay_steps now cmd n (pay_step now cmd c.1 c.2)
  end.

Lemma pay_steps_finished now cmd n r m :
  pay_steps now cmd n (Finished r, m) = (Finished r, m).
Proof. by induction n. Qed.

(** ** What steps preserve *)

(** Charges stay, and an invoice keeps its debtor and total; once it is no
    longer pending it keeps everything the protocol looks at. *)
Record evolves m m' : Prop := {
  ev_charge : ∀ id ref, gw_charge m.2 id = Some ref → gw_charge m'.2 id = Some ref;
  ev_view : ∀ id i, inv_view m.1 !! id = Some i →
    ∃ i', inv_view m'.1 !! id = Some i' ∧ i_debtor i' = i_debtor i ∧ i_total i' = i_total i
      ∧ (i_status i ≠ StatusPending → i_status i' = i_status i ∧ i_pspRef i' = i_pspRef i);
}.

(** The agreement between an invoice and the provider. *)
Definition agrees m id : Prop :=
  match inv_view m.1 !! id with
  | None => gw_refunded m.2 id = false
  | Some i =>
      match i_status i with
      | StatusPaid => gw_charge m.2 id = Some (i_pspRef i) ∧ gw_refunded m.2 id = false
      | StatusPending => gw_refunded m.2 id = false
      | _ => True
      end
  end.

Record mem_ok m : Prop := {
  mo_repo : inv_ok m.1;
  mo_psp : gw_ok m.2;
  mo_agrees : ∀ id, agrees m id;
}.

(** The answer that tells the client its money is not kept. *)
Definition gone_answer (e : error) : Prop :=
  errors_As as_SlugError e = Some ("invoice-no-longer-payable", ErrorKindConflict).

Definition gone m id : Prop :=
  ∃ i, inv_view m.1 !! id = Some i ∧ (i_status i = StatusExpired ∨ i_status i = StatusVoided).

Definition own m cmd (Q : Invoice → Prop) : Prop :=
  ∃ i, inv_view m.1 !! py_InvoiceID cmd = Some i ∧ i_debtor i = py_Payer cmd ∧ Q i.

Definition proc_ok m cmd (pc : pay_pc) : Prop :=
  match pc with
  | PreCheck => True
  | Charging total => own m cmd (fun i => i_total i = total)
  | Marking ref =>
      own m cmd (fun _ => True) ∧ ref ≠ zero_value
      ∧ gw_charge m.2 (py_InvoiceID cmd) = Some ref
  | Refunding answer => gone m (py_InvoiceID cmd) ∧ gone_answer answer
  | Finished (Ok _) => own m cmd (fun i => i_status i = StatusPaid)
  | Finished (Fail e) => gone_answer e → gone m (py_InvoiceID cmd)
  | Finished (Panic _) => False
  end.

Lemma evolves_refl m : evolves m m.
Proof. split; [done|]. intros id i Hl. exists i. by split_and!. Qed.

Lemma gone_evolves m m' id : evolves m m' → gone m id → gone m' id.
Proof.
  intros [_ Hv] (i & Hl & Hs). destruct (Hv _ _ Hl) as (i' & Hl' & _ & _ & Hst).
  exists i'. split; [done|]. destruct Hst as [-> _]; [|done]. destruct Hs as [->| ->]; done.
Qed.

Lemma own_evolves m m' cmd (Q Q' : Invoice → Prop) :
  evolves m m' → own m cmd Q →
  (∀ i i', Q i → i_total i' = i_total i →
     (i_status i ≠ StatusPending → i_status i' = i_status i) → Q' i') →
  own m' cmd Q'.
Proof.
  intros [_ Hv] (i & Hl & Hd & HQ) HQ'. destruct (Hv _ _ Hl) as (i' & Hl' & Hd' & Ht & Hst).
  exists i'. split_and!; [done|congruence|]. apply (HQ' i); [done..|]. intros Hp. by apply Hst.
Qed.

Lemma proc_ok_evolves m m' cmd pc : evolves m m' → proc_ok m cmd pc → proc_ok m' cmd pc.
Proof.
  intros Hev. destruct pc as [|total|ref|answer|[u|e|p]]; simpl; [done|..|done].
  - intros Ho. eapply own_evolves; [done..|]. simpl. congruence.
  - intros (Ho & Hr & Hc). split; [by eapply own_evolves|].
    split; [done|]. by apply (ev_charge _ _ Hev).
  - intros [Hg Ha]. split; [by eapply gone_evolves|done].
  - intros Ho. eapply own_evolves; [done..|]. simpl. intros i i' Hs _ Hst.
    rewrite Hst; [done|]. by rewrite Hs.
  - intros Hg Ha. eapply gone_evolves; [done|auto].
Qed.

(** *** Changes of the store *)

(** A transition of invoice [id] out of pending. *)
Lemma settle_step s s' (p : P) id i i' v :
  mem_ok (s, p) → inv_ok s' → inv_view s !! id = Some i → i_status i = StatusPending →
  inv_view s' = <[id := stored v i']> (inv_view s) →
  i_debtor i' = i_debtor i → i_total i' = i_total i → i_status i' ≠ StatusPending →
  (i_status i' = StatusPaid → gw_charge p id = Some (i_pspRef i')) →
  evolves (s, p) (s', p) ∧ mem_ok (s', p).
Proof.
  intros [_ Hp Ha] Hok' Hl Hpend Hv Hd Ht Hne Hpaid. split.
  - split; [done|]. simpl. intros k j Hk. rewrite Hv.
    destruct (decide (id = k)) as [<-|Hkk].
    + rewrite lookup_insert_eq. simplify_eq. eexists. split; [done|]. by split_and!.
    + rewrite lookup_insert_ne by done. exists j. by split_and!.
  - split; [done..|]. intros k. unfold agrees. simpl. rewrite Hv.
    pose proof (Ha k) as Hk. unfold agrees in Hk. simpl in Hk.
    destruct (decide (id = k)) as [<-|Hkk].
    + rewrite lookup_insert_eq. rewrite Hl, Hpend in Hk. simpl.
      destruct (i_status i') eqn:E; [done|done|by split; [apply Hpaid|]|done|done].
    + by rewrite lookup_insert_ne.
Qed.

(** A new pending invoice. *)
Lemma add_step s s' (p : P) id i :
  mem_ok (s, p) → inv_ok s' → inv_view s !! id = None → i_status i = StatusPending →
  inv_view s' = <[id := i]> (inv_view s) →
  evolves (s, p) (s', p) ∧ mem_ok (s', p).
Proof.
  intros [_ Hp Ha] Hok' Hl Hpend Hv. split.
  - split; [done|]. simpl. intros k j Hk. rewrite Hv, lookup_insert_ne by congruence.
    exists j. by split_and!.
  - split; [done..|]. intros k. unfold agrees. simpl. rewrite Hv.
    pose proof (Ha k) as Hk. unfold agrees in Hk. simpl in Hk.
    destruct (decide (id = k)) as [<-|Hkk].
    + rewrite lookup_insert_eq, Hpend. by rewrite Hl in Hk.
    + by rewrite lookup_insert_ne.
Qed.

(** *** Changes of the provider *)

Lemma charge_step s (p p' : P) id :
  mem_ok (s, p) → gw_ok p' → charges_kept gw_charge id p p' →
  (∀ k, gw_refunded p' k = gw_refunded p k) →
  evolves (s, p) (s, p') ∧ mem_ok (s, p').
Proof.
  intros [Hok Hp Ha] Hp' [Hck _] Hrf. split.
  - split; [apply Hck|]. intros k j Hk. exists j. by split_and!.
  - split; [done..|]. intros k. pose proof (Ha k) as Hk. unfold agrees in *. simpl in *.
    rewrite Hrf. destruct (inv_view s !! k) as [i|]; [|done].
    destruct (i_status i); try done. destruct Hk as [Hk ?]. split; [by apply Hck|done].
Qed.

Lemma refund_step s (p p' : P) id :
  mem_ok (s, p) → gone (s, p) id → gw_ok p' → (∀ k, gw_charge p' k = gw_charge p k) →
  refunds_kept gw_refunded id p p' →
  evolves (s, p) (s, p') ∧ mem_ok (s, p').
Proof.
  intros [Hok Hp Ha] (i & Hl & Hs) Hp' Hck [_ Hrf]. split.
  - split; [intros k ref; simpl; by rewrite Hck|]. intros k j Hk. exists j. by split_and!.
  - split; [done..|]. intros k. pose proof (Ha k) as Hk. unfold agrees in *. simpl in *.
    destruct (decide (k = id)) as [->|Hne].
    + rewrite Hl. by destruct Hs as [->| ->].
    + by rewrite Hrf, Hck by done.
Qed.

(** ** One step of a payment *)

Lemma precheck_step now cmd m : mem_ok m → proc_ok m cmd (pay_step now cmd PreCheck m).1.
Proof.
  intros [Hok _ Ha]. cbn [pay_step fst].
  destruct (inv_view m.1 !! py_InvoiceID cmd) as [i|] eqn:Hl.
  2:{ rewrite inv_Get_foreign by (done || intros i; by rewrite Hl). cbn. intros [=]. }
  destruct (decide (i_debtor i = py_Payer cmd)) as [Hd|Hd].
  2:{ rewrite inv_Get_foreign by (done || intros j; rewrite Hl; congruence). cbn. intros [=]. }
  rewrite <-Hd, (inv_Get_own _ _ _ Hok Hl).
  destruct (inv_view_ok _ _ _ Hok Hl) as (Hst & _).
  destruct (i_status i) eqn:E; [by destruct (so_status i Hst)|..]; cbn.
  - by exists i.
  - by exists i.
  - split; [exists i; auto|done].
  - split; [exists i; auto|done].
Qed.

Lemma charging_step now cmd total m :
  mem_ok m → own m cmd (fun i => i_total i = total) →
  let '(pc', m') := pay_step now cmd (Charging total) m in
  evolves m m' ∧ mem_ok m' ∧ proc_ok m' cmd pc'.
Proof.
  intros Hm Ho. destruct m as [s p]. cbn [pay_step]. unfold on_psp. simpl.
  pose proof (gw_Charge_spec p (py_InvoiceID cmd) total (mo_psp _ Hm)) as Hs.
  destruct (gw_Charge _ _ _) as [r p']. destruct Hs as (Hok' & Hck & Hrf & Hr).
  destruct (charge_step s p p' _ Hm Hok' Hck Hrf) as [Hev Hm'].
  split_and!; [done..|]. destruct r as [ref|e|q]; [|simpl|done].
  - destruct Hr as [Hz Hc]. split_and!; [|done..]. by eapply own_evolves.
  - unfold charge_switch. case_match; intros [=].
Qed.

Lemma marking_step now cmd ref m :
  mem_ok m → proc_ok m cmd (Marking ref) →
  let '(pc', m') := pay_step now cmd (Marking ref) m in
  evolves m m' ∧ mem_ok m' ∧ proc_ok m' cmd pc'.
Proof.
  intros Hm ((i & Hl & Hd & _) & Hz & Hc). destruct m as [s p]. simpl in Hl, Hc.
  pose proof (mo_repo _ Hm) as Hok. simpl in Hok.
  destruct (inv_view_ok _ _ _ Hok Hl) as (Hst & _).
  pose proof (closure_MarkPaid ref now i (so_status i Hst) Hz) as Hcl.
  cbn [pay_step]. unfold on_repo. simpl. rewrite <-Hd, (inv_Update_own _ _ _ _ Hok Hl).
  destruct (i_status i) eqn:E; [by destruct (so_status i Hst)| |..].
  - destruct (inv_System_ok _ _ _ _ _ Hok Hl Hcl (admissible_paid _ _ _ E)) as (s' & v & -> & Hok' & Hv).
    destruct (settle_step s s' p _ i (paid ref now i) v Hm Hok' Hl E Hv) as [Hev Hm']; [done..|].
    split_and!; [done..|]. exists (stored v (paid ref now i)). simpl.
    by rewrite Hv, lookup_insert_eq.
  - rewrite (inv_System_fail _ _ _ _ _ Hok Hl Hcl). simpl.
    split_and!; [apply evolves_refl|done|]. by exists i.
  - rewrite (inv_System_fail _ _ _ _ _ Hok Hl Hcl). simpl.
    split_and!; [apply evolves_refl|done| |done]. exists i. by auto.
  - rewrite (inv_System_fail _ _ _ _ _ Hok Hl Hcl). simpl.
    split_and!; [apply evolves_refl|done| |done]. exists i. by auto.
Qed.

Lemma refund_run key m : mem_ok m → gone m key →
  let '(r, m') := refund key m in
  evolves m m' ∧ mem_ok m' ∧ m'.1 = m.1
  ∧ match r with
    | Ok _ => is_Some (gw_charge m.2 key) → gw_refunded m'.2 key = true
    | Fail e => errors_As as_SlugError e = Some ("psp-unavailable", ErrorKindUnavailable)
    | Panic _ => False
    end.
Proof.
  intros Hm Hg. destruct m as [s p]. unfold refund. rewrite on_error_run. unfold on_psp. simpl.
  pose proof (gw_Refund_spec p key (mo_psp _ Hm)) as Hs.
  destruct (gw_Refund _ _) as [r p']. destruct Hs as (Hok' & Hck & Hrf & Hr).
  destruct (refund_step s p p' _ Hm Hg Hok' Hck Hrf) as [Hev Hm'].
  destruct r as [u|e|q]; [| |done]; by split_and!.
Qed.

Lemma refunding_step now cmd answer m :
  mem_ok m → proc_ok m cmd (Refunding answer) →
  let '(pc', m') := pay_step now cmd (Refunding answer) m in
  evolves m m' ∧ mem_ok m' ∧ proc_ok m' cmd pc'.
Proof.
  intros Hm [Hg Ha]. cbn [pay_step].
  pose proof (refund_run (py_InvoiceID cmd) m Hm Hg) as Hr.
  destruct (refund _ m) as [r m']. destruct Hr as (Hev & Hm' & _ & Hr).
  split_and!; [done..|]. destruct r as [u|e|q]; [| |done]; intros Hga.
  - by eapply gone_evolves.
  - unfold gone_answer in Hga. rewrite Hr in Hga. done.
Qed.

Lemma pay_step_ok now cmd pc m :
  mem_ok m → proc_ok m cmd pc →
  let '(pc', m') := pay_step now cmd pc m in
  evolves m m' ∧ mem_ok m' ∧ proc_ok m' cmd pc'.
Proof.
  intros Hm Hp. destruct pc as [|total|ref|answer|r].
  - pose proof (precheck_step now cmd m Hm) as Hpre. cbn [pay_step fst] in *.
    split_and!; [apply evolves_refl|done|exact Hpre].
  - by apply charging_step.
  - by apply marking_step.
  - by apply refunding_step.
  - split_and!; [apply evolves_refl|done|done].
Qed.

(** ** The interleaving

    Any number of payments in flight, and between any two of their steps a
    new request, the death of a process, the expiry worker, the saga's void
    or a newly issued invoice. *)
Record world := mkWorld { w_mem : S * P; w_procs : list (PayInvoice * pay_pc) }.

Inductive wstep : world → world → Prop :=
| W_request w cmd :
    wstep w (mkWorld (w_mem w) (w_procs w ++ [(cmd, PreCheck)]))
| W_pay w k now cmd pc :
    w_procs w !! k = Some (cmd, pc) →
    wstep w (mkWorld (pay_step now cmd pc (w_mem w)).2
               (<[k := (cmd, (pay_step now cmd pc (w_mem w)).1)]> (w_procs w)))
| W_crash w k :
    wstep w (mkWorld (w_mem w) (delete k (w_procs w)))
| W_expire w now (cmd : ExpireInvoice) :
    wstep w (mkWorld (on_repo (ExpireInvoiceHandler now cmd) (w_mem w)).2 (w_procs w))
| W_void w now (cmd : VoidInvoice) :
    wstep w (mkWorld (on_repo (VoidInvoiceHandler now cmd) (w_mem w)).2 (w_procs w))
| W_issue w policy term now (cmd : IssueInvoice) :
    cmd_issuable policy term now cmd →
    wstep w (mkWorld (on_repo (IssueInvoiceHandler policy term now cmd) (w_mem w)).2 (w_procs w)).

Definition world_ok (w : world) : Prop :=
  mem_ok (w_mem w) ∧ ∀ cmd pc, (cmd, pc) ∈ w_procs w → proc_ok (w_mem w) cmd pc.

Lemma world_ok_mem w m' : world_ok w → evolves (w_mem w) m' → mem_ok m' →
  world_ok (mkWorld m' (w_procs w)).
Proof.
  intros [_ Hp] Hev Hm. split; [done|]. simpl. intros cmd pc Hin.
  eapply proc_ok_evolves; [done|auto].
Qed.

Lemma expire_mem now (cmd : ExpireInvoice) m : mem_ok m →
  evolves m (on_repo (ExpireInvoiceHandler now cmd) m).2
  ∧ mem_ok (on_repo (ExpireInvoiceHandler now cmd) m).2.
Proof.
  intros Hm. destruct m as [s p], cmd as [id]. pose proof (mo_repo _ Hm) as Hok. simpl in Hok.
  unfold on_repo. simpl. destruct (inv_view s !! id) as [i|] eqn:Hl.
  2:{ destruct (system_missing now s id Hok Hl) as [-> _]. by split; [apply evolves_refl|]. }
  pose proof (expire_spec now s id i Hok Hl) as Hs. destruct (i_status i) eqn:E.
  2:{ destruct (now <? i_dueAt i); [rewrite Hs; by split; [apply evolves_refl|]|].
      destruct Hs as (s' & v & -> & Hok' & Hv).
      by apply (settle_step s s' p id i (expired now i) v). }
  all: rewrite Hs; by split; [apply evolves_refl|].
Qed.

Lemma void_mem now (cmd : VoidInvoice) m : mem_ok m →
  evolves m (on_repo (VoidInvoiceHandler now cmd) m).2
  ∧ mem_ok (on_repo (VoidInvoiceHandler now cmd) m).2.
Proof.
  intros Hm. destruct m as [s p], cmd as [id]. pose proof (mo_repo _ Hm) as Hok. simpl in Hok.
  unfold on_repo. simpl. destruct (inv_view s !! id) as [i|] eqn:Hl.
  2:{ destruct (system_missing now s id Hok Hl) as [_ ->]. by split; [apply evolves_refl|]. }
  pose proof (void_spec now s id i Hok Hl) as Hs. destruct (i_status i) eqn:E.
  2:{ destruct Hs as (s' & v & -> & Hok' & Hv).
      by apply (settle_step s s' p id i (voided now i) v). }
  all: rewrite Hs; by split; [apply evolves_refl|].
Qed.

Lemma issue_mem policy term now (cmd : IssueInvoice) m : mem_ok m → cmd_issuable policy term now cmd →
  evolves m (on_repo (IssueInvoiceHandler policy term now cmd) m).2
  ∧ mem_ok (on_repo (IssueInvoiceHandler policy term now cmd) m).2.
Proof.
  intros Hm Hc. destruct m as [s p]. pose proof (mo_repo _ Hm) as Hok. simpl in Hok.
  unfold on_repo. simpl.
  destruct (issue_spec policy term now cmd s Hok Hc) as (i & Hi & [[_ ->]|(Ht & s' & -> & Hok' & Hv)]).
  { by split; [apply evolves_refl|]. }
  destruct (cmd_invoice_Ok _ _ _ _ Hc) as (i' & Hi' & _ & Hp & Hid & _).
  rewrite Hi in Hi'. injection Hi' as <-.
  apply (add_step s s' p (is_InvoiceID cmd) (set_events [] i)); try done.
  destruct (inv_view s !! is_InvoiceID cmd) eqn:E; [|done].
  destruct Ht. left. rewrite Hid. by eexists.
Qed.

Lemma wstep_ok w w' : world_ok w → wstep w w' → world_ok w'.
Proof.
  intros Hw Hs. pose proof Hw as [Hm Hp].
  destruct Hs as [w cmd|w k now cmd pc Hk|w k|w now cmd|w now cmd|w policy term now cmd Hc].
  - split; [done|]. simpl. intros c pc [Hin|Hin]%elem_of_app; [by apply Hp|].
    apply list_elem_of_singleton in Hin. by simplify_eq.
  - pose proof (pay_step_ok now cmd pc (w_mem w) Hm (Hp _ _ (list_elem_of_lookup_2 _ _ _ Hk))) as Hs.
    destruct (pay_step _ _ _ _) as [pc' m']. destruct Hs as (Hev & Hm' & Hpc). simpl.
    split; [done|]. simpl. intros c q (j & Hj)%list_elem_of_lookup_1.
    apply list_lookup_insert_Some in Hj as [(<- & [= <- <-] & _)|[_ Hj]]; [done|].
    eapply proc_ok_evolves; [done|]. by eapply Hp, list_elem_of_lookup_2.
  - split; [done|]. simpl. intros c pc Hin. apply Hp. rewrite delete_take_drop in Hin.
    apply elem_of_app in Hin as [(j & Hj & _)%elem_of_take|Hin];
      [by eapply list_elem_of_lookup_2|].
    rewrite <-(take_drop (Datatypes.S k) (w_procs w)). apply elem_of_app. by right.
  - destruct (expire_mem now cmd _ Hm). by apply world_ok_mem.
  - destruct (void_mem now cmd _ Hm). by apply world_ok_mem.
  - destruct (issue_mem policy term now cmd _ Hm Hc). by apply world_ok_mem.
Qed.

(** From a store without invoices and a provider without refunds. *)
Definition initial (w : world) : Prop :=
  inv_ok (w_mem w).1 ∧ inv_view (w_mem w).1 = ∅ ∧ gw_ok (w_mem w).2
  ∧ (∀ id, gw_refunded (w_mem w).2 id = false) ∧ w_procs w = [].

Lemma initial_ok w : initial w → world_ok w.
Proof.
  intros (Hok & Hv & Hp & Hr & Hpr). split.
  - split; [done..|]. intros id. unfold agrees. by rewrite Hv, lookup_empty.
  - rewrite Hpr. by intros ? ? ?%not_elem_of_nil.
Qed.

Lemma reachable_ok w0 w : initial w0 → rtc wstep w0 w → world_ok w.
Proof.
  intros Hi Hr. apply initial_ok in Hi.
  induction Hr as [|w0 w1 w Hs _ IH]; [done|]. by eapply IH, wstep_ok.
Qed.

(** ** Foreign and missing invoices *)

Definition not_found (id : InvoiceID) : error :=
  WithCause (NewNotFoundError "invoice-not-found") (InvoiceNotFoundError (InvoiceID_UUID id)).

Definition foreign (s : S) (id : InvoiceID) (actor : BidderID) : Prop :=
  ∀ i, inv_view s !! id = Some i → i_debtor i ≠ actor.

Lemma pay_foreign now cmd (s : S) (p : P) :
  inv_ok s → foreign s (py_InvoiceID cmd) (py_Payer cmd) →
  PayInvoiceHandler now cmd (s, p) = (Fail (not_found (py_InvoiceID cmd)), (s, p)).
Proof.
  intros Hok Hf. unfold PayInvoiceHandler. rewrite run_get, run_attempt. unfold lift. cbn [fst].
  by rewrite inv_Get_foreign.
Qed.

(** The refund branch of the handler. *)
Lemma pay_gone (key : InvoiceID) (answer : error) (s : S) (p : P) r m' :
  mem_ok (s, p) → gone (s, p) key → gone_answer answer →
  (refund (S := S) (P := P) key;; throw answer : M (S * P) unit) (s, p) = (r, m') →
  m'.1 = s ∧ ∃ e, r = Fail e ∧
    (gone_answer e ∧ (is_Some (gw_charge p key) → gw_refunded m'.2 key = true)
     ∨ KindFromError e = ErrorKindUnavailable).
Proof.
  intros Hm Hg Ha E. rewrite refund_throw in E.
  pose proof (refund_run key (s, p) Hm Hg) as Hr.
  destruct (refund key (s, p)) as [[u|e|q] m1]; destruct Hr as (_ & _ & Hs & Hr);
    [| |done]; injection E as <- <-; (split; [done|]); eexists; (split; [done|]).
  - left. by split.
  - right. unfold KindFromError. by rewrite Hr.
Qed.

(** * The claims *)

(** The interleaving model is the code: run without interruption, the
    four steps of the payment process do exactly what the handler does, on
    every repository and provider, whatever these answer. *)
Theorem pay_steps_refine now cmd m :
  pay_steps now cmd 4 (PreCheck, m)
  = (Finished (PayInvoiceHandler now cmd m).1, (PayInvoiceHandler now cmd m).2).
Proof.
  destruct m as [s p]. unfold PayInvoiceHandler. rewrite run_get, run_attempt.
  cbn [pay_steps pay_step fst snd]. unfold lift.
  destruct (inv_Get _ _ _) as [i|e|q]; [|done..].
  destruct (i_status i); [done| |done|rewrite refund_throw..].
  - rewrite run_attempt. cbn [fst snd]. cbn [pay_step].
    destruct (on_psp _ _) as [[ref|e|q] m1]; [|done..]. rewrite run_attempt.
    cbn [pay_steps pay_step fst snd].
    destruct (on_repo _ m1) as [[u|e|q] m2]; [done| |done]. cbn [fst snd].
    destruct (errors_Is e ErrInvoiceAlreadyPaid); [done|].
    destruct (_ || _); [|done]. rewrite refund_throw. cbn [pay_step].
    by destruct (refund _ m2) as [[] ?].
  - cbn [pay_step]. by destruct (refund _ _) as [[] ?].
  - cbn [pay_step]. by destruct (refund _ _) as [[] ?].
Qed.

(** C7: the payment protocol is safe under any interleaving.  Any number of
    payments, retries, crashes between any two steps, expiries, voids and
    newly issued invoices may interleave, and the provider's answers may get
    lost: a paid invoice carries the reference of a charge that stands and was
    never refunded; money is only ever refunded for an expired or voided
    invoice; a client is told "paid" only about its own paid invoice, and
    "no longer payable" only about an expired or voided one; no payment
    panics. *)
Theorem payment_safe w0 w :
  initial w0 → rtc wstep w0 w →
  (∀ id i, inv_view (w_mem w).1 !! id = Some i → i_status i = StatusPaid →
     gw_charge (w_mem w).2 id = Some (i_pspRef i) ∧ gw_refunded (w_mem w).2 id = false)
  ∧ (∀ id, gw_refunded (w_mem w).2 id = true → gone (w_mem w) id)
  ∧ ∀ cmd r, (cmd, Finished r) ∈ w_procs w →
      match r with
      | Ok _ => own (w_mem w) cmd (fun i => i_status i = StatusPaid)
      | Fail e => gone_answer e → gone (w_mem w) (py_InvoiceID cmd)
      | Panic _ => False
      end.
Proof.
  intros Hi Hr. destruct (reachable_ok w0 w Hi Hr) as [[Hok _ Ha] Hp]. split_and!.
  - intros id i Hl Hs. specialize (Ha id). unfold agrees in Ha. by rewrite Hl, Hs in Ha.
  - intros id Hrf. specialize (Ha id). unfold agrees in Ha.
    destruct (inv_view _ !! id) as [i|] eqn:Hl; [|congruence].
    destruct (inv_view_ok _ _ _ Hok Hl) as (Hst & _). exists i. split; [done|].
    destruct (i_status i) eqn:E; [by destruct (so_status i Hst)|congruence| |by left|by right].
    destruct Ha. congruence.
  - intros cmd r Hin. exact (Hp _ _ Hin).
Qed.

(** C27: what one undisturbed payment answers in any reachable world.  A
    missing invoice and somebody else's get the same 404; a paid one is
    confirmed without touching the provider; for an expired or voided one the
    answer is "no longer payable" and a charge, if there ever was one, has
    been refunded, or the provider was unavailable; a pending one is paid with
    the charged reference, or the charge failed and the invoice is as before. *)
Theorem pay_answers w0 w now cmd :
  initial w0 → rtc wstep w0 w →
  let id := py_InvoiceID cmd in
  let s := (w_mem w).1 in
  let '(r, m') := PayInvoiceHandler now cmd (w_mem w) in
  (foreign s id (py_Payer cmd) → r = Fail (not_found id) ∧ m' = w_mem w)
  ∧ ∀ i, inv_view s !! id = Some i → i_debtor i = py_Payer cmd →
    match i_status i with
    | StatusPaid => r = Ok tt ∧ m' = w_mem w
    | StatusExpired | StatusVoided =>
        m'.1 = s ∧ ∃ e, r = Fail e ∧
          (gone_answer e ∧ (is_Some (gw_charge (w_mem w).2 id) → gw_refunded m'.2 id = true)
           ∨ KindFromError e = ErrorKindUnavailable)
    | _ =>
        (r = Ok tt ∧ ∃ ref v, gw_charge m'.2 id = Some ref
           ∧ inv_view m'.1 = <[id := stored v (paid ref now i)]> (inv_view s))
        ∨ (m'.1 = s ∧ ∃ e, r = Fail e ∧
             (KindFromError e = ErrorKindConflict ∨ KindFromError e = ErrorKindUnavailable))
    end.
Proof.
  intros Hi Hr. destruct (reachable_ok w0 w Hi Hr) as [Hm _]. destruct (w_mem w) as [s p].
  pose proof (mo_repo _ Hm) as Hok. simpl in Hok. cbv zeta. cbn [fst snd].
  destruct (PayInvoiceHandler now cmd (s, p)) as [r m'] eqn:E. split.
  { intros Hf. rewrite pay_foreign in E by done. by simplify_eq. }
  intros i Hl Hd. destruct (inv_view_ok _ _ _ Hok Hl) as (Hst & _).
  unfold PayInvoiceHandler in E. rewrite run_get, run_attempt in E. unfold lift in E. cbn [fst] in E.
  rewrite <-Hd, (inv_Get_own _ _ _ Hok Hl) in E.
  destruct (i_status i) eqn:Es; [by destruct (so_status i Hst)| | |..].
  - rewrite run_attempt in E. unfold on_psp in E. cbn [fst snd] in E.
    pose proof (gw_Charge_spec p (py_InvoiceID cmd) (i_total i) (mo_psp _ Hm)) as Hs.
    destruct (gw_Charge _ _ p) as [[ref|e|q] p1]; destruct Hs as (_ & _ & _ & Hs); [|right|done].
    + left. rewrite run_attempt in E. unfold on_repo in E. cbn [fst snd] in E.
      rewrite (inv_Update_own _ _ _ _ Hok Hl) in E. destruct Hs as [Hz Hc].
      pose proof (closure_MarkPaid ref now i (so_status i Hst) Hz) as Hcl. rewrite Es in Hcl.
      destruct (inv_System_ok _ _ _ _ _ Hok Hl Hcl (admissible_paid _ _ _ Es))
        as (s' & v & Hu & _ & Hv).
      rewrite Hu in E. injection E as <- <-. split; [done|]. by exists ref, v.
    + injection E as <- <-. split; [done|]. eexists. split; [done|]. unfold charge_switch.
      case_match; [by left|by right].
  - by injection E as <- <-.
  - eapply (pay_gone _ _ _ _ _ _ Hm); [| |exact E]; [exists i; by auto|reflexivity].
  - eapply (pay_gone _ _ _ _ _ _ Hm); [| |exact E]; [exists i; by auto|reflexivity].
Qed.

End Pay.
Arguments mkWorld {_ _} _ _.
Arguments w_mem {_ _} _.
Arguments w_procs {_ _} _.

(** Somebody else's invoice cannot be told from a missing one.  Paying it
    and reading it, for a caller who is not its debtor, give the response a
    missing invoice gives, 404 [invoice-not-found], and change nothing, on
    every repository and provider. *)
Theorem foreign_is_missing {S P} `{UUIDLib} `{InvoiceRepositoryLaws S} `{PaymentGateway P}
    now user invoiceID (s : S) (p : P) db :
  auth.u_ID user ≠ uuid_Nil → invoiceID ≠ uuid_Nil →
  let id := mkInvoiceID invoiceID in
  let actor := mkBidderID (auth.u_ID user) in
  (inv_ok s → foreign s id actor →
   Http_PayInvoice now (Some user) invoiceID (s, p) = (Fail (not_found id), (s, p)))
  ∧ (pg_ok db → (∀ i, pg_view db !! id = Some i → i_debtor i ≠ actor) →
     Http_GetInvoice (Some user) invoiceID db = Fail (not_found id))
  ∧ RespondWithSlugError (Some (not_found id)) = mkResponse 404 "invoice-not-found".
Proof.
  intros Hu Hid id actor.
  assert (actorFromCtx (Some user) = Ok actor) as Ha.
  { unfold actorFromCtx, NewBidderID. simpl. by rewrite bool_decide_eq_false_2. }
  assert (NewInvoiceID invoiceID = Ok id) as Hi
    by (unfold NewInvoiceID; by rewrite bool_decide_eq_false_2).
  split_and!; [| |done].
  - intros Hok Hf. unfold Http_PayInvoice. rewrite run_lift, Ha, run_lift, Hi. cbn [with_cause].
    assert (∀ cmd, PayInvoiceHandler now cmd (s, p)
      = match inv_Get (py_InvoiceID cmd) (py_Payer cmd) s with
        | Fail e => (Fail (mapNotFound e), (s, p))
        | _ => PayInvoiceHandler now cmd (s, p)
        end) as E.
    { intros cmd. unfold PayInvoiceHandler. rewrite run_get, run_attempt. unfold lift. cbn [fst].
      by destruct (inv_Get _ _ s). }
    rewrite E. cbn [py_InvoiceID py_Payer]. by rewrite inv_Get_foreign.
  - intros Hok Hf. unfold Http_GetInvoice. rewrite Ha. cbn. rewrite Hi. cbn.
    unfold InvoiceByIDHandler, pg.InvoiceByID. rewrite select_own_spec by done.
    destruct (pg_view db !! id) as [i|]; [|done]. by rewrite bool_decide_eq_false_2 by auto.
Qed.

(** * Witnesses *)

Import demo_uuid.

(** An invoice is issued and its debtor pays it. *)
Definition demo_start : world (S := InvoiceInMemoryRepository) (P := FakePSP) :=
  mkWorld (mkInvoiceInMemoryRepository ∅, mkFakePSP PSPModeSuccess ∅ ∅ ∅ 0) [].
Definition demo_cmd : IssueInvoice :=
  mkIssueInvoice (mkInvoiceID 1) (mkAuctionID 2) (mkBidderID 3) demo_hammer AttemptFirst.
Definition demo_pay : PayInvoice := mkPayInvoice (mkInvoiceID 1) (mkBidderID 3).

Definition do_issue (w : world (S := InvoiceInMemoryRepository) (P := FakePSP)) :=
  mkWorld (on_repo (IssueInvoiceHandler (mkCommissionPolicy 1000) (mkPaymentTerm Second) Second
             demo_cmd) (w_mem w)).2 (w_procs w).
Definition do_request (w : world (S := InvoiceInMemoryRepository) (P := FakePSP)) :=
  mkWorld (w_mem w) (w_procs w ++ [(demo_pay, PreCheck)]).
Definition do_pay (k : nat) (w : world (S := InvoiceInMemoryRepository) (P := FakePSP)) :=
  match w_procs w !! k with
  | Some (cmd, pc) =>
      mkWorld (pay_step 7 cmd pc (w_mem w)).2
        (<[k := (cmd, (pay_step 7 cmd pc (w_mem w)).1)]> (w_procs w))
  | None => w
  end.

Lemma do_pay_step k w : is_Some (w_procs w !! k) → wstep w (do_pay k w).
Proof. intros [[cmd pc] E]. unfold do_pay. rewrite E. by apply W_pay. Qed.

Definition demo_issued := do_issue demo_start.
Definition demo_paid := do_pay 0 (do_pay 0 (do_pay 0 (do_request demo_issued))).

Lemma demo_initial : initial demo_start.
Proof.
  by split_and!.
Qed.

Lemma demo_issued_reachable : rtc wstep demo_start demo_issued.
Proof.
  apply rtc_once, W_issue. split; [apply demo_issuable|]. by split_and!.
Qed.

Lemma demo_paid_reachable : rtc wstep demo_start demo_paid.
Proof.
  etrans; [apply demo_issued_reachable|].
  eapply rtc_l; [apply (W_request _ demo_pay)|].
  do 3 (eapply rtc_l; [apply (do_pay_step 0); vm_compute; by eexists|]). apply rtc_refl.
Qed.

Lemma payment_safe_witness :
  own (w_mem demo_paid) demo_pay (fun i => i_status i = StatusPaid).
Proof.
  destruct (payment_safe demo_start demo_paid demo_initial demo_paid_reachable) as (_ & _ & H).
  apply (H demo_pay (Ok tt)). vm_compute. left.
Defined.

Definition demo_paid_invoice : Invoice := Eval vm_compute in
  default demo_invoice (byID (w_mem demo_paid).1 !! mkInvoiceID 1).

Lemma pay_answers_witness :
  PayInvoiceHandler 8 demo_pay (w_mem demo_paid) = (Ok tt, w_mem demo_paid).
Proof.
  pose proof (pay_answers demo_start demo_paid 8 demo_pay demo_initial demo_paid_reachable) as H.
  cbv zeta in H. destruct (PayInvoiceHandler 8 demo_pay (w_mem demo_paid)) as [r m'].
  destruct H as [_ H]. specialize (H demo_paid_invoice).
  destruct H as [-> ->]; [vm_compute; reflexivity|vm_compute; reflexivity|reflexivity].
Defined.

Lemma foreign_is_missing_witness :
  RespondWithSlugError (Some (not_found (mkInvoiceID 1))) = mkResponse 404 "invoice-not-found".
Proof.
  apply (foreign_is_missing 5 (auth.mkUser 9 auth.RoleBidder) 1 demo_store demo_psp
    (mkInvoiceDB ∅ [] 0)); done.
Defined.
End payment.
