(* ===== verification/Processes.v ===== *)
(** * Processes

    A handler of the settlement saga calls the repository and the facades of
    other contexts one after the other, outside any common transaction: other
    handlers may run, or the process may die, between two calls.  A handler
    is therefore a [prog]: the calls it makes, each atomic, and what it does
    with their results.  [run] is the handler run alone, [steps] its prefixes,
    [pool] any number of handlers interleaved, and [wp] the rely-guarantee
    rules that carry an invariant through every interleaving. *)

From stdpp Require Import base numbers list strings relations.
From S2P Require Import Prelude Errs.

(** ** Programs of atomic calls *)

Inductive prog (W A : Type) : Type :=
| Ret (r : res error A)
| Call {X : Type} (m : M W X) (k : res error X → prog W A).
Arguments Ret {_ _} _.
Arguments Call {_ _ _} _ _.

Section Prog.
Context {W : Type}.

(** One call, whose outcome is the result. *)
Definition call {A} (m : M W A) : prog W A := Call m Ret.

(** [x, err := p; ...]: the rest of the code sees the outcome of [p]. *)
Fixpoint attempt {A B} (p : prog W A) (h : res error A → prog W B) : prog W B :=
  match p with
  | Ret r => h r
  | Call m k => Call m (fun r => attempt (k r) h)
  end.

(** [if err := p; err != nil { return f(err) }; return nil]: what [f] makes of
    an error; [None] is a nil error. *)
Definition handle (p : prog W unit) (f : error → option error) : prog W unit :=
  attempt p (fun r =>
    match r with
    | Fail e => Ret (match f e with Some e' => Fail e' | None => Ok tt end)
    | r => Ret r
    end).

(** [p] run alone: a panic of a call is the panic of the handler. *)
Fixpoint run {A} (p : prog W A) : M W A :=
  fun w =>
    match p with
    | Ret r => (r, w)
    | Call m k => run (k (m w).1) (m w).2
    end.

(** One call of [p]. *)
Definition step {A} (c : prog W A * W) : prog W A * W :=
  match c.1 with
  | Ret r => c
  | Call m k => (k (m c.2).1, (m c.2).2)
  end.

(** The memory a process leaves that dies after [n] calls. *)
Definition crash_after {A} (n : nat) (p : prog W A) (w : W) : W :=
  (Nat.iter n step (p, w)).2.
End Prog.

#[export] Instance prog_ret {W} : MRet (prog W) := fun A a => Ret (Ok a).
#[export] Instance prog_bind {W} : MBind (prog W) :=
  fun A B f p =>
    attempt p (fun r =>
      match r with
      | Ok a => f a
      | Fail e => Ret (Fail e)
      | Panic q => Ret (Panic q)
      end).

(** ** Running *)

Section Run.
Context {W : Type}.
Implicit Types (w : W).

Lemma prog_run_attempt {A B} (p : prog W A) (h : res error A → prog W B) w :
  run (attempt p h) w = run (h (run p w).1) (run p w).2.
Proof. revert w. induction p as [r|X m k IH]; intros w; simpl; [done|apply IH]. Qed.

Lemma run_bind {A B} (p : prog W A) (f : A → prog W B) w :
  run (p ≫= f) w = (run p ≫= fun a => run (f a)) w.
Proof.
  unfold mbind at 1, prog_bind. rewrite prog_run_attempt. unfold mbind, GoM_bind.
  by destruct (run p w) as [[] ?].
Qed.

Lemma run_handle (p : prog W unit) f w : run (handle p f) w = on_error (run p) f w.
Proof.
  unfold handle, on_error. rewrite prog_run_attempt. by destruct (run p w) as [[[]| |] ?].
Qed.

Lemma run_call {A} (m : M W A) w : run (call m) w = m w.
Proof. simpl. by destruct (m w). Qed.

Lemma crash_after_O {A} (p : prog W A) w : crash_after 0 p w = w.
Proof. done. Qed.

Lemma crash_after_Ret {A} n (r : res error A) w : crash_after n (Ret r) w = w.
Proof.
  unfold crash_after. enough (Nat.iter n step (Ret r : prog W A, w) = (Ret r, w)) as -> by done.
  induction n as [|n IH]; [done|]. simpl. by rewrite IH.
Qed.

Lemma crash_after_S {A X} n (m : M W X) (k : res error X → prog W A) w :
  crash_after (S n) (Call m k) w = crash_after n (k (m w).1) (m w).2.
Proof. unfold crash_after. by rewrite Nat.iter_succ_r. Qed.

(** A crash in a sequence is a crash in its first part or in the rest. *)
Lemma crash_after_attempt {A B} n (p : prog W A) (h : res error A → prog W B) w :
  crash_after n (attempt p h) w = crash_after n p w
  ∨ ∃ m, crash_after n (attempt p h) w = crash_after m (h (run p w).1) (run p w).2.
Proof.
  revert n w. induction p as [r|X m k IH]; intros n w; simpl; [right; by exists n|].
  destruct n as [|n]; [by left|]. rewrite !crash_after_S. apply IH.
Qed.

(** Two programs that cannot be told apart, whenever they are stopped. *)
Definition same_run {A} (p q : prog W A) : Prop :=
  ∀ w, run p w = run q w ∧ ∀ n, crash_after n p w = crash_after n q w.

#[export] Instance same_run_equiv {A} : Equivalence (@same_run A).
Proof.
  split; [done| |].
  - intros p q Hpq w. destruct (Hpq w) as [Hr Hc]. by split.
  - intros p q r Hpq Hqr w. destruct (Hpq w) as [H1 H2], (Hqr w) as [H3 H4].
    split; [by rewrite H1|]. intros n. by rewrite H2.
Qed.

Lemma same_run_Call {A X} (m : M W X) (k k' : res error X → prog W A) :
  (∀ r, same_run (k r) (k' r)) → same_run (Call m k) (Call m k').
Proof.
  intros Hk w. split; [simpl; apply Hk|]. intros [|n]; [done|]. rewrite !crash_after_S. apply Hk.
Qed.

Lemma same_run_attempt {A B} (p : prog W A) (h h' : res error A → prog W B) :
  (∀ r, same_run (h r) (h' r)) → same_run (attempt p h) (attempt p h').
Proof.
  intros Hh. induction p as [r|X m k IH]; simpl; [apply Hh|]. by apply same_run_Call.
Qed.

Lemma attempt_attempt {A B C} (p : prog W A) (f : res error A → prog W B)
    (g : res error B → prog W C) :
  same_run (attempt (attempt p f) g) (attempt p (fun r => attempt (f r) g)).
Proof. induction p as [r|X m k IH]; simpl; [done|]. by apply same_run_Call. Qed.

Lemma same_run_assoc {A B C} (p : prog W A) (f : A → prog W B) (g : B → prog W C) :
  same_run (p ≫= fun a => f a ≫= g) ((p ≫= f) ≫= g).
Proof.
  symmetry. unfold mbind, prog_bind. etrans; [apply attempt_attempt|].
  apply same_run_attempt. by intros [a|e|q].
Qed.

(** A trailing [return nil]. *)
Lemma same_run_ret (p : prog W unit) : same_run (p;; mret tt) p.
Proof.
  unfold mbind, prog_bind. induction p as [[[]|e|q]|X m k IH]; simpl; [done..|].
  by apply same_run_Call.
Qed.

Lemma crash_after_call {A} n (m : M W A) w :
  crash_after n (call m) w = w ∨ crash_after n (call m) w = (m w).2.
Proof.
  destruct n as [|n]; [by left|right]. unfold call. by rewrite crash_after_S, crash_after_Ret.
Qed.

Lemma crash_after_all {A} (p : prog W A) w : ∃ n, crash_after n p w = (run p w).2.
Proof.
  revert w. induction p as [r|X m k IH]; intros w; [by exists 0%nat|].
  destruct (IH (m w).1 (m w).2) as [n Hn]. exists (S n). by rewrite crash_after_S, Hn.
Qed.
End Run.

(** ** Rely and guarantee

    [le] is how the memory may evolve, whoever makes the call; [inv] is the
    invariant of the memory; [fits] is what is assumed of the memories an
    execution goes through (counters below the end of their range). *)
Section RG.
Context {W : Type} (le : W → W → Prop) (inv fits : W → Prop).
Context `{!PreOrder le}.
Implicit Types (w : W).

(** Whatever the others do between its calls, each call of [p] keeps to [le]
    and [inv], and [Q] holds of the result as long as nobody breaks [le]. *)
Fixpoint wp {A} (p : prog W A) (Q : res error A → W → Prop) (w : W) : Prop :=
  match p with
  | Ret r => ∀ w1, le w w1 → inv w1 → fits w1 → Q r w1
  | Call m k => ∀ w1, le w w1 → inv w1 → fits w1 →
      le w1 (m w1).2 ∧ inv (m w1).2 ∧ wp (k (m w1).1) Q (m w1).2
  end.

Lemma wp_stable {A} (p : prog W A) Q w w1 : le w w1 → wp p Q w → wp p Q w1.
Proof. intros Hr. destruct p; simpl; intros Hp w2 Hr2; apply Hp; by etrans. Qed.

Lemma wp_now {A} (p : prog W A) Q w :
  (∀ w1, le w w1 → inv w1 → fits w1 → wp p Q w1) → wp p Q w.
Proof.
  intros Hp. destruct p; simpl in *; intros w1 Hr Hi Hf; by apply (Hp w1).
Qed.

Lemma wp_attempt {A B} (p : prog W A) (h : res error A → prog W B) Q w :
  wp p (fun r => wp (h r) Q) w → wp (attempt p h) Q w.
Proof.
  revert w. induction p as [r|X m k IH]; intros w Hp; [by apply wp_now|]. simpl in *.
  intros w1 Hr Hi Hf. destruct (Hp w1 Hr Hi Hf) as (Hg & Hi' & Hk). split_and!; [done..|auto].
Qed.

Lemma wp_mono {A} (p : prog W A) (Q Q' : res error A → W → Prop) w :
  wp p Q w → (∀ r w1, le w w1 → inv w1 → Q r w1 → Q' r w1) → wp p Q' w.
Proof.
  revert w. induction p as [r|X m k IH]; intros w Hp HQ; simpl in *.
  - intros w1 Hr Hi Hf. apply HQ; [done..|auto].
  - intros w1 Hr Hi Hf. destruct (Hp w1 Hr Hi Hf) as (Hg & Hi' & Hk).
    split_and!; [done..|]. apply (IH _ _ Hk). intros r w2 Hr2. apply HQ.
    etrans; [done|]. by etrans.
Qed.

(** *** Rules for what a successful result means

    [when_ok R]: if the program returns a value, [R] holds of it, and goes on
    holding. *)
Definition when_ok {A} (R : A → W → Prop) (r : res error A) (w : W) : Prop :=
  ∀ a, r = Ok a → R a w.

Lemma wp_ret {A} (r : res error A) R w :
  (∀ a w1, r = Ok a → le w w1 → inv w1 → R a w1) → wp (Ret r) (when_ok R) w.
Proof. intros HR w1 Hle Hi _ a Ha. by apply HR. Qed.

Lemma wp_fail {A} e (R : A → W → Prop) w : wp (Ret (Fail e)) (when_ok R) w.
Proof. by apply wp_ret. Qed.

Lemma wp_panic {A} q (R : A → W → Prop) w : wp (Ret (Panic q)) (when_ok R) w.
Proof. by apply wp_ret. Qed.

Lemma wp_call {A} (m : M W A) (R : A → W → Prop) w :
  (∀ w1, le w w1 → inv w1 → fits w1 →
     inv (m w1).2 ∧ le w1 (m w1).2
     ∧ ∀ a w2, (m w1).1 = Ok a → le (m w1).2 w2 → inv w2 → R a w2) →
  wp (call m) (when_ok R) w.
Proof.
  intros Hm w1 Hle Hi Hf. destruct (Hm w1 Hle Hi Hf) as (Hi' & Hle' & HR).
  split_and!; [done..|]. apply wp_ret. eauto.
Qed.

Lemma wp_seq {A B} (p : prog W A) (f : A → prog W B) (R : A → W → Prop) R' w :
  wp p (when_ok R) w →
  (∀ a w1, le w w1 → inv w1 → R a w1 → wp (f a) (when_ok R') w1) →
  wp (p ≫= f) (when_ok R') w.
Proof.
  intros Hp Hf. apply wp_attempt. eapply wp_mono; [done|]. intros r w1 Hle Hi HR.
  destruct r as [a|e|q]; [|apply wp_fail|apply wp_panic]. apply Hf; [done..|]. by apply HR.
Qed.

Lemma wp_pure {A B} (r : res error A) (f : A → prog W B) R w :
  (∀ a, r = Ok a → wp (f a) (when_ok R) w) → wp (Ret r ≫= f) (when_ok R) w.
Proof.
  intros Hf. destruct r as [a|e|q]; [by apply (Hf a)|apply wp_fail|apply wp_panic].
Qed.

(** *** Interleavings *)

(** The handlers that may run, and what each promises of its result. *)
Context {J : Type} (body : J → prog W unit) (post : J → res error unit → W → Prop).
(** When a handler may start: an event is delivered once what it says is so. *)
Context (may : J → W → Prop).
(** What happens to the memory outside these handlers. *)
Context (env : W → W → Prop).

Record pool := mkPool { mem : W; procs : list (J * prog W unit) }.

Inductive pool_step : pool → pool → Prop :=
| P_spawn c j : may j (mem c) → pool_step c (mkPool (mem c) (procs c ++ [(j, body j)]))
| P_call c k j p :
    procs c !! k = Some (j, p) → fits (step (p, mem c)).2 →
    pool_step c (mkPool (step (p, mem c)).2 (<[k := (j, (step (p, mem c)).1)]> (procs c)))
| P_crash c k : pool_step c (mkPool (mem c) (delete k (procs c)))
| P_env c w : env (mem c) w → fits w → pool_step c (mkPool w (procs c)).

(** A handler that runs undisturbed. *)
Fixpoint all_fit {A} (p : prog W A) (w : W) : Prop :=
  match p with
  | Ret _ => True
  | Call m k => fits (m w).2 ∧ all_fit (k (m w).1) (m w).2
  end.

(** The same, decided. *)
Fixpoint all_fitb {A} (b : W → bool) (p : prog W A) (w : W) : bool :=
  match p with
  | Ret _ => true
  | Call m k => b (m w).2 && all_fitb b (k (m w).1) (m w).2
  end.

Lemma all_fitb_all_fit {A} (b : W → bool) (p : prog W A) w :
  (∀ w1, b w1 = true → fits w1) → all_fitb b p w = true → all_fit p w.
Proof.
  intros Hb. revert w. induction p as [r|X m k IH]; intros w; simpl; [done|].
  intros [H1 H2]%andb_true_iff. auto.
Qed.

Lemma run_undisturbed j p w ps :
  all_fit p w → rtc pool_step (mkPool w (ps ++ [(j, p)])) (mkPool (run p w).2 (ps ++ [(j, Ret (run p w).1)])).
Proof.
  revert w. induction p as [r|X m k IH]; intros w; simpl; [done|]. intros [Hf Ha].
  eapply rtc_l; [|apply IH, Ha].
  assert ((ps ++ [(j, Call m k)]) !! length ps = Some (j, Call m k)) as Hl
    by (rewrite lookup_app_r, Nat.sub_diag by lia; done).
  pose proof (P_call (mkPool w (ps ++ [(j, Call m k)])) (length ps) j (Call m k) Hl Hf) as Hs.
  simpl in Hs. rewrite insert_app_r_alt, Nat.sub_diag in Hs by lia. exact Hs.
Qed.

Lemma spawn_and_run c j :
  may j (mem c) → all_fit (body j) (mem c) →
  rtc pool_step c (mkPool (run (body j) (mem c)).2 (procs c ++ [(j, Ret (run (body j) (mem c)).1)])).
Proof.
  intros Hm Hf. eapply rtc_l; [by apply P_spawn|]. by apply run_undisturbed.
Qed.

Record pool_ok (c : pool) : Prop := {
  po_inv : inv (mem c);
  po_fits : fits (mem c);
  po_procs : ∀ j p, (j, p) ∈ procs c → wp p (post j) (mem c);
}.

Hypothesis body_ok : ∀ j w, may j w → wp (body j) (post j) w.
Hypothesis env_ok : ∀ w w', inv w → fits w → env w w' → le w w' ∧ inv w'.

Lemma pool_step_ok c c' : pool_ok c → pool_step c c' → pool_ok c' ∧ le (mem c) (mem c').
Proof.
  intros [Hi Hf Hp] Hs. destruct Hs as [c j Hm|c k j p Hk Hf'|c k|c w He Hf'].
  - split; [|by simpl]. split; [done..|]. simpl. intros j' p [Hin|Hin]%elem_of_app; [auto|].
    apply list_elem_of_singleton in Hin. injection Hin as -> ->. by apply body_ok.
  - pose proof (Hp _ _ (list_elem_of_lookup_2 _ _ _ Hk)) as Hw.
    assert (le (mem c) (step (p, mem c)).2 ∧ inv (step (p, mem c)).2
            ∧ wp (step (p, mem c)).1 (post j) (step (p, mem c)).2) as (Hle & Hi' & Hw').
    { destruct p as [r|X m k']; [by split_and!|]. by apply Hw. }
    split; [|done]. split; [done..|]. simpl.
    intros j' p' [i Hin]%list_elem_of_lookup_1.
    apply list_lookup_insert_Some in Hin as [(-> & Heq & _)|[_ Hin]].
    + by injection Heq as <- <-.
    + eapply wp_stable; [done|]. apply Hp. by eapply list_elem_of_lookup_2.
  - split; [|by simpl]. split; [done..|]. simpl. intros j p Hin.
    apply Hp. rewrite delete_take_drop in Hin.
    apply elem_of_app in Hin as [(i & Hi' & _)%elem_of_take|Hin];
      [by eapply list_elem_of_lookup_2|].
    rewrite <-(take_drop (S k) (procs c)). apply elem_of_app. by right.
  - destruct (env_ok _ _ Hi Hf He) as [Hle Hi']. split; [|done]. split; [done..|].
    simpl. intros j p Hin. eapply wp_stable; [done|auto].
Qed.

Lemma pool_reachable c c' : pool_ok c → rtc pool_step c c' → pool_ok c' ∧ le (mem c) (mem c').
Proof.
  intros Hw Hr. induction Hr as [|c c1 c2 Hs Hr IH]; [by split|].
  destruct (pool_step_ok _ _ Hw Hs) as [Hw1 Hle]. destruct (IH Hw1) as [? ?].
  split; [done|by etrans].
Qed.
End RG.

(** ** A fact the calls keep

    A second fact [K] of the memory and a guarantee [G] about each change,
    kept call by call on memories that already satisfy [inv]: they need no
    stability of their own, since what a program remembers of the values it
    read ([Q]) does not mention the memory. *)
Section Kept.
Context {W : Type} (inv fits K : W → Prop) (G : W → W → Prop) `{!PreOrder G}.
Implicit Types (w : W).

Fixpoint kept {A} (p : prog W A) (Q : res error A → Prop) : Prop :=
  match p with
  | Ret r => Q r
  | Call m k => ∀ w, inv w → fits w → K w → K (m w).2 ∧ G w (m w).2 ∧ kept (k (m w).1) Q
  end.

(** If the program returns a value, [R] holds of it. *)
Definition returns {A} (R : A → Prop) (r : res error A) : Prop := ∀ a, r = Ok a → R a.

Lemma kept_mono {A} (p : prog W A) (Q Q' : res error A → Prop) :
  (∀ r, Q r → Q' r) → kept p Q → kept p Q'.
Proof.
  intros HQ. induction p as [r|X m k IH]; simpl; [auto|]. intros Hp w Hi Hf HK.
  destruct (Hp w Hi Hf HK) as (? & ? & ?). auto.
Qed.

Lemma kept_attempt {A B} (p : prog W A) (h : res error A → prog W B) Q :
  kept p (fun r => kept (h r) Q) → kept (attempt p h) Q.
Proof.
  induction p as [r|X m k IH]; simpl; [done|]. intros Hp w Hi Hf HK.
  destruct (Hp w Hi Hf HK) as (? & ? & ?). auto.
Qed.

Lemma kept_seq {A B} (p : prog W A) (f : A → prog W B) (R : A → Prop) R' :
  kept p (returns R) → (∀ a, R a → kept (f a) (returns R')) → kept (p ≫= f) (returns R').
Proof.
  intros Hp Hf. apply kept_attempt. revert Hp. apply kept_mono.
  intros [a|e|q] Hr; [apply Hf, Hr|..]; done.
Qed.

Lemma kept_pure {A B} (r : res error A) (f : A → prog W B) R :
  (∀ a, r = Ok a → kept (f a) (returns R)) → kept (Ret r ≫= f) (returns R).
Proof. destruct r as [a|e|q]; intros Hf; [by apply Hf|done..]. Qed.

Lemma kept_call {A} (m : M W A) (R : A → Prop) :
  (∀ w, inv w → fits w → K w → K (m w).2 ∧ G w (m w).2 ∧ returns R (m w).1) → kept (call m) (returns R).
Proof. done. Qed.

Lemma kept_handle (p : prog W unit) f :
  kept p (fun _ => True) → kept (handle p f) (returns (fun _ => True)).
Proof. intros Hp. apply kept_attempt. revert Hp. apply kept_mono. by intros [[]|e|q]. Qed.

Lemma kept_any {A} (p : prog W A) :
  kept p (returns (fun _ => True)) → kept p (fun _ => True).
Proof. by apply kept_mono. Qed.

(** *** Interleavings *)

Context (le : W → W → Prop) `{!PreOrder le}.
Context {J : Type} (body : J → prog W unit) (post : J → res error unit → W → Prop).
Context (may : J → W → Prop) (env : W → W → Prop).
Hypothesis body_ok : ∀ j w, may j w → wp le inv fits (body j) (post j) w.
Hypothesis env_ok : ∀ w w', inv w → fits w → env w w' → le w w' ∧ inv w'.
Hypothesis body_kept : ∀ j w, may j w → kept (body j) (fun _ => True).
Hypothesis env_kept : ∀ w w', inv w → fits w → K w → env w w' → K w' ∧ G w w'.

Abbreviation kept_step := (pool_step (J := J) fits body may env).

Record pool_kept (c : pool (W := W) (J := J)) : Prop := {
  pk_mem : K (mem c);
  pk_procs : ∀ j p, (j, p) ∈ procs c → kept p (fun _ => True);
}.

Lemma pool_step_kept c c' :
  pool_ok le inv fits post c → pool_kept c → kept_step c c' →
  pool_kept c' ∧ G (mem c) (mem c').
Proof.
  intros [Hi Hf _] [HK Hp] Hs. destruct Hs as [c j Hm|c k j p Hk Hf'|c k|c w He Hf'].
  - split; [|by simpl]. split; [done|]. simpl. intros j' p [Hin|Hin]%elem_of_app; [eauto|].
    apply list_elem_of_singleton in Hin. injection Hin as -> ->. by eapply body_kept.
  - pose proof (Hp _ _ (list_elem_of_lookup_2 _ _ _ Hk)) as Hw.
    assert (K (step (p, mem c)).2 ∧ G (mem c) (step (p, mem c)).2
            ∧ kept (step (p, mem c)).1 (fun _ => True)) as (HK' & HG & Hw').
    { destruct p as [r|X m k']; [by split_and!|]. by apply Hw. }
    split; [|done]. split; [done|]. simpl. intros j' p' [i Hin]%list_elem_of_lookup_1.
    apply list_lookup_insert_Some in Hin as [(-> & Heq & _)|[_ Hin]].
    + by injection Heq as <- <-.
    + apply (Hp j' p'). by eapply list_elem_of_lookup_2.
  - split; [|by simpl]. split; [done|]. simpl. intros j p Hin. apply (Hp j p).
    rewrite delete_take_drop in Hin. apply elem_of_app in Hin as [(i & Hi' & _)%elem_of_take|Hin];
      [by eapply list_elem_of_lookup_2|].
    rewrite <-(take_drop (S k) (procs c)). apply elem_of_app. by right.
  - destruct (env_kept (mem c) w) as [? ?]; [done..|]. by split.
Qed.

Lemma kept_reachable c c' :
  pool_ok le inv fits post c → pool_kept c → rtc kept_step c c' →
  pool_kept c' ∧ G (mem c) (mem c').
Proof.
  intros Ho Hk Hr. induction Hr as [|c c1 c2 Hs Hr IH]; [by split|].
  destruct (pool_step_ok _ _ _ _ _ _ _ body_ok env_ok _ _ Ho Hs) as [Ho1 _].
  destruct (pool_step_kept _ _ Ho Hk Hs) as [Hk1 HG]. destruct (IH Ho1 Hk1) as [? ?].
  split; [done|by etrans].
Qed.
End Kept.
