(* ===== verification/Ownership.v ===== *)
(** * Rights held by running handlers

    A second way to carry an invariant through every interleaving of
    [Processes]: a handler may come to hold rights (tokens) that no other
    handler holds, until it spends them or dies.  [valid w R] is the invariant
    of the memory [w] when the running handlers together hold the rights [R];
    [own T p Q] says that [p], holding [T], keeps to it whatever rights the
    others hold. *)

From stdpp Require Import base numbers list strings relations.
From S2P Require Import Prelude Errs Processes.

Section Own.
Context {W K : Type} (valid : W → list K → Prop).

Fixpoint own {A} (T : list K) (p : prog W A) (Q : res error A → list K → Prop) : Prop :=
  match p with
  | Ret r => Q r T
  | Call m k => ∀ w F, valid w (T ++ F) →
      ∃ T', valid (m w).2 (T' ++ F) ∧ own T' (k (m w).1) Q
  end.

(** *** Rules *)

Lemma own_mono {A} (p : prog W A) (Q Q' : res error A → list K → Prop) T :
  own T p Q → (∀ r T', Q r T' → Q' r T') → own T p Q'.
Proof.
  revert T. induction p as [r|X m k IH]; intros T Hp HQ; simpl in *; [by apply HQ|].
  intros w F Hv. destruct (Hp w F Hv) as (T' & Hv' & Hk). exists T'. split; [done|].
  by eapply IH.
Qed.

Lemma own_attempt {A B} (p : prog W A) (h : res error A → prog W B) Q T :
  own T p (fun r T' => own T' (h r) Q) → own T (attempt p h) Q.
Proof.
  revert T. induction p as [r|X m k IH]; intros T Hp; simpl in *; [done|].
  intros w F Hv. destruct (Hp w F Hv) as (T' & Hv' & Hk). exists T'. split; [done|].
  by apply IH.
Qed.

(** Every outcome is fine, with whatever rights are left. *)
Definition finished {A} (_ : res error A) (_ : list K) : Prop := True.

(** A successful outcome means [R]; an error or a panic may come anywhere. *)
Definition on_ok {A} (R : A → list K → Prop) (r : res error A) (T : list K) : Prop :=
  match r with Ok a => R a T | _ => True end.

Lemma own_finished {A} (p : prog W A) Q T : own T p Q → own T p finished.
Proof. intros Hp. by eapply own_mono. Qed.

Lemma own_seq {A B} (p : prog W A) (f : A → prog W B) R R' T :
  own T p (on_ok R) → (∀ a T', R a T' → own T' (f a) (on_ok R')) → own T (p ≫= f) (on_ok R').
Proof.
  intros Hp Hf. apply own_attempt. eapply own_mono; [done|]. intros [a|e|q] T' HR; [|done..].
  by apply Hf.
Qed.

(** *** Interleavings *)

Context {J : Type} (body : J → prog W unit) (may : J → W → Prop) (env : W → W → Prop).
Hypothesis valid_perm : ∀ w T T', T ≡ₚ T' → valid w T → valid w T'.
Hypothesis valid_drop : ∀ w T F, valid w (T ++ F) → valid w F.
Hypothesis body_own : ∀ j w, may j w → own [] (body j) finished.
Hypothesis env_valid : ∀ w w' F, env w w' → valid w F → valid w' F.

(** The rights of the running handlers, one list for each, are the rights the
    memory accounts for. *)
Definition pool_own (c : pool (W := W) (J := J)) : Prop :=
  ∃ Ts, Forall2 (fun T jp => own T jp.2 finished) Ts (procs c) ∧ valid (mem c) (concat Ts).

Lemma concat_insert (Ts : list (list K)) k T' :
  (k < length Ts)%nat → concat (<[k := T']> Ts) ≡ₚ T' ++ concat (delete k Ts).
Proof.
  intros Hk. rewrite insert_take_drop, delete_take_drop, !concat_app by done. simpl.
  rewrite !app_assoc. by rewrite (Permutation_app_comm T').
Qed.

Lemma concat_delete (Ts : list (list K)) k T :
  Ts !! k = Some T → concat Ts ≡ₚ T ++ concat (delete k Ts).
Proof.
  intros Hk. rewrite <-(list_insert_id _ _ _ Hk) at 1.
  by eapply concat_insert, lookup_lt_Some.
Qed.

Lemma pool_own_step c c' :
  pool_own c → pool_step (fun _ => True) body may env c c' → pool_own c'.
Proof.
  intros (Ts & Hp & Hv) Hs. destruct Hs as [c j Hm|c k j p Hk _|c k|c w He _]; simpl in *.
  - exists (Ts ++ [[]]). split.
    + apply Forall2_app; [done|]. apply Forall2_cons. split; [by eapply body_own|by apply Forall2_nil].
    + by rewrite concat_app, app_nil_r.
  - destruct (Forall2_lookup_r _ _ _ _ _ Hp Hk) as (T & HT & Ho). simpl in Ho.
    assert (∃ T', valid (step (p, mem c)).2 (T' ++ concat (delete k Ts))
                  ∧ own T' (step (p, mem c)).1 finished) as (T' & Hv' & Ho').
    { assert (valid (mem c) (T ++ concat (delete k Ts))) as Hv1
        by (eapply valid_perm; [by apply concat_delete|done]).
      destruct p as [r|X m k']; [by exists T|]. by apply Ho. }
    exists (<[k := T']> Ts). split; [by apply Forall2_insert|].
    eapply valid_perm; [|done]. symmetry. by eapply concat_insert, lookup_lt_Some.
  - destruct (procs c !! k) as [[j p]|] eqn:Hk.
    + destruct (Forall2_lookup_r _ _ _ _ _ Hp Hk) as (T & HT & _). exists (delete k Ts).
      split; [by apply Forall2_delete|]. eapply valid_drop, valid_perm; [by apply concat_delete|done].
    + exists Ts. split; [|done].
      replace (delete k (procs c)) with (procs c); [done|].
      by rewrite delete_take_drop, take_ge, drop_ge, app_nil_r
        by (apply lookup_ge_None in Hk; lia).
  - exists Ts. split; [done|]. by eapply env_valid.
Qed.

Lemma pool_own_reachable c c' :
  pool_own c → rtc (pool_step (fun _ => True) body may env) c c' → pool_own c'.
Proof.
  intros Hc Hr. induction Hr as [|c c1 c2 Hs Hr IH]; [done|]. apply IH. by eapply pool_own_step.
Qed.
End Own.
