(* ===== verification/Notification.v ===== *)
(** * Notifications

    The notification context: the consumer-side interfaces and the event
    handlers ([ports/events.go]), the in-memory and Postgres adapters
    ([adapters/*]) and the fake e-mail sender.  A handler is a program of
    atomic calls ([Processes]): other handlers may run, or the process may
    die, between the record of a delivery and its e-mail. *)

From stdpp Require Import base numbers list strings pretty gmap.
From Stdlib Require Import ZArith Lia.
From S2P Require Import Prelude GoText Errs Events Processes.

Record Email := mkEmail { em_to : string; em_subject : string; em_body : string }.
#[export] Instance Email_eq_dec : EqDecision Email.
Proof. solve_decision. Defined.

(** The key of a delivery slot: event, kind, recipient. *)
Record deliveryKey := mkDeliveryKey {
  dk_eventID : string;
  dk_kind : string;
  dk_recipientID : string;
}.
#[export] Instance deliveryKey_eq_dec : EqDecision deliveryKey.
Proof. solve_decision. Defined.
#[export] Program Instance deliveryKey_countable : Countable deliveryKey :=
  inj_countable' (fun k => (dk_eventID k, dk_kind k, dk_recipientID k))
    (fun '(e, k, r) => mkDeliveryKey e k r) _.
Next Obligation. by intros []. Qed.

(** ** The interfaces of the handlers *)

Class EmailSender (E : Type) := {
  es_Send : string → string → string → M E unit;
}.

Class RecipientDirectory (R : Type) := {
  rd_UpsertRecipient : string → string → string → M R unit;
  rd_RecipientByID : string → M R (string * string);
}.

Class SellerDirectory (S : Type) := {
  sd_RememberSeller : string → string → M S unit;
  sd_SellerOf : string → M S string;
}.

Class SentLog (L : Type) := {
  sl_FirstDelivery : string → string → string → M L bool;
}.

Module notification.
Local Open Scope Z_scope.

Definition kindOutbidNotice : string := "outbid_notice".
Definition kindAuctionWon : string := "auction_won".
Definition kindAuctionClosed : string := "auction_closed".
Definition kindSecondChanceOffer : string := "second_chance_offer".
Definition kindAuctionRelisted : string := "auction_relisted".
Definition kindSaleSettled : string := "sale_settled".
Definition kindSaleFailed : string := "sale_failed".
Definition kindPaymentDueNotice : string := "payment_due_notice".
Definition kindPaymentReceipt : string := "payment_receipt".

(** The division truncates towards zero, and so does the remainder. *)
Definition formatMinor (minor : Z) (currency : string) : string :=
  Itoa (Z.quot minor 100) +:+ "." +:+ Itoa0 2 (Z.rem minor 100) +:+ " " +:+ currency.

Definition failureText (reason : string) : string :=
  if bool_decide (reason = "payment_timeout") then "the winner did not pay in time"
  else if bool_decide (reason = "second_chance_declined")
  then "the runner-up declined the second-chance offer"
  else reason.

(** *** The templates: a subject and the news of a body *)

Definition outbid_text (e : BidPlacedV1) : string * string :=
  ("You have been outbid on auction " +:+ bp_AuctionID e,
   "a new leading bid of " +:+ formatMinor (bp_AmountMinor e) (bp_Currency e)
   +:+ " was placed on auction " +:+ bp_AuctionID e +:+ ". Bid again before "
   +:+ Format_RFC3339 (bp_NewEndsAt e) +:+ " to get back in the race.").

Definition relisted_text (e : AuctionListedV1) : string * string :=
  ("Your lot has been relisted as auction " +:+ al_AuctionID e,
   "the previous sale fell through, so your lot was automatically relisted as auction "
   +:+ al_AuctionID e +:+ ". Bidding runs from " +:+ Format_RFC3339 (al_StartsAt e)
   +:+ " to " +:+ Format_RFC3339 (al_EndsAt e) +:+ ".").

Definition won_text (e : AuctionClosedV1) : string * string :=
  ("You won auction " +:+ acl_AuctionID e,
   "congratulations — your bid of " +:+ formatMinor (acl_HammerPriceMinor e) (acl_Currency e)
   +:+ " won auction " +:+ acl_AuctionID e +:+ ". An invoice will follow shortly.").

Definition closed_text (e : AuctionClosedV1) : string * string :=
  ("Your auction " +:+ acl_AuctionID e +:+ " has closed",
   if bool_decide (acl_Outcome e = "sold")
   then "your auction " +:+ acl_AuctionID e +:+ " sold for "
        +:+ formatMinor (acl_HammerPriceMinor e) (acl_Currency e)
        +:+ ". Settlement (invoice and payment) is now in progress."
   else "your auction " +:+ acl_AuctionID e +:+ " closed without a sale: no qualifying bids.").

Definition second_chance_text (e : WinnerReassignedV1) : string * string :=
  ("Second-chance offer for auction " +:+ wr_AuctionID e,
   "the original winner of auction " +:+ wr_AuctionID e
   +:+ " did not pay; the lot is yours for your bid of "
   +:+ formatMinor (wr_PriceMinor e) (wr_Currency e)
   +:+ ". An invoice will follow — pay it to claim the lot, or decline the offer.").

Definition settled_text (e : SaleSettledV1) : string * string :=
  ("Auction " +:+ ss_AuctionID e +:+ " is settled",
   "the sale of auction " +:+ ss_AuctionID e +:+ " has settled: the winner paid in full.").

Definition failed_text (e : SaleFailedV1) : string * string :=
  ("The sale of auction " +:+ sf_AuctionID e +:+ " fell through",
   "the sale of auction " +:+ sf_AuctionID e +:+ " failed (" +:+ failureText (sf_Reason e)
   +:+ ").").

Definition due_text (e : InvoiceIssuedV1) : string * string :=
  ("Payment due for auction " +:+ ii_AuctionID e,
   "invoice " +:+ ii_InvoiceID e +:+ " for auction " +:+ ii_AuctionID e +:+ " totals "
   +:+ formatMinor (ii_TotalMinor e) (ii_Currency e) +:+ " (hammer price "
   +:+ formatMinor (ii_HammerMinor e) (ii_Currency e) +:+ " + commission "
   +:+ formatMinor (ii_CommissionMinor e) (ii_Currency e) +:+ "). Pay before "
   +:+ Format_RFC3339 (ii_DueAt e) +:+ " or the lot is forfeited.").

Definition receipt_text (e : InvoicePaidV1) : string * string :=
  ("Receipt for invoice " +:+ ip_InvoiceID e,
   "we received your payment of " +:+ formatMinor (ip_TotalMinor e) (ip_Currency e)
   +:+ " for auction " +:+ ip_AuctionID e +:+ ". Thank you!").

(** [EventHandlers]: the states of its four dependencies. *)
Record world (E R S L : Type) := mkWorld {
  emails : E;
  recipients : R;
  sellers : S;
  sentLog : L;
}.
Arguments mkWorld {_ _ _ _} _ _ _ _.
Arguments emails {_ _ _ _} _.
Arguments recipients {_ _ _ _} _.
Arguments sellers {_ _ _ _} _.
Arguments sentLog {_ _ _ _} _.

Section Handlers.
Context {E R S L : Type}
  `{EmailSender E} `{RecipientDirectory R} `{SellerDirectory S} `{SentLog L}.

Definition on_emails {X} (m : M E X) : M (world E R S L) X :=
  fun w => let '(r, x) := m (emails w) in (r, mkWorld x (recipients w) (sellers w) (sentLog w)).
Definition on_recipients {X} (m : M R X) : M (world E R S L) X :=
  fun w => let '(r, x) := m (recipients w) in (r, mkWorld (emails w) x (sellers w) (sentLog w)).
Definition on_sellers {X} (m : M S X) : M (world E R S L) X :=
  fun w => let '(r, x) := m (sellers w) in (r, mkWorld (emails w) (recipients w) x (sentLog w)).
Definition on_sentLog {X} (m : M L X) : M (world E R S L) X :=
  fun w => let '(r, x) := m (sentLog w) in (r, mkWorld (emails w) (recipients w) (sellers w) x).

(** One call, its error wrapped: [fmt.Errorf("msg: %w", err)]. *)
Definition call_or {X} (msg : string) (m : M (world E R S L) X) : prog (world E R S L) X :=
  Call m (fun r => Ret (wrap_err msg r)).

(** *** [deliver]

    [text] is the pair of its last two arguments, the subject and the news. *)
Definition body_text (displayName news : string) : string :=
  "Hello " +:+ displayName +:+ "," +:+ LF +:+ LF +:+ news.

Definition deliver (eventID kind recipientID : string) (text : string * string)
    : prog (world E R S L) unit :=
  '(email, displayName) ←
    call_or "resolve %s recipient" (on_recipients (rd_RecipientByID recipientID));
  first ← call_or "record %s delivery" (on_sentLog (sl_FirstDelivery eventID kind recipientID));
  if negb first then mret tt
  else
    call_or "send %s email"
      (on_emails (es_Send email text.1 (body_text displayName text.2))).

(** *** [participant-events] *)

Definition onParticipantRegistered (e : ParticipantRegisteredV1) : prog (world E R S L) unit :=
  call_or "project registered participant %s"
    (on_recipients (rd_UpsertRecipient (pr_ParticipantID e) (pr_Email e) (pr_DisplayName e))).

Definition onParticipantVerified (e : ParticipantVerifiedV1) : prog (world E R S L) unit :=
  mret tt.

(** *** [auction-events] *)

Definition onBidPlaced (e : BidPlacedV1) : prog (world E R S L) unit :=
  if bool_decide (bp_OutbidBidderID e = "") then mret tt
  else deliver (bp_EventID e) kindOutbidNotice (bp_OutbidBidderID e) (outbid_text e).

Definition onAuctionListed (e : AuctionListedV1) : prog (world E R S L) unit :=
  call_or "remember seller of auction %s"
    (on_sellers (sd_RememberSeller (al_AuctionID e) (al_SellerID e)));;
  if al_RelistGeneration e =? 0 then mret tt
  else deliver (al_EventID e) kindAuctionRelisted (al_SellerID e) (relisted_text e).

Definition onAuctionClosed (e : AuctionClosedV1) : prog (world E R S L) unit :=
  call_or "remember seller of auction %s"
    (on_sellers (sd_RememberSeller (acl_AuctionID e) (acl_SellerID e)));;
  (if bool_decide (acl_Outcome e = "sold") && bool_decide (acl_WinnerID e ≠ "")
   then deliver (acl_EventID e) kindAuctionWon (acl_WinnerID e) (won_text e)
   else mret tt);;
  deliver (acl_EventID e) kindAuctionClosed (acl_SellerID e) (closed_text e).

Definition onWinnerReassigned (e : WinnerReassignedV1) : prog (world E R S L) unit :=
  deliver (wr_EventID e) kindSecondChanceOffer (wr_NewWinnerID e) (second_chance_text e).

Definition onSaleSettled (e : SaleSettledV1) : prog (world E R S L) unit :=
  sellerID ← call_or "resolve seller for settled sale %s" (on_sellers (sd_SellerOf (ss_AuctionID e)));
  deliver (ss_EventID e) kindSaleSettled sellerID (settled_text e).

Definition onSaleFailed (e : SaleFailedV1) : prog (world E R S L) unit :=
  sellerID ← call_or "resolve seller for failed sale %s" (on_sellers (sd_SellerOf (sf_AuctionID e)));
  deliver (sf_EventID e) kindSaleFailed sellerID (failed_text e).

(** *** [billing-events] *)

Definition onInvoiceIssued (e : InvoiceIssuedV1) : prog (world E R S L) unit :=
  deliver (ii_EventID e) kindPaymentDueNotice (ii_DebtorID e) (due_text e).

Definition onInvoicePaid (e : InvoicePaidV1) : prog (world E R S L) unit :=
  deliver (ip_EventID e) kindPaymentReceipt (ip_DebtorID e) (receipt_text e).

(** *** The subscriptions

    [Handlers]: the handler of an event, and the name it is subscribed
    under; the processor acknowledges the other types of a topic
    ([AckOnUnknownEvent]). *)
Definition Handlers (e : Event) : option (string * prog (world E R S L) unit) :=
  match e with
  | OfParticipant (EvParticipantRegisteredV1 e) =>
      Some ("OnParticipantRegisteredUpsertRecipient", onParticipantRegistered e)
  | OfParticipant (EvParticipantVerifiedV1 e) =>
      Some ("OnParticipantVerified", onParticipantVerified e)
  | OfAuction (EvBidPlacedV1 e) => Some ("OnBidPlacedNotifyOutbid", onBidPlaced e)
  | OfAuction (EvAuctionListedV1 e) => Some ("OnAuctionListedNotifyRelist", onAuctionListed e)
  | OfAuction (EvAuctionClosedV1 e) => Some ("OnAuctionClosedNotifyOutcome", onAuctionClosed e)
  | OfAuction (EvWinnerReassignedV1 e) =>
      Some ("OnWinnerReassignedOfferSecondChance", onWinnerReassigned e)
  | OfAuction (EvSaleSettledV1 e) => Some ("OnSaleSettledNotifySeller", onSaleSettled e)
  | OfAuction (EvSaleFailedV1 e) => Some ("OnSaleFailedNotifySeller", onSaleFailed e)
  | OfBilling (EvInvoiceIssuedV1 e) =>
      Some ("OnInvoiceIssuedNotifyPaymentDue", onInvoiceIssued e)
  | OfBilling (EvInvoicePaidV1 e) => Some ("OnInvoicePaidSendReceipt", onInvoicePaid e)
  | OfAuction (EvAuctionCancelledV1 _) | OfAuction (EvAuctionRelistedV1 _)
  | OfBilling (EvInvoiceExpiredV1 _) => None
  end.

Definition on_event (e : Event) : prog (world E R S L) unit :=
  match Handlers e with
  | Some (_, h) => h
  | None => mret tt
  end.
End Handlers.

Section Topics.
(** [cwatermill.Marshaler.Name]: the name of an event on the wire, from the
    name of its struct. *)
Context (Marshaler_Name : string → string).

Definition subscribeTopics : list (string * string) :=
  [(Marshaler_Name "ParticipantRegisteredV1", participant_Topic);
   (Marshaler_Name "ParticipantVerifiedV1", participant_Topic);
   (Marshaler_Name "BidPlacedV1", auction_Topic);
   (Marshaler_Name "AuctionListedV1", auction_Topic);
   (Marshaler_Name "AuctionClosedV1", auction_Topic);
   (Marshaler_Name "WinnerReassignedV1", auction_Topic);
   (Marshaler_Name "SaleSettledV1", auction_Topic);
   (Marshaler_Name "SaleFailedV1", auction_Topic);
   (Marshaler_Name "InvoiceIssuedV1", billing_Topic);
   (Marshaler_Name "InvoicePaidV1", billing_Topic)].

Definition SubscribeTopicFor (eventName : string) : result string :=
  match list_find (fun p => p.1 = eventName) subscribeTopics with
  | Some (_, (_, topic)) => Ok topic
  | None => Panic ("notification: no subscribe topic registered for event " +:+ eventName)
  end.
End Topics.

(** ** The adapters in memory *)

Module inmem.

(** [FakeEmailSender]: what it logged. *)
Definition FakeEmailSender : Type := list Email.

Definition Send (to subject body : string) : M FakeEmailSender unit :=
  modify (fun sent => sent ++ [mkEmail to subject body]).

#[export] Instance sender : EmailSender FakeEmailSender := { es_Send := Send }.

(** [RecipientsInMem]: the e-mail and the display name of an identity. *)
Definition RecipientsInMem : Type := gmap string (string * string).

Definition UpsertRecipient (participantID email displayName : string) : M RecipientsInMem unit :=
  modify (fun rows => <[participantID := (email, displayName)]> rows).

Definition RecipientByID (participantID : string) : M RecipientsInMem (string * string) :=
  rows ← get;
  match rows !! participantID with
  | None => throw (ErrNew "recipient %s is not in the directory yet")
  | Some row => mret row
  end.

#[export] Instance recipient_directory : RecipientDirectory RecipientsInMem := {
  rd_UpsertRecipient := UpsertRecipient;
  rd_RecipientByID := RecipientByID;
}.

(** [SellersInMem]: the seller of an auction. *)
Definition SellersInMem : Type := gmap string string.

Definition RememberSeller (auctionID sellerID : string) : M SellersInMem unit :=
  modify (fun rows => <[auctionID := sellerID]> rows).

Definition SellerOf (auctionID : string) : M SellersInMem string :=
  rows ← get;
  match rows !! auctionID with
  | None => throw (ErrNew "seller of auction %s is not known yet")
  | Some sellerID => mret sellerID
  end.

#[export] Instance seller_directory : SellerDirectory SellersInMem := {
  sd_RememberSeller := RememberSeller;
  sd_SellerOf := SellerOf;
}.

(** [SentLogInMem]. *)
Definition SentLogInMem : Type := gset deliveryKey.

Definition FirstDelivery (eventID kind recipientID : string) : M SentLogInMem bool :=
  seen ← get;
  let key := mkDeliveryKey eventID kind recipientID in
  if bool_decide (key ∈ (seen : gset deliveryKey)) then mret false
  else modify (fun seen : gset deliveryKey => {[ key ]} ∪ seen);; mret true.

#[export] Instance sent_log : SentLog SentLogInMem := { sl_FirstDelivery := FirstDelivery }.
End inmem.

(** ** The adapters over Postgres

    Each statement is its own transaction.  What the driver answers to it is
    not under the program's control: [answers] is what it will answer to the
    next statements. *)

Module pg.

(** The statement was executed and its result read; it was not executed; it
    was executed, but the call that ran it returned an error; it was executed,
    but [RowsAffected] returned an error. *)
Inductive Answer :=
| Answered
| Refused (e : error)
| Lost (e : error)
| Uncounted (e : error).

Record Stored (T : Type) := mkStored { table : T; answers : list Answer }.
Arguments mkStored {_} _ _.
Arguments table {_} _.
Arguments answers {_} _.

(** [db.ExecContext] and [res.RowsAffected]: [stmt] is [None] when the
    statement is refused by the database (an operand that is not a uuid),
    otherwise the table after it and the number of rows. *)
Definition Exec {T} (stmt : T → option (T * Z)) : M (Stored T) (result Z) :=
  s ← get;
  let '(a, rest) := match answers s with [] => (Answered, []) | a :: rest => (a, rest) end in
  match stmt (table s), a with
  | None, Refused e => modify (fun s => mkStored (table s) rest);; throw e
  | None, _ =>
      modify (fun s => mkStored (table s) rest);;
      throw (ErrNew "invalid input syntax for type uuid")
  | Some _, Refused e => modify (fun s => mkStored (table s) rest);; throw e
  | Some (t, _), Lost e => modify (fun _ => mkStored t rest);; throw e
  | Some (t, _), Uncounted e => modify (fun _ => mkStored t rest);; mret (Fail e)
  | Some (t, n), Answered => modify (fun _ => mkStored t rest);; mret (Ok n)
  end.

(** [db.QueryRowContext(...).Scan(...)]; [None] is [sql.ErrNoRows]. *)
Definition QueryRow {T X} (query : T → option (option X)) : M (Stored T) (option X) :=
  s ← get;
  let '(a, rest) := match answers s with [] => (Answered, []) | a :: rest => (a, rest) end in
  modify (fun s => mkStored (table s) rest);;
  match query (table s), a with
  | _, Refused e | _, Lost e | _, Uncounted e => throw e
  | None, Answered => throw (ErrNew "invalid input syntax for type uuid")
  | Some row, Answered => mret row
  end.

(** [if err != nil { return fmt.Errorf("msg: %w", err) }]. *)
Definition or_fail {S X} (msg : string) (m : M S X) : M S X :=
  fun s => let '(r, s') := m s in (wrap_err msg r, s').

Section Adapters.
(** How Postgres reads and writes a [uuid] column. *)
Context (uuid_in : string → option uuid) (uuid_out : uuid → string).

(** [notification.recipients]. *)
Definition RecipientsPG : Type := Stored (gmap uuid (string * string)).

Definition UpsertRecipient (participantID email displayName : string) : M RecipientsPG unit :=
  or_fail "unable to upsert recipient %s"
    (Exec (fun t => id ← uuid_in participantID; Some (<[id := (email, displayName)]> t, 1)));;
  mret tt.

Definition RecipientByID (participantID : string) : M RecipientsPG (string * string) :=
  row ← or_fail "unable to query recipient %s"
    (QueryRow (fun t : gmap uuid (string * string) => id ← uuid_in participantID; Some (t !! id)));
  match row with
  | None => throw (ErrNew "recipient %s is not in the directory yet")
  | Some row => mret row
  end.

(** [notification.auction_sellers]. *)
Definition SellersPG : Type := Stored (gmap uuid uuid).

Definition RememberSeller (auctionID sellerID : string) : M SellersPG unit :=
  or_fail "unable to remember seller of auction %s"
    (Exec (fun t => a ← uuid_in auctionID; s ← uuid_in sellerID; Some (<[a := s]> t, 1)));;
  mret tt.

Definition SellerOf (auctionID : string) : M SellersPG string :=
  row ← or_fail "unable to query seller of auction %s"
    (QueryRow (fun t : gmap uuid uuid => a ← uuid_in auctionID; Some (t !! a)));
  match row with
  | None => throw (ErrNew "seller of auction %s is not known yet")
  | Some sellerID => mret (uuid_out sellerID)
  end.

(** [notification.sent_notifications]: the primary key; [sent_at] is never
    read. *)
Definition SentLogPG : Type := Stored (gset (uuid * string * uuid)).

Definition insert_slot (eventID kind recipientID : string) (t : gset (uuid * string * uuid))
    : option (gset (uuid * string * uuid) * Z) :=
  e ← uuid_in eventID;
  r ← uuid_in recipientID;
  Some (if bool_decide ((e, kind, r) ∈ t) then (t, 0) else ({[ (e, kind, r) ]} ∪ t, 1)).

Definition FirstDelivery (eventID kind recipientID : string) : M SentLogPG bool :=
  res ← or_fail "unable to record delivery %s/%s to %s" (Exec (insert_slot eventID kind recipientID));
  inserted ← lift (wrap_err "unable to read rows affected for delivery %s/%s" res);
  mret (inserted =? 1).

Definition recipient_directory : RecipientDirectory RecipientsPG := {|
  rd_UpsertRecipient := UpsertRecipient;
  rd_RecipientByID := RecipientByID;
|}.

Definition seller_directory : SellerDirectory SellersPG := {|
  sd_RememberSeller := RememberSeller;
  sd_SellerOf := SellerOf;
|}.

Definition sent_log : SentLog SentLogPG := {| sl_FirstDelivery := FirstDelivery |}.
End Adapters.
End pg.
End notification.
