(* ===== verification/NotificationTheory.v ===== *)
(** * Properties of the notifications

    What the adapters promise the handlers, as laws of the four interfaces,
    their proof for the in-memory and the Postgres adapters, and the two
    theorems about the handlers: no notice is sent twice, and a delivery that
    finds its recipients sends what is missing. *)

From stdpp Require Import base numbers list strings gmap relations.
From Stdlib Require Import ZArith Lia.
From S2P Require Import Prelude GoText Errs DemoUUID Events Processes Ownership Notification.

Module notification_theory.
Import notification notification.inmem.
Local Open Scope Z_scope.

(** ** The contracts of the adapters

    A call may fail after it took effect.  [same] says that two texts name
    one row. *)

Class EmailSenderLaws (E : Type) `{EmailSender E} := {
  es_log : E → list Email;
  es_Send_log : ∀ to subject body s,
    es_log (es_Send to subject body s).2 = es_log s
    ∨ es_log (es_Send to subject body s).2 = es_log s ++ [mkEmail to subject body];
}.

Class RecipientDirectoryLaws (same : string → string → Prop) (R : Type)
    `{RecipientDirectory R} := {
  rd_row : R → string → option (string * string);
  rd_Upsert_row : ∀ id email name r id' row,
    rd_row (rd_UpsertRecipient id email name r).2 id' = Some row →
    rd_row r id' = Some row ∨ (same id' id ∧ row = (email, name));
  rd_ByID_keeps : ∀ id r id', rd_row (rd_RecipientByID id r).2 id' = rd_row r id';
  rd_ByID_ok : ∀ id r row, (rd_RecipientByID id r).1 = Ok row → rd_row r id = Some row;
}.

Class SellerDirectoryLaws (same : string → string → Prop) (S : Type) `{SellerDirectory S} := {
  sd_row : S → string → option string;
  sd_Remember_row : ∀ auction seller s a x,
    sd_row (sd_RememberSeller auction seller s).2 a = Some x →
    sd_row s a = Some x ∨ (same a auction ∧ same x seller);
  sd_SellerOf_keeps : ∀ auction s a, sd_row (sd_SellerOf auction s).2 a = sd_row s a;
  sd_SellerOf_ok : ∀ auction s x, (sd_SellerOf auction s).1 = Ok x → sd_row s auction = Some x;
}.

Class SentLogLaws (L : Type) `{SentLog L} := {
  sl_seen : L → deliveryKey → Prop;
  sl_FirstDelivery_grows : ∀ e k r l key,
    sl_seen l key → sl_seen (sl_FirstDelivery e k r l).2 key;
  sl_FirstDelivery_first : ∀ e k r l,
    (sl_FirstDelivery e k r l).1 = Ok true →
    ¬ sl_seen l (mkDeliveryKey e k r) ∧ sl_seen (sl_FirstDelivery e k r l).2 (mkDeliveryKey e k r);
}.

(** *** In memory *)

#[export] Program Instance inmem_sender_laws : EmailSenderLaws inmem.FakeEmailSender := {
  es_log s := s;
}.
Next Obligation. intros. by right. Qed.

#[export] Program Instance inmem_recipients_laws :
  RecipientDirectoryLaws eq inmem.RecipientsInMem := {
  rd_row r id := r !! id;
}.
Next Obligation.
  simpl. intros id email name r id' row [[-> <-]|[_ H]]%lookup_insert_Some; eauto.
Qed.
Next Obligation.
  simpl. intros id r id'. unfold inmem.RecipientByID. rewrite run_get. by destruct (r !! id).
Qed.
Next Obligation.
  simpl. intros id r row. unfold inmem.RecipientByID. rewrite run_get.
  destruct (r !! id); simpl; congruence.
Qed.

#[export] Program Instance inmem_sellers_laws :
  SellerDirectoryLaws eq inmem.SellersInMem := {
  sd_row s a := s !! a;
}.
Next Obligation.
  simpl. intros auction seller s a x [[-> <-]|[_ H]]%lookup_insert_Some; eauto.
Qed.
Next Obligation.
  simpl. intros auction s a. unfold inmem.SellerOf. rewrite run_get. by destruct (s !! auction).
Qed.
Next Obligation.
  simpl. intros auction s x. unfold inmem.SellerOf. rewrite run_get.
  destruct (s !! auction); simpl; congruence.
Qed.

Lemma inmem_FirstDelivery_run e k r (l : inmem.SentLogInMem) :
  inmem.FirstDelivery e k r l =
    if bool_decide (mkDeliveryKey e k r ∈ (l : gset deliveryKey)) then (Ok false, l)
    else (Ok true, {[ mkDeliveryKey e k r ]} ∪ l).
Proof.
  unfold inmem.FirstDelivery. rewrite run_get. by case_bool_decide.
Qed.

#[export] Program Instance inmem_sent_log_laws : SentLogLaws inmem.SentLogInMem := {
  sl_seen l key := key ∈ (l : gset deliveryKey);
}.
Next Obligation.
  simpl. intros e k r l key Hin. rewrite inmem_FirstDelivery_run. case_bool_decide; simpl; [done|].
  set_solver.
Qed.
Next Obligation.
  simpl. intros e k r l. rewrite inmem_FirstDelivery_run. case_bool_decide; simpl; [done|].
  set_solver.
Qed.

(** *** Postgres *)

Section Pg.
Context (uuid_in : string → option uuid) (uuid_out : uuid → string).
Hypothesis uuid_in_out : ∀ u, uuid_in (uuid_out u) = Some u.

(** Two spellings of one uuid. *)
Definition same_uuid (x y : string) : Prop := ∃ u, uuid_in x = Some u ∧ uuid_in y = Some u.

(** What a statement leaves of the table, whatever the driver answers. *)
Lemma Exec_table {T} (stmt : T → option (T * Z)) s :
  pg.table (pg.Exec stmt s).2 = pg.table s
  ∨ ∃ t n, stmt (pg.table s) = Some (t, n) ∧ pg.table (pg.Exec stmt s).2 = t.
Proof.
  unfold pg.Exec. rewrite run_get.
  destruct (pg.answers s) as [|[|e|e|e] rest]; destruct (stmt (pg.table s)) as [[t n]|] eqn:Hs;
    simpl; eauto.
Qed.

Lemma Exec_counted {T} (stmt : T → option (T * Z)) s n :
  (pg.Exec stmt s).1 = Ok (Ok n) →
  ∃ t, stmt (pg.table s) = Some (t, n) ∧ pg.table (pg.Exec stmt s).2 = t.
Proof.
  unfold pg.Exec. rewrite run_get.
  destruct (pg.answers s) as [|[|e|e|e] rest]; destruct (stmt (pg.table s)) as [[t m]|] eqn:Hs;
    simpl; naive_solver.
Qed.

Lemma QueryRow_table {T X} (q : T → option (option X)) s :
  pg.table (pg.QueryRow q s).2 = pg.table s.
Proof.
  unfold pg.QueryRow. rewrite run_get.
  destruct (pg.answers s) as [|[|e|e|e] rest]; by destruct (q (pg.table s)) as [[]|].
Qed.

Lemma QueryRow_ok {T X} (q : T → option (option X)) s row :
  (pg.QueryRow q s).1 = Ok row → q (pg.table s) = Some row.
Proof.
  unfold pg.QueryRow. rewrite run_get.
  destruct (pg.answers s) as [|[|e|e|e] rest]; destruct (q (pg.table s)) as [[]|];
    simpl; congruence.
Qed.

Lemma or_fail_state {S X} msg (m : M S X) s : (pg.or_fail msg m s).2 = (m s).2.
Proof. unfold pg.or_fail. by destruct (m s). Qed.

Lemma or_fail_ok {S X} msg (m : M S X) s x :
  (pg.or_fail msg m s).1 = Ok x → (m s).1 = Ok x.
Proof. unfold pg.or_fail. destruct (m s) as [r s']. simpl. apply with_wrap_err. Qed.

Lemma bind_state {S X Y} (m : M S X) (f : X → M S Y) s :
  (∀ x s', (f x s').2 = s') → ((m ≫= f) s).2 = (m s).2.
Proof. intros Hf. unfold mbind, GoM_bind. by destruct (m s) as [[] s']. Qed.

Lemma Upsert_table id email name (r : pg.RecipientsPG) id' row :
  (u ← uuid_in id'; pg.table (pg.UpsertRecipient uuid_in id email name r).2 !! u) = Some row →
  (u ← uuid_in id'; pg.table r !! u) = Some row ∨ (same_uuid id' id ∧ row = (email, name)).
Proof.
  unfold pg.UpsertRecipient, pg.RecipientsPG in *. rewrite bind_state, or_fail_state by done.
  match goal with |- context [pg.Exec ?q r] => destruct (Exec_table q r) as [->|(t & n & Hs & ->)] end;
    [by left|].
  destruct (uuid_in id) as [u|] eqn:Hu; simplify_eq/=.
  destruct (uuid_in id') as [u'|] eqn:Hu'; simpl; [|done].
  intros [[-> <-]|[_ H]]%lookup_insert_Some; [right|by left]. split; [|done]. by exists u'.
Qed.

#[export] Program Instance pg_recipients_laws :
  RecipientDirectoryLaws same_uuid pg.RecipientsPG (H := pg.recipient_directory uuid_in) := {
  rd_row r id := u ← uuid_in id; pg.table r !! u;
}.
Next Obligation. intros. by apply Upsert_table. Qed.
Next Obligation.
  simpl. intros id r id'. unfold pg.RecipientByID, pg.RecipientsPG in *.
  rewrite bind_state, or_fail_state, QueryRow_table by (by intros []). done.
Qed.
Next Obligation.
  simpl. intros id r row. unfold pg.RecipientByID, pg.RecipientsPG in *. intros Hok.
  apply run_Ok, ok_bind in Hok as ([x|] & s1 & Hm & Hok); [|done].
  apply (f_equal fst), or_fail_ok, QueryRow_ok in Hm.
  injection Hok as Hx _. destruct (uuid_in id); simplify_eq/=. congruence.
Qed.

Lemma Remember_table auction seller (s : pg.SellersPG) a x :
  (u ← uuid_in a; v ← pg.table (pg.RememberSeller uuid_in auction seller s).2 !! u;
   Some (uuid_out v)) = Some x →
  (u ← uuid_in a; v ← pg.table s !! u; Some (uuid_out v)) = Some x
  ∨ (same_uuid a auction ∧ same_uuid x seller).
Proof.
  unfold pg.RememberSeller, pg.SellersPG in *. rewrite bind_state, or_fail_state by done.
  match goal with |- context [pg.Exec ?q s] => destruct (Exec_table q s) as [->|(t & n & Hs & ->)] end;
    [by left|].
  destruct (uuid_in auction) as [u|] eqn:Hu; simplify_eq/=.
  destruct (uuid_in seller) as [v|] eqn:Hv; simplify_eq/=.
  destruct (uuid_in a) as [u'|] eqn:Hu'; simpl; [|done].
  destruct (decide (u = u')) as [->|Hne].
  - rewrite lookup_insert_eq. simpl. intros [= <-]. right. split; [by exists u'|by exists v].
  - rewrite lookup_insert_ne by done. by left.
Qed.

#[export] Program Instance pg_sellers_laws :
  SellerDirectoryLaws same_uuid pg.SellersPG (H := pg.seller_directory uuid_in uuid_out) := {
  sd_row s a := u ← uuid_in a; v ← pg.table s !! u; Some (uuid_out v);
}.
Next Obligation. intros. by apply Remember_table. Qed.
Next Obligation.
  simpl. intros auction s a. unfold pg.SellerOf, pg.SellersPG in *.
  rewrite bind_state, or_fail_state, QueryRow_table by (by intros []). done.
Qed.
Next Obligation.
  simpl. intros auction s x. unfold pg.SellerOf, pg.SellersPG in *. intros Hok.
  apply run_Ok, ok_bind in Hok as ([v|] & s1 & Hm & Hok); [|done].
  apply (f_equal fst), or_fail_ok, QueryRow_ok in Hm.
  injection Hok as Hx _. destruct (uuid_in auction); simplify_eq/=. by rewrite Hm.
Qed.

(** The row of a key, if its identities are uuids. *)
Definition slot_row (key : deliveryKey) : option (uuid * string * uuid) :=
  e ← uuid_in (dk_eventID key); r ← uuid_in (dk_recipientID key); Some (e, dk_kind key, r).

Lemma insert_slot_spec e k r t t' n :
  pg.insert_slot uuid_in e k r t = Some (t', n) →
  ∃ row, slot_row (mkDeliveryKey e k r) = Some row ∧ t' = {[ row ]} ∪ t
  ∧ (n = 1 → row ∉ t).
Proof.
  unfold pg.insert_slot, slot_row. simpl.
  destruct (uuid_in e) as [u|]; simpl; [|done]. destruct (uuid_in r) as [v|]; simpl; [|done].
  case_bool_decide as Hin; intros [= <- <-]; eexists; (split_and!; [done| |]); [set_solver|done..].
Qed.

#[export] Program Instance pg_sent_log_laws :
  SentLogLaws pg.SentLogPG (H := pg.sent_log uuid_in) := {
  sl_seen l key := ∃ row, slot_row key = Some row ∧ row ∈ pg.table l;
}.
Next Obligation.
  simpl. intros e k r l key (row & Hrow & Hin). exists row. split; [done|].
  unfold pg.FirstDelivery, pg.SentLogPG in *. rewrite bind_state, or_fail_state by (by intros [] ?).
  match goal with |- context [pg.Exec ?q l] => destruct (Exec_table q l) as [->|(t & n & Hs & ->)] end;
    [done|]. apply insert_slot_spec in Hs as (row' & _ & -> & _). set_solver.
Qed.
Next Obligation.
  simpl. intros e k r l Hok. unfold pg.FirstDelivery, pg.SentLogPG in *.
  apply run_Ok, ok_bind in Hok as (res & s1 & Hm & Hok).
  rewrite bind_state, or_fail_state by (by intros [] ?).
  destruct res as [n|?|?]; [|done..]. injection Hok as Hn Hl. apply Z.eqb_eq in Hn as ->.
  apply (f_equal fst), or_fail_ok in Hm as (t & Hs & ->)%Exec_counted.
  apply insert_slot_spec in Hs as (row & Hrow & -> & Hnew). split; [|exists row; set_solver].
  intros (row' & Hrow' & Hin). rewrite Hrow in Hrow'. injection Hrow' as <-. by apply Hnew.
Qed.
End Pg.

(** ** What an event says

    The notices of an event, in the order they are delivered; [seller] is the
    seller of the auction of a settled or failed sale. *)
Record notice := mkNotice {
  n_eventID : string;
  n_kind : string;
  n_recipient : string;
  n_text : string * string;
}.

Definition n_slot (n : notice) : deliveryKey :=
  mkDeliveryKey (n_eventID n) (n_kind n) (n_recipient n).

Definition notices (seller : string) (e : Event) : list notice :=
  match e with
  | OfAuction (EvBidPlacedV1 e) =>
      if bool_decide (bp_OutbidBidderID e = "") then []
      else [mkNotice (bp_EventID e) kindOutbidNotice (bp_OutbidBidderID e) (outbid_text e)]
  | OfAuction (EvAuctionListedV1 e) =>
      if al_RelistGeneration e =? 0 then []
      else [mkNotice (al_EventID e) kindAuctionRelisted (al_SellerID e) (relisted_text e)]
  | OfAuction (EvAuctionClosedV1 e) =>
      (if bool_decide (acl_Outcome e = "sold") && bool_decide (acl_WinnerID e ≠ "")
       then [mkNotice (acl_EventID e) kindAuctionWon (acl_WinnerID e) (won_text e)] else [])
      ++ [mkNotice (acl_EventID e) kindAuctionClosed (acl_SellerID e) (closed_text e)]
  | OfAuction (EvWinnerReassignedV1 e) =>
      [mkNotice (wr_EventID e) kindSecondChanceOffer (wr_NewWinnerID e) (second_chance_text e)]
  | OfAuction (EvSaleSettledV1 e) =>
      [mkNotice (ss_EventID e) kindSaleSettled seller (settled_text e)]
  | OfAuction (EvSaleFailedV1 e) =>
      [mkNotice (sf_EventID e) kindSaleFailed seller (failed_text e)]
  | OfBilling (EvInvoiceIssuedV1 e) =>
      [mkNotice (ii_EventID e) kindPaymentDueNotice (ii_DebtorID e) (due_text e)]
  | OfBilling (EvInvoicePaidV1 e) =>
      [mkNotice (ip_EventID e) kindPaymentReceipt (ip_DebtorID e) (receipt_text e)]
  | _ => []
  end.

(** The auction of a sale that ended, and the seller an event names. *)
Definition sale_of (e : Event) : option string :=
  match e with
  | OfAuction (EvSaleSettledV1 e) => Some (ss_AuctionID e)
  | OfAuction (EvSaleFailedV1 e) => Some (sf_AuctionID e)
  | _ => None
  end.

Definition seller_in (e : Event) : option (string * string) :=
  match e with
  | OfAuction (EvAuctionListedV1 e) => Some (al_AuctionID e, al_SellerID e)
  | OfAuction (EvAuctionClosedV1 e) => Some (acl_AuctionID e, acl_SellerID e)
  | _ => None
  end.

(** The e-mail of a notice to the recipient [row]. *)
Definition email_of (n : notice) (row : string * string) : Email :=
  mkEmail row.1 (n_text n).1 (body_text row.2 (n_text n).2).

(** ** No notice is sent twice *)

Section Once.
Context {E R S L : Type} (same : string → string → Prop).
Context `{EmailSenderLaws E, RecipientDirectoryLaws same R, SellerDirectoryLaws same S, SentLogLaws L}.
(** The events that are on the bus, each delivered any number of times. *)
Context (published : Event → Prop).
Implicit Types (w : world E R S L) (n : notice).

(** A registration of [id] carries the address and the name [row]. *)
Definition registered (id : string) (row : string * string) : Prop :=
  ∃ r, published (OfParticipant (EvParticipantRegisteredV1 r)) ∧ same id (pr_ParticipantID r)
  ∧ row = (pr_Email r, pr_DisplayName r).

(** A listing or a closing of [auction] names [seller]. *)
Definition sells (auction seller : string) : Prop :=
  ∃ e a s, published e ∧ seller_in e = Some (a, s) ∧ same auction a ∧ same seller s.

(** [n] is a notice of an event of the bus. *)
Definition due n : Prop :=
  ∃ e seller, published e ∧ n ∈ notices seller e
  ∧ ∀ auction, sale_of e = Some auction → sells auction seller.

(** [mail] is what the slot [key] is for. *)
Definition justified (mail : Email) (key : deliveryKey) : Prop :=
  ∃ n row, due n ∧ registered (n_recipient n) row ∧ key = n_slot n ∧ mail = email_of n row.

(** The directories only hold what events said. *)
Record sound_directories (rs : R) (ss : S) : Prop := {
  so_recipients : ∀ id row, rd_row rs id = Some row → registered id row;
  so_sellers : ∀ a s, sd_row ss a = Some s → sells a s;
}.

(** The slots of [T] are recorded in [l] but not in [l0], and distinct. *)
Record fresh_slots (l0 l : L) (T : list deliveryKey) : Prop := {
  fs_distinct : NoDup T;
  fs_recorded : ∀ k, k ∈ T → sl_seen l k ∧ ¬ sl_seen l0 k;
}.

(** What [w] is like when the running handlers own the slots [T]. *)
Definition sound w0 w (T : list deliveryKey) : Prop :=
  sound_directories (recipients w) (sellers w)
  ∧ (∀ k, sl_seen (sentLog w0) k → sl_seen (sentLog w) k)
  ∧ ∃ mails slots, es_log (emails w) = es_log (emails w0) ++ mails
    ∧ Forall2 justified mails slots ∧ fresh_slots (sentLog w0) (sentLog w) (T ++ slots).

Lemma fresh_slots_perm l0 l T T' : T ≡ₚ T' → fresh_slots l0 l T → fresh_slots l0 l T'.
Proof.
  intros Hp [Hd Hr]. split; [by rewrite <-Hp|]. intros k Hk. apply Hr. by rewrite Hp.
Qed.

Lemma fresh_slots_drop l0 l T T' : fresh_slots l0 l (T ++ T') → fresh_slots l0 l T'.
Proof.
  intros [Hd Hr]. split; [by apply NoDup_app in Hd as (_ & _ & Hd)|]. intros k Hk. apply Hr. set_solver.
Qed.

Lemma sound_perm w0 w T T' : T ≡ₚ T' → sound w0 w T → sound w0 w T'.
Proof.
  intros Hp (Hdir & Hle & mails & slots & Hlog & Hj & Hf). split_and!; [done..|].
  exists mails, slots. split_and!; [done..|]. eapply fresh_slots_perm; [|done]. by rewrite Hp.
Qed.

Lemma sound_drop w0 w T F : sound w0 w (T ++ F) → sound w0 w F.
Proof.
  intros (Hdir & Hle & mails & slots & Hlog & Hj & Hf). split_and!; [done..|].
  exists mails, slots. split_and!; [done..|]. rewrite <-app_assoc in Hf.
  by eapply fresh_slots_drop.
Qed.

(** *** Each call, by what the handler owns before and after *)

(** A call that keeps no slot. *)
Definition released {X} : res error X → list deliveryKey → Prop := on_ok (fun _ T => T = []).

Lemma released_call {X} (r : res error X) T :
  on_ok (fun (_ : X) T => True ∧ T = []) r T → released r T.
Proof. destruct r; [|done..]. by intros [_ ->]. Qed.

Lemma own_call_or {X} w0 T T' msg (m : M (world E R S L) X) (Q : X → Prop) :
  (∀ w F, sound w0 w (T ++ F) →
     (∀ x, (m w).1 = Ok x → Q x) ∧ sound w0 (m w).2 (T' ++ F)) →
  own (sound w0) T (call_or msg m) (on_ok (fun x T1 => Q x ∧ T1 = T')).
Proof.
  intros Hm. simpl. intros w F Hs. destruct (Hm w F Hs) as [HQ Hs'].
  exists T'. split; [done|]. destruct (m w).1 as [x|e|q] eqn:Hr; simpl; auto.
Qed.

Lemma own_upsert w0 r :
  published (OfParticipant (EvParticipantRegisteredV1 r)) →
  own (sound w0) [] (onParticipantRegistered r) released.
Proof.
  intros Hpub. eapply own_mono; [apply (own_call_or w0 [] [] _ _ (fun _ => True))|by apply released_call].
  intros w F (Hdir & Hle & Hlog). split; [done|]. unfold on_recipients.
  pose proof (rd_Upsert_row (pr_ParticipantID r) (pr_Email r) (pr_DisplayName r) (recipients w))
    as Hrow.
  destruct (rd_UpsertRecipient _ _ _ _) as [x r']. split; [|done]. simpl in *. split; [|apply Hdir].
  intros id row [Hold|[Hid ->]]%Hrow; [by apply Hdir|]. by exists r.
Qed.

Lemma own_remember w0 msg e auction seller :
  published e → seller_in e = Some (auction, seller) →
  own (sound w0) [] (call_or msg (on_sellers (sd_RememberSeller auction seller)))
    (on_ok (fun _ T => True ∧ T = [])).
Proof.
  intros Hpub Hse. apply (own_call_or w0 [] [] _ _ (fun _ => True)).
  intros w F (Hdir & Hle & Hlog). split; [done|]. unfold on_sellers.
  pose proof (sd_Remember_row auction seller (sellers w)) as Hrow.
  destruct (sd_RememberSeller _ _ _) as [x s']. split; [|done]. simpl in *. split; [apply Hdir|].
  intros a s [Hold|[Ha Hs]]%Hrow; [by apply Hdir|]. by exists e, auction, seller.
Qed.

Lemma own_seller w0 msg auction :
  own (sound w0) [] (call_or msg (on_sellers (sd_SellerOf auction)))
    (on_ok (fun seller T => sells auction seller ∧ T = [])).
Proof.
  apply (own_call_or w0 [] [] _ _ (sells auction)).
  intros w F (Hdir & Hle & Hlog). unfold on_sellers.
  pose proof (sd_SellerOf_ok auction (sellers w)) as Hok.
  pose proof (sd_SellerOf_keeps auction (sellers w)) as Hkeep.
  destruct (sd_SellerOf _ _) as [x s']. simpl in *. split.
  - intros seller ->. by apply Hdir, Hok.
  - split; [|done]. split; [apply Hdir|]. simpl. intros a s. rewrite Hkeep. apply Hdir.
Qed.

Lemma own_recipient w0 msg id :
  own (sound w0) [] (call_or msg (on_recipients (rd_RecipientByID id)))
    (on_ok (fun row T => registered id row ∧ T = [])).
Proof.
  apply (own_call_or w0 [] [] _ _ (registered id)).
  intros w F (Hdir & Hle & Hlog). unfold on_recipients.
  pose proof (rd_ByID_ok id (recipients w)) as Hok.
  pose proof (rd_ByID_keeps id (recipients w)) as Hkeep.
  destruct (rd_RecipientByID _ _) as [x r']. simpl in *. split.
  - intros row ->. by apply Hdir, Hok.
  - split; [|done]. split; [|apply Hdir]. simpl. intros a s. rewrite Hkeep. apply Hdir.
Qed.

(** The handler that records a slot first owns it. *)
Lemma own_first w0 msg k :
  own (sound w0) []
    (call_or msg (on_sentLog (sl_FirstDelivery (dk_eventID k) (dk_kind k) (dk_recipientID k))))
    (on_ok (fun first T => T = if (first : bool) then [k] else [])).
Proof.
  simpl. intros w F (Hdir & Hle & mails & slots & Hlog & Hj & [Hd Hr]). unfold on_sentLog.
  pose proof (sl_FirstDelivery_first (dk_eventID k) (dk_kind k) (dk_recipientID k) (sentLog w))
    as Hfirst.
  pose proof (sl_FirstDelivery_grows (dk_eventID k) (dk_kind k) (dk_recipientID k) (sentLog w))
    as Hgrows.
  destruct (sl_FirstDelivery _ _ _ _) as [r l]. simpl in *. destruct k as [e k id]. simpl in *.
  assert (∀ T, NoDup (T ++ F ++ slots) →
    (∀ k', k' ∈ T → sl_seen l k' ∧ ¬ sl_seen (sentLog w0) k') →
    sound w0 (mkWorld (emails w) (recipients w) (sellers w) l) (T ++ F)) as Hsound.
  { intros T HdT HT. split_and!; [done|simpl; eauto|]. exists mails, slots. split_and!; [done..|].
    rewrite <-app_assoc. split; [done|]. simpl.
    intros k' [Hk'|Hk']%elem_of_app; [by apply HT|]. split; [apply Hgrows|]; by apply Hr. }
  destruct r as [[]|?|?]; [|exists []; split; [apply (Hsound []); set_solver|done]..].
  destruct (Hfirst eq_refl) as [Hnew Hrec]. exists [mkDeliveryKey e k id]. split; [|done].
  apply (Hsound [_]).
  - simpl. apply NoDup_cons. split; [|done]. intros Hin. by apply Hnew, Hr.
  - intros k' ->%list_elem_of_singleton. split; [done|]. auto.
Qed.

(** The owner of a slot spends it on the e-mail. *)
Lemma own_send w0 msg mail k :
  justified mail k →
  own (sound w0) [k] (call_or msg (on_emails (es_Send (em_to mail) (em_subject mail) (em_body mail))))
    released.
Proof.
  intros Hj1. eapply own_mono; [apply (own_call_or w0 [k] [] _ _ (fun _ => True))|by apply released_call].
  intros w F (Hdir & Hle & mails & slots & Hlog & Hj & Hf). split; [done|]. unfold on_emails.
  pose proof (es_Send_log (em_to mail) (em_subject mail) (em_body mail) (emails w)) as Hsend.
  destruct (es_Send _ _ _ _) as [r s]. simpl in *. split_and!; [done..|]. simpl.
  destruct Hsend as [->| ->].
  - exists mails, slots. split_and!; [done..|]. by apply (fresh_slots_drop _ _ [k]).
  - exists (mails ++ [mail]), (slots ++ [k]). rewrite Hlog, app_assoc. split_and!.
    + by destruct mail.
    + apply Forall2_app; [done|]. by repeat constructor.
    + eapply fresh_slots_perm; [|exact Hf]. rewrite app_assoc.
      by rewrite (Permutation_app_comm (F ++ slots) [k]).
Qed.

(** *** The handlers *)

Lemma own_deliver w0 n :
  due n →
  own (sound w0) [] (deliver (n_eventID n) (n_kind n) (n_recipient n) (n_text n)) released.
Proof.
  intros Hdue. eapply own_seq; [apply own_recipient|]. intros row T [Hreg ->].
  destruct row as [email name].
  eapply own_seq; [apply (own_first w0 _ (n_slot n))|]. intros [] T ->; [|done].
  apply (own_send w0 _ (email_of n (email, name)) (n_slot n)).
  by exists n, (email, name).
Qed.

(** A notice of an event of the bus may be delivered. *)
Lemma own_notice w0 e seller id kind recipient text :
  published e → (∀ auction, sale_of e = Some auction → sells auction seller) →
  mkNotice id kind recipient text ∈ notices seller e →
  own (sound w0) [] (deliver id kind recipient text) released.
Proof.
  intros Hpub Hs Hin. apply (own_deliver w0 (mkNotice id kind recipient text)).
  by exists e, seller.
Qed.

Lemma own_onAuctionListed w0 e :
  published (OfAuction (EvAuctionListedV1 e)) → own (sound w0) [] (onAuctionListed e) released.
Proof.
  intros Hpub. eapply own_seq; [by eapply own_remember|]. intros _ T [_ ->].
  destruct (al_RelistGeneration e =? 0) eqn:Hg; [done|].
  eapply (own_notice w0 _ ""); [done..|]. simpl. rewrite Hg. by constructor.
Qed.

Lemma own_onAuctionClosed w0 e :
  published (OfAuction (EvAuctionClosedV1 e)) → own (sound w0) [] (onAuctionClosed e) released.
Proof.
  intros Hpub. eapply own_seq; [by eapply own_remember|]. intros _ T [_ ->].
  apply own_seq with (R := fun _ T => T = []).
  - destruct (_ && _) eqn:Hsold; [|done].
    eapply (own_notice w0 _ ""); [done..|]. simpl. rewrite Hsold. by constructor.
  - intros _ T ->. eapply (own_notice w0 _ ""); [done..|]. simpl. set_solver.
Qed.

Lemma own_sale w0 msg e auction kind id text :
  published e → sale_of e = Some auction →
  (∀ seller, mkNotice id kind seller text ∈ notices seller e) →
  own (sound w0) []
    (seller ← call_or msg (on_sellers (sd_SellerOf auction)); deliver id kind seller text) released.
Proof.
  intros Hpub Hsale Hin. eapply own_seq; [apply own_seller|]. intros seller T [Hs ->].
  eapply (own_notice w0 e seller); [done| |done]. intros a Ha. rewrite Hsale in Ha. by injection Ha as <-.
Qed.

Lemma own_on_event w0 e : published e → own (sound w0) [] (on_event e) finished.
Proof.
  intros Hpub. apply own_finished with (Q := released).
  destruct e as [[e|e|e|e|e|e|e|e]|[e|e|e]|[e|e]]; unfold on_event; simpl Handlers; try done.
  - by apply own_onAuctionListed.
  - unfold onBidPlaced. destruct (bool_decide (bp_OutbidBidderID e = "")) eqn:Hb; [done|].
    eapply (own_notice w0 _ ""); [done..|]. simpl. rewrite Hb. by constructor.
  - by apply own_onAuctionClosed.
  - eapply (own_notice w0 _ ""); [done..|]. by constructor.
  - eapply own_sale; [done..|]. by constructor.
  - eapply own_sale; [done..|]. by constructor.
  - eapply (own_notice w0 _ ""); [done..|]. by constructor.
  - eapply (own_notice w0 _ ""); [done..|]. by constructor.
  - by apply own_upsert.
Qed.

(** C19: whatever is delivered, redelivered, interleaved, cut off by a crash
    or failed by the stores: the e-mails sent are matched one to one with
    distinct delivery slots that were not recorded before, so that no notice
    goes out twice; each is the e-mail of a notice of a published event, with
    the address and the name a registration of its recipient carried, the
    recipient of a sale's notice being the seller a listing or closing of the
    auction named; and every slot used is recorded. *)
Theorem notified_once w0 c :
  sound_directories (recipients w0) (sellers w0) →
  rtc (pool_step (fun _ => True) on_event (fun e _ => published e) (fun _ _ => False))
    (mkPool w0 []) c →
  ∃ mails slots,
    es_log (emails (mem c)) = es_log (emails w0) ++ mails
    ∧ NoDup slots
    ∧ Forall2 justified mails slots
    ∧ ∀ k, k ∈ slots → sl_seen (sentLog (mem c)) k ∧ ¬ sl_seen (sentLog w0) k.
Proof.
  intros Hdir Hr.
  apply (pool_own_reachable (sound w0)) in Hr as (Ts & _ & Hv).
  - rewrite <-(app_nil_r (concat Ts)) in Hv.
    apply sound_drop in Hv as (_ & _ & mails & slots & Hlog & Hj & [Hd Hs]).
    by exists mails, slots.
  - intros w T T'. apply sound_perm.
  - intros w T F. apply sound_drop.
  - intros e w. apply own_on_event.
  - done.
  - exists []. split; [by apply Forall2_nil|]. split_and!; [done..|].
    exists [], []. rewrite app_nil_r. split_and!; [done..|]. split; [by apply NoDup_nil|]. set_solver.
Qed.
End Once.
End notification_theory.
