(* ===== verification/NotificationDelivery.v ===== *)
(** * The delivery of notices

    What the in-memory adapters make of a delivery: the notices of an event
    go out in order until a recipient is missing, a failed attempt loses
    nothing, a crash loses at most one e-mail, and once a delivery succeeds
    every notice of the event is recorded. *)

From stdpp Require Import base numbers list strings gmap relations.
From Stdlib Require Import ZArith Lia.
From S2P Require Import Prelude GoText Errs Events Processes Notification NotificationTheory.

Module notification_delivery.
Import notification notification.inmem notification_theory.

Abbreviation memory := (world FakeEmailSender RecipientsInMem SellersInMem SentLogInMem).
Implicit Types (w : memory) (n : notice) (ns p : list notice) (e : Event).

(** The row of a notice's recipient. *)
Definition row_of w n : option (string * string) :=
  (recipients w : gmap string (string * string)) !! n_recipient n.

Definition known w n : Prop := is_Some (row_of w n).

(** [w] with the slot of [n] recorded, and with its e-mail sent as well. *)
Definition record_slot n w : memory :=
  mkWorld (emails w) (recipients w) (sellers w) ({[ n_slot n ]} ∪ sentLog w : gset deliveryKey).
Definition send_notice n row w : memory :=
  mkWorld (emails w ++ [email_of n row]) (recipients w) (sellers w)
    ({[ n_slot n ]} ∪ sentLog w : gset deliveryKey).

Definition recorded w n : bool := bool_decide (n_slot n ∈ (sentLog w : gset deliveryKey)).

Definition deliver_notice n : prog memory unit :=
  deliver (n_eventID n) (n_kind n) (n_recipient n) (n_text n).

(** ** One notice *)

Lemma run_deliver n w :
  run (deliver_notice n) w =
    match row_of w n with
    | None => (Fail (Errorf "resolve %s recipient"
                       (ErrNew "recipient %s is not in the directory yet")), w)
    | Some row => (Ok tt, if recorded w n then w else send_notice n row w)
    end.
Proof.
  destruct w as [es rs ss log]. unfold deliver_notice, deliver, recorded, row_of. simpl.
  unfold on_recipients. simpl. unfold RecipientByID, RecipientsInMem in *. rewrite run_get.
  destruct (rs !! n_recipient n) as [[email name]|] eqn:Hrow; simpl; [|done].
  unfold on_sentLog. simpl. rewrite inmem_FirstDelivery_run. fold (n_slot n).
  by case_bool_decide.
Qed.

(** A crash in the middle leaves the notice unrecorded, or recorded but not
    sent, or both. *)
Lemma crash_deliver k n w :
  crash_after k (deliver_notice n) w = w
  ∨ ∃ row, row_of w n = Some row ∧ recorded w n = false
    ∧ (crash_after k (deliver_notice n) w = record_slot n w
       ∨ crash_after k (deliver_notice n) w = send_notice n row w).
Proof.
  destruct w as [es rs ss log]. unfold deliver_notice, deliver, recorded, row_of, call_or, mbind, prog_bind.
  simpl. destruct k as [|k]; [by left|]. rewrite crash_after_S.
  unfold on_recipients. simpl. unfold RecipientByID, RecipientsInMem in *. rewrite run_get.
  destruct (rs !! n_recipient n) as [[email name]|] eqn:Hrow; simpl;
    [|left; by rewrite crash_after_Ret].
  destruct k as [|k]; [by left|]. rewrite crash_after_S. unfold on_sentLog. simpl.
  rewrite inmem_FirstDelivery_run. fold (n_slot n). case_bool_decide as Hin; simpl;
    [left; apply crash_after_Ret|right].
  exists (email, name). split_and!; [done..|]. destruct k as [|k]; [by left|right].
  by rewrite crash_after_S, crash_after_Ret.
Qed.

(** ** A handler, as its notices in order *)

Definition pipeline ns : prog memory unit :=
  foldr (fun n q => deliver_notice n;; q) (mret tt) ns.

Lemma pipeline_one n : same_run (pipeline [n]) (deliver_notice n).
Proof. apply same_run_ret. Qed.

(** The e-mails of [ns] that were not recorded in [s0], their recipients looked
    up in [rs]. *)
Definition mails (s0 : gset deliveryKey) (rs : gmap string (string * string)) ns : list Email :=
  omap (fun n => email_of n <$> rs !! n_recipient n)
    (filter (fun n => n_slot n ∉ s0) ns).

Definition slots ns : gset deliveryKey := list_to_set (n_slot <$> ns).

(** [w] after the notices [p] were recorded from [w0] on, all but [lost] of
    their e-mails sent. *)
Record delivered (rs : gmap string (string * string)) w0 p (lost : nat) (l : list Email) w : Prop := {
  de_log : sentLog w = slots p ∪ sentLog w0;
  de_emails : emails w = emails w0 ++ l;
  de_sent : l `sublist_of` mails (sentLog w0) rs p;
  de_lost : (length (mails (sentLog w0) rs p) ≤ length l + lost)%nat;
  de_rows : (recipients w : gmap string (string * string)) ⊆ rs;
}.

Lemma mails_app s0 rs p q : mails s0 rs (p ++ q) = mails s0 rs p ++ mails s0 rs q.
Proof. unfold mails. by rewrite filter_app, omap_app. Qed.

Lemma mails_old s0 rs n : n_slot n ∈ s0 → mails s0 rs [n] = [].
Proof. intros Hin. unfold mails. rewrite filter_cons_False by auto. done. Qed.

Lemma mails_new s0 rs n row :
  n_slot n ∉ s0 → rs !! n_recipient n = Some row →
  mails s0 rs [n] = [email_of n row].
Proof. intros Hin Hrow. unfold mails. rewrite filter_cons_True by done. simpl. by rewrite Hrow. Qed.

Lemma slots_app p n : slots (p ++ [n]) = {[ n_slot n ]} ∪ slots p.
Proof. unfold slots. rewrite fmap_app, list_to_set_app_L. simpl. set_solver. Qed.

(** The notice after [p], once it was recorded before. *)
Lemma delivered_skip rs w0 p lost l w n :
  delivered rs w0 p lost l w → n_slot n ∈ (sentLog w0 : gset deliveryKey) →
  delivered rs w0 (p ++ [n]) lost l w.
Proof.
  intros [Hlog He Hs Hl Hr] Hin. split; rewrite ?mails_app, ?(mails_old _ _ _ Hin), ?app_nil_r; try done.
  rewrite Hlog, slots_app. set_solver.
Qed.

Lemma delivered_send rs w0 p lost l w n row :
  delivered rs w0 p lost l w → n_slot n ∉ (sentLog w0 : gset deliveryKey) →
  row_of w n = Some row →
  delivered rs w0 (p ++ [n]) lost (l ++ [email_of n row]) (send_notice n row w).
Proof.
  intros [Hlog He Hs Hl Hr] Hin Hrow.
  assert (rs !! n_recipient n = Some row) as Hrs
    by (by eapply lookup_weaken).
  split; rewrite ?mails_app, ?(mails_new _ _ _ row Hin Hrs); simpl; [| | | |done].
  - rewrite Hlog, slots_app. set_solver.
  - by rewrite He, app_assoc.
  - by apply sublist_app.
  - rewrite !length_app. simpl. lia.
Qed.

Lemma delivered_lose rs w0 p lost l w n row :
  delivered rs w0 p lost l w → n_slot n ∉ (sentLog w0 : gset deliveryKey) →
  row_of w n = Some row →
  delivered rs w0 (p ++ [n]) (S lost) l (record_slot n w).
Proof.
  intros [Hlog He Hs Hl Hr] Hin Hrow.
  assert (rs !! n_recipient n = Some row) as Hrs
    by (by eapply lookup_weaken).
  split; rewrite ?mails_app, ?(mails_new _ _ _ row Hin Hrs); simpl; [|done| | |done].
  - rewrite Hlog, slots_app. set_solver.
  - by apply sublist_inserts_r.
  - rewrite length_app. simpl. lia.
Qed.
(** *** One notice of a handler, after any earlier attempts

    [pre] are the notices before [n]; an earlier attempt may have recorded
    more than them. *)

Lemma prefix_cons_cases {X} (pre q mid : list X) a :
  pre `prefix_of` mid → mid `prefix_of` pre ++ a :: q →
  mid = pre ∨ pre ++ [a] `prefix_of` mid.
Proof.
  intros [x ->] Hp. apply prefix_app_inv in Hp. destruct x as [|y x]; [left; by rewrite app_nil_r|].
  right. apply prefix_cons_inv_1 in Hp as ->. exists x. by rewrite <-app_assoc.
Qed.

Lemma recorded_spec rs w0 p lost l w n :
  delivered rs w0 p lost l w →
  recorded w n = true ↔ n_slot n ∈ slots p ∨ n_slot n ∈ (sentLog w0 : gset deliveryKey).
Proof.
  intros Hd. unfold recorded. rewrite bool_decide_eq_true, (de_log _ _ _ _ _ _ Hd). set_solver.
Qed.

Lemma slots_nodup_fresh pre n q :
  NoDup (n_slot <$> pre ++ n :: q) → n_slot n ∉ slots pre.
Proof.
  rewrite fmap_app, fmap_cons. intros (_ & Hd & _)%NoDup_app. unfold slots.
  rewrite elem_of_list_to_set. intros Hin. apply (Hd _ Hin). by constructor.
Qed.

Lemma recorded_next rs w0 pre n q p lost l w :
  NoDup (n_slot <$> pre ++ n :: q) → pre `prefix_of` p → p `prefix_of` pre ++ n :: q →
  delivered rs w0 p lost l w →
  (recorded w n = true ∧ ∃ p', pre ++ [n] `prefix_of` p' ∧ p' `prefix_of` pre ++ n :: q
     ∧ delivered rs w0 p' lost l w)
  ∨ (recorded w n = false ∧ p = pre ∧ n_slot n ∉ (sentLog w0 : gset deliveryKey)).
Proof.
  intros Hnd H1 H2 Hd. pose proof (recorded_spec _ _ _ _ _ _ n Hd) as Hrec.
  destruct (prefix_cons_cases _ _ _ _ H1 H2) as [->|H3].
  - destruct (decide (n_slot n ∈ (sentLog w0 : gset deliveryKey))) as [Hin|Hin].
    + left. split; [by apply Hrec; right|]. exists (pre ++ [n]). split_and!; [done| |by apply delivered_skip].
      exists q. by rewrite <-app_assoc.
    + right. split_and!; [|done..]. apply not_true_iff_false. rewrite Hrec.
      intros [Hs|Hs]; [|done]. by eapply slots_nodup_fresh.
  - left. split; [|by exists p]. apply Hrec. left. destruct H3 as [x ->]. unfold slots.
    rewrite !fmap_app, !list_to_set_app_L. simpl. set_solver.
Qed.

Lemma prefix_snoc {X} (pre q : list X) a : pre ++ [a] `prefix_of` pre ++ a :: q.
Proof. exists q. by rewrite <-app_assoc. Qed.

Lemma snoc_cons {X} (pre q : list X) a : pre ++ a :: q = (pre ++ [a]) ++ q.
Proof. by rewrite <-app_assoc. Qed.

Lemma deliver_next rs w0 pre n q p lost l w row :
  NoDup (n_slot <$> pre ++ n :: q) → pre `prefix_of` p → p `prefix_of` pre ++ n :: q →
  delivered rs w0 p lost l w → row_of w n = Some row →
  ∃ w1 p' l', run (deliver_notice n) w = (Ok tt, w1) ∧ recipients w1 = recipients w
    ∧ pre ++ [n] `prefix_of` p' ∧ p' `prefix_of` pre ++ n :: q ∧ delivered rs w0 p' lost l' w1.
Proof.
  intros Hnd H1 H2 Hd Hrow. rewrite run_deliver, Hrow.
  destruct (recorded_next _ _ _ _ _ _ _ _ _ Hnd H1 H2 Hd) as [(-> & p' & Hp)|(-> & -> & Hin)].
  - by exists w, p', l.
  - exists (send_notice n row w), (pre ++ [n]), (l ++ [email_of n row]).
    split_and!; [done..|apply prefix_snoc|]. by apply delivered_send.
Qed.

Lemma crash_next rs w0 pre n q p lost l w k :
  NoDup (n_slot <$> pre ++ n :: q) → pre `prefix_of` p → p `prefix_of` pre ++ n :: q →
  delivered rs w0 p lost l w →
  ∃ p' l' lost', pre `prefix_of` p' ∧ p' `prefix_of` pre ++ n :: q ∧ (lost' ≤ S lost)%nat
    ∧ delivered rs w0 p' lost' l' (crash_after k (deliver_notice n) w).
Proof.
  intros Hnd H1 H2 Hd.
  destruct (crash_deliver k n w) as [->|(row & Hrow & Hno & Hc)]; [exists p, l, lost; eauto|].
  destruct (recorded_next _ _ _ _ _ _ _ _ _ Hnd H1 H2 Hd) as [(Hyes & _)|(_ & -> & Hin)];
    [by rewrite Hno in Hyes|].
  destruct Hc as [-> | ->].
  - exists (pre ++ [n]), l, (S lost). split_and!; [by apply prefix_app_r|apply prefix_snoc|done|].
    by eapply delivered_lose.
  - exists (pre ++ [n]), (l ++ [email_of n row]), lost.
    split_and!; [by apply prefix_app_r|apply prefix_snoc|lia|]. by apply delivered_send.
Qed.

(** *** All the notices of a handler *)

Lemma run_pipeline rs w0 q : ∀ pre p lost l w,
  NoDup (n_slot <$> pre ++ q) → pre `prefix_of` p → p `prefix_of` pre ++ q →
  delivered rs w0 p lost l w →
  ∃ r w1 p' l', run (pipeline q) w = (r, w1) ∧ recipients w1 = recipients w
    ∧ pre `prefix_of` p' ∧ p' `prefix_of` pre ++ q ∧ delivered rs w0 p' lost l' w1
    ∧ (r = Ok tt → p' = pre ++ q)
    ∧ ((∀ n, n ∈ q → known w n) → r = Ok tt).
Proof.
  induction q as [|n q IH]; intros pre p lost l w Hnd H1 H2 Hd.
  - rewrite app_nil_r in *. assert (p = pre) as -> by (by apply (anti_symm prefix)).
    exists (Ok tt), w, pre, l. by split_and!.
  - change (pipeline (n :: q)) with (deliver_notice n;; pipeline q).
    rewrite run_bind. unfold mbind, GoM_bind.
    destruct (row_of w n) as [row|] eqn:Hrow.
    + destruct (deliver_next _ _ _ _ _ _ _ _ _ _ Hnd H1 H2 Hd Hrow)
        as (w1 & p1 & l1 & -> & Hrows & H3 & H4 & Hd1).
      rewrite (snoc_cons pre q n) in *.
      destruct (IH (pre ++ [n]) p1 lost l1 w1 Hnd H3 H4 Hd1)
        as (r & w2 & p2 & l2 & -> & Hrows2 & H5 & H6 & Hd2 & Hok & Hkn).
      exists r, w2, p2, l2. split_and!; try done; [congruence|by eapply prefix_app_l|].
      intros Hall. apply Hkn. intros n' Hn'. unfold known, row_of. rewrite Hrows.
      apply Hall. by constructor.
    + rewrite run_deliver, Hrow. eexists _, w, p, l. split_and!; try done.
      intros Hall. destruct (Hall n) as [row Hr]; [by constructor|]. congruence.
Qed.

Lemma crash_pipeline rs w0 q : ∀ pre p lost l w k,
  NoDup (n_slot <$> pre ++ q) → pre `prefix_of` p → p `prefix_of` pre ++ q →
  delivered rs w0 p lost l w →
  ∃ p' l' lost', p' `prefix_of` pre ++ q ∧ (lost' ≤ S lost)%nat
    ∧ delivered rs w0 p' lost' l' (crash_after k (pipeline q) w).
Proof.
  induction q as [|n q IH]; intros pre p lost l w k Hnd H1 H2 Hd.
  - change (pipeline []) with (Ret (Ok tt) : prog memory unit). rewrite crash_after_Ret.
    exists p, l, lost. by eauto.
  - change (pipeline (n :: q)) with (deliver_notice n;; pipeline q). unfold mbind, prog_bind.
    match goal with |- context [crash_after k (attempt ?p1 ?h) w] =>
      destruct (crash_after_attempt k p1 h w) as [->|[m ->]] end.
    + destruct (crash_next _ _ _ _ _ _ _ _ _ k Hnd H1 H2 Hd)
        as (p' & l' & lost' & _ & H4 & Hl & Hd'). by exists p', l', lost'.
    + destruct (row_of w n) as [row|] eqn:Hrow.
      * destruct (deliver_next _ _ _ _ _ _ _ _ _ _ Hnd H1 H2 Hd Hrow)
          as (w1 & p1 & l1 & -> & Hrows & H3 & H4 & Hd1).
        rewrite (snoc_cons pre q n) in *. by apply (IH (pre ++ [n]) p1 lost l1).
      * rewrite run_deliver, Hrow. simpl. rewrite crash_after_Ret. exists p, l, lost. by eauto.
Qed.

Lemma notices_nodup seller e : NoDup (n_slot <$> notices seller e).
Proof.
  destruct e as [[]|[]|[]]; simpl; repeat case_match; simpl; repeat constructor; set_solver.
Qed.

(** *** A handler is the notices of its event, once it looked up the seller *)

Record agree w w1 : Prop := {
  ag_emails : emails w1 = emails w;
  ag_sentLog : sentLog w1 = sentLog w;
  ag_recipients : recipients w1 = recipients w;
}.

Lemma delivered_agree rs w0 p lost l w w1 :
  agree w w1 → delivered rs w0 p lost l w → delivered rs w0 p lost l w1.
Proof. intros [He Hs Hr] []. split; by rewrite ?He, ?Hs, ?Hr. Qed.

(** [q] from [w] on is [p] from [w1] on, where [w1] is [w] but for the sellers. *)
Definition behaves (p : prog memory unit) w (q : prog memory unit) : Prop :=
  ∃ w1, agree w w1 ∧ run q w = run p w1
  ∧ ∀ k, crash_after k q w = w ∨ ∃ m, crash_after k q w = crash_after m p w1.

Lemma behaves_same (q q' : prog memory unit) w : same_run q' q → behaves q' w q.
Proof.
  intros Hs. destruct (Hs w) as [Hr Hc]. exists w. split; [done|]. split; [done|].
  intros k. right. by exists k.
Qed.

Lemma behaves_call {X} msg (m : M memory X) (f : X → prog memory unit) q w x w1 :
  m w = (Ok x, w1) → agree w w1 → same_run q (f x) → behaves q w (call_or msg m ≫= f).
Proof.
  intros Hm Hag Hs. destruct (Hs w1) as [Hr Hc]. exists w1. split; [done|].
  unfold call_or, mbind, prog_bind. simpl. rewrite Hm. simpl. split; [done|].
  intros [|k]; [by left|right]. exists k. rewrite crash_after_S, Hm. simpl. done.
Qed.

Lemma behaves_one id kind recipient text w :
  behaves (pipeline [mkNotice id kind recipient text]) w (deliver id kind recipient text).
Proof. apply behaves_same, (pipeline_one (mkNotice id kind recipient text)). Qed.

Lemma behaves_one_after {X} msg (m : M memory X) (f : X → prog memory unit) w x w1
    id kind recipient text :
  m w = (Ok x, w1) → agree w w1 → f x = deliver id kind recipient text →
  behaves (pipeline [mkNotice id kind recipient text]) w (call_or msg m ≫= f).
Proof.
  intros Hm Hag Hf. eapply behaves_call; [done..|]. rewrite Hf.
  apply (pipeline_one (mkNotice id kind recipient text)).
Qed.

Lemma on_event_behaves seller e w :
  notices seller e ≠ [] →
  (∀ a, sale_of e = Some a → (sellers w : gmap string string) !! a = Some seller) →
  behaves (pipeline (notices seller e)) w (on_event e).
Proof.
  intros Hne Hsale.
  assert (∀ a, sale_of e = Some a → on_sellers (SellerOf a) w = (Ok seller, w)) as Hso.
  { intros a Ha. destruct w as [es rs ss log]. unfold on_sellers, SellerOf, SellersInMem in *.
    simpl in *. by rewrite run_get, (Hsale a Ha). }
  destruct e as [[e|e|e|e|e|e|e|e]|[e|e|e]|[e|e]]; try done.
  - cbn [notices] in *. destruct (al_RelistGeneration e =? 0)%Z eqn:Hg; [done|].
    eapply behaves_one_after; [done|done|]. by rewrite Hg.
  - cbn [notices] in *. unfold on_event. cbn [Handlers]. unfold onBidPlaced.
    destruct (bool_decide _); [done|]. apply behaves_one.
  - cbn [notices]. eapply behaves_call; [done|done|]. destruct (_ && _); cbn [app].
    + apply (same_run_attempt (deliver_notice (mkNotice _ _ _ _))). intros []; [|done..].
      apply (pipeline_one (mkNotice _ _ _ _)).
    + apply (pipeline_one (mkNotice _ _ _ _)).
  - apply behaves_one.
  - eapply behaves_one_after; [by apply Hso|done|done].
  - eapply behaves_one_after; [by apply Hso|done|done].
  - apply behaves_one.
  - apply behaves_one.
Qed.

(** A sale's handler leaves the directory of sellers alone. *)
Lemma sale_keeps_sellers e a w k :
  sale_of e = Some a → sellers (crash_after k (on_event e) w) = sellers w.
Proof.
  intros Hsale. destruct k as [|k]; [done|].
  assert (∃ id kind text msg, on_event e =
    (seller ← call_or msg (on_sellers (SellerOf a)); deliver id kind seller text : prog memory unit))
    as (id & kind & text & msg & ->).
  { destruct e as [[]|[]|[]]; try done; injection Hsale as <-; eauto. }
  unfold call_or, mbind, prog_bind. simpl. rewrite crash_after_S.
  assert (sellers (on_sellers (SellerOf a) w).2 = sellers w) as Hkeep.
  { destruct w as [es rss ss log]. unfold on_sellers, SellerOf, SellersInMem in *. simpl.
    rewrite run_get. by destruct (ss !! a). }
  destruct (on_sellers (SellerOf a) w) as [[s|x|x] w1]; simpl in *;
    [|by rewrite crash_after_Ret..].
  destruct (crash_deliver k (mkNotice id kind s text) w1) as [Hc|(row & _ & _ & [Hc|Hc])];
    unfold deliver_notice in Hc; simpl in Hc; by rewrite Hc.
Qed.

(** ** Attempts at one event *)

Section Attempts.
Context (e : Event) (seller : string) (rs : gmap string (string * string)).
Abbreviation ns := (notices seller e).

(** The directories may lag behind [rs] and [seller], but do not contradict
    them. *)
Record lags w : Prop := {
  la_rows : (recipients w : gmap string (string * string)) ⊆ rs;
  la_seller : ∀ a s, sale_of e = Some a → (sellers w : gmap string string) !! a = Some s → s = seller;
}.

(** Any number of attempts from [w0] on, failed or not, [c] of them cut off
    by a crash; in between, the directories move. *)
Inductive tried w0 : nat → memory → Prop :=
| T_start : lags w0 → tried w0 0 w0
| T_learn c w w' :
    tried w0 c w → emails w' = emails w → sentLog w' = sentLog w → lags w' → tried w0 c w'
| T_attempt c w : tried w0 c w → tried w0 c (run (on_event e) w).2
| T_crash c w k : tried w0 c w → tried w0 (S c) (crash_after k (on_event e) w).

(** The notices recorded so far are the first ones of the event. *)
Definition progress w0 (c : nat) w : Prop :=
  ∃ p l lost, p `prefix_of` ns ∧ (lost ≤ c)%nat ∧ delivered rs w0 p lost l w.

Lemma delivered_start w0 :
  (recipients w0 : gmap string (string * string)) ⊆ rs → delivered rs w0 [] 0 [] w0.
Proof.
  intros Hr. split; simpl; try done; [|by rewrite app_nil_r].
  unfold slots. set_solver.
Qed.

Lemma progress_agree w0 c w w1 : agree w w1 → progress w0 c w → progress w0 c w1.
Proof.
  intros Hag (p & l & lost & Hp & Hn & Hd). exists p, l, lost.
  split_and!; [done..|]. by eapply delivered_agree.
Qed.

(** A sale whose seller is unknown fails at once. *)
Lemma on_event_unsold w a :
  sale_of e = Some a → (sellers w : gmap string string) !! a = None →
  (run (on_event e) w).2 = w ∧ ∀ k, crash_after k (on_event e) w = w.
Proof.
  intros Hsale Hno.
  assert (on_sellers (SellerOf a) w = (Fail (ErrNew "seller of auction %s is not known yet"), w))
    as Hso.
  { destruct w as [es rss ss log]. unfold on_sellers, SellerOf, SellersInMem in *. simpl in *.
    by rewrite run_get, Hno. }
  destruct e as [[]|[]|[]]; try done; injection Hsale as <-;
    unfold on_event, Handlers, onSaleSettled, onSaleFailed, call_or, mbind, prog_bind;
    cbn [attempt sd_SellerOf seller_directory]; simpl; rewrite Hso; (split; [done|]);
    intros [|k]; try done; rewrite crash_after_S, Hso; apply crash_after_Ret.
Qed.

(** Whatever the seller, an attempt is nothing or the notices of the event. *)
Lemma on_event_lags w :
  ns ≠ [] → lags w →
  ((run (on_event e) w).2 = w ∧ ∀ k, crash_after k (on_event e) w = w)
  ∨ behaves (pipeline ns) w (on_event e).
Proof.
  intros Hne Hl.
  destruct (sale_of e) as [a|] eqn:Hsale; [|right; by apply on_event_behaves; [|congruence]].
  destruct ((sellers w : gmap string string) !! a) as [s|] eqn:Hs.
  - right. apply on_event_behaves; [done|]. intros a' Ha'. rewrite Hsale in Ha'. injection Ha' as <-.
    rewrite Hs. f_equal. by eapply la_seller.
  - left. by eapply on_event_unsold.
Qed.

(** *** Progress *)

Lemma progress_lags w0 c w w1 :
  progress w0 c w1 → (∀ a, sale_of e = Some a → sellers w1 = sellers w) → lags w → lags w1.
Proof.
  intros (p & l & lost & _ & _ & Hd) Hs [_ Hl]. split; [by eapply de_rows|].
  intros a s Hsale. rewrite (Hs a Hsale). by apply Hl.
Qed.

Lemma progress_run w0 c w :
  lags w → ns ≠ [] → progress w0 c w → progress w0 c (run (on_event e) w).2.
Proof.
  intros Hl Hne Hp. destruct (on_event_lags w Hne Hl) as [[-> _]|(w1 & Hag & -> & _)]; [done|].
  destruct (progress_agree _ _ _ _ Hag Hp) as (p & l & lost & H1 & Hlost & Hd).
  destruct (run_pipeline rs w0 ns [] p lost l w1) as (r & w2 & p' & l' & -> & _ & _ & H2 & Hd' & _);
    [apply notices_nodup|apply prefix_nil|done..|].
  by exists p', l', lost.
Qed.

Lemma progress_crash w0 c w k :
  lags w → ns ≠ [] → progress w0 c w → progress w0 (S c) (crash_after k (on_event e) w).
Proof.
  intros Hl Hne Hp.
  assert (progress w0 (S c) w) as HpS.
  { destruct Hp as (p & l & lost & H1 & Hlost & Hd). exists p, l, lost. split_and!; [done|lia|done]. }
  destruct (on_event_lags w Hne Hl) as [[_ ->]|(w1 & Hag & _ & Hc)]; [done|].
  destruct (Hc k) as [->|[m ->]]; [done|].
  destruct (progress_agree _ _ _ _ Hag Hp) as (p & l & lost & H1 & Hlost & Hd).
  destruct (crash_pipeline rs w0 ns [] p lost l w1 m) as (p' & l' & lost' & H2 & Hl' & Hd');
    [apply notices_nodup|apply prefix_nil|done..|].
  exists p', l', lost'. split_and!; [done|lia|done].
Qed.

Lemma tried_progress w0 c w : ns ≠ [] → tried w0 c w → lags w ∧ progress w0 c w.
Proof.
  intros Hne Ht. induction Ht as [Hl|c w w' Ht [IHl IHp] He Hs Hl|c w Ht [IHl IHp]|c w k Ht [IHl IHp]].
  - split; [done|]. exists [], [], 0%nat. split_and!; [apply prefix_nil|done|].
    by apply delivered_start, la_rows.
  - split; [done|]. destruct IHp as (p & l & lost & H1 & H2 & []). exists p, l, lost.
    split_and!; [done..|]. split; rewrite ?He, ?Hs; try done. apply Hl.
  - pose proof (progress_run _ _ _ IHl Hne IHp) as Hp. split; [|done].
    eapply progress_lags; [done| |done]. intros a Hsale.
    destruct (crash_after_all (on_event e) w) as [k <-]. by eapply sale_keeps_sellers.
  - pose proof (progress_crash _ _ _ k IHl Hne IHp) as Hp. split; [|done].
    eapply progress_lags; [done| |done]. intros a Hsale. by eapply sale_keeps_sellers.
Qed.

(** An attempt that finds the seller and every recipient. *)
Lemma tried_succeeds w0 c w :
  ns ≠ [] → tried w0 c w →
  (∀ a, sale_of e = Some a → (sellers w : gmap string string) !! a = Some seller) →
  (∀ n, n ∈ ns → known w n) →
  ∃ w1 l lost, run (on_event e) w = (Ok tt, w1) ∧ recipients w1 = recipients w
    ∧ (lost ≤ c)%nat ∧ delivered rs w0 ns lost l w1.
Proof.
  intros Hne Ht Hsale Hkn. destruct (tried_progress _ _ _ Hne Ht) as [_ Hp].
  destruct (on_event_behaves seller e w Hne Hsale) as (w1 & Hag & -> & _).
  destruct (progress_agree _ _ _ _ Hag Hp) as (p & l & lost & H1 & Hlost & Hd).
  destruct (run_pipeline rs w0 ns [] p lost l w1)
    as (r & w2 & p' & l' & -> & Hrows & _ & H2 & Hd' & Hok & Hall);
    [apply notices_nodup|apply prefix_nil|done..|].
  assert (r = Ok tt) as ->.
  { apply Hall. intros n Hn. unfold known, row_of. rewrite (ag_recipients _ _ Hag). by apply Hkn. }
  rewrite (Hok eq_refl) in Hd'. exists w2, l', lost. split_and!; [done| |done..].
  by rewrite Hrows, (ag_recipients _ _ Hag).
Qed.
End Attempts.

(** Nothing is left to send once the slots are recorded. *)
Lemma mails_recorded s0 rs ns : (slots ns : gset deliveryKey) ⊆ s0 → mails s0 rs ns = [].
Proof.
  intros Hs. unfold mails. induction ns as [|n ns IH]; [done|].
  unfold slots in Hs. simpl in Hs. rewrite filter_cons_False by set_solver. apply IH.
  unfold slots. set_solver.
Qed.

Lemma redelivered_quiet e seller w :
  notices seller e ≠ [] →
  (∀ a, sale_of e = Some a → (sellers w : gmap string string) !! a = Some seller) →
  (∀ n, n ∈ notices seller e → known w n) →
  slots (notices seller e) ⊆ (sentLog w : gset deliveryKey) →
  ∃ w2, run (on_event e) w = (Ok tt, w2) ∧ emails w2 = emails w ∧ sentLog w2 = sentLog w.
Proof.
  intros Hne Hsale Hkn Hin.
  destruct (tried_succeeds e seller (recipients w) w 0 w) as (w2 & l & lost & Hrun & _ & _ & Hd);
    [done| |done..|].
  { apply T_start. split; [done|]. intros a s Ha. rewrite Hsale by done. by intros [= ->]. }
  exists w2. split; [done|]. split.
  - rewrite (de_emails _ _ _ _ _ _ Hd). pose proof (de_sent _ _ _ _ _ _ Hd) as Hs.
    rewrite mails_recorded in Hs by done. apply sublist_nil_r in Hs as ->. apply app_nil_r.
  - rewrite (de_log _ _ _ _ _ _ Hd). set_solver.
Qed.

(** C24: an event with notices, attempted any number of times by the handler,
    [c] of the attempts cut off by a crash anywhere, while the directories
    lagged behind: the next attempt that finds the seller and every recipient
    succeeds, and then the slots of all the notices of the event are recorded
    and no others; the e-mails sent since [w0] are, in order, those of the
    notices that had not been recorded before, of which each crash loses at
    most one and a failed attempt none; and handling the event once more
    succeeds without an e-mail. *)
Theorem notices_delivered e seller rs w0 c w :
  tried e seller rs w0 c w →
  notices seller e ≠ [] →
  (∀ a, sale_of e = Some a → (sellers w : gmap string string) !! a = Some seller) →
  (∀ n, n ∈ notices seller e → known w n) →
  ∃ w1 l, run (on_event e) w = (Ok tt, w1)
    ∧ sentLog w1 = slots (notices seller e) ∪ sentLog w0
    ∧ emails w1 = emails w0 ++ l
    ∧ l `sublist_of` mails (sentLog w0) rs (notices seller e)
    ∧ (length (mails (sentLog w0) rs (notices seller e)) ≤ length l + c)%nat
    ∧ ∃ w2, run (on_event e) w1 = (Ok tt, w2) ∧ emails w2 = emails w1 ∧ sentLog w2 = sentLog w1.
Proof.
  intros Ht Hne Hsale Hkn.
  destruct (tried_succeeds _ _ _ _ _ _ Hne Ht Hsale Hkn)
    as (w1 & l & lost & Hrun & Hrows & Hlost & Hd).
  exists w1, l. split; [done|]. split; [apply Hd|]. split; [apply Hd|]. split; [apply Hd|].
  split; [pose proof (de_lost _ _ _ _ _ _ Hd); lia|].
  apply (redelivered_quiet e seller); [done| | |].
  - intros a Ha. destruct (crash_after_all (on_event e) w) as [k Hk]. rewrite Hrun in Hk.
    simpl in Hk. rewrite <-Hk, (sale_keeps_sellers e a) by done. by apply Hsale.
  - intros n Hn. unfold known, row_of. rewrite Hrows. by apply Hkn.
  - rewrite (de_log _ _ _ _ _ _ Hd). set_solver.
Qed.

(** ** An execution *)

Definition demo_seller : ParticipantRegisteredV1 :=
  mkParticipantRegisteredV1 "e1" "s" "seller@x.org" "Sel" 0%Z.
Definition demo_winner : ParticipantRegisteredV1 :=
  mkParticipantRegisteredV1 "e2" "b" "winner@x.org" "Win" 0%Z.
Definition demo_closed : AuctionClosedV1 :=
  mkAuctionClosedV1 "e3" "a" "s" "sold" "b" 12345%Z "EUR" "" 0%Z false 0%Z 0%Z.
Definition demo_events : list Event :=
  [OfParticipant (EvParticipantRegisteredV1 demo_seller);
   OfParticipant (EvParticipantRegisteredV1 demo_winner);
   OfAuction (EvAuctionClosedV1 demo_closed)].

Definition demo_w0 : memory := mkWorld [] ∅ ∅ ∅.

(** The events delivered one after the other, the last one twice. *)
Definition demo_w1 : memory :=
  foldl (fun w e => (run (on_event e) w).2) demo_w0
    (demo_events ++ [OfAuction (EvAuctionClosedV1 demo_closed)]).

Definition demo_step := pool_step (fun _ : memory => True) on_event
  (fun e _ => e ∈ demo_events) (fun _ _ => False).

Lemma deliver_in_turn es w ps :
  (∀ e, e ∈ es → e ∈ demo_events) →
  ∃ ps', rtc demo_step (mkPool w ps) (mkPool (foldl (fun w e => (run (on_event e) w).2) w es) ps').
Proof.
  revert w ps. induction es as [|e es IH]; intros w ps Hin; simpl; [by exists ps|].
  destruct (IH (run (on_event e) w).2 (ps ++ [(e, Ret (run (on_event e) w).1)])) as [ps' Hr];
    [intros e' He'; apply Hin; by constructor|].
  exists ps'. etrans; [|exact Hr].
  apply (spawn_and_run (fun _ => True) on_event (fun e _ => e ∈ demo_events) (fun _ _ => False)
    (mkPool w ps) e); [apply Hin; by constructor|].
  clear. generalize (on_event e), w. intros q. induction q as [r|X m k IHq]; intros w0; [done|].
  split; [done|]. apply IHq.
Qed.

(** Two notices went out, and the redelivery sent none. *)
Lemma notified_once_witness :
  em_to <$> emails demo_w1 = ["winner@x.org"; "seller@x.org"]
  ∧ ∃ mails slots, emails demo_w1 = mails ∧ NoDup slots
    ∧ Forall2 (justified eq (fun e => e ∈ demo_events)) mails slots.
Proof.
  split; [vm_compute; reflexivity|].
  destruct (deliver_in_turn (demo_events ++ [OfAuction (EvAuctionClosedV1 demo_closed)])
    demo_w0 []) as [ps' Hr]; [intros e He; unfold demo_events in *; set_solver|].
  destruct (notified_once eq (fun e => e ∈ demo_events) demo_w0 (mkPool demo_w1 ps'))
    as (mails & slots & Hm & Hnd & Hj & _); [by split|exact Hr|].
  exists mails, slots. split_and!; [exact Hm|exact Hnd|exact Hj].
Defined.

(** The closing is handled too early, then once more with the directory filled
    but cut off between the winner's slot and e-mail, then a third time. *)
Definition demo_rows : gmap string (string * string) :=
  {[ "s" := ("seller@x.org", "Sel"); "b" := ("winner@x.org", "Win") ]}.
Definition demo_event : Event := OfAuction (EvAuctionClosedV1 demo_closed).
Definition demo_early : memory := (run (on_event demo_event) demo_w0).2.
Definition demo_learnt : memory :=
  mkWorld (emails demo_early) demo_rows (sellers demo_early) (sentLog demo_early).
Definition demo_cut : memory := crash_after 3 (on_event demo_event) demo_learnt.

Lemma notices_delivered_witness :
  em_to <$> emails (run (on_event demo_event) demo_cut).2 = ["seller@x.org"]
  ∧ ∃ w1 l, run (on_event demo_event) demo_cut = (Ok tt, w1)
    ∧ emails w1 = l
    ∧ l `sublist_of` mails ∅ demo_rows (notices "" demo_event)
    ∧ (length (mails ∅ demo_rows (notices "" demo_event)) ≤ length l + 1)%nat.
Proof.
  split; [vm_compute; reflexivity|].
  destruct (notices_delivered demo_event "" demo_rows demo_w0 1 demo_cut)
    as (w1 & l & Hrun & _ & He & Hl & Hn & _).
  - apply T_crash. apply T_learn with (w := demo_early); [|done|done|by split].
    apply T_attempt, T_start. split; [apply map_empty_subseteq|done].
  - done.
  - done.
  - intros n Hn. unfold known, row_of. simpl in Hn.
    apply list_elem_of_In in Hn. destruct Hn as [<-|[<-|[]]]; vm_compute; eauto.
  - exists w1, l. split_and!; [exact Hrun|exact He|exact Hl|exact Hn].
Defined.
End notification_delivery.
