(* ===== verification/ParticipantDomain.v ===== *)
(** * The participant domain

    [participant/domain/participant]: the identity, the e-mail address, the
    status, the actor and the aggregate with its factory and its one
    transition. *)

From stdpp Require Import base numbers list strings.
From Stdlib Require Import ZArith Lia.
From S2P Require Import Prelude GoText Errs.

(** [net/mail.ParseAddress]: the name and the address it parses, [None] when
    it returns an error. *)
Class MailLib := { mail_ParseAddress : string → option (string * string) }.

Module participant.
Import ParticipantErr.
Local Open Scope Z_scope.

Definition err (s : sentinel) : error := ErrParticipant s.

(** ** [ParticipantID] *)

Record ParticipantID := mkParticipantID { ParticipantID_String : string }.
#[export] Instance ParticipantID_eq_dec : EqDecision ParticipantID.
Proof. solve_decision. Defined.
#[export] Instance ParticipantID_zero : GoZero ParticipantID := mkParticipantID "".

Definition nilUUID : string := "00000000-0000-0000-0000-000000000000".

(** [c >= '0' && c <= '9' || c >= 'a' && c <= 'f']. *)
Definition hex_byte (c : Ascii.ascii) : bool :=
  let n := Ascii.N_of_ascii c in
  ((48 <=? n) && (n <=? 57) || (97 <=? n) && (n <=? 102))%N.

(** The loop over the bytes of [s], the first of which has index [i]. *)
Fixpoint canonical_from (i : nat) (s : string) : bool :=
  match s with
  | "" => true
  | String c s =>
      (match i with
       | 8%nat | 13%nat | 18%nat | 23%nat => Ascii.eqb c (Ascii.ascii_of_N 45)
       | _ => hex_byte c
       end) && canonical_from (S i) s
  end.

Definition isCanonicalUUID (s : string) : bool :=
  Nat.eqb (String.length s) 36 && canonical_from 0 s.

Definition NewParticipantID `{GoText} (raw : string) : result ParticipantID :=
  let normalized := ToLower (TrimSpace raw) in
  if negb (isCanonicalUUID normalized) || bool_decide (normalized = nilUUID)
  then Fail (err ErrInvalidParticipantID)
  else Ok (mkParticipantID normalized).

(** ** [EmailAddress] *)

Record EmailAddress := mkEmailAddress { EmailAddress_String : string }.
#[export] Instance EmailAddress_eq_dec : EqDecision EmailAddress.
Proof. solve_decision. Defined.
#[export] Instance EmailAddress_zero : GoZero EmailAddress := mkEmailAddress "".

Definition maxEmailLength : nat := 320.

Definition NewEmailAddress `{GoText} `{MailLib} (raw : string) : result EmailAddress :=
  let normalized := ToLower (TrimSpace raw) in
  if bool_decide (normalized = "") || Nat.ltb maxEmailLength (String.length normalized)
  then Fail (err ErrInvalidEmail)
  else
    match mail_ParseAddress normalized with
    | None => Fail (err ErrInvalidEmail)
    | Some (name, address) =>
        if bool_decide (name ≠ "") || bool_decide (address ≠ normalized)
        then Fail (err ErrInvalidEmail)
        else Ok (mkEmailAddress normalized)
    end.

(** ** [Status] *)

Inductive Status := StatusZero | StatusRegistered | StatusVerified.
#[export] Instance Status_eq_dec : EqDecision Status.
Proof. solve_decision. Defined.
#[export] Instance Status_zero : GoZero Status := StatusZero.

Definition NewStatusFromString (raw : string) : result Status :=
  if bool_decide (raw = "registered") then Ok StatusRegistered
  else if bool_decide (raw = "verified") then Ok StatusVerified
  else Fail (err ErrInvalidStatus).

Definition Status_String (s : Status) : result string :=
  match s with
  | StatusRegistered => Ok "registered"
  | StatusVerified => Ok "verified"
  | StatusZero => Panic "participant: Status.String called on invalid status value"
  end.

(** ** The aggregate *)

Inductive DomainEvent :=
| ParticipantRegistered (id : ParticipantID) (email : EmailAddress) (displayName : string)
| ParticipantVerified (id : ParticipantID) (occurredAt : Time).
#[export] Instance DomainEvent_eq_dec : EqDecision DomainEvent.
Proof. solve_decision. Defined.

Record Participant := mkParticipant {
  p_id : ParticipantID;
  p_email : EmailAddress;
  p_displayName : string;
  p_status : Status;
  p_version : Z;
  p_events : list DomainEvent;
}.
#[export] Instance Participant_eq_dec : EqDecision Participant.
Proof. solve_decision. Defined.

Definition record (e : DomainEvent) (p : Participant) : Participant :=
  mkParticipant (p_id p) (p_email p) (p_displayName p) (p_status p) (p_version p)
    (p_events p ++ [e]).

Definition set_status (s : Status) (p : Participant) : Participant :=
  mkParticipant (p_id p) (p_email p) (p_displayName p) s (p_version p) (p_events p).

Definition IsVerified (p : Participant) : bool := bool_decide (p_status p = StatusVerified).

(** The events, and the aggregate without them. *)
Definition PullDomainEvents (p : Participant) : list DomainEvent * Participant :=
  (p_events p,
   mkParticipant (p_id p) (p_email p) (p_displayName p) (p_status p) (p_version p) []).

Definition Register (id : ParticipantID) (email : EmailAddress) (displayName : string)
    : result Participant :=
  if IsZero id then Fail (err ErrInvalidParticipantID)
  else if IsZero email then Fail (err ErrInvalidEmail)
  else
    let name := TrimSpace displayName in
    if bool_decide (name = "") then Fail (err ErrEmptyDisplayName)
    else
      let p := mkParticipant id email name StatusRegistered 1 [] in
      Ok (record (ParticipantRegistered id email name) p).

Definition UnmarshalFromDatabase `{GoText} `{MailLib}
    (id email displayName status : string) (version : Z) : result Participant :=
  participantID ← wrap_err "unmarshal participant id" (NewParticipantID id);
  emailAddress ← wrap_err "unmarshal participant email" (NewEmailAddress email);
  participantStatus ← wrap_err "unmarshal participant status" (NewStatusFromString status);
  if bool_decide (TrimSpace displayName = "")
  then Fail (Errorf "unmarshal participant display name" (err ErrEmptyDisplayName))
  else if version <? 1
  then Fail (ErrNew "unmarshal participant: version %d out of range")
  else
    Ok (mkParticipant participantID emailAddress displayName participantStatus version []).

Definition Verify (now : Time) : M Participant unit :=
  p ← get;
  throw_if (bool_decide (p_status p = StatusVerified)) (err ErrAlreadyVerified);;
  modify (set_status StatusVerified);;
  modify (record (ParticipantVerified (p_id p) now)).

(** ** [Actor] *)

Record Actor := mkActor { actor_id : ParticipantID }.
#[export] Instance Actor_eq_dec : EqDecision Actor.
Proof. solve_decision. Defined.

Definition NewActor (id : ParticipantID) : result Actor :=
  if IsZero id then Fail (err ErrInvalidParticipantID) else Ok (mkActor id).

Definition CanActorUpdateParticipant (actor : Actor) (p : Participant) : result unit :=
  if bool_decide (actor_id actor ≠ p_id p)
  then Fail (ForbiddenParticipantUpdateError (ParticipantID_String (actor_id actor))
               (ParticipantID_String (p_id p)))
  else Ok tt.
End participant.
