(* ===== verification/ParticipantRepo.v ===== *)
(** * The storage of the participants

    The repository interface ([domain/participant/repository.go]), the
    in-memory adapter, the Postgres adapter with its row and its outbox
    ([adapters/*]) and the profile read model. *)

From stdpp Require Import base numbers list strings gmap.
From Stdlib Require Import ZArith Lia.
From S2P Require Import Prelude GoText Errs Postgres Events ParticipantDomain.

(** [participant.Repository]; the first argument of a mutation is what
    [time.Now] answers during the call. *)
Class ParticipantRepository (S : Type) := {
  prt_Add : Time → participant.Participant → M S unit;
  prt_Get : participant.ParticipantID → S → result participant.Participant;
  prt_Update : Time → participant.ParticipantID → participant.Actor →
    (participant.Participant → result participant.Participant) → M S unit;
  prt_UpdateAsOperations : Time → participant.ParticipantID →
    (participant.Participant → result participant.Participant) → M S unit;
}.

Module participant_repo.
Import participant ParticipantErr.
Local Open Scope Z_scope.

(** ** In memory *)

(** [InMemoryRepository], its map keyed by the text of the identity. *)
Record InMemoryRepository := mkInMemoryRepository { participants : gmap string Participant }.

Module inmem.

Definition put (id : ParticipantID) (p : Participant) (r : InMemoryRepository)
    : InMemoryRepository :=
  mkInMemoryRepository (<[ParticipantID_String id := p]> (participants r)).

Definition lookup_id (id : ParticipantID) (r : InMemoryRepository) : option Participant :=
  participants r !! ParticipantID_String id.

(** The loop over the values of the map. *)
Definition email_taken (e : EmailAddress) (r : InMemoryRepository) : bool :=
  existsb (fun x => bool_decide (p_email x.2 = e)) (map_to_list (participants r)).

Definition Add (p : Participant) : M InMemoryRepository unit :=
  r ← get;
  match lookup_id (p_id p) r with
  | Some _ => throw (Errorf "add participant %s" (err ErrEmailTaken))
  | None =>
      throw_if (email_taken (p_email p) r) (Errorf "add participant %s" (err ErrEmailTaken));;
      modify (put (p_id p) (PullDomainEvents p).2)
  end.

Definition Get (id : ParticipantID) (r : InMemoryRepository) : result Participant :=
  match lookup_id id r with
  | None => Fail (ParticipantNotFoundError (ParticipantID_String id))
  | Some stored => Ok stored
  end.

Section Ops.
Context `{GoText} `{MailLib}.

(** [guard] is nil on the operations path. *)
Definition update (id : ParticipantID) (guard : option (Participant → result unit))
    (updateFn : Participant → result Participant) : M InMemoryRepository unit :=
  r ← get;
  match lookup_id id r with
  | None => throw (ParticipantNotFoundError (ParticipantID_String id))
  | Some stored =>
      match guard with Some g => lift (g stored) | None => mret tt end;;
      updated ← lift (updateFn stored);
      let updated := (PullDomainEvents updated).2 in
      status ← lift (Status_String (p_status updated));
      persisted ← lift (wrap_err "unable to persist updated participant"
        (UnmarshalFromDatabase (ParticipantID_String (p_id updated))
           (EmailAddress_String (p_email updated)) (p_displayName updated) status
           (wrap64 (p_version stored + 1))));
      modify (put id persisted)
  end.

Definition Update (id : ParticipantID) (actor : Actor)
    (updateFn : Participant → result Participant) : M InMemoryRepository unit :=
  update id (Some (CanActorUpdateParticipant actor)) updateFn.

Definition UpdateAsOperations (id : ParticipantID)
    (updateFn : Participant → result Participant) : M InMemoryRepository unit :=
  update id None updateFn.
End Ops.

#[export] Instance repository `{GoText} `{MailLib} : ParticipantRepository InMemoryRepository := {
  prt_Add _ := Add;
  prt_Get := Get;
  prt_Update _ := Update;
  prt_UpdateAsOperations _ := UpdateAsOperations;
}.
End inmem.

(** ** Postgres *)

Record pgParticipant := mkPgParticipant {
  row_ID : string;
  row_Email : string;
  row_DisplayName : string;
  row_Status : string;
  row_Version : Z;
}.
#[export] Instance pgParticipant_eq_dec : EqDecision pgParticipant.
Proof. solve_decision. Defined.

(** [participant.participants] by its primary key, the outbox, and the number
    of event identities drawn so far.  The key is the canonical text of the
    uuid; [created_at] and [updated_at] are never read. *)
Record ParticipantDB := mkParticipantDB {
  db_participants : gmap string pgParticipant;
  db_outbox : list ParticipantEvent;
  db_drawn : nat;
}.

(** [query.ProfileView]. *)
Record ProfileView := mkProfileView {
  v_ParticipantID : string;
  v_Email : string;
  v_DisplayName : string;
  v_Status : string;
}.
#[export] Instance ProfileView_eq_dec : EqDecision ProfileView.
Proof. solve_decision. Defined.

Module pg.
Section Ops.
Context `{GoText} `{MailLib} `{UUIDLib}.

Definition toDomain (row : pgParticipant) : result Participant :=
  wrap_err "unable to map participant row %s"
    (UnmarshalFromDatabase (row_ID row) (row_Email row) (row_DisplayName row) (row_Status row)
       (row_Version row)).

(** [mapDomainEvent]; [n] is the index of the [uuid.NewString()] drawn. *)
Definition mapDomainEvent (n : nat) (now : Time) (e : DomainEvent) : ParticipantEvent :=
  match e with
  | ParticipantRegistered id email displayName =>
      EvParticipantRegisteredV1 (mkParticipantRegisteredV1 (uuid_NewString n)
        (ParticipantID_String id) (EmailAddress_String email) displayName now)
  | ParticipantVerified id occurredAt =>
      EvParticipantVerifiedV1 (mkParticipantVerifiedV1 (uuid_NewString n)
        (ParticipantID_String id) occurredAt)
  end.

Definition publish (now : Time) (e : DomainEvent) : M ParticipantDB unit :=
  modify (fun db => mkParticipantDB (db_participants db)
    (db_outbox db ++ [mapDomainEvent (db_drawn db) now e]) (S (db_drawn db))).

Fixpoint publishIntegrationEvents (now : Time) (es : list DomainEvent) : M ParticipantDB unit :=
  match es with
  | [] => mret tt
  | e :: es => publish now e;; publishIntegrationEvents now es
  end.

(** What the columns accept: a [uuid] its canonical text, a [text] anything
    without a zero byte. *)
Definition uuid_ok (s : string) : bool := isCanonicalUUID s.
Definition text_ok (s : string) : bool :=
  string_forall (fun c => negb (Ascii.eqb c Ascii.zero)) s.

Definition refused : error := ErrNew "invalid input for the column type".

Definition put_row (row : pgParticipant) (db : ParticipantDB) : ParticipantDB :=
  mkParticipantDB (<[row_ID row := row]> (db_participants db)) (db_outbox db) (db_drawn db).

(** [UNIQUE (email)], against the other rows. *)
Definition email_taken (row : pgParticipant) (db : ParticipantDB) : bool :=
  existsb (fun x => bool_decide (x.1 ≠ row_ID row) && bool_decide (row_Email x.2 = row_Email row))
    (map_to_list (db_participants db)).

(** The [INSERT], and the test of its error for a unique violation. *)
Definition insert_participant (row : pgParticipant) : M ParticipantDB unit :=
  db ← get;
  throw_if (negb (uuid_ok (row_ID row) && text_ok (row_Email row) && text_ok (row_DisplayName row)))
    (Errorf "unable to insert participant" refused);;
  throw_if (match db_participants db !! row_ID row with
            | Some _ => true
            | None => email_taken row db
            end) (Errorf "insert participant %s" (err ErrEmailTaken));;
  modify (put_row row).

Definition add_tx (now : Time) (p : Participant) : M ParticipantDB unit :=
  status ← lift (Status_String (p_status p));
  insert_participant (mkPgParticipant (ParticipantID_String (p_id p))
    (EmailAddress_String (p_email p)) (p_displayName p) status (p_version p));;
  publishIntegrationEvents now (PullDomainEvents p).1.

Definition Add (f : TxFaults) (now : Time) (p : Participant) : M ParticipantDB unit :=
  RunInTx f (add_tx now p).

(** [WHERE id = $1]; [Fail] when the operand is not a uuid. *)
Definition select_row (id : ParticipantID) (db : ParticipantDB) : result (option pgParticipant) :=
  if uuid_ok (ParticipantID_String id)
  then Ok (db_participants db !! ParticipantID_String id)
  else Fail refused.

Definition Get (id : ParticipantID) (db : ParticipantDB) : result Participant :=
  row ← wrap_err "unable to get participant from db" (select_row id db);
  match row with
  | None => Fail (ParticipantNotFoundError (ParticipantID_String id))
  | Some row => toDomain row
  end.

(** [UPDATE ... WHERE id = $1 AND version = $7]; the number of rows. *)
Definition update_participant (up : pgParticipant) (expectedVersion : Z) : M ParticipantDB Z :=
  db ← get;
  throw_if (negb (text_ok (row_Email up) && text_ok (row_DisplayName up)))
    (Errorf "unable to update participant" refused);;
  match db_participants db !! row_ID up with
  | Some row =>
      if row_Version row =? expectedVersion
      then
        throw_if (email_taken up db) (Errorf "update participant %s" (err ErrEmailTaken));;
        modify (put_row up);; mret 1
      else mret 0
  | None => mret 0
  end.

Definition update_tx (now : Time) (id : ParticipantID)
    (guard : option (Participant → result unit))
    (updateFn : Participant → result Participant) : M ParticipantDB unit :=
  db ← get;
  row ← lift (wrap_err "unable to get participant for update" (select_row id db));
  match row with
  | None => throw (ParticipantNotFoundError (ParticipantID_String id))
  | Some transport =>
      p ← lift (toDomain transport);
      match guard with Some g => lift (g p) | None => mret tt end;;
      updated ← lift (updateFn p);
      status ← lift (Status_String (p_status updated));
      affected ← update_participant (mkPgParticipant (ParticipantID_String id)
        (EmailAddress_String (p_email updated)) (p_displayName updated) status
        (wrap64 (row_Version transport + 1))) (row_Version transport);
      throw_if (affected =? 0) (ErrNew "concurrent modification of participant %s");;
      publishIntegrationEvents now (PullDomainEvents updated).1
  end.

Definition Update (f : TxFaults) (now : Time) (id : ParticipantID) (actor : Actor)
    (updateFn : Participant → result Participant) : M ParticipantDB unit :=
  RunInTx f (update_tx now id (Some (CanActorUpdateParticipant actor)) updateFn).

Definition UpdateAsOperations (f : TxFaults) (now : Time) (id : ParticipantID)
    (updateFn : Participant → result Participant) : M ParticipantDB unit :=
  RunInTx f (update_tx now id None updateFn).

(** *** The read model *)

Definition Profile (id : ParticipantID) (db : ParticipantDB) : result ProfileView :=
  row ← wrap_err "unable to read participant profile" (select_row id db);
  match row with
  | None => Fail (ParticipantNotFoundError (ParticipantID_String id))
  | Some row =>
      Ok (mkProfileView (row_ID row) (row_Email row) (row_DisplayName row) (row_Status row))
  end.
End Ops.

#[export] Instance repository `{GoText} `{MailLib} `{UUIDLib} (f : TxFaults)
    : ParticipantRepository ParticipantDB := {
  prt_Add := Add f;
  prt_Get := Get;
  prt_Update := Update f;
  prt_UpdateAsOperations := UpdateAsOperations f;
}.
End pg.
End participant_repo.
