(* ===== verification/Participant.v ===== *)
(** * The participant application

    The commands and the query ([participant/app]) over the interface
    [ParticipantRepository], and the endpoints ([participant/ports/http.go]). *)

From stdpp Require Import base numbers list strings gmap.
From Stdlib Require Import ZArith Lia.
From S2P Require Import Prelude GoText Errs Auth Postgres Events ParticipantDomain ParticipantRepo.

Module participant_app.
Import participant participant_repo ParticipantErr.

(** ** Commands *)

Record RegisterParticipant := mkRegisterParticipant {
  rp_ID : ParticipantID;
  rp_Email : EmailAddress;
  rp_DisplayName : string;
}.

Record VerifyParticipant := mkVerifyParticipant { vp_ID : ParticipantID }.

Definition registrationInputError (e : error) : error :=
  if errors_Is e (err ErrInvalidEmail)
  then WithCause (NewIncorrectInputError "invalid-email") e
  else if errors_Is e (err ErrInvalidParticipantID)
  then WithCause (NewIncorrectInputError "invalid-participant-id") e
  else if errors_Is e (err ErrEmptyDisplayName)
  then WithCause (NewIncorrectInputError "invalid-display-name") e
  else WithCause (NewIncorrectInputError "invalid-registration") e.

Definition register_switch (e : error) : error :=
  if errors_Is e (err ErrEmailTaken) then WithCause (NewConflictError "email-taken") e else e.

Definition verify_switch (e : error) : error :=
  if errors_Is e (err ErrAlreadyVerified)
  then WithCause (NewConflictError "already-verified") e
  else if found (errors_As as_ParticipantNotFound e)
  then WithCause (NewNotFoundError "participant-not-found") e
  else e.

Definition map_error {A} (f : error → error) (r : result A) : result A :=
  match r with Fail e => Fail (f e) | r => r end.

Section Commands.
Context {S : Type} `{ParticipantRepository S}.

Definition RegisterParticipantHandler (now : Time) (cmd : RegisterParticipant) : M S unit :=
  p ← lift (map_error registrationInputError
              (Register (rp_ID cmd) (rp_Email cmd) (rp_DisplayName cmd)));
  on_error (prt_Add now p) (fun e => Some (register_switch e)).

(** [now] is what the handler's clock answers, [stamp] the repository's. *)
Definition VerifyParticipantHandler (now stamp : Time) (cmd : VerifyParticipant) : M S unit :=
  on_error (prt_UpdateAsOperations stamp (vp_ID cmd) (closure (Verify now)))
    (fun e => Some (verify_switch e)).
End Commands.

(** ** Query *)

(** [ProfileReadModel] is the first argument. *)
Definition ParticipantProfileHandler {S} (profile : ParticipantID → S → result ProfileView)
    (id : ParticipantID) (s : S) : result ProfileView :=
  map_error (fun e =>
    if found (errors_As as_ParticipantNotFound e)
    then WithCause (NewNotFoundError "participant-not-found") e else e) (profile id s).

(** ** Endpoints *)

Section Http.
Context `{GoText} `{MailLib} {S : Type} `{ParticipantRepository S}.

(** The [Content-Location] of the answer. *)
Definition Http_RegisterParticipant (now : Time) (id email displayName : string) : M S string :=
  id ← lift (with_cause (NewIncorrectInputError "invalid-participant-id") (NewParticipantID id));
  email ← lift (with_cause (NewIncorrectInputError "invalid-email") (NewEmailAddress email));
  RegisterParticipantHandler now (mkRegisterParticipant id email displayName);;
  mret ("/api/participants/" +:+ ParticipantID_String id).

Definition Http_ParticipantProfile (profile : ParticipantID → S → result ProfileView)
    (participantID : string) (s : S) : result ProfileView :=
  id ← with_cause (NewIncorrectInputError "invalid-participant-id") (NewParticipantID participantID);
  ParticipantProfileHandler profile id s.

Definition Http_VerifyParticipant (ctx : option auth.User) (now stamp : Time) (participantID : string)
    : M S unit :=
  user ← lift (auth.UserFromCtx ctx);
  throw_if (bool_decide (auth.u_Role user ≠ auth.RoleOperations))
    (NewForbiddenError "operations-only");;
  id ← lift (with_cause (NewIncorrectInputError "invalid-participant-id")
               (NewParticipantID participantID));
  VerifyParticipantHandler now stamp (mkVerifyParticipant id).
End Http.
End participant_app.
