(* ===== verification/ParticipantTheory.v ===== *)
(** * Properties of the participants

    An abstract registry of participants, and the refinement of it by the
    endpoints over the in-memory and the Postgres repository: the answers,
    the stored participants, the events of the outbox, whatever the driver
    answers to the transactions. *)

From stdpp Require Import base numbers list strings gmap fin_maps.
From Stdlib Require Import ZArith Lia.
From S2P Require Import Prelude DemoUUID GoText Errs Auth Postgres Events ParticipantDomain ParticipantRepo Participant.

Module participant_theory.
Import participant participant_repo participant_app ParticipantErr.
Local Open Scope Z_scope.

(** ** The constructors accept what they return *)

Section Values.
Context `{GoTextLaws} `{MailLib}.

Lemma NewParticipantID_inv raw id :
  NewParticipantID raw = Ok id →
  NewParticipantID (ParticipantID_String id) = Ok id
  ∧ isCanonicalUUID (ParticipantID_String id) = true.
Proof.
  unfold NewParticipantID. destruct (_ || _) eqn:Hb; [done|]. intros [= <-]. cbn [ParticipantID_String].
  rewrite normalized_fixed, Hb. split; [done|]. by apply orb_false_iff in Hb as [?%negb_false_iff _].
Qed.

Lemma NewEmailAddress_inv raw e :
  NewEmailAddress raw = Ok e → NewEmailAddress (EmailAddress_String e) = Ok e.
Proof.
  unfold NewEmailAddress. destruct (_ || _) eqn:Hb; [done|].
  destruct (mail_ParseAddress (ToLower (TrimSpace raw))) as [[name address]|] eqn:Hp; [|done].
  destruct (bool_decide (name ≠ "") || _) eqn:Hb2; [done|]. intros [= <-]. cbn [EmailAddress_String].
  by rewrite normalized_fixed, Hb, Hp, Hb2.
Qed.

Lemma canonical_nonzero id : isCanonicalUUID (ParticipantID_String id) = true → IsZero id = false.
Proof. intros Hc. apply IsZero_false. by intros ->. Qed.

Lemma email_nonzero raw e : NewEmailAddress raw = Ok e → IsZero e = false.
Proof.
  unfold NewEmailAddress. case_bool_decide; [done|]. simpl.
  destruct (Nat.ltb _ _); [done|]. destruct (mail_ParseAddress _) as [[]|]; [|done].
  destruct (_ || _); [done|]. intros [= <-]. apply IsZero_false. by intros [= Hz].
Qed.
End Values.

(** ** The abstract registry *)

Record entry := mkEntry { en_email : string; en_name : string; en_verified : bool }.

(** The participants by identity, and the events published, oldest first. *)
Record registry := mkRegistry { entries : gmap string entry; log : list ParticipantEvent }.

Definition empty_registry : registry := mkRegistry ∅ [].

Inductive answer :=
| Location (contentLocation : string)
| NoContent
| Refused (r : Response)
| Crashed.

Inductive request :=
| Req_Register (now : Time) (id email displayName : string)
| Req_Verify (user : option auth.User) (now stamp : Time) (id : string).

(** The answer of a client whose request failed for a reason of its own. *)
Definition refuse (status : Z) (slug : string) : answer := Refused (mkResponse status slug).
Definition internal : answer := refuse 500 internalSlug.

Section Registry.
Context `{GoText} `{MailLib} `{UUIDLib}.
(** The texts the store accepts. *)
Context (accepts : string → bool).

Definition email_in_use (email : string) (r : registry) : bool :=
  existsb (fun x => bool_decide (en_email x.2 = email)) (map_to_list (entries r)).

Definition spec_register (now : Time) (id email displayName : string) (r : registry)
    : answer * registry :=
  match NewParticipantID id, NewEmailAddress email with
  | Ok id, Ok email =>
      let id := ParticipantID_String id in
      let email := EmailAddress_String email in
      let name := TrimSpace displayName in
      if bool_decide (name = "") then (refuse 400 "invalid-display-name", r)
      else if negb (accepts email && accepts name) then (internal, r)
      else if bool_decide (is_Some (entries r !! id)) || email_in_use email r
      then (refuse 409 "email-taken", r)
      else
        (Location ("/api/participants/" +:+ id),
         mkRegistry (<[id := mkEntry email name false]> (entries r))
           (log r ++ [EvParticipantRegisteredV1
              (mkParticipantRegisteredV1 (uuid_NewString (length (log r))) id email name now)]))
  | Ok _, _ => (refuse 400 "invalid-email", r)
  | _, _ => (refuse 400 "invalid-participant-id", r)
  end.

Definition spec_verify (user : option auth.User) (now : Time) (id : string) (r : registry)
    : answer * registry :=
  match user with
  | None => (refuse 500 "no-user-in-context", r)
  | Some user =>
      if bool_decide (auth.u_Role user ≠ auth.RoleOperations)
      then (refuse 403 "operations-only", r)
      else
        match NewParticipantID id with
        | Ok id =>
            let id := ParticipantID_String id in
            match entries r !! id with
            | None => (refuse 404 "participant-not-found", r)
            | Some en =>
                if en_verified en then (refuse 409 "already-verified", r)
                else
                  (NoContent,
                   mkRegistry (<[id := mkEntry (en_email en) (en_name en) true]> (entries r))
                     (log r ++ [EvParticipantVerifiedV1
                        (mkParticipantVerifiedV1 (uuid_NewString (length (log r))) id now)]))
            end
        | _ => (refuse 400 "invalid-participant-id", r)
        end
  end.

Definition spec_handle (q : request) (r : registry) : answer * registry :=
  match q with
  | Req_Register now id email name => spec_register now id email name r
  | Req_Verify user now _ id => spec_verify user now id r
  end.

Definition spec_profile (id : string) (r : registry) : result ProfileView + Response :=
  match NewParticipantID id with
  | Ok id =>
      let id := ParticipantID_String id in
      match entries r !! id with
      | None => inr (mkResponse 404 "participant-not-found")
      | Some en =>
          inl (Ok (mkProfileView id (en_email en) (en_name en)
                     (if en_verified en then "verified" else "registered")))
      end
  | _ => inr (mkResponse 400 "invalid-participant-id")
  end.

(** What holds of every registry: every entry is valid, no two have the same
    address, and the log announces each participant once, its verification
    once it happened, and nothing else. *)
Definition registration (e : ParticipantEvent) : option (string * (string * string)) :=
  match e with
  | EvParticipantRegisteredV1 e => Some (pr_ParticipantID e, (pr_Email e, pr_DisplayName e))
  | _ => None
  end.
Definition verification (e : ParticipantEvent) : option string :=
  match e with EvParticipantVerifiedV1 e => Some (pv_ParticipantID e) | _ => None end.
Definition event_id (e : ParticipantEvent) : string :=
  match e with
  | EvParticipantRegisteredV1 e => pr_EventID e
  | EvParticipantVerifiedV1 e => pv_EventID e
  end.

Record valid_entry (id : string) (en : entry) : Prop := {
  ve_id : NewParticipantID id = Ok (mkParticipantID id);
  ve_email : NewEmailAddress (en_email en) = Ok (mkEmailAddress (en_email en));
  ve_name : TrimSpace (en_name en) = en_name en ∧ en_name en ≠ "";
  ve_text : accepts (en_email en) && accepts (en_name en) = true;
}.

Record well_formed (r : registry) : Prop := {
  wf_entries : ∀ id en, entries r !! id = Some en → valid_entry id en;
  wf_emails : ∀ id id' en en', entries r !! id = Some en → entries r !! id' = Some en' →
    en_email en = en_email en' → id = id';
  wf_registered : ∀ id x, (id, x) ∈ omap registration (log r) ↔
    ∃ en, entries r !! id = Some en ∧ x = (en_email en, en_name en);
  wf_registered_once : NoDup (omap registration (log r)).*1;
  wf_verified : ∀ id, id ∈ omap verification (log r) ↔
    ∃ en, entries r !! id = Some en ∧ en_verified en = true;
  wf_verified_once : NoDup (omap verification (log r));
  wf_event_ids : event_id <$> log r = uuid_NewString <$> seq 0 (length (log r));
}.
End Registry.

(** ** The registry as a store *)

Definition status_text (en : entry) : string := if en_verified en then "verified" else "registered".
Definition status_of (en : entry) : Status :=
  if en_verified en then StatusVerified else StatusRegistered.
(** An entry is written when it is registered and when it is verified. *)
Definition version_of (en : entry) : Z := if en_verified en then 2 else 1.

Definition row_of (id : string) (en : entry) : pgParticipant :=
  mkPgParticipant id (en_email en) (en_name en) (status_text en) (version_of en).
Definition participant_of (id : string) (en : entry) : Participant :=
  mkParticipant (mkParticipantID id) (mkEmailAddress (en_email en)) (en_name en) (status_of en)
    (version_of en) [].

Definition to_pg (r : registry) : ParticipantDB :=
  mkParticipantDB (map_imap (fun id en => Some (row_of id en)) (entries r)) (log r) (length (log r)).
Definition to_inmem (r : registry) : InMemoryRepository :=
  mkInMemoryRepository (map_imap (fun id en => Some (participant_of id en)) (entries r)).

(** A request over a repository, as the client sees it. *)
Definition answer_of {A} (f : A → answer) (r : result A) : answer :=
  match r with
  | Ok a => f a
  | Fail e => Refused (RespondWithSlugError (Some e))
  | Panic _ => Crashed
  end.

Definition handle `{GoText} `{MailLib} {S} `{ParticipantRepository S} (q : request) (s : S)
    : answer * S :=
  match q with
  | Req_Register now id email name =>
      let '(r, s') := Http_RegisterParticipant now id email name s in (answer_of Location r, s')
  | Req_Verify user now stamp id =>
      let '(r, s') := Http_VerifyParticipant user now stamp id s in
      (answer_of (fun _ => NoContent) r, s')
  end.

(** *** Maps *)

Lemma imap_lookup {A B} (f : string → A → B) (m : gmap string A) i :
  map_imap (fun i x => Some (f i x)) m !! i = f i <$> m !! i.
Proof. rewrite map_lookup_imap. by destruct (m !! i). Qed.

Lemma imap_insert {A B} (f : string → A → B) (m : gmap string A) i x :
  map_imap (fun i x => Some (f i x)) (<[i := x]> m) = <[i := f i x]> (map_imap (fun i x => Some (f i x)) m).
Proof.
  apply map_eq. intros j. rewrite imap_lookup. destruct (decide (i = j)) as [->|Hne].
  - by rewrite !lookup_insert_eq.
  - by rewrite !lookup_insert_ne, imap_lookup by done.
Qed.

Lemma existsb_map {A} (P : string * A → bool) (m : gmap string A) :
  existsb P (map_to_list m) = true ↔ ∃ i x, m !! i = Some x ∧ P (i, x) = true.
Proof.
  rewrite existsb_exists. split.
  - intros ([i x] & Hin%list_elem_of_In & HP). apply elem_of_map_to_list in Hin. eauto.
  - intros (i & x & Hx & HP). exists (i, x). split; [|done].
    by apply list_elem_of_In, elem_of_map_to_list.
Qed.

(** A test of the values of a map, seen through [f]. *)
Lemma existsb_imap {A B} (f : string → A → B) (P : string * B → bool) (Q : string * A → bool)
    (m : gmap string A) :
  (∀ i x, m !! i = Some x → P (i, f i x) = Q (i, x)) →
  existsb P (map_to_list (map_imap (fun i x => Some (f i x)) m)) = existsb Q (map_to_list m).
Proof.
  intros HPQ. apply eq_true_iff_eq. rewrite !existsb_map. split.
  - intros (i & y & Hy & HP). rewrite imap_lookup in Hy. destruct (m !! i) as [x|] eqn:Hx; [|done].
    injection Hy as <-. exists i, x. by rewrite <-HPQ.
  - intros (i & x & Hx & HQ). exists i, (f i x). rewrite imap_lookup, Hx. split; [done|].
    by rewrite HPQ.
Qed.

(** *** Rows and aggregates *)

Section Stored.
Context `{GoTextLaws} `{MailLib} `{UUIDLaws}.
Context (accepts : string → bool).
Implicit Types (r : registry) (en : entry).

Lemma unmarshal_entry id en :
  valid_entry accepts id en →
  UnmarshalFromDatabase id (en_email en) (en_name en) (status_text en) (version_of en)
  = Ok (participant_of id en).
Proof.
  intros [Hid He [Hn Hne] _]. unfold UnmarshalFromDatabase.
  rewrite Hid; simpl. rewrite He; simpl. unfold status_text, participant_of, status_of, version_of.
  destruct (en_verified en); simpl; by rewrite Hn, bool_decide_eq_false_2.
Qed.

Lemma toDomain_entry id en :
  valid_entry accepts id en → pg.toDomain (row_of id en) = Ok (participant_of id en).
Proof. intros Hv. unfold pg.toDomain. simpl. by rewrite unmarshal_entry. Qed.

Lemma valid_id id en : valid_entry accepts id en → isCanonicalUUID id = true.
Proof. intros [Hid _ _ _]. by apply NewParticipantID_inv in Hid as [_ Hc]. Qed.

(** *** Postgres: the two transactions *)

Lemma to_pg_lookup r id : db_participants (to_pg r) !! id = row_of id <$> entries r !! id.
Proof. apply imap_lookup. Qed.

Lemma pg_email_new r id en :
  entries r !! id = None →
  pg.email_taken (row_of id en) (to_pg r) = email_in_use (en_email en) r.
Proof.
  intros Hno. unfold pg.email_taken, email_in_use. apply existsb_imap. intros i x Hx. simpl.
  by rewrite bool_decide_eq_true_2 by congruence.
Qed.

(** What the two transactions write. *)
Definition registered_at (now : Time) (id email name : string) r : registry :=
  mkRegistry (<[id := mkEntry email name false]> (entries r))
    (log r ++ [EvParticipantRegisteredV1
       (mkParticipantRegisteredV1 (uuid_NewString (length (log r))) id email name now)]).

Definition verified_at (now : Time) (id : string) en r : registry :=
  mkRegistry (<[id := mkEntry (en_email en) (en_name en) true]> (entries r))
    (log r ++ [EvParticipantVerifiedV1
       (mkParticipantVerifiedV1 (uuid_NewString (length (log r))) id now)]).

Lemma to_pg_step r id en ev :
  mkParticipantDB (<[id := row_of id en]> (db_participants (to_pg r)))
    (db_outbox (to_pg r) ++ [ev]) (S (db_drawn (to_pg r)))
  = to_pg (mkRegistry (<[id := en]> (entries r)) (log r ++ [ev])).
Proof.
  unfold to_pg. simpl. rewrite (imap_insert row_of), length_app. simpl. by rewrite Nat.add_1_r.
Qed.

Lemma add_tx_run now id email name r :
  isCanonicalUUID id = true →
  pg.add_tx now (mkParticipant (mkParticipantID id) (mkEmailAddress email) name StatusRegistered 1
    [ParticipantRegistered (mkParticipantID id) (mkEmailAddress email) name]) (to_pg r) =
  if negb (pg.text_ok email && pg.text_ok name)
  then (Fail (Errorf "unable to insert participant" pg.refused), to_pg r)
  else if bool_decide (is_Some (entries r !! id)) || email_in_use email r
  then (Fail (Errorf "insert participant %s" (err ErrEmailTaken)), to_pg r)
  else (Ok tt, to_pg (registered_at now id email name r)).
Proof.
  intros Hid. unfold pg.add_tx, pg.insert_participant. cbn [p_status Status_String].
  rewrite run_lift, run_bind_assoc, run_get, run_bind_assoc, run_throw_if.
  cbn [row_ID row_Email row_DisplayName p_id p_email p_displayName p_version
    ParticipantID_String EmailAddress_String].
  unfold pg.uuid_ok. rewrite Hid. simpl andb.
  destruct (negb (pg.text_ok email && pg.text_ok name)); [done|].
  rewrite run_bind_assoc, run_throw_if, to_pg_lookup.
  change (mkPgParticipant id email name "registered" 1) with (row_of id (mkEntry email name false)).
  destruct (entries r !! id) as [en|] eqn:Hen; [done|]. simpl fmap.
  rewrite (bool_decide_eq_false_2 (is_Some None)) by by intros []. simpl orb. cbv iota.
  rewrite pg_email_new by done. simpl en_email. destruct (email_in_use email r); [done|].
  rewrite run_modify. apply (f_equal (fun d => (Ok tt, d))).
  exact (to_pg_step r id (mkEntry email name false) _).
Qed.

(** The aggregate the closure of [VerifyParticipant] returns. *)
Definition verified_participant (now : Time) (id : string) en : Participant :=
  mkParticipant (mkParticipantID id) (mkEmailAddress (en_email en)) (en_name en) StatusVerified
    (version_of en) [ParticipantVerified (mkParticipantID id) now].

Lemma closure_Verify now id en :
  closure (Verify now) (participant_of id en) =
    if en_verified en then Fail (err ErrAlreadyVerified) else Ok (verified_participant now id en).
Proof.
  unfold closure, Verify. rewrite run_get, run_throw_if. unfold participant_of, status_of.
  by destruct (en_verified en) eqn:Hv.
Qed.

Lemma pg_email_own r id en up :
  well_formed accepts r → entries r !! id = Some en → row_ID up = id → row_Email up = en_email en →
  pg.email_taken up (to_pg r) = false.
Proof.
  intros Hwf Hen Hid He. apply not_true_iff_false. unfold pg.email_taken.
  rewrite existsb_map. intros (i & row & Hrow & [Hne%bool_decide_eq_true Heq%bool_decide_eq_true]%andb_true_iff).
  rewrite to_pg_lookup in Hrow. destruct (entries r !! i) as [en'|] eqn:Hi; [|done].
  injection Hrow as <-. simpl in *. apply Hne. rewrite Hid.
  eapply wf_emails; [done|exact Hi|exact Hen|congruence].
Qed.

Lemma update_tx_run now stamp id r :
  (∀ s, accepts s = pg.text_ok s) → well_formed accepts r → isCanonicalUUID id = true →
  pg.update_tx stamp (mkParticipantID id) None (closure (Verify now)) (to_pg r) =
  match entries r !! id with
  | None => (Fail (ParticipantNotFoundError id), to_pg r)
  | Some en =>
      if en_verified en then (Fail (err ErrAlreadyVerified), to_pg r)
      else (Ok tt, to_pg (verified_at now id en r))
  end.
Proof.
  intros Hacc Hwf Hid. unfold pg.update_tx, pg.select_row, pg.uuid_ok. rewrite run_get.
  cbn [ParticipantID_String]. rewrite Hid. cbn [wrap_err]. rewrite run_lift, to_pg_lookup.
  destruct (entries r !! id) as [en|] eqn:Hen; [|done].
  change (row_of id <$> Some en) with (Some (row_of id en)). cbv iota.
  pose proof (wf_entries _ _ Hwf _ _ Hen) as Hv.
  rewrite run_lift, (toDomain_entry id en Hv), run_ret_bind, run_lift, closure_Verify.
  destruct (en_verified en) eqn:Hver; [done|]. cbn [verified_participant p_status Status_String].
  rewrite run_lift. unfold pg.update_participant.
  rewrite run_bind_assoc, run_get, run_bind_assoc, run_throw_if.
  cbn [row_Email row_DisplayName row_ID p_email p_displayName EmailAddress_String verified_participant].
  rewrite <-!Hacc, (ve_text _ _ _ Hv). cbn [negb].
  rewrite to_pg_lookup, Hen. change (row_of id <$> Some en) with (Some (row_of id en)). cbv iota.
  rewrite Z.eqb_refl.
  rewrite run_bind_assoc, run_throw_if, (pg_email_own r id en) by done.
  rewrite run_bind_assoc, run_modify, run_ret_bind, run_throw_if. cbn [Z.eqb].
  apply (f_equal (fun d => (Ok tt, d))). unfold verified_at. rewrite <-to_pg_step. unfold pg.put_row, row_of.
  simpl. unfold version_of. by rewrite Hver.
Qed.

End Stored.

(** *** What the driver may do to a request

    A driver's error carries none of the program's own errors. *)
Section Pg.
Context `{GoTextLaws} `{MailLib} `{UUIDLaws}.
Implicit Types (r : registry) (en : entry).

Definition plain (o : option error) : Prop := ∀ e, o = Some e → ∃ msg, e = ErrNew msg.

Record driver_faults (f : TxFaults) : Prop := {
  df_begin : plain (begin_err f);
  df_commit : plain (commit_err f);
  df_rollback : plain (rollback_err f);
}.

(** The answer and the database [out] of a request the specification answers
    with [a] and [r']: the same, or the client is told of an internal error,
    and the transaction was applied or not. *)
Definition follows f r (spec : answer * registry) (out : answer * ParticipantDB) : Prop :=
  out = (spec.1, to_pg spec.2)
  ∨ (f ≠ no_faults ∧ out.1 = internal ∧ (out.2 = to_pg r ∨ out.2 = to_pg spec.2)).

Definition tx_answer {A} f (ok : A → answer) (sw : error → error) (m : M ParticipantDB A)
    (db : ParticipantDB) : answer * ParticipantDB :=
  let '(x, db') := RunInTx f m db in (answer_of ok (map_error sw x), db').

Lemma tx_ok {A} f (ok : A → answer) sw m r r' a :
  driver_faults f → m (to_pg r) = (Ok a, to_pg r') →
  (∀ w t, RespondWithSlugError (Some (sw (Errorf w (ErrNew t)))) = mkResponse 500 internalSlug) →
  follows f r (ok a, r') (tx_answer f ok sw m (to_pg r)).
Proof.
  intros [Hb Hc _] Hm Hsw. unfold tx_answer, RunInTx, follows.
  destruct (begin_err f) as [eb|] eqn:Hbe.
  { destruct (Hb eb eq_refl) as [msg ->]. right. simpl. rewrite Hsw. split_and!; [by intros ->|done|by left]. }
  rewrite Hm. simpl. destruct (commit_err f) as [ec|] eqn:Hce; [|by left].
  destruct (Hc ec eq_refl) as [msg ->]. right. simpl. rewrite Hsw.
  split_and!; [by intros ->|done|]. destruct (commit_applied f); auto.
Qed.

Lemma tx_fail {A} f (ok : A → answer) sw m r e :
  driver_faults f → m (to_pg r) = (Fail e, to_pg r) →
  (∀ w t, RespondWithSlugError (Some (sw (Errorf w (ErrNew t)))) = mkResponse 500 internalSlug) →
  (∀ t, RespondWithSlugError (Some (sw (Combine e (Errorf "rollback tx" (ErrNew t)))))
        = RespondWithSlugError (Some (sw e))) →
  follows f r (Refused (RespondWithSlugError (Some (sw e))), r) (tx_answer f ok sw m (to_pg r)).
Proof.
  intros [Hb _ Hr] Hm Hsw Hcomb. unfold tx_answer, RunInTx, follows.
  destruct (begin_err f) as [eb|] eqn:Hbe.
  { destruct (Hb eb eq_refl) as [msg ->]. right. simpl. rewrite Hsw. split_and!; [by intros ->|done|by left]. }
  rewrite Hm. simpl. left. destruct (rollback_err f) as [er|] eqn:Hre; [|done].
  destruct (Hr er eq_refl) as [msg ->]. simpl. by rewrite Hcomb.
Qed.

(** The command handlers are one transaction and a [switch]. *)
Lemma on_error_tx {A} f (ok : A → answer) (sw : error → error) (a : A) (m : M ParticipantDB unit) db :
  (let '(x, db') := (on_error (RunInTx f m) (fun e => Some (sw e));; mret a) db in
   (answer_of ok x, db'))
  = tx_answer f (fun _ => ok a) sw m db.
Proof.
  unfold tx_answer, on_error, mbind, GoM_bind. by destruct (RunInTx f m db) as [[[]| |] db'].
Qed.

Lemma on_error_tx_last f (ok : unit → answer) (sw : error → error) (m : M ParticipantDB unit) db :
  (let '(x, db') := on_error (RunInTx f m) (fun e => Some (sw e)) db in (answer_of ok x, db'))
  = tx_answer f ok sw m db.
Proof. unfold tx_answer, on_error. by destruct (RunInTx f m db) as [[[]| |] db']. Qed.

Lemma Register_Ok id email raw :
  isCanonicalUUID id = true → IsZero (mkEmailAddress email) = false → TrimSpace raw ≠ "" →
  Register (mkParticipantID id) (mkEmailAddress email) raw =
    Ok (mkParticipant (mkParticipantID id) (mkEmailAddress email) (TrimSpace raw) StatusRegistered 1
      [ParticipantRegistered (mkParticipantID id) (mkEmailAddress email) (TrimSpace raw)]).
Proof.
  intros Hid He Hn. unfold Register. rewrite (canonical_nonzero (mkParticipantID id) Hid), He.
  by rewrite bool_decide_eq_false_2.
Qed.

Lemma pg_register f now id email name r :
  driver_faults f →
  follows f r (spec_register pg.text_ok now id email name r)
    (handle (H1 := pg.repository f) (Req_Register now id email name) (to_pg r)).
Proof.
  intros Hf. unfold spec_register, handle, Http_RegisterParticipant.
  destruct (NewParticipantID id) as [[i]|e|p] eqn:Hid; [|by left|].
  2: { exfalso. unfold NewParticipantID in Hid. by destruct (_ || _). }
  apply NewParticipantID_inv in Hid as [_ Hi]. cbn [ParticipantID_String] in Hi.
  cbn [with_cause]. rewrite run_lift.
  destruct (NewEmailAddress email) as [[em]|e|p] eqn:He; [|by left|].
  2: { exfalso. unfold NewEmailAddress in He. repeat case_match; done. }
  apply email_nonzero in He. cbn [with_cause]. rewrite run_lift. unfold RegisterParticipantHandler.
  cbn [ParticipantID_String EmailAddress_String rp_ID rp_Email rp_DisplayName].
  case_bool_decide as Hn.
  { left. unfold Register. by rewrite (canonical_nonzero (mkParticipantID i) Hi), He, Hn. }
  rewrite Register_Ok by done. cbn [map_error]. rewrite run_bind_assoc, run_lift.
  cbn [prt_Add pg.repository]. unfold pg.Add.
  rewrite (on_error_tx f Location register_switch).
  pose proof (add_tx_run now i em (TrimSpace name) r Hi) as Hrun.
  destruct (negb (pg.text_ok em && pg.text_ok (TrimSpace name)));
    [|destruct (bool_decide (is_Some (entries r !! i)) || email_in_use em r)].
  - exact (tx_fail f _ register_switch _ r _ Hf Hrun (fun _ _ => eq_refl) (fun _ => eq_refl)).
  - exact (tx_fail f _ register_switch _ r _ Hf Hrun (fun _ _ => eq_refl) (fun _ => eq_refl)).
  - exact (tx_ok f (fun _ => _) register_switch _ r _ tt Hf Hrun (fun _ _ => eq_refl)).
Qed.

Lemma pg_verify f user now stamp id r :
  driver_faults f → well_formed pg.text_ok r →
  follows f r (spec_verify user now id r)
    (handle (H1 := pg.repository f) (Req_Verify user now stamp id) (to_pg r)).
Proof.
  intros Hf Hwf. unfold spec_verify, handle, Http_VerifyParticipant.
  destruct user as [user|]; [|by left]. cbn [auth.UserFromCtx]. rewrite run_lift, run_throw_if.
  destruct (bool_decide (auth.u_Role user ≠ auth.RoleOperations)); [by left|].
  destruct (NewParticipantID id) as [[i]|e|p] eqn:Hid; [|by left|].
  2: { exfalso. unfold NewParticipantID in Hid. by destruct (_ || _). }
  apply NewParticipantID_inv in Hid as [_ Hi]. cbn [ParticipantID_String] in Hi.
  cbn [with_cause]. rewrite run_lift. unfold VerifyParticipantHandler.
  cbn [ParticipantID_String vp_ID prt_UpdateAsOperations pg.repository]. unfold pg.UpdateAsOperations.
  pose proof (update_tx_run pg.text_ok now stamp i r (fun _ => eq_refl) Hwf Hi) as Hrun.
  pose proof (on_error_tx_last f (fun _ : unit => NoContent) verify_switch
    (pg.update_tx stamp (mkParticipantID i) None (closure (Verify now))) (to_pg r)) as ->.
  destruct (entries r !! i) as [en|]; [destruct (en_verified en)|].
  - exact (tx_fail f _ verify_switch _ r _ Hf Hrun (fun _ _ => eq_refl) (fun _ => eq_refl)).
  - exact (tx_ok f (fun _ => _) verify_switch _ r _ tt Hf Hrun (fun _ _ => eq_refl)).
  - exact (tx_fail f _ verify_switch _ r _ Hf Hrun (fun _ _ => eq_refl) (fun _ => eq_refl)).
Qed.

(** *** In memory *)

Lemma inmem_lookup_id r id :
  inmem.lookup_id (mkParticipantID id) (to_inmem r) = participant_of id <$> entries r !! id.
Proof. unfold inmem.lookup_id, to_inmem. simpl. apply imap_lookup. Qed.

Lemma inmem_email r email :
  inmem.email_taken (mkEmailAddress email) (to_inmem r) = email_in_use email r.
Proof.
  unfold inmem.email_taken, email_in_use, to_inmem. simpl.
  apply (existsb_imap participant_of). intros i x _. simpl.
  apply bool_decide_ext. split; [by intros [=]|by intros ->].
Qed.

Lemma inmem_add_run id em name ev r p :
  p = mkParticipant (mkParticipantID id) (mkEmailAddress em) name StatusRegistered 1 ev →
  inmem.Add p (to_inmem r) =
    if bool_decide (is_Some (entries r !! id)) || email_in_use em r
    then (Fail (Errorf "add participant %s" (err ErrEmailTaken)), to_inmem r)
    else (Ok tt, to_inmem (mkRegistry (<[id := mkEntry em name false]> (entries r)) [])).
Proof.
  intros ->. unfold inmem.Add. rewrite run_get. cbn [p_id p_email].
  rewrite inmem_lookup_id. destruct (entries r !! id) as [en|] eqn:Hen; [done|].
  change (participant_of id <$> None) with (None (A := Participant)). cbv iota.
  rewrite (bool_decide_eq_false_2 (is_Some None)) by by intros []. simpl orb.
  rewrite run_throw_if, inmem_email. destruct (email_in_use em r); [done|].
  apply (f_equal (pair _)). unfold to_inmem. simpl. by rewrite (imap_insert participant_of).
Qed.

Lemma inmem_register now id email name r :
  handle (H1 := inmem.repository) (Req_Register now id email name) (to_inmem r)
  = let '(a, r') := spec_register (fun _ => true) now id email name r in (a, to_inmem r').
Proof.
  unfold spec_register, handle, Http_RegisterParticipant.
  destruct (NewParticipantID id) as [[i]|e|p] eqn:Hid; [|done|].
  2: { exfalso. unfold NewParticipantID in Hid. by destruct (_ || _). }
  apply NewParticipantID_inv in Hid as [_ Hi]. cbn [ParticipantID_String] in Hi.
  cbn [with_cause]. rewrite run_lift.
  destruct (NewEmailAddress email) as [[em]|e|p] eqn:He; [|done|].
  2: { exfalso. unfold NewEmailAddress in He. repeat case_match; done. }
  apply email_nonzero in He. cbn [with_cause]. rewrite run_lift. unfold RegisterParticipantHandler.
  cbn [ParticipantID_String EmailAddress_String rp_ID rp_Email rp_DisplayName].
  case_bool_decide as Hn.
  { unfold Register. by rewrite (canonical_nonzero (mkParticipantID i) Hi), He, Hn. }
  rewrite Register_Ok by done. cbn [map_error andb negb]. rewrite run_bind_assoc, run_lift.
  cbn [prt_Add inmem.repository]. unfold on_error, mbind, GoM_bind.
  rewrite (inmem_add_run i em (TrimSpace name) _ r) by done.
  by destruct (bool_decide (is_Some (entries r !! i)) || email_in_use em r).
Qed.

Lemma inmem_verify user now stamp id r :
  well_formed (fun _ => true) r →
  handle (H1 := inmem.repository) (Req_Verify user now stamp id) (to_inmem r)
  = let '(a, r') := spec_verify user now id r in (a, to_inmem r').
Proof.
  intros Hwf. unfold spec_verify, handle, Http_VerifyParticipant.
  destruct user as [user|]; [|done]. cbn [auth.UserFromCtx]. rewrite run_lift, run_throw_if.
  destruct (bool_decide (auth.u_Role user ≠ auth.RoleOperations)); [done|].
  destruct (NewParticipantID id) as [[i]|e|p] eqn:Hid; [|done|].
  2: { exfalso. unfold NewParticipantID in Hid. by destruct (_ || _). }
  cbn [with_cause ParticipantID_String]. rewrite run_lift. unfold VerifyParticipantHandler.
  cbn [vp_ID prt_UpdateAsOperations inmem.repository].
  unfold on_error, inmem.UpdateAsOperations, inmem.update. rewrite run_get, inmem_lookup_id.
  destruct (entries r !! i) as [en|] eqn:Hen; [|done].
  change (participant_of i <$> Some en) with (Some (participant_of i en)). cbv iota.
  pose proof (wf_entries _ _ Hwf _ _ Hen) as Hv.
  rewrite run_ret_bind, run_lift, closure_Verify. destruct (en_verified en) eqn:Hver; [done|].
  set (en' := mkEntry (en_email en) (en_name en) true).
  assert (valid_entry (fun _ => true) i en') as Hv' by by destruct Hv.
  cbn [verified_participant PullDomainEvents p_status Status_String snd]. rewrite run_lift.
  pose proof (unmarshal_entry _ i en' Hv') as Hu. cbn [p_id p_email p_displayName ParticipantID_String
    EmailAddress_String p_version participant_of version_of].
  unfold version_of. rewrite Hver. change (wrap64 (1 + 1)) with (version_of en').
  change "verified" with (status_text en').
  cbn [verified_participant p_id p_email p_displayName ParticipantID_String EmailAddress_String].
  change (en_email en) with (en_email en'). change (en_name en) with (en_name en').
  rewrite Hu. cbn [wrap_err]. rewrite run_lift. simpl answer_of.
  apply (f_equal (pair _)). unfold to_inmem, inmem.put. simpl.
  by rewrite (imap_insert participant_of).
Qed.
End Pg.

(** ** What every registry satisfies *)

Section WellFormed.
Context `{GoTextLaws} `{MailLib} `{UUIDLaws} (accepts : string → bool).
Implicit Types (r : registry) (en : entry).

Lemma empty_well_formed : well_formed accepts empty_registry.
Proof.
  split; simpl; try done.
  - intros id x. split; [by intros ?%elem_of_nil|]. by intros (en & Hen & _).
  - constructor.
  - intros id. split; [by intros ?%elem_of_nil|]. by intros (en & Hen & _).
  - constructor.
Qed.

Lemma email_in_use_false email r id en :
  email_in_use email r = false → entries r !! id = Some en → en_email en ≠ email.
Proof.
  intros Hno Hen Heq. apply not_true_iff_false in Hno. apply Hno. unfold email_in_use.
  rewrite existsb_map. exists id, en. split; [done|]. by apply bool_decide_eq_true.
Qed.

Lemma event_ids_snoc r ev :
  event_id <$> log r = uuid_NewString <$> seq 0 (length (log r)) →
  event_id ev = uuid_NewString (length (log r)) →
  event_id <$> log r ++ [ev] = uuid_NewString <$> seq 0 (length (log r ++ [ev])).
Proof.
  intros Hids Hev. rewrite length_app, seq_app, !fmap_app, Hids. simpl. by rewrite Hev.
Qed.

(** The registrations are those of the entries. *)
Lemma registered_fresh r id :
  well_formed accepts r → entries r !! id = None → id ∉ (omap registration (log r)).*1.
Proof.
  intros Hwf Hno ([i x] & -> & Hin)%list_elem_of_fmap.
  apply (wf_registered _ _ Hwf) in Hin as (en & Hen & _). simpl in Hno. congruence.
Qed.

Lemma registered_well_formed now id email name r :
  well_formed accepts r → valid_entry accepts id (mkEntry email name false) →
  entries r !! id = None → email_in_use email r = false →
  well_formed accepts (registered_at now id email name r).
Proof.
  intros Hwf Hv Hno Hfree. unfold registered_at. split; simpl.
  - intros i en [[<- <-]|[_ Hen]]%lookup_insert_Some; [done|by eapply wf_entries].
  - intros i j en en' [[<- <-]|[Hi Hen]]%lookup_insert_Some [[<- <-]|[Hj Hen']]%lookup_insert_Some;
      intros Heq; [done| | |by eapply wf_emails]; exfalso;
      eapply email_in_use_false; [done|done| |done|done|]; by simpl in *.
  - intros i x. rewrite omap_app, elem_of_app, (wf_registered _ _ Hwf). simpl.
    rewrite list_elem_of_singleton. split.
    + intros [(en & Hen & ->)|[= -> ->]].
      * exists en. rewrite lookup_insert_ne by congruence. done.
      * eexists. by rewrite lookup_insert_eq.
    + intros (en & [[<- <-]|[_ Hen]]%lookup_insert_Some & ->); [by right|left; eauto].
  - rewrite omap_app, fmap_app. apply NoDup_app. split_and!; [apply Hwf| |repeat constructor; set_solver].
    simpl. intros i Hi Heq%list_elem_of_singleton. subst. by apply (registered_fresh r id).
  - intros i. rewrite omap_app. simpl. rewrite app_nil_r, (wf_verified _ _ Hwf). split.
    + intros (en & Hen & Hver). exists en. rewrite lookup_insert_ne by congruence. done.
    + intros (en & [[<- <-]|[_ Hen]]%lookup_insert_Some & Hver); [done|eauto].
  - rewrite omap_app. simpl. rewrite app_nil_r. apply Hwf.
  - apply event_ids_snoc; [apply Hwf|done].
Qed.

Lemma verified_well_formed now id en r :
  well_formed accepts r → entries r !! id = Some en → en_verified en = false →
  well_formed accepts (verified_at now id en r).
Proof.
  intros Hwf Hen Hver. unfold verified_at. split; simpl.
  - intros i en' [[<- <-]|[_ Hen']]%lookup_insert_Some; [|by eapply wf_entries].
    by destruct (wf_entries _ _ Hwf _ _ Hen).
  - intros i j en1 en2 [[<- <-]|[Hi H1']]%lookup_insert_Some [[<- <-]|[Hj H2']]%lookup_insert_Some;
      simpl; intros Heq; [done|eapply wf_emails; done..].
  - intros i x. rewrite omap_app. simpl. rewrite app_nil_r, (wf_registered _ _ Hwf). split.
    + intros (en' & Hen' & ->). destruct (decide (id = i)) as [->|Hne].
      * rewrite Hen in Hen'. injection Hen' as <-. eexists. by rewrite lookup_insert_eq.
      * exists en'. by rewrite lookup_insert_ne.
    + intros (en' & [[<- <-]|[_ Hen']]%lookup_insert_Some & ->); simpl; eauto.
  - rewrite omap_app. simpl. rewrite app_nil_r. apply Hwf.
  - intros i. rewrite omap_app, elem_of_app, (wf_verified _ _ Hwf). simpl.
    rewrite list_elem_of_singleton. split.
    + intros [(en' & Hen' & Hv')| ->].
      * exists en'. rewrite lookup_insert_ne by congruence. done.
      * eexists. by rewrite lookup_insert_eq.
    + intros (en' & [[<- <-]|[_ Hen']]%lookup_insert_Some & Hv'); [by right|left; eauto].
  - rewrite omap_app. apply NoDup_app. split_and!; [apply Hwf| |repeat constructor; set_solver].
    simpl. intros i Hi Heq%list_elem_of_singleton. subst.
    apply (wf_verified _ _ Hwf) in Hi as (en' & Hen' & Hv'). congruence.
  - apply event_ids_snoc; [apply Hwf|done].
Qed.

Lemma spec_well_formed q r : well_formed accepts r → well_formed accepts (spec_handle accepts q r).2.
Proof.
  intros Hwf. destruct q as [now id email name|user now stamp id]; simpl.
  - unfold spec_register. destruct (NewParticipantID id) as [[i]|e|p] eqn:Hid; [|done..].
    destruct (NewEmailAddress email) as [[em]|e|p] eqn:He; [|done..].
    cbn [ParticipantID_String EmailAddress_String]. case_bool_decide as Hn; [done|].
    destruct (accepts em && accepts (TrimSpace name)) eqn:Ha; [|done]. cbn [negb].
    destruct (_ || _) eqn:Hb; [done|].
    apply orb_false_iff in Hb as [Hb%bool_decide_eq_false Hfree].
    apply registered_well_formed; [done| |by apply eq_None_not_Some|done].
    apply NewParticipantID_inv in Hid as [Hid _]. apply NewEmailAddress_inv in He.
    split; simpl; [done|done| |done]. split; [apply TrimSpace_idemp|done].
  - unfold spec_verify. destruct user as [user|]; [|done]. destruct (bool_decide _); [done|].
    destruct (NewParticipantID id) as [[i]|e|p] eqn:Hid; [|done..].
    cbn [ParticipantID_String]. destruct (entries r !! i) as [en|] eqn:Hen; [|done].
    destruct (en_verified en) eqn:Hver; [done|]. by apply verified_well_formed.
Qed.
End WellFormed.

(** ** The refinement *)

(** The requests [qs] one after the other. *)
Fixpoint serve {Q S} (h : Q → S → answer * S) (qs : list Q) (s : S) : list answer * S :=
  match qs with
  | [] => ([], s)
  | q :: qs =>
      let '(a, s1) := h q s in
      let '(answers, s2) := serve h qs s1 in
      (a :: answers, s2)
  end.

(** If each request takes [f r] to [f r'] where the specification takes [r] to
    [r'], so does a list of them. *)
Lemma serve_refines {Q S R} (h : Q → S → answer * S) (spec : Q → R → answer * R) (f : R → S)
    (good : R → Prop) qs r :
  (∀ q r, good r → h q (f r) = let '(a, r') := spec q r in (a, f r')) →
  (∀ q r, good r → good (spec q r).2) → good r →
  serve h qs (f r) = (let '(answers, r') := serve spec qs r in (answers, f r'))
  ∧ good (serve spec qs r).2.
Proof.
  intros Hh Hgood. revert r. induction qs as [|q qs IH]; intros r Hr; simpl; [done|].
  rewrite Hh by done. pose proof (Hgood q r Hr) as Hr1. destruct (spec q r) as [a r1]. simpl in *.
  destruct (IH r1 Hr1) as [-> Hr2]. by destruct (serve spec qs r1) as [answers r2].
Qed.

Section Claims.
Context `{GoTextLaws} `{MailLib} `{UUIDLaws}.

Definition profile_answer (x : result ProfileView) : result ProfileView + Response :=
  match x with Fail e => inr (RespondWithSlugError (Some e)) | x => inl x end.

Lemma pg_profile id r :
  profile_answer (Http_ParticipantProfile pg.Profile id (to_pg r)) = spec_profile id r.
Proof.
  unfold Http_ParticipantProfile, spec_profile.
  destruct (NewParticipantID id) as [[i]|e|p] eqn:Hid; [|done|].
  2: { exfalso. unfold NewParticipantID in Hid. by destruct (_ || _). }
  apply NewParticipantID_inv in Hid as [_ Hi]. cbn [ParticipantID_String] in *.
  unfold with_cause, ParticipantProfileHandler, pg.Profile, pg.select_row, pg.uuid_ok.
  cbn [mbind res_bind ParticipantID_String]. rewrite Hi. cbn [wrap_err mbind res_bind].
  rewrite to_pg_lookup. by destruct (entries r !! i) as [en|].
Qed.

Lemma follows_no_faults r spec out : follows no_faults r spec out → out = (spec.1, to_pg spec.2).
Proof. by intros [->|(Hf & _)]. Qed.

Lemma no_driver_faults : driver_faults no_faults.
Proof. by split. Qed.

Lemma pg_handle f q r :
  driver_faults f → well_formed pg.text_ok r →
  follows f r (spec_handle pg.text_ok q r) (handle (H1 := pg.repository f) q (to_pg r)).
Proof.
  intros Hf Hwf. destruct q as [now id email name|user now stamp id]; simpl spec_handle;
    [by apply pg_register|by apply pg_verify].
Qed.

(** C21: any sequence of registrations and verifications is answered as the
    abstract registry answers it, over the Postgres repository and, for a
    registry that accepts every text, over the one in memory; the store is
    then the stored form of the registry: its rows, its outbox and the number
    of event identities drawn in Postgres, its aggregates in memory; and a
    profile shows the registry's entry. *)
Theorem registry_refined qs :
  (let '(answers, r) := serve (spec_handle pg.text_ok) qs empty_registry in
   serve (handle (H1 := pg.repository no_faults)) qs (mkParticipantDB ∅ [] 0) = (answers, to_pg r)
   ∧ ∀ id, profile_answer (Http_ParticipantProfile pg.Profile id (to_pg r)) = spec_profile id r)
  ∧ (let '(answers, r) := serve (spec_handle (fun _ => true)) qs empty_registry in
     serve (handle (H1 := inmem.repository)) qs (mkInMemoryRepository ∅) = (answers, to_inmem r)).
Proof.
  split.
  - destruct (serve_refines (handle (H1 := pg.repository no_faults)) (spec_handle pg.text_ok) to_pg
      (well_formed pg.text_ok) qs empty_registry) as [Hs _].
    + intros q r Hwf. destruct (spec_handle pg.text_ok q r) as [a r'] eqn:Hq.
      pose proof (follows_no_faults _ _ _ (pg_handle no_faults q r no_driver_faults Hwf)) as ->.
      by rewrite Hq.
    + intros q r. apply spec_well_formed.
    + apply empty_well_formed.
    + destruct (serve (spec_handle pg.text_ok) qs empty_registry) as [answers r].
      split; [exact Hs|]. intros id. apply pg_profile.
  - destruct (serve_refines (handle (H1 := inmem.repository)) (spec_handle (fun _ => true)) to_inmem
      (well_formed (fun _ => true)) qs empty_registry) as [Hs _].
    + intros [now id email name|user now stamp id] r Hwf;
        [apply inmem_register|by apply inmem_verify].
    + intros q r. apply spec_well_formed.
    + apply empty_well_formed.
    + destruct (serve (spec_handle (fun _ => true)) qs empty_registry) as [answers r]. exact Hs.
Qed.

(** C32: whatever requests are served and whatever the driver answers to their
    transactions, the database is the stored form of a well-formed registry:
    every row holds a canonical identity, an address and a name the
    constructors accept, and the version its status calls for; no two rows
    have the same address; the outbox announces each participant exactly once
    with its address and name, each verification exactly once and nothing
    else, under identities drawn once each.  And a further request is
    answered as that registry answers it, or, when the driver failed, with an
    internal error, applied or not. *)
Theorem registry_sound (fqs : list (TxFaults * request)) :
  Forall (fun fq => driver_faults fq.1) fqs →
  ∃ r,
    (serve (fun fq => handle (H1 := pg.repository fq.1) fq.2) fqs (mkParticipantDB ∅ [] 0)).2
    = to_pg r
    ∧ well_formed pg.text_ok r
    ∧ ∀ f q, driver_faults f →
        follows f r (spec_handle pg.text_ok q r) (handle (H1 := pg.repository f) q (to_pg r)).
Proof.
  intros Hfs.
  enough (∀ r0, well_formed pg.text_ok r0 → ∃ r,
    (serve (fun fq => handle (H1 := pg.repository fq.1) fq.2) fqs (to_pg r0)).2 = to_pg r
    ∧ well_formed pg.text_ok r) as Hall.
  { destruct (Hall empty_registry (empty_well_formed _)) as (r & Hr & Hwf). exists r.
    split_and!; [exact Hr|done|]. intros f q Hf. by apply pg_handle. }
  induction Hfs as [|[f q] fqs Hf Hfs IH]; intros r0 Hwf; [by exists r0|]. simpl.
  assert (∃ r1, (handle (H1 := pg.repository f) q (to_pg r0)).2 = to_pg r1
          ∧ well_formed pg.text_ok r1) as (r1 & Hr1 & Hwf1).
  { pose proof (spec_well_formed pg.text_ok q r0 Hwf) as Hwf1.
    destruct (pg_handle f q r0 Hf Hwf) as [->|(_ & _ & [->| ->])]; eauto. }
  destruct (handle _ _) as [a db1]. simpl in Hr1. subst db1.
  destruct (IH r1 Hwf1) as (r2 & Hr2 & Hwf2). exists r2. split; [|done].
  rewrite <-Hr2. by destruct (serve _ _ (to_pg r1)).
Qed.
End Claims.

(** ** An execution

    Texts whose lower case is known, and addresses with nothing but an [@] to
    recognize them by. *)
Module demo_text.

#[export] Instance text : GoText := { lower_unicode s := s }.
#[export] Instance text_laws : GoTextLaws.
Proof.
  split; simpl; [|done]. intros s Hs. unfold ToLower. by rewrite Hs.
Qed.

Fixpoint has_at (s : string) : bool :=
  match s with
  | "" => false
  | String c s => Ascii.eqb c (Ascii.ascii_of_N 64) || has_at s
  end.

#[export] Instance mail : MailLib := {
  mail_ParseAddress s := if has_at s then Some ("", s) else None
}.
End demo_text.
Import demo_text demo_uuid.

Definition demo_id : string := "0D6CBD0A-5f2f-4b3f-9c2a-6c1b2a3d4e5f".
Definition demo_ops : option auth.User := Some (auth.mkUser 7%N auth.RoleOperations).

(** A registration, the same address again, two verifications. *)
Definition demo_requests : list request :=
  [Req_Register 5 demo_id " Boris@Example.com " "  Boris ";
   Req_Register 6 "1d6cbd0a-5f2f-4b3f-9c2a-6c1b2a3d4e5f" "boris@example.com" "Other";
   Req_Verify demo_ops 7 7 demo_id;
   Req_Verify demo_ops 8 8 demo_id].

Theorem registry_refined_witness :
  (serve (handle (H1 := pg.repository no_faults)) demo_requests (mkParticipantDB ∅ [] 0)).1
  = [Location "/api/participants/0d6cbd0a-5f2f-4b3f-9c2a-6c1b2a3d4e5f"; refuse 409 "email-taken";
     NoContent; refuse 409 "already-verified"].
Proof.
  pose proof (registry_refined demo_requests) as [Hpg _].
  destruct (serve (spec_handle pg.text_ok) demo_requests empty_registry) as [answers r] eqn:Hs.
  destruct Hpg as [-> _]. apply (f_equal fst) in Hs. simpl fst in *. rewrite <-Hs.
  vm_compute. reflexivity.
Defined.

(** The first verification's commit is lost, the second finds it done. *)
Definition demo_lost : TxFaults := mkTxFaults None (Some (ErrNew "connection reset")) true None.

Theorem registry_sound_witness :
  (serve (fun fq => handle (H1 := pg.repository fq.1) fq.2)
     [(no_faults, Req_Register 5 demo_id "boris@example.com" "Boris");
      (demo_lost, Req_Verify demo_ops 7 7 demo_id); (no_faults, Req_Verify demo_ops 8 8 demo_id)]
     (mkParticipantDB ∅ [] 0)).1
  = [Location "/api/participants/0d6cbd0a-5f2f-4b3f-9c2a-6c1b2a3d4e5f"; internal;
     refuse 409 "already-verified"]
  ∧ ∃ r, (serve (fun fq => handle (H1 := pg.repository fq.1) fq.2)
     [(no_faults, Req_Register 5 demo_id "boris@example.com" "Boris");
      (demo_lost, Req_Verify demo_ops 7 7 demo_id); (no_faults, Req_Verify demo_ops 8 8 demo_id)]
     (mkParticipantDB ∅ [] 0)).2 = to_pg r ∧ well_formed pg.text_ok r.
Proof.
  split; [vm_compute; reflexivity|].
  destruct (registry_sound
    [(no_faults, Req_Register 5 demo_id "boris@example.com" "Boris");
     (demo_lost, Req_Verify demo_ops 7 7 demo_id); (no_faults, Req_Verify demo_ops 8 8 demo_id)])
    as (r & Hr & Hwf & _).
  - apply Forall_cons. split; [by split|]. apply Forall_cons.
    split; [split; [done| |done]; intros e [= <-]; by eexists|].
    apply Forall_cons. split; [by split|]. by apply Forall_nil.
  - exists r. split; [exact Hr|exact Hwf].
Defined.

(** A display name with a zero byte is stored in memory, but refused by the
    database, as an internal error. *)
Lemma zero_byte_differs :
  let q := Req_Register 5 demo_id "boris@example.com" ("B" +:+ String Ascii.zero "b") in
  (handle (H1 := inmem.repository) q (mkInMemoryRepository ∅)).1
  = Location "/api/participants/0d6cbd0a-5f2f-4b3f-9c2a-6c1b2a3d4e5f"
  ∧ (handle (H1 := pg.repository no_faults) q (mkParticipantDB ∅ [] 0)).1 = internal.
Proof. by vm_compute. Qed.
End participant_theory.
