(* ===== verification/SettlementDomain.v ===== *)
(** * The settlement saga

    [internal/settlement/domain/settlement]: the value objects and the
    [Settlement] process manager, its decision functions and its guarded
    transitions, in [Module settlement]. *)

From stdpp Require Import base numbers list strings countable.
From Stdlib Require Import ZArith Lia.
From S2P Require Import Prelude Errs.

Module settlement.
Local Open Scope Z_scope.

(** The sentinels of [errors.go], as error values. *)
Abbreviation ErrUnexpectedTransition := (ErrSettlement SettlementErr.ErrUnexpectedTransition) (only parsing).
Abbreviation ErrNotOfferRecipient := (ErrSettlement SettlementErr.ErrNotOfferRecipient) (only parsing).
Abbreviation ErrOfferAlreadyPaid := (ErrSettlement SettlementErr.ErrOfferAlreadyPaid) (only parsing).
Abbreviation ErrWinnerMismatch := (ErrSettlement SettlementErr.ErrWinnerMismatch) (only parsing).
Abbreviation ErrNegativeAmount := (ErrSettlement SettlementErr.ErrNegativeAmount) (only parsing).
Abbreviation ErrInvalidCurrency := (ErrSettlement SettlementErr.ErrInvalidCurrency) (only parsing).

(** ** Identities *)

Record AuctionID := mkAuctionID { AuctionID_UUID : uuid }.
#[export] Instance AuctionID_eq_dec : EqDecision AuctionID.
Proof. solve_decision. Defined.
#[export] Instance AuctionID_countable : Countable AuctionID :=
  inj_countable' AuctionID_UUID mkAuctionID (fun x => match x with mkAuctionID _ => eq_refl end).
#[export] Instance AuctionID_zero : GoZero AuctionID := mkAuctionID uuid_Nil.

Definition NewAuctionID (id : uuid) : result AuctionID :=
  if bool_decide (id = uuid_Nil) then Fail (ErrNew "auction id must not be nil")
  else Ok (mkAuctionID id).

Record BidderID := mkBidderID { BidderID_UUID : uuid }.
#[export] Instance BidderID_eq_dec : EqDecision BidderID.
Proof. solve_decision. Defined.
#[export] Instance BidderID_zero : GoZero BidderID := mkBidderID uuid_Nil.

Definition NewBidderID (id : uuid) : result BidderID :=
  if bool_decide (id = uuid_Nil) then Fail (ErrNew "bidder id must not be nil")
  else Ok (mkBidderID id).

Record InvoiceID := mkInvoiceID { InvoiceID_UUID : uuid }.
#[export] Instance InvoiceID_eq_dec : EqDecision InvoiceID.
Proof. solve_decision. Defined.
#[export] Instance InvoiceID_zero : GoZero InvoiceID := mkInvoiceID uuid_Nil.

Definition NewInvoiceID (id : uuid) : result InvoiceID :=
  if bool_decide (id = uuid_Nil) then Fail (ErrNew "invoice id must not be nil")
  else Ok (mkInvoiceID id).

(** ** Money *)

Record Currency := mkCurrency { c_code : string }.
#[export] Instance Currency_eq_dec : EqDecision Currency.
Proof. solve_decision. Defined.
#[export] Instance Currency_zero : GoZero Currency := mkCurrency "".

Definition upper_letter (r : Ascii.ascii) : bool :=
  let n := Ascii.N_of_ascii r in (65 <=? n)%N && (n <=? 90)%N.

Fixpoint all_upper (s : string) : bool :=
  match s with
  | "" => true
  | String r rest => upper_letter r && all_upper rest
  end.

Definition NewCurrency (code : string) : result Currency :=
  if negb (Nat.eqb (String.length code) 3) then Fail ErrInvalidCurrency
  else if negb (all_upper code) then Fail ErrInvalidCurrency
  else Ok (mkCurrency code).

Record Money := mkMoney { m_amount : Z; m_currency : Currency }.
#[export] Instance Money_eq_dec : EqDecision Money.
Proof. solve_decision. Defined.
#[export] Instance Money_zero : GoZero Money := mkMoney 0 zero_value.

Definition NewMoney (amount : Z) (currency : Currency) : result Money :=
  if amount <? 0 then Fail ErrNegativeAmount
  else if IsZero currency then Fail ErrInvalidCurrency
  else Ok (mkMoney amount currency).

(** ** Closed enumerations

    The constructors only build the listed values; the [...Zero]
    constructor is the zero value of the Go type. *)

Inductive State :=
| StateZero | StateStarted | StateAwaitingPayment | StateAwardingRunnerUp
| StateSecondChancePayment | StateSettled | StateRelisted | StateFailedUnsold.
#[export] Instance State_eq_dec : EqDecision State.
Proof. solve_decision. Defined.
#[export] Instance State_zero : GoZero State := StateZero.

Definition State_String (s : State) : string :=
  match s with
  | StateZero => ""
  | StateStarted => "started"
  | StateAwaitingPayment => "awaiting_payment"
  | StateAwardingRunnerUp => "awarding_runner_up"
  | StateSecondChancePayment => "second_chance_payment"
  | StateSettled => "settled"
  | StateRelisted => "relisted"
  | StateFailedUnsold => "failed_unsold"
  end.

Definition NewStateFromString (s : string) : result State :=
  if bool_decide (s = State_String StateStarted) then Ok StateStarted
  else if bool_decide (s = State_String StateAwaitingPayment) then Ok StateAwaitingPayment
  else if bool_decide (s = State_String StateAwardingRunnerUp) then Ok StateAwardingRunnerUp
  else if bool_decide (s = State_String StateSecondChancePayment) then Ok StateSecondChancePayment
  else if bool_decide (s = State_String StateSettled) then Ok StateSettled
  else if bool_decide (s = State_String StateRelisted) then Ok StateRelisted
  else if bool_decide (s = State_String StateFailedUnsold) then Ok StateFailedUnsold
  else Fail (ErrNew ("unknown settlement state: " +:+ s)).

Definition IsTerminal (s : State) : result bool :=
  match s with
  | StateSettled | StateRelisted | StateFailedUnsold => Ok true
  | StateStarted | StateAwaitingPayment | StateAwardingRunnerUp
  | StateSecondChancePayment => Ok false
  | StateZero => Panic ("settlement: unknown state " +:+ State_String s)
  end.

Inductive Outcome := OutcomeZero | OutcomeSold | OutcomeNotSold.
#[export] Instance Outcome_eq_dec : EqDecision Outcome.
Proof. solve_decision. Defined.

Definition Outcome_String (o : Outcome) : string :=
  match o with OutcomeZero => "" | OutcomeSold => "sold" | OutcomeNotSold => "not_sold" end.

Definition NewOutcomeFromString (s : string) : result Outcome :=
  if bool_decide (s = Outcome_String OutcomeSold) then Ok OutcomeSold
  else if bool_decide (s = Outcome_String OutcomeNotSold) then Ok OutcomeNotSold
  else Fail (ErrNew ("unknown auction outcome: " +:+ s)).

Definition RequiresSettlement (o : Outcome) : result bool :=
  match o with
  | OutcomeSold => Ok true
  | OutcomeNotSold => Ok false
  | OutcomeZero => Panic ("settlement: unknown outcome " +:+ Outcome_String o)
  end.

Inductive FailureReason := ReasonZero | ReasonPaymentTimeout | ReasonSecondChanceDeclined.
#[export] Instance FailureReason_eq_dec : EqDecision FailureReason.
Proof. solve_decision. Defined.
#[export] Instance FailureReason_zero : GoZero FailureReason := ReasonZero.

Definition FailureReason_String (r : FailureReason) : string :=
  match r with
  | ReasonZero => ""
  | ReasonPaymentTimeout => "payment_timeout"
  | ReasonSecondChanceDeclined => "second_chance_declined"
  end.

Definition NewFailureReasonFromString (s : string) : result FailureReason :=
  if bool_decide (s = FailureReason_String ReasonPaymentTimeout) then Ok ReasonPaymentTimeout
  else if bool_decide (s = FailureReason_String ReasonSecondChanceDeclined)
  then Ok ReasonSecondChanceDeclined
  else Fail (ErrNew ("unknown failure reason: " +:+ s)).

(** The integers 0, 1, 2 and 3 of [NextStep]. *)
Inductive NextStep := StepZero | StepAwardRunnerUp | StepRelist | StepFailUnsold.
#[export] Instance NextStep_eq_dec : EqDecision NextStep.
Proof. solve_decision. Defined.
#[export] Instance NextStep_zero : GoZero NextStep := StepZero.

Definition NextStep_String (n : NextStep) : result string :=
  match n with
  | StepAwardRunnerUp => Ok "award_runner_up"
  | StepRelist => Ok "relist"
  | StepFailUnsold => Ok "fail_unsold"
  | StepZero => Panic "settlement: unknown next step 0"
  end.

(** ** The relist policy *)

Record RelistPolicy := mkRelistPolicy { rp_delay : Duration; rp_duration : Duration }.
#[export] Instance RelistPolicy_eq_dec : EqDecision RelistPolicy.
Proof. solve_decision. Defined.

Definition NewRelistPolicy (delay duration : Duration) : result RelistPolicy :=
  if delay <=? 0 then Fail (ErrNew "relist delay must be positive")
  else if duration <=? 0 then Fail (ErrNew "relist duration must be positive")
  else Ok (mkRelistPolicy delay duration).

Definition Window (p : RelistPolicy) (now : Time) : Time * Time :=
  let startsAt := time_Add now (rp_delay p) in
  (startsAt, time_Add startsAt (rp_duration p)).

(** ** The closing a saga starts from *)

Record Closing := mkClosing {
  cl_auctionID : AuctionID;
  cl_winner : BidderID;
  cl_hammer : Money;
  cl_runnerUp : BidderID;
  cl_runnerUpAmount : Money;
  cl_runnerUpQualifies : bool;
  cl_relistGen : Z;
  cl_firstInvoice : InvoiceID;
}.
#[export] Instance Closing_eq_dec : EqDecision Closing.
Proof. solve_decision. Defined.
#[export] Instance Closing_zero : GoZero Closing :=
  mkClosing zero_value zero_value zero_value zero_value zero_value false 0 zero_value.

Definition NewClosing (auctionID : AuctionID) (winner : BidderID) (hammer : Money)
    (runnerUp : BidderID) (runnerUpAmount : Money) (runnerUpQualifies : bool)
    (relistGen : Z) (firstInvoice : InvoiceID) : result Closing :=
  if IsZero auctionID then Fail (ErrNew "auction id is required")
  else if IsZero winner then Fail (ErrNew "winner is required")
  else if IsZero hammer then Fail (ErrNew "hammer price is required")
  else if IsZero firstInvoice then Fail (ErrNew "first invoice id is required")
  else if relistGen <? 0 then Fail (ErrNew "relist generation must not be negative")
  else if IsZero runnerUp && runnerUpQualifies
  then Fail (ErrNew "runner-up cannot qualify without a runner-up")
  else if negb (Bool.eqb (IsZero runnerUp) (IsZero runnerUpAmount))
  then Fail (ErrNew "runner-up and runner-up amount must come together")
  else Ok (mkClosing auctionID winner hammer runnerUp runnerUpAmount runnerUpQualifies
             relistGen firstInvoice).

(** ** The saga state *)

Record Settlement := mkSettlement {
  s_auctionID : AuctionID;
  s_state : State;
  s_winner : BidderID;
  s_hammer : Money;
  s_runnerUp : BidderID;
  s_runnerUpAmount : Money;
  s_runnerUpQualifies : bool;
  s_relistGen : Z;
  s_attempt : Z;
  s_invoiceID : InvoiceID;
  s_failureReason : FailureReason;
  s_version : Z;
}.
#[export] Instance Settlement_eq_dec : EqDecision Settlement.
Proof. solve_decision. Defined.

Definition Start (c : Closing) : result Settlement :=
  if IsZero c then Fail (ErrNew "closing is required")
  else Ok (mkSettlement (cl_auctionID c) StateStarted (cl_winner c) (cl_hammer c)
             (cl_runnerUp c) (cl_runnerUpAmount c) (cl_runnerUpQualifies c) (cl_relistGen c)
             1 (cl_firstInvoice c) zero_value 1).

Definition UnmarshalFromDatabase (auctionID : AuctionID) (state : State) (winner : BidderID)
    (hammer : Money) (runnerUp : BidderID) (runnerUpAmount : Money) (runnerUpQualifies : bool)
    (relistGen attempt : Z) (invoiceID : InvoiceID) (failureReason : FailureReason)
    (version : Z) : result Settlement :=
  if IsZero auctionID then Fail (ErrNew "auction id is required")
  else if IsZero state then Fail (ErrNew "state is required")
  else if IsZero winner then Fail (ErrNew "winner is required")
  else if IsZero hammer then Fail (ErrNew "hammer price is required")
  else if negb (attempt =? 1) && negb (attempt =? 2)
  then Fail (ErrNew "attempt must be 1 or 2")
  else if version <? 1 then Fail (ErrNew "version must be at least 1")
  else Ok (mkSettlement auctionID state winner hammer runnerUp runnerUpAmount
             runnerUpQualifies relistGen attempt invoiceID failureReason version).

(** *** Field updates *)

Definition set_state (st : State) (s : Settlement) : Settlement :=
  mkSettlement (s_auctionID s) st (s_winner s) (s_hammer s) (s_runnerUp s)
    (s_runnerUpAmount s) (s_runnerUpQualifies s) (s_relistGen s) (s_attempt s)
    (s_invoiceID s) (s_failureReason s) (s_version s).
Definition set_winner (w : BidderID) (s : Settlement) : Settlement :=
  mkSettlement (s_auctionID s) (s_state s) w (s_hammer s) (s_runnerUp s)
    (s_runnerUpAmount s) (s_runnerUpQualifies s) (s_relistGen s) (s_attempt s)
    (s_invoiceID s) (s_failureReason s) (s_version s).
Definition set_attempt (n : Z) (s : Settlement) : Settlement :=
  mkSettlement (s_auctionID s) (s_state s) (s_winner s) (s_hammer s) (s_runnerUp s)
    (s_runnerUpAmount s) (s_runnerUpQualifies s) (s_relistGen s) n
    (s_invoiceID s) (s_failureReason s) (s_version s).
Definition set_invoiceID (i : InvoiceID) (s : Settlement) : Settlement :=
  mkSettlement (s_auctionID s) (s_state s) (s_winner s) (s_hammer s) (s_runnerUp s)
    (s_runnerUpAmount s) (s_runnerUpQualifies s) (s_relistGen s) (s_attempt s)
    i (s_failureReason s) (s_version s).
Definition set_failureReason (r : FailureReason) (s : Settlement) : Settlement :=
  mkSettlement (s_auctionID s) (s_state s) (s_winner s) (s_hammer s) (s_runnerUp s)
    (s_runnerUpAmount s) (s_runnerUpQualifies s) (s_relistGen s) (s_attempt s)
    (s_invoiceID s) r (s_version s).

(** *** The decide phase: pure functions *)

Definition DecideOnInvoiceIssue (s : Settlement) : result bool :=
  if bool_decide (s_state s = StateStarted) then Ok true
  else Fail ErrUnexpectedTransition.

Definition guardLiveInvoice (s : Settlement) (inv : InvoiceID) : result unit :=
  match s_state s with
  | StateStarted | StateAwaitingPayment | StateSecondChancePayment =>
      if IsZero inv || bool_decide (inv ≠ s_invoiceID s) then Fail ErrUnexpectedTransition
      else Ok tt
  | _ => Fail ErrUnexpectedTransition
  end.

Definition DecideOnPaymentReceived (s : Settlement) (inv : InvoiceID) : result unit :=
  guardLiveInvoice s inv.

Definition nextStepOnFailure (s : Settlement) : NextStep :=
  if (s_attempt s =? 1) && s_runnerUpQualifies s then StepAwardRunnerUp
  else if s_relistGen s =? 0 then StepRelist
  else StepFailUnsold.

Definition DecideOnPaymentTimeout (s : Settlement) (inv : InvoiceID) : result NextStep :=
  guardLiveInvoice s inv ≫= fun _ => Ok (nextStepOnFailure s).

Definition DecideOnWinnerReassigned (s : Settlement) (newWinner : BidderID) (price : Money)
    : result unit :=
  match s_state s with
  | StateAwaitingPayment | StateAwardingRunnerUp =>
      if IsZero newWinner || bool_decide (newWinner ≠ s_runnerUp s)
         || bool_decide (price ≠ s_runnerUpAmount s)
      then Fail ErrWinnerMismatch
      else Ok tt
  | _ => Fail ErrUnexpectedTransition
  end.

Definition CanRunnerUpDecline (actor : BidderID) (s : Settlement) : result unit :=
  if IsZero actor || IsZero (s_runnerUp s) || bool_decide (actor ≠ s_runnerUp s)
     || bool_decide (s_state s ≠ StateSecondChancePayment)
  then Fail ErrNotOfferRecipient
  else Ok tt.

Definition DecideOnDecline (s : Settlement) (actor : BidderID) : result NextStep :=
  match CanRunnerUpDecline actor s with
  | Fail err =>
      if negb (IsZero actor) && bool_decide (actor = s_runnerUp s) then
        match s_state s with
        | StateSettled => Fail ErrOfferAlreadyPaid
        | StateRelisted | StateFailedUnsold => Fail ErrUnexpectedTransition
        | _ => Fail err
        end
      else Fail err
  | Ok _ => Ok (nextStepOnFailure s)
  | Panic p => Panic p
  end.

(** *** The commit phase: guarded transitions *)

Abbreviation method := (M Settlement) (only parsing).

Definition InvoiceIssued (inv : InvoiceID) : method unit :=
  s ← get;
  throw_if (bool_decide (s_state s ≠ StateStarted) || IsZero inv
            || bool_decide (inv ≠ s_invoiceID s)) ErrUnexpectedTransition;;
  modify (set_state StateAwaitingPayment).

Definition PaymentReceived (inv : InvoiceID) : method unit :=
  s ← get;
  lift (guardLiveInvoice s inv);;
  modify (set_state StateSettled).

Definition RunnerUpAwarded (newWinner : BidderID) (price : Money) : method unit :=
  s ← get;
  lift (DecideOnWinnerReassigned s newWinner price);;
  modify (set_state StateAwardingRunnerUp);;
  modify (set_winner newWinner);;
  modify (set_attempt 2).

Definition SecondChanceInvoiceIssued (inv : InvoiceID) : method unit :=
  s ← get;
  throw_if (bool_decide (s_state s ≠ StateAwardingRunnerUp) || IsZero inv)
    ErrUnexpectedTransition;;
  modify (set_state StateSecondChancePayment);;
  modify (set_invoiceID inv).

Definition ApplyNextStep (step : NextStep) (reason : FailureReason) : method unit :=
  match step with
  | StepAwardRunnerUp =>
      throw_if (negb (IsZero reason))
        (ErrNew "awarding the runner-up carries no failure reason");;
      s ← get;
      throw_if (bool_decide (s_state s ≠ StateStarted)
                && bool_decide (s_state s ≠ StateAwaitingPayment)) ErrUnexpectedTransition;;
      modify (set_state StateAwardingRunnerUp)
  | StepRelist | StepFailUnsold =>
      throw_if (IsZero reason) (ErrNew "a failed settlement requires a failure reason");;
      s ← get;
      match s_state s with
      | StateStarted | StateAwaitingPayment | StateSecondChancePayment =>
          (if bool_decide (step = StepRelist)
           then modify (set_state StateRelisted)
           else modify (set_state StateFailedUnsold));;
          modify (set_failureReason reason)
      | _ => throw ErrUnexpectedTransition
      end
  | StepZero => crash "settlement: unknown next step"
  end.
End settlement.
