(* ===== verification/SettlementRepo.v ===== *)
(** * Storage of the saga state

    [internal/settlement/adapters]: the storage model [pgSettlement] with its
    mapping, the in-memory and the Postgres repository with its read side,
    and the interface both implement ([domain/settlement/repository.go]). *)

From stdpp Require Import base numbers list strings gmap fin_maps.
From Stdlib Require Import ZArith Lia.
From S2P Require Import Prelude Errs Postgres SettlementDomain.

(** [S] is the state of the store; an update closure is a function from the
    loaded saga to the saga to store. *)
Class SettlementRepository (S : Type) := {
  st_Add : settlement.Settlement → M S unit;
  st_Get : settlement.AuctionID → S → result settlement.Settlement;
  st_Update : settlement.AuctionID →
    (settlement.Settlement → result settlement.Settlement) → M S unit;
}.

Module settlement_repo.
Import settlement.
Local Open Scope Z_scope.

(** ** The in-memory repository *)

Record SettlementInMemoryRepository := mkSettlementInMemoryRepository {
  byAuction : gmap AuctionID Settlement;
}.

Module inmem.

Definition put (id : AuctionID) (s : Settlement) (r : SettlementInMemoryRepository)
    : SettlementInMemoryRepository :=
  mkSettlementInMemoryRepository (<[id := s]> (byAuction r)).

Definition Add (s : Settlement) : M SettlementInMemoryRepository unit :=
  r ← get;
  match byAuction r !! s_auctionID s with
  | Some _ => mret tt
  | None => modify (put (s_auctionID s) s)
  end.

Definition Get (id : AuctionID) (r : SettlementInMemoryRepository) : result Settlement :=
  match byAuction r !! id with
  | None => Fail (SettlementNotFoundError (AuctionID_UUID id))
  | Some stored => Ok stored
  end.

Definition Update (id : AuctionID) (updateFn : Settlement → result Settlement)
    : M SettlementInMemoryRepository unit :=
  r ← get;
  match byAuction r !! id with
  | None => throw (SettlementNotFoundError (AuctionID_UUID id))
  | Some stored =>
      updated ← lift (updateFn stored);
      bumped ← lift (wrap_err "unable to bump settlement version"
        (UnmarshalFromDatabase (s_auctionID updated) (s_state updated) (s_winner updated)
           (s_hammer updated) (s_runnerUp updated) (s_runnerUpAmount updated)
           (s_runnerUpQualifies updated) (s_relistGen updated) (s_attempt updated)
           (s_invoiceID updated) (s_failureReason updated) (wrap64 (s_version updated + 1))));
      modify (put id bumped)
  end.

#[export] Instance repository : SettlementRepository SettlementInMemoryRepository := {
  st_Add := Add;
  st_Get := Get;
  st_Update := Update;
}.
End inmem.

(** ** The storage model *)

Record pgSettlement := mkPgSettlement {
  p_AuctionID : uuid;
  p_State : string;
  p_WinnerID : uuid;
  p_HammerMinor : Z;
  p_Currency : string;
  p_RunnerUpID : option uuid;
  p_RunnerUpMinor : option Z;
  p_RunnerUpQualifies : bool;
  p_RelistGeneration : Z;
  p_Attempt : Z;
  p_InvoiceID : option uuid;
  p_FailureReason : option string;
  p_Version : Z;
}.

Definition toPgSettlement (s : Settlement) : pgSettlement :=
  mkPgSettlement (AuctionID_UUID (s_auctionID s)) (State_String (s_state s))
    (BidderID_UUID (s_winner s)) (m_amount (s_hammer s)) (c_code (m_currency (s_hammer s)))
    (if IsZero (s_runnerUp s) then None else Some (BidderID_UUID (s_runnerUp s)))
    (if IsZero (s_runnerUp s) then None else Some (m_amount (s_runnerUpAmount s)))
    (s_runnerUpQualifies s) (s_relistGen s) (s_attempt s)
    (if IsZero (s_invoiceID s) then None else Some (InvoiceID_UUID (s_invoiceID s)))
    (if IsZero (s_failureReason s) then None
     else Some (FailureReason_String (s_failureReason s)))
    (s_version s).

(** [NullInt64.Int64] is 0 when the column is null. *)
Definition toDomainSettlement (t : pgSettlement) : result Settlement :=
  auctionID ← wrap_err "invalid auction id in db" (NewAuctionID (p_AuctionID t));
  state ← wrap_err "invalid state in db" (NewStateFromString (p_State t));
  winner ← wrap_err "invalid winner id in db" (NewBidderID (p_WinnerID t));
  currency ← wrap_err "invalid currency in db" (NewCurrency (p_Currency t));
  hammer ← wrap_err "invalid hammer amount in db" (NewMoney (p_HammerMinor t) currency);
  '(runnerUp, runnerUpAmount) ←
    match p_RunnerUpID t with
    | Some id =>
        runnerUp ← wrap_err "invalid runner-up id in db" (NewBidderID id);
        amount ← wrap_err "invalid runner-up amount in db"
          (NewMoney (default 0 (p_RunnerUpMinor t)) currency);
        Ok (runnerUp, amount)
    | None => Ok (zero_value : BidderID, zero_value : Money)
    end;
  invoiceID ←
    match p_InvoiceID t with
    | Some id => wrap_err "invalid invoice id in db" (NewInvoiceID id)
    | None => Ok (zero_value : InvoiceID)
    end;
  failureReason ←
    match p_FailureReason t with
    | Some r => wrap_err "invalid failure reason in db" (NewFailureReasonFromString r)
    | None => Ok (zero_value : FailureReason)
    end;
  UnmarshalFromDatabase auctionID state winner hammer runnerUp runnerUpAmount
    (p_RunnerUpQualifies t) (p_RelistGeneration t) (p_Attempt t) invoiceID failureReason
    (p_Version t).

(** ** The Postgres repository *)

(** [settlement.settlements] by its primary key, and the recordings of the
    transitions counter ([from], [to], [reason]). *)
Record SettlementDB := mkSettlementDB {
  db_settlements : gmap uuid pgSettlement;
  db_transitions : list (string * string * string);
}.

(** [query.SettlementView]. *)
Record SettlementView := mkSettlementView {
  v_AuctionID : string;
  v_State : string;
  v_WinnerID : string;
  v_HammerMinor : Z;
  v_Currency : string;
  v_RunnerUpID : string;
  v_RunnerUpMinor : Z;
  v_RunnerUpQualifies : bool;
  v_RelistGeneration : Z;
  v_Attempt : Z;
  v_InvoiceID : string;
  v_FailureReason : string;
}.

Module pg.

Definition put_row (p : pgSettlement) (db : SettlementDB) : SettlementDB :=
  mkSettlementDB (<[p_AuctionID p := p]> (db_settlements db)) (db_transitions db).

Definition record_transition (t : string * string * string) (db : SettlementDB) : SettlementDB :=
  mkSettlementDB (db_settlements db) (db_transitions db ++ [t]).

(** [INSERT ... ON CONFLICT (auction_id) DO NOTHING], outside a transaction. *)
Definition Add (s : Settlement) : M SettlementDB unit :=
  db ← get;
  let p := toPgSettlement s in
  match db_settlements db !! p_AuctionID p with
  | Some _ => mret tt
  | None => modify (put_row p)
  end.

Definition Get (id : AuctionID) (db : SettlementDB) : result Settlement :=
  match db_settlements db !! AuctionID_UUID id with
  | None => Fail (SettlementNotFoundError (AuctionID_UUID id))
  | Some p => wrap_err "unable to get settlement from db" (toDomainSettlement p)
  end.

(** The columns [UPDATE settlement.settlements] sets; the others keep their
    value. *)
Definition update_columns (up : pgSettlement) (row : pgSettlement) : pgSettlement :=
  mkPgSettlement (p_AuctionID row) (p_State up) (p_WinnerID up) (p_HammerMinor row)
    (p_Currency row) (p_RunnerUpID row) (p_RunnerUpMinor row) (p_RunnerUpQualifies row)
    (p_RelistGeneration row) (p_Attempt up) (p_InvoiceID up) (p_FailureReason up)
    (p_Version row + 1).

(** [UPDATE ... WHERE auction_id = $1 AND version = $7]; the number of rows. *)
Definition update_settlement (up : pgSettlement) (expectedVersion : Z) : M SettlementDB Z :=
  db ← get;
  match db_settlements db !! p_AuctionID up with
  | Some row =>
      if p_Version row =? expectedVersion
      then modify (put_row (update_columns up row));; mret 1
      else mret 0
  | None => mret 0
  end.

(** The transaction of [Update]: the variables [from], [to] and [reason] it
    assigns are its result. *)
Definition update_tx (id : AuctionID) (updateFn : Settlement → result Settlement)
    : M SettlementDB (string * string * string) :=
  db ← get;
  match db_settlements db !! AuctionID_UUID id with
  | None => throw (SettlementNotFoundError (AuctionID_UUID id))
  | Some p =>
      s ← lift (wrap_err "unable to get settlement from db" (toDomainSettlement p));
      updated ← lift (updateFn s);
      affected ← update_settlement (toPgSettlement updated) (s_version s);
      throw_if (negb (affected =? 1))
        (ErrNew "concurrent modification of settlement %s (version %d)");;
      mret (State_String (s_state s), State_String (s_state updated),
            FailureReason_String (s_failureReason updated))
  end.

Definition Update (f : TxFaults) (id : AuctionID) (updateFn : Settlement → result Settlement)
    : M SettlementDB unit :=
  t ← RunInTx f (update_tx id updateFn);
  if bool_decide (t.1.1 ≠ t.1.2) then modify (record_transition t) else mret tt.

(** *** The read side *)

Section ReadSide.
Context `{UUIDLib}.

Definition toSettlementView (t : pgSettlement) : SettlementView :=
  mkSettlementView (uuid_String (p_AuctionID t)) (p_State t) (uuid_String (p_WinnerID t))
    (p_HammerMinor t) (p_Currency t)
    (match p_RunnerUpID t with Some id => uuid_String id | None => "" end)
    (match p_RunnerUpID t with Some _ => default 0 (p_RunnerUpMinor t) | None => 0 end)
    (p_RunnerUpQualifies t) (p_RelistGeneration t) (p_Attempt t)
    (match p_InvoiceID t with Some id => uuid_String id | None => "" end)
    (default "" (p_FailureReason t)).

Definition SettlementByAuction (id : AuctionID) (db : SettlementDB) : result SettlementView :=
  match db_settlements db !! AuctionID_UUID id with
  | None => Fail (SettlementNotFoundError (AuctionID_UUID id))
  | Some t => Ok (toSettlementView t)
  end.
End ReadSide.

#[export] Instance repository (f : TxFaults) : SettlementRepository SettlementDB := {
  st_Add := Add;
  st_Get := Get;
  st_Update := Update f;
}.
End pg.
End settlement_repo.
