(* ===== verification/Tracking.v ===== *)
(** * Stores behind a failing driver

    A store whose driver may fail any transaction: before it, at a statement,
    at the commit (applied or not) and at the rollback, and any read.  [driven]
    is the database and what the driver will answer; the repositories over it
    are the Postgres repositories.  [drives], [tracks] and [follows] say of a
    repository call, of a handler and of an interleaved program that with a
    failing driver it does what it does without one, or answers an error after
    doing all of it or nothing. *)

From stdpp Require Import base numbers list strings gmap.
From Stdlib Require Import ZArith Lia.
From S2P Require Import Prelude Errs Postgres AuctionDomain AuctionRepo InvoiceDomain InvoiceRepo SettlementDomain SettlementRepo Processes.

Module tracking.
Local Open Scope Z_scope.

(** ** The driver *)

(** What the driver answers to the next transaction: the errors of the begin,
    of one of its statements, of the commit (applied or not) and of the
    rollback; and what it answers to reads in the meantime. *)
Record outage := mkOutage {
  ou_begin : option string;
  ou_statement : option (string * string);
  ou_commit : option string;
  ou_applied : bool;
  ou_rollback : option string;
  ou_read : option string;
}.

Definition quiet : outage := mkOutage None None None true None None.

Definition tx_faults (o : outage) : TxFaults :=
  mkTxFaults (ErrNew <$> ou_begin o) (ErrNew <$> ou_commit o) (ou_applied o)
    (ErrNew <$> ou_rollback o).

(** A database and what its driver answers to the transactions to come. *)
Record driven (DB : Type) := mkDriven { rows : DB; outages : list outage }.
Arguments mkDriven {_} _ _.
Arguments rows {_} _.
Arguments outages {_} _.

Definition next {DB} (s : driven DB) : outage := hd quiet (outages s).

(** One transaction; a failing statement makes [fn] return its error. *)
Definition transaction {DB} (op : TxFaults → M DB unit) : M (driven DB) unit :=
  fun s =>
    let o := next s in
    let m := match ou_statement o with
             | Some (doing, cause) =>
                 RunInTx (tx_faults o) (throw (Errorf doing (ErrNew cause)))
             | None => op (tx_faults o)
             end in
    let '(r, db) := m (rows s) in
    (r, mkDriven db (tail (outages s))).

(** A read. *)
Definition read {DB A} (doing : string) (q : DB → result A) (s : driven DB) : result A :=
  match ou_read (next s) with
  | Some cause => Fail (Errorf doing (ErrNew cause))
  | None => q (rows s)
  end.

Section Stores.
Import auction.
Context `{UUIDLib}.

#[export] Instance driven_auctions : AuctionRepository (driven auction_repo.AuctionDB) := {
  repo_Add a :=
    match a with
    | None => throw (ErrNew "auction must not be nil")
    | Some a => transaction (fun f => auction_repo.pg.Add f (Some a))
    end;
  repo_Get id := read "unable to get auction from db" (auction_repo.pg.Get id);
  repo_Update id actor fn :=
    throw_if (IsZero actor)
      (ErrNew "update requires an acting user; system flows use UpdateAsSystem");;
    transaction (fun f => auction_repo.pg.update f id fn);
  repo_UpdateAsSystem id fn := transaction (fun f => auction_repo.pg.update f id fn);
  repo_DueForClosing before limit :=
    read "unable to scan due auctions" (auction_repo.pg.DueForClosing before limit);
}.

#[export] Instance driven_invoices : InvoiceRepository (driven invoice_repo.InvoiceDB) := {
  inv_Add i := transaction (fun f => invoice_repo.pg.Add f i);
  inv_Get id actor := read "unable to get invoice from db" (invoice_repo.pg.Get id actor);
  inv_Update id actor fn := transaction (fun f => invoice_repo.pg.Update f id actor fn);
  inv_UpdateAsSystem id fn := transaction (fun f => invoice_repo.pg.UpdateAsSystem f id fn);
  inv_PendingDueBefore t limit :=
    read "unable to scan due invoices" (invoice_repo.pg.PendingDueBefore t limit);
}.
End Stores.

(** [ExecContext] of the insertion of a settlement, outside a transaction. *)
Definition insert_settlement (s : settlement.Settlement) (f : TxFaults)
    : M settlement_repo.SettlementDB unit :=
  fun db =>
    match commit_err f with
    | Some e =>
        (Fail (Errorf "unable to insert settlement" e),
         if commit_applied f then (settlement_repo.pg.Add s db).2 else db)
    | None => settlement_repo.pg.Add s db
    end.

#[export] Instance driven_settlements :
    SettlementRepository (driven settlement_repo.SettlementDB) := {
  st_Add s := transaction (insert_settlement s);
  st_Get id := read "unable to get settlement from db" (settlement_repo.pg.Get id);
  st_Update id fn := transaction (fun f => settlement_repo.pg.Update f id fn);
}.

(** ** What an error of the driver looks like *)

Inductive of_driver : error → Prop :=
| D_new msg : of_driver (ErrNew msg)
| D_wrapped msg e : of_driver e → of_driver (Errorf msg e)
| D_both e1 e2 : of_driver e1 → of_driver e2 → of_driver (Combine e1 e2).
#[export] Hint Constructors of_driver : core.

(** The errors the code tests for. *)
Definition tested (t : error) : Prop :=
  match t with
  | ErrAuction _ | ErrInvoice _ | ErrSettlement _ | SlugError _ _ _ => True
  | _ => False
  end.

Lemma Is_Combine e1 e2 t :
  tested t → errors_Is (Combine e1 e2) t = errors_Is e1 t || errors_Is e2 t.
Proof.
  intros Ht. unfold errors_Is. simpl. rewrite existsb_app.
  by rewrite (bool_decide_eq_false_2 (Combine e1 e2 = t)) by (by intros <-).
Qed.

Lemma driver_Is d t : of_driver d → tested t → errors_Is d t = false.
Proof.
  intros Hd Ht. induction Hd as [msg|msg d Hd IH|e1 e2 _ IH1 _ IH2].
  - unfold errors_Is. simpl. by destruct t.
  - rewrite errors_Is_Errorf, IH, orb_false_r. apply bool_decide_eq_false. by intros <-.
  - by rewrite Is_Combine, IH1, IH2.
Qed.

(** A failed rollback is not what the error is about. *)
Lemma rollback_Is e d t : of_driver d → tested t → errors_Is (Combine e d) t = errors_Is e t.
Proof. intros Hd Ht. by rewrite Is_Combine, (driver_Is d t Hd Ht), orb_false_r. Qed.

(** A kind of error the driver has none of. *)
Definition foreign {T} (f : error → option T) : Prop :=
  (∀ m, f (ErrNew m) = None) ∧ (∀ m e, f (Errorf m e) = None) ∧ ∀ e1 e2, f (Combine e1 e2) = None.

Lemma driver_As {T} (f : error → option T) d :
  foreign f → of_driver d → found (errors_As f d) = false.
Proof.
  intros (Hn & He & Hc) Hd. induction Hd as [msg|msg d Hd IH|e1 e2 _ IH1 _ IH2].
  - unfold errors_As. simpl. by rewrite Hn.
  - rewrite errors_As_Errorf by apply He. exact IH.
  - unfold errors_As in *. simpl. rewrite Hc, find_map_app. by destruct (find_map f (chain e1)).
Qed.

Lemma rollback_As {T} (f : error → option T) e d :
  foreign f → of_driver d → found (errors_As f (Combine e d)) = found (errors_As f e).
Proof.
  intros Hf Hd. pose proof (driver_As f d Hf Hd) as E. unfold errors_As in *. simpl.
  destruct Hf as (_ & _ & ->). rewrite find_map_app.
  by destruct (find_map f (chain e)).
Qed.

(** A switch over errors that treats the driver's like any other failure. *)
Definition blind (f : error → option error) : Prop :=
  (∀ d, of_driver d → f d ≠ None) ∧ ∀ e d, of_driver d → (f (Combine e d) = None ↔ f e = None).

(** ** Calls *)

Section Calls.
Context {W' W : Type} (R : W' → W → Prop).

Definition not_ok {A} (r : res error A) : Prop := ∀ a, r ≠ Ok a.

(** The memory after a failing call: nothing happened, or all of it. *)
Definition around {A} (m : M W A) (w1 : W') (w : W) : Prop := R w1 w ∨ R w1 (m w).2.

(** A repository call: the answer, or an error of the driver, or the answer's
    error with a failed rollback, or a panic. *)
Definition drives {A} (m' : M W' A) (m : M W A) : Prop :=
  ∀ w' w, R w' w →
    ((m' w').1 = (m w).1 ∧ R (m' w').2 (m w).2)
    ∨ (∃ d, of_driver d ∧ (m' w').1 = Fail d ∧ around m (m' w').2 w)
    ∨ (∃ e d, of_driver d ∧ (m w).1 = Fail e ∧ (m' w').1 = Fail (Combine e d)
         ∧ R (m' w').2 (m w).2 ∧ R (m' w').2 w)
    ∨ (∃ p, (m' w').1 = Panic p ∧ around m (m' w').2 w).

(** A handler: the answer, or a failure. *)
Definition tracks {A} (m' : M W' A) (m : M W A) : Prop :=
  ∀ w' w, R w' w →
    ((m' w').1 = (m w).1 ∧ R (m' w').2 (m w).2)
    ∨ (not_ok (m' w').1 ∧ around m (m' w').2 w).

Lemma drives_tracks {A} (m' : M W' A) (m : M W A) : drives m' m → tracks m' m.
Proof.
  intros Hd w' w Hw. destruct (Hd w' w Hw) as [?|[(d & _ & E & ?)|[(e & d & _ & _ & E & _ & ?)|(p & E & ?)]]];
    [by left|right; rewrite E; split; [done|]..]; [done|by left|done].
Qed.

Lemma tracks_on_error (m' : M W' unit) m f :
  blind f → drives m' m → tracks (on_error m' f) (on_error m f).
Proof.
  intros [Hn Hc] Hd w' w Hw. specialize (Hd w' w Hw). unfold around, on_error in *.
  destruct (m' w') as [r' w1'], (m w) as [r w1]. cbn [fst snd] in *.
  destruct Hd as [[-> HR]|[(d & Hd & -> & HR)|[(e & d & Hd & -> & -> & HR & HR')|(p & -> & HR)]]].
  - left. by destruct r as [[]|e|p].
  - right. destruct (f d) eqn:E; [|by destruct (Hn d Hd)]. split; [done|].
    by destruct r as [[]|e'|p].
  - destruct (f e) as [e1|] eqn:E.
    + right. destruct (f (Combine e d)) eqn:E2; [|by apply Hc in E2; simplify_eq].
      split; [done|by left].
    + left. by rewrite (proj2 (Hc e d Hd) E).
  - right. split; [done|]. by destruct r as [[]|e'|p'].
Qed.

Lemma blind_always g : blind (fun e => Some (g e)).
Proof. by split. Qed.

(** A failure under another name is a failure. *)
Lemma tracks_relabel (m' : M W' unit) m g :
  tracks m' m → tracks (on_error m' (fun e => Some (g e))) (on_error m (fun e => Some (g e))).
Proof.
  intros Hm w' w Hw. specialize (Hm w' w Hw). unfold around, on_error in *.
  destruct (m' w') as [r' w1'], (m w) as [r w1]. cbn [fst snd] in *.
  destruct Hm as [[-> HR]|[Hr HR]].
  - left. by destruct r as [[]|e|p].
  - right. destruct r' as [a|e|p]; [by destruct (Hr a)|..];
      (split; [done|]; by destruct r as [[]|e'|p']).
Qed.

Lemma tracks_lift {A B} (r : res error A) (f' : A → M W' B) (f : A → M W B) :
  (∀ a, tracks (f' a) (f a)) → tracks (lift r ≫= f') (lift r ≫= f).
Proof.
  intros Hf w' w Hw. destruct r as [a|e|p]; [apply (Hf a w' w Hw)|by left..].
Qed.

Lemma tracks_then {A B} (m' : M W' A) m (f : A → res error B) :
  tracks m' m → tracks (m' ≫= fun a => lift (f a)) (m ≫= fun a => lift (f a)).
Proof.
  intros Hm w' w Hw. specialize (Hm w' w Hw). unfold around, mbind, GoM_bind in *.
  destruct (m' w') as [r' w1'], (m w) as [r w1]. cbn [fst snd] in *.
  destruct Hm as [[-> HR]|[Hr HR]].
  - left. by destruct r as [a|e|p].
  - right. destruct r' as [a|e|p]; [by destruct (Hr a)|..];
      (split; [done|]; by destruct r as [a'|e'|p']).
Qed.

Lemma tracks_throw {A} (e : error) : tracks (throw (A := A) e) (throw e).
Proof. by left. Qed.
End Calls.
#[global] Arguments not_ok {_} _ /.

(** ** Programs *)

Section Programs.
Context {W' W : Type} (R : W' → W → Prop).

(** A program that failed only reads from then on, and ends as [Q] says. *)
Fixpoint failed {A} (Q : res error A → Prop) (p : prog W' A) : Prop :=
  match p with
  | Ret r => Q r
  | Call m k => (∀ w' w, R w' w → R (m w').2 w) ∧ ∀ r, failed Q (k r)
  end.

(** Call by call [p'] does what [p] does, until it fails around a call. *)
Fixpoint follows {A} (Q : res error A → Prop) (p' : prog W' A) (p : prog W A) : Prop :=
  match p', p with
  | Ret r', Ret r => r' = r
  | Call m' k', Call m k => ∀ w' w, R w' w →
      (follows Q (k' (m' w').1) (k (m w).1) ∧ R (m' w').2 (m w).2)
      ∨ (failed Q (k' (m' w').1) ∧ around R m (m' w').2 w)
  | _, _ => False
  end.

Lemma failed_mono {A} (Q Q' : res error A → Prop) p :
  (∀ r, Q r → Q' r) → failed Q p → failed Q' p.
Proof.
  intros HQ. induction p as [r|X m k IH]; simpl; [auto|]. intros [Hm Hk]. split; auto.
Qed.

Lemma failed_attempt {A B} Q Q' (p : prog W' A) (h : res error A → prog W' B) :
  failed Q p → (∀ r, Q r → failed Q' (h r)) → failed Q' (attempt p h).
Proof.
  intros Hp Hh. induction p as [r|X m k IH]; simpl in *; [auto|]. destruct Hp. split; auto.
Qed.

Lemma follows_attempt {A B} Q Q' (p' : prog W' A) p (h' : res error A → prog W' B) h :
  follows Q p' p → (∀ r, follows Q' (h' r) (h r)) → (∀ r, Q r → failed Q' (h' r)) →
  follows Q' (attempt p' h') (attempt p h).
Proof.
  intros Hp Hh Hf. revert p Hp. induction p' as [r'|X' m' k' IH]; intros [r|X m k]; try done; simpl.
  - intros ->. apply Hh.
  - intros Hp w' w Hw. destruct (Hp w' w Hw) as [[Hk HR]|[Hk HR]]; [left|right]; (split; [|done]).
    + by apply IH.
    + by eapply failed_attempt.
Qed.

Lemma follows_mono {A} (Q Q' : res error A → Prop) p' p :
  (∀ r, Q r → Q' r) → follows Q p' p → follows Q' p' p.
Proof.
  intros HQ. revert p. induction p' as [r'|X' m' k' IH]; intros [r|X m k]; try done; simpl.
  intros Hp w' w Hw. destruct (Hp w' w Hw) as [[Hk HR]|[Hk HR]]; [left|right]; (split; [|done]).
  - by apply IH.
  - by eapply failed_mono.
Qed.

Lemma follows_any {A} (p' : prog W' A) p : follows not_ok p' p → follows (fun _ => True) p' p.
Proof. by apply follows_mono. Qed.

Lemma follows_bind {A B} Q (p' : prog W' A) p (f' : A → prog W' B) f :
  follows not_ok p' p → (∀ a, follows Q (f' a) (f a)) → (∀ r, not_ok r → Q r) →
  follows Q (p' ≫= f') (p ≫= f).
Proof.
  intros Hp Hf HQ. eapply follows_attempt; [exact Hp|..].
  - intros [a|e|q]; [apply Hf|done..].
  - intros [a|e|q] Hr; [by destruct (Hr a)|by apply HQ..].
Qed.

(** The calls of the saga only fail. *)
Lemma follows_seq {A B} (p' : prog W' A) p (f' : A → prog W' B) f :
  follows not_ok p' p → (∀ a, follows not_ok (f' a) (f a)) →
  follows not_ok (p' ≫= f') (p ≫= f).
Proof. intros Hp Hf. by apply follows_bind. Qed.

Lemma follows_last {A B} (p' : prog W' A) p (f' : A → prog W' B) f :
  follows not_ok p' p → (∀ a, follows (fun _ => True) (f' a) (f a)) →
  follows (fun _ => True) (p' ≫= f') (p ≫= f).
Proof. intros Hp Hf. by apply follows_bind. Qed.

Lemma follows_ret {A} Q (r : res error A) : follows Q (Ret r) (Ret r).
Proof. done. Qed.

Lemma follows_pure {A B} Q (r : res error A) (f' : A → prog W' B) f :
  (∀ a, follows Q (f' a) (f a)) → follows Q (Ret r ≫= f') (Ret r ≫= f).
Proof. intros Hf. destruct r as [a|e|q]; [apply Hf|done..]. Qed.

Lemma follows_call {A} (m' : M W' A) m : tracks R m' m → follows not_ok (call m') (call m).
Proof. intros Hm w' w Hw. destruct (Hm w' w Hw) as [[-> ?]|[? ?]]; [by left|by right]. Qed.

(** A call at the end may turn its failure into anything. *)
Lemma follows_handle (p' : prog W' unit) p f :
  follows not_ok p' p → follows (fun _ => True) (handle p' f) (handle p f).
Proof.
  intros Hp. eapply follows_attempt; [exact Hp|..].
  - by intros [[]|e|q].
  - intros [[]|e|q] Hr; [by destruct (Hr tt)|done..].
Qed.

Lemma follows_relabel (p' : prog W' unit) p f :
  (∀ e, is_Some (f e)) → follows not_ok p' p → follows not_ok (handle p' f) (handle p f).
Proof.
  intros Hf Hp. eapply follows_attempt; [exact Hp|..].
  - by intros [[]|e|q].
  - intros [[]|e|q] Hr; [by destruct (Hr tt)| |done]. by destruct (Hf e) as [e' ->].
Qed.
End Programs.

(** ** The transactions of the repositories *)

Section Transactions.
Context {DB : Type}.
Implicit Types (s : driven DB).

(** A transaction that fails leaves an error of the driver, on its own or
    behind the error it failed with. *)
Lemma failed_statement {A} o doing cause (db : DB) :
  ∃ d, of_driver d
    ∧ RunInTx (tx_faults o) (throw (A := A) (Errorf doing (ErrNew cause))) db = (Fail d, db).
Proof.
  unfold RunInTx, tx_faults. simpl. destruct (ou_begin o); simpl; [eauto 10|].
  destruct (ou_rollback o); simpl; eauto 10.
Qed.

(** What a transaction does whatever its driver answers. *)
Lemma RunInTx_outcome {A} o (fn : M DB A) db :
  let out := RunInTx (tx_faults o) fn db in
  let good := RunInTx no_faults fn db in
  out = good
  ∨ (∃ d, of_driver d ∧ out.1 = Fail d ∧ (out.2 = db ∨ out.2 = good.2))
  ∨ (∃ e d, of_driver d ∧ good = (Fail e, db) ∧ out = (Fail (Combine e d), db))
  ∨ (∃ p, out.1 = Panic p ∧ good.1 = Panic p ∧ (out.2 = db ∨ out.2 = good.2)).
Proof.
  cbn zeta. rewrite RunInTx_no_faults. unfold RunInTx, tx_faults. simpl.
  destruct (ou_begin o); simpl; [right; left; eauto 10|].
  destruct (fn db) as [[a|e|p] db']; simpl.
  - destruct (ou_commit o); simpl; [right; left|by left].
    eexists (Errorf _ (ErrNew _)). split; [auto|]. destruct (ou_applied o); auto.
  - destruct (ou_rollback o); simpl; [right; right; left|by left]. eauto 10.
  - right; right; right. exists p. destruct (ou_commit o), (ou_applied o); auto.
Qed.

Lemma transaction_drives (fn : M DB unit) :
  drives (fun s db => rows s = db) (transaction (fun f => RunInTx f fn)) (RunInTx no_faults fn).
Proof.
  intros s db <-. unfold transaction, around. destruct (ou_statement (next s)) as [[doing cause]|].
  - right; left. destruct (failed_statement (A := unit) (next s) doing cause (rows s)) as (d & Hd & ->).
    exists d. by split_and!; [..|left].
  - pose proof (RunInTx_outcome (next s) fn (rows s)) as Ho. cbn zeta in Ho.
    destruct (RunInTx (tx_faults _) fn (rows s)) as [r db]. simpl in *.
    destruct Ho as [<-|[Hd|[(e & d & Hd & -> & [= -> ->])|(p & -> & _ & Hp)]]];
      [by left|by right; left|right; right; left; eauto 10|right; right; right; eauto].
Qed.

Lemma read_tracks {A B} doing (q : DB → result A) (k' : result A → M (driven DB) B) (k : result A → M DB B) :
  (∀ d, of_driver d → ∀ s, not_ok (k' (Fail d) s).1 ∧ rows (k' (Fail d) s).2 = rows s) →
  (∀ r, tracks (fun s db => rows s = db) (k' r) (k r)) →
  tracks (fun s db => rows s = db) (fun s => k' (read doing q s) s) (fun db => k (q db) db).
Proof.
  intros Hd Hk s db <-. unfold read. destruct (ou_read (next s)) as [cause|].
  - right. destruct (Hd (Errorf doing (ErrNew cause)) ltac:(eauto) s) as [? ?]. split; [done|by left].
  - by apply Hk.
Qed.
End Transactions.

(** *** The settlements

    A recording of the transitions counter is lost with the answer of a
    commit. *)

Section Settlements.
Import settlement settlement_repo.
Implicit Types (s : driven SettlementDB).

Definition same_settlements (s : driven SettlementDB) (db : SettlementDB) : Prop :=
  db_settlements (rows s) = db_settlements db.

Lemma update_tx_same id fn (d1 d2 : SettlementDB) :
  db_settlements d1 = db_settlements d2 →
  (pg.update_tx id fn d1).1 = (pg.update_tx id fn d2).1
  ∧ db_settlements (pg.update_tx id fn d1).2 = db_settlements (pg.update_tx id fn d2).2.
Proof.
  intros E. unfold pg.update_tx, pg.update_settlement. run_go. rewrite E.
  destruct (db_settlements d2 !! _) as [p|]; run_go; [|done].
  destruct (wrap_err _ _) as [x|e|q]; run_go; [|done..].
  destruct (fn x) as [x'|e|q]; run_go; [|done..].
  rewrite E. destruct (db_settlements d2 !! _) as [row|]; run_go; [|done].
  destruct (_ =? _); run_go; [|done]. split; [done|]. simpl. by rewrite E.
Qed.

Lemma Update_drives id fn :
  drives same_settlements (st_Update id fn) (pg.Update no_faults id fn).
Proof.
  intros s db E. unfold st_Update, driven_settlements, transaction, around.
  destruct (ou_statement (next s)) as [[doing cause]|].
  { right; left. destruct (failed_statement (A := unit) (next s) doing cause (rows s)) as (d & Hd & ->).
    exists d. by split_and!; [..|left]. }
  unfold pg.Update. set (t := pg.update_tx id fn).
  destruct (update_tx_same id fn (rows s) db E) as [E1 E2]. fold t in E1, E2.
  pose proof (RunInTx_outcome (next s) t (rows s)) as Ho. cbn zeta in Ho.
  rewrite RunInTx_no_faults in Ho. unfold mbind, GoM_bind. rewrite RunInTx_no_faults.
  destruct (RunInTx (tx_faults (next s)) t (rows s)) as [r d1].
  destruct (t (rows s)) as [r1 s1], (t db) as [r2 s2]. simpl in E1, E2, Ho. subst r2.
  destruct Ho as [Ho|[(d & Hd & -> & Ho)|[(e & d & Hd & Ho & [= -> ->])|(p & -> & Ep & Ho)]]].
  - left. destruct r1 as [x|e|p]; injection Ho as -> ->; [|by split..].
    by destruct (bool_decide _).
  - right; left. exists d. split_and!; [done..|].
    destruct Ho as [->| ->]; [by left|]. destruct r1 as [x|e|p]; [right|by left|by right].
    by destruct (bool_decide _).
  - right; right; left. exists e, d. destruct r1; simplify_eq. by split_and!.
  - right; right; right. exists p. split; [done|]. destruct r1 as [x|e|q]; simplify_eq/=.
    by destruct Ho as [->| ->]; [left|right].
Qed.

Lemma Add_same x (d1 d2 : SettlementDB) : db_settlements d1 = db_settlements d2 →
  (pg.Add x d1).1 = (pg.Add x d2).1 ∧ db_settlements (pg.Add x d1).2 = db_settlements (pg.Add x d2).2.
Proof.
  intros E. unfold pg.Add. run_go. rewrite E. destruct (db_settlements d2 !! _); run_go; [done|].
  simpl. by rewrite E.
Qed.

Lemma Add_drives x : drives same_settlements (st_Add x) (pg.Add x).
Proof.
  intros s db E. unfold st_Add, driven_settlements, transaction, around.
  destruct (ou_statement (next s)) as [[doing cause]|].
  { right; left. destruct (failed_statement (A := unit) (next s) doing cause (rows s)) as (d & Hd & ->).
    exists d. by split_and!; [..|left]. }
  unfold insert_settlement, tx_faults. simpl. destruct (Add_same x (rows s) db E) as [E1 E2].
  destruct (ou_commit (next s)) as [cause|]; simpl.
  - right; left. eexists (Errorf _ (ErrNew _)). split_and!; [auto|done|].
    destruct (ou_applied (next s)); [by right|by left].
  - left. by destruct (pg.Add x (rows s)), (pg.Add x db).
Qed.
End Settlements.

End tracking.
