(* ===== verification/Settlement.v ===== *)
(** * The settlement application

    The saga's event handlers ([app/handlers.go]), the derived identities
    and the decline command ([app/command]), the adapters over the facades
    of the auction and billing contexts ([adapters/*_facade_adapter.go]),
    the subscriptions ([ports/events.go]), the endpoints ([ports/http.go]),
    the query and the assembly ([service/service.go]).  Handlers are programs
    of atomic calls ([Processes]) against the interfaces
    [SettlementRepository], [AuctionGateway] and [BillingGateway]. *)

From stdpp Require Import base numbers list strings pretty gmap.
From Stdlib Require Import ZArith Lia.
From S2P Require Import Prelude Errs Auth Postgres Events AuctionDomain AuctionRepo AuctionApp InvoiceDomain InvoiceRepo Billing Processes SettlementDomain SettlementRepo.

(** [auctionGateway] and [billingGateway]: the calls on the other contexts.
    [A] and [B] are their states, the first argument what the other context's
    clock answers during the call. *)
Class AuctionGateway (A : Type) := {
  ag_AwardToRunnerUp : Time → settlement.AuctionID → M A unit;
  ag_Relist : Time → settlement.AuctionID → settlement.AuctionID → Time → Time → M A unit;
  ag_MarkSaleFailed : Time → settlement.AuctionID → settlement.FailureReason → M A unit;
  ag_ConfirmSettlement : Time → settlement.AuctionID → M A unit;
}.

Class BillingGateway (B : Type) := {
  bg_IssueInvoice : Time → settlement.InvoiceID → settlement.AuctionID →
    settlement.BidderID → settlement.Money → Z → M B unit;
  bg_VoidInvoice : Time → settlement.InvoiceID → M B unit;
}.

Module saga.
Import settlement settlement_repo.
Local Open Scope Z_scope.

(** ** Derived identities *)

Section Identities.
Context `{UUIDLib}.

(** [uuid.MustParse] of the two literals. *)
Definition nsInvoice : uuid := 0x0e2f47a15b3c4a8d9e6f1c7b2d4a8e90%N.
Definition nsRelist : uuid := 0x7c1d9b302e4f4c6a8b5d9f0a3e6c1d72%N.

Definition AuctionID_String (i : AuctionID) : string := uuid_String (AuctionID_UUID i).

Definition InvoiceIDForAttempt (auctionID : AuctionID) (attempt : Z) : result InvoiceID :=
  match NewInvoiceID (uuid_NewSHA1 nsInvoice (AuctionID_String auctionID +:+ ":" +:+ pretty attempt)) with
  | Fail _ => Panic "settlement: deterministic invoice id: "
  | r => r
  end.

Definition RelistIDFor (originalID : AuctionID) : result AuctionID :=
  match NewAuctionID (uuid_NewSHA1 nsRelist (AuctionID_String originalID)) with
  | Fail _ => Panic "settlement: deterministic relist id: "
  | r => r
  end.
End Identities.

(** ** Errors *)

Definition from_err (err : option error) : result unit :=
  match err with Some e => Fail e | None => Ok tt end.

(** [None] is a nil error. *)
Definition ackUnexpected (err : error) : option error :=
  if errors_Is err ErrUnexpectedTransition then None else Some err.

Definition mapNotFound (err : error) : error :=
  if found (errors_As as_SettlementNotFound err)
  then WithCause (NewNotFoundError "settlement-not-found") err
  else err.

Definition declineOutcome (err : option error) : option error :=
  match err with
  | None => None
  | Some err =>
      if errors_Is err ErrUnexpectedTransition then None
      else if errors_Is err ErrOfferAlreadyPaid
      then Some (WithCause (NewConflictError "offer-already-paid") err)
      else if errors_Is err ErrNotOfferRecipient
      then Some (WithCause (NewForbiddenError "not-offer-recipient") err)
      else Some err
  end.

(** ** What the handlers work on

    The saga's own store and the two other contexts. *)
Record net (S A B : Type) := mkNet { n_saga : S; n_auctions : A; n_billing : B }.
Arguments mkNet {_ _ _} _ _ _.
Arguments n_saga {_ _ _} _.
Arguments n_auctions {_ _ _} _.
Arguments n_billing {_ _ _} _.

(** What the clocks answer during one delivery: the handler's own, and those
    of the other contexts. *)
Record Clocks := mkClocks { clk_saga : Time; clk_auction : Time; clk_billing : Time }.

(** [app.ClosedAuction]: an absent winner or runner-up is the nil UUID. *)
Record ClosedAuction := mkClosedAuction {
  ca_AuctionID : uuid;
  ca_Outcome : string;
  ca_WinnerID : uuid;
  ca_HammerMinor : Z;
  ca_Currency : string;
  ca_RunnerUpID : uuid;
  ca_RunnerUpMinor : Z;
  ca_RunnerUpQualifies : bool;
  ca_RelistGeneration : Z;
}.

Record DeclineSecondChanceOffer := mkDeclineSecondChanceOffer {
  de_AuctionID : AuctionID;
  de_Actor : BidderID;
}.

Section Handlers.
Context {S A B : Type} `{SettlementRepository S} `{AuctionGateway A} `{BillingGateway B} `{UUIDLib}.
Context (relist : RelistPolicy).

Definition on_saga {X} (m : M S X) : M (net S A B) X :=
  fun w => let '(r, s) := m (n_saga w) in (r, mkNet s (n_auctions w) (n_billing w)).
Definition on_auctions {X} (m : M A X) : M (net S A B) X :=
  fun w => let '(r, a) := m (n_auctions w) in (r, mkNet (n_saga w) a (n_billing w)).
Definition on_billing {X} (m : M B X) : M (net S A B) X :=
  fun w => let '(r, b) := m (n_billing w) in (r, mkNet (n_saga w) (n_auctions w) b).

Definition get_saga (id : AuctionID) : prog (net S A B) Settlement :=
  call (fun w => (st_Get id (n_saga w), w)).
Definition update_saga (id : AuctionID) (fn : Settlement → result Settlement)
    : prog (net S A B) unit :=
  call (on_saga (st_Update id fn)).

(** *** [buildClosing], [parseSagaIDs] *)

Definition buildClosing (e : ClosedAuction) : result Closing :=
  auctionID ← NewAuctionID (ca_AuctionID e);
  winner ← NewBidderID (ca_WinnerID e);
  currency ← NewCurrency (ca_Currency e);
  hammer ← NewMoney (ca_HammerMinor e) currency;
  '(runnerUp, runnerUpAmount) ←
    (if bool_decide (ca_RunnerUpID e ≠ uuid_Nil) then
       runnerUp ← NewBidderID (ca_RunnerUpID e);
       runnerUpAmount ← NewMoney (ca_RunnerUpMinor e) currency;
       Ok (runnerUp, runnerUpAmount)
     else Ok (zero_value : BidderID, zero_value : Money));
  firstInvoice ← InvoiceIDForAttempt auctionID 1;
  NewClosing auctionID winner hammer runnerUp runnerUpAmount (ca_RunnerUpQualifies e)
    (ca_RelistGeneration e) firstInvoice.

Definition parseSagaIDs (auctionID invoiceID : uuid) : result (AuctionID * InvoiceID) :=
  aucID ← wrap_err "invoice event" (NewAuctionID auctionID);
  invID ← wrap_err "invoice event" (NewInvoiceID invoiceID);
  Ok (aucID, invID).

(** *** [compensate] of the event handlers *)

Definition compensate (clk : Clocks) (auctionID : AuctionID) (step : NextStep)
    (reason : FailureReason) : prog (net S A B) unit :=
  match step with
  | StepAwardRunnerUp => call (on_auctions (ag_AwardToRunnerUp (clk_auction clk) auctionID))
  | StepRelist =>
      call (on_auctions (ag_MarkSaleFailed (clk_auction clk) auctionID reason));;
      let '(startsAt, endsAt) := Window relist (clk_saga clk) in
      newID ← Ret (RelistIDFor auctionID);
      call (on_auctions (ag_Relist (clk_auction clk) auctionID newID startsAt endsAt))
  | StepFailUnsold => call (on_auctions (ag_MarkSaleFailed (clk_auction clk) auctionID reason))
  | StepZero =>
      s ← Ret (NextStep_String step);
      Ret (Panic ("settlement: unexpected next step " +:+ s))
  end.

(** *** The event handlers *)

Definition OnAuctionClosed (clk : Clocks) (e : ClosedAuction) : prog (net S A B) unit :=
  outcome ← Ret (wrap_err "auction closed event" (NewOutcomeFromString (ca_Outcome e)));
  requires ← Ret (RequiresSettlement outcome);
  if negb requires then mret tt
  else
    closing ← Ret (wrap_err "auction closed event" (buildClosing e));
    started ← Ret (Start closing);
    call (on_saga (st_Add started));;
    current ← get_saga (cl_auctionID closing);
    match DecideOnInvoiceIssue current with
    | Fail err => Ret (from_err (ackUnexpected err))
    | Panic p => Ret (Panic p)
    | Ok needIssue =>
        if negb needIssue then mret tt
        else
          call (on_billing (bg_IssueInvoice (clk_billing clk) (s_invoiceID current)
                              (s_auctionID current) (s_winner current) (s_hammer current)
                              (s_attempt current)));;
          handle (update_saga (cl_auctionID closing)
                    (closure (InvoiceIssued (s_invoiceID current)))) ackUnexpected
    end.

Definition OnInvoicePaid (clk : Clocks) (auctionID invoiceID : uuid) : prog (net S A B) unit :=
  '(aucID, invID) ← Ret (parseSagaIDs auctionID invoiceID);
  s ← get_saga aucID;
  match DecideOnPaymentReceived s invID with
  | Fail err => Ret (from_err (ackUnexpected err))
  | Panic p => Ret (Panic p)
  | Ok _ =>
      call (on_auctions (ag_ConfirmSettlement (clk_auction clk) aucID));;
      handle (update_saga aucID (closure (PaymentReceived invID))) ackUnexpected
  end.

Definition OnInvoiceExpired (clk : Clocks) (auctionID invoiceID : uuid)
    : prog (net S A B) unit :=
  '(aucID, invID) ← Ret (parseSagaIDs auctionID invoiceID);
  s ← get_saga aucID;
  match DecideOnPaymentTimeout s invID with
  | Fail err => Ret (from_err (ackUnexpected err))
  | Panic p => Ret (Panic p)
  | Ok step =>
      compensate clk aucID step ReasonPaymentTimeout;;
      let commitReason :=
        if bool_decide (step ≠ StepAwardRunnerUp) then ReasonPaymentTimeout else zero_value in
      handle (update_saga aucID (closure (ApplyNextStep step commitReason))) ackUnexpected
  end.

Definition OnWinnerReassigned (clk : Clocks) (auctionID newWinnerID : uuid)
    (priceMinor : Z) (currency : string) : prog (net S A B) unit :=
  aucID ← Ret (wrap_err "winner reassigned event" (NewAuctionID auctionID));
  newWinner ← Ret (wrap_err "winner reassigned event" (NewBidderID newWinnerID));
  cur ← Ret (wrap_err "winner reassigned event" (NewCurrency currency));
  price ← Ret (wrap_err "winner reassigned event" (NewMoney priceMinor cur));
  s ← get_saga aucID;
  match DecideOnWinnerReassigned s newWinner price with
  | Fail err => Ret (from_err (ackUnexpected err))
  | Panic p => Ret (Panic p)
  | Ok _ =>
      secondInvoice ← Ret (InvoiceIDForAttempt aucID 2);
      call (on_billing (bg_IssueInvoice (clk_billing clk) secondInvoice aucID (s_runnerUp s)
                          (s_runnerUpAmount s) 2));;
      handle (update_saga aucID
                (closure (RunnerUpAwarded newWinner price;;
                          SecondChanceInvoiceIssued secondInvoice))) ackUnexpected
  end.

(** *** The decline command *)

Definition decline_compensate (clk : Clocks) (auctionID : AuctionID) (step : NextStep)
    : prog (net S A B) unit :=
  match step with
  | StepRelist =>
      call (on_auctions (ag_MarkSaleFailed (clk_auction clk) auctionID ReasonSecondChanceDeclined));;
      let '(startsAt, endsAt) := Window relist (clk_saga clk) in
      newID ← Ret (RelistIDFor auctionID);
      call (on_auctions (ag_Relist (clk_auction clk) auctionID newID startsAt endsAt))
  | StepFailUnsold =>
      call (on_auctions (ag_MarkSaleFailed (clk_auction clk) auctionID ReasonSecondChanceDeclined))
  | _ =>
      s ← Ret (NextStep_String step);
      Ret (Panic ("settlement decline: unexpected next step " +:+ s))
  end.

(** [h.billing.VoidInvoice(...)] and the test of its error. *)
Definition void_offer (clk : Clocks) (inv : InvoiceID) : prog (net S A B) unit :=
  handle (call (on_billing (bg_VoidInvoice (clk_billing clk) inv)))
    (fun err => if errors_Is err ErrOfferAlreadyPaid
                then Some (WithCause (NewConflictError "offer-already-paid") err)
                else Some err).

(** The answer by the state the saga is in. *)
Definition answer_by_state (cmd : DeclineSecondChanceOffer) : prog (net S A B) unit :=
  attempt (get_saga (de_AuctionID cmd)) (fun got =>
    match got with
    | Fail getErr => Ret (Fail (mapNotFound getErr))
    | Panic p => Ret (Panic p)
    | Ok current =>
        match DecideOnDecline current (de_Actor cmd) with
        | Fail decideErr => Ret (from_err (declineOutcome (Some decideErr)))
        | Ok _ => Ret (from_err (declineOutcome None))
        | Panic p => Ret (Panic p)
        end
    end).

Definition DeclineSecondChanceOfferHandler (clk : Clocks) (cmd : DeclineSecondChanceOffer)
    : prog (net S A B) unit :=
  attempt (get_saga (de_AuctionID cmd)) (fun got =>
    match got with
    | Fail err => Ret (Fail (mapNotFound err))
    | Panic p => Ret (Panic p)
    | Ok s =>
        match DecideOnDecline s (de_Actor cmd) with
        | Fail err => Ret (from_err (declineOutcome (Some err)))
        | Panic p => Ret (Panic p)
        | Ok step =>
            void_offer clk (s_invoiceID s);;
            decline_compensate clk (de_AuctionID cmd) step;;
            attempt (update_saga (de_AuctionID cmd)
                       (closure (ApplyNextStep step ReasonSecondChanceDeclined))) (fun r =>
              match r with
              | Fail err =>
                  if errors_Is err ErrUnexpectedTransition then answer_by_state cmd
                  else Ret (Fail err)
              | r => Ret r
              end)
        end
    end).

(** ** Subscriptions *)

Definition parseEventUUID (field raw : string) : result uuid :=
  match uuid_Parse raw with
  | None => Fail (Errorf ("malformed " +:+ field) (ErrNew "invalid UUID"))
  | Some id => Ok id
  end.

Definition parseOptionalEventUUID (field raw : string) : result uuid :=
  if bool_decide (raw = "") then Ok uuid_Nil else parseEventUUID field raw.

(** The handler [RegisterEventHandlers] subscribes to each event; the events
    no handler is subscribed to are not delivered. *)
Definition deliver (clk : Clocks) (e : Event) : prog (net S A B) unit :=
  match e with
  | OfAuction (EvAuctionClosedV1 e) =>
      auctionID ← Ret (parseEventUUID "auction_id" (acl_AuctionID e));
      winnerID ← Ret (parseOptionalEventUUID "winner_id" (acl_WinnerID e));
      runnerUpID ← Ret (parseOptionalEventUUID "runner_up_bidder_id" (acl_RunnerUpBidderID e));
      OnAuctionClosed clk (mkClosedAuction auctionID (acl_Outcome e) winnerID
        (acl_HammerPriceMinor e) (acl_Currency e) runnerUpID (acl_RunnerUpAmountMinor e)
        (acl_RunnerUpQualifies e) (acl_RelistGeneration e))
  | OfBilling (EvInvoicePaidV1 e) =>
      auctionID ← Ret (parseEventUUID "auction_id" (ip_AuctionID e));
      invoiceID ← Ret (parseEventUUID "invoice_id" (ip_InvoiceID e));
      OnInvoicePaid clk auctionID invoiceID
  | OfBilling (EvInvoiceExpiredV1 e) =>
      auctionID ← Ret (parseEventUUID "auction_id" (ie_AuctionID e));
      invoiceID ← Ret (parseEventUUID "invoice_id" (ie_InvoiceID e));
      OnInvoiceExpired clk auctionID invoiceID
  | OfAuction (EvWinnerReassignedV1 e) =>
      auctionID ← Ret (parseEventUUID "auction_id" (wr_AuctionID e));
      newWinnerID ← Ret (parseEventUUID "new_winner_id" (wr_NewWinnerID e));
      OnWinnerReassigned clk auctionID newWinnerID (wr_PriceMinor e) (wr_Currency e)
  | _ => mret tt
  end.

(** ** The decline endpoint *)

Definition Http_DeclineSecondChanceOffer (clk : Clocks) (ctx : option auth.User)
    (auctionID : uuid) : prog (net S A B) unit :=
  user ← Ret (auth.UserFromCtx ctx);
  actor ← Ret (with_cause (NewUnknownError "invalid-user-id") (NewBidderID (auth.u_ID user)));
  auctionID ← Ret (with_cause (NewIncorrectInputError "invalid-auction-id")
                     (NewAuctionID auctionID));
  DeclineSecondChanceOfferHandler clk (mkDeclineSecondChanceOffer auctionID actor).
End Handlers.

(** ** The adapters over the facades

    The tracing around each call is left out. *)

#[export] Instance auction_facade {A} `{AuctionRepository A} : AuctionGateway A := {
  ag_AwardToRunnerUp now auctionID :=
    auction_app.Facade_AwardToRunnerUp now (AuctionID_UUID auctionID);
  ag_Relist now originalID newID startsAt endsAt :=
    auction_app.Facade_Relist now (AuctionID_UUID originalID) (AuctionID_UUID newID)
      startsAt endsAt;
  ag_MarkSaleFailed now auctionID reason :=
    auction_app.Facade_MarkSaleFailed now (AuctionID_UUID auctionID)
      (FailureReason_String reason);
  ag_ConfirmSettlement now auctionID :=
    auction_app.Facade_ConfirmSettlement now (AuctionID_UUID auctionID);
}.

(** The translation of billing's conflict. *)
Definition translate_paid (err : error) : error :=
  if errors_Is err (NewConflictError "invoice-already-paid")
  then Combine ErrOfferAlreadyPaid err
  else err.

(** [policy] and [term] are billing's configuration. *)
Definition billing_facade {B} `{InvoiceRepository B} (policy : invoice.CommissionPolicy)
    (term : invoice.PaymentTerm) : BillingGateway B := {|
  bg_IssueInvoice now invoiceID auctionID debtor amount attempt :=
    billing.Facade_IssueInvoice policy term now (InvoiceID_UUID invoiceID)
      (AuctionID_UUID auctionID) (BidderID_UUID debtor) (m_amount amount)
      (c_code (m_currency amount)) attempt;
  bg_VoidInvoice now invoiceID :=
    on_error (billing.Facade_VoidInvoice now (InvoiceID_UUID invoiceID))
      (fun err => Some (translate_paid err));
|}.

(** ** The query and its endpoint *)

Section Status.
Context `{UUIDLib}.

Definition SettlementStatusHandler (auctionID : AuctionID) (db : SettlementDB)
    : result SettlementView :=
  match pg.SettlementByAuction auctionID db with
  | Fail err => Fail (mapNotFound err)
  | r => r
  end.

(** [uuid.MustParse] panics. *)
Definition must_parse (s : string) : result uuid :=
  match uuid_Parse s with Some u => Ok u | None => Panic "uuid: Parse" end.

(** The generated [Settlement] response, with its optional fields. *)
Record ApiSettlement := mkApiSettlement {
  api_AuctionId : uuid;
  api_State : string;
  api_WinnerId : uuid;
  api_HammerMinor : Z;
  api_Currency : string;
  api_RunnerUpQualifies : bool;
  api_RelistGeneration : Z;
  api_Attempt : Z;
  api_RunnerUpId : option uuid;
  api_RunnerUpMinor : option Z;
  api_InvoiceId : option uuid;
  api_FailureReason : option string;
}.

Definition optional_parse (s : string) : result (option uuid) :=
  if bool_decide (s ≠ "") then u ← must_parse s; Ok (Some u) else Ok None.

Definition toAPISettlement (v : SettlementView) : result ApiSettlement :=
  auctionId ← must_parse (v_AuctionID v);
  winnerId ← must_parse (v_WinnerID v);
  runnerUp ← optional_parse (v_RunnerUpID v);
  invoiceID ← optional_parse (v_InvoiceID v);
  Ok (mkApiSettlement auctionId (v_State v) winnerId (v_HammerMinor v) (v_Currency v)
        (v_RunnerUpQualifies v) (v_RelistGeneration v) (v_Attempt v) runnerUp
        (if bool_decide (v_RunnerUpID v ≠ "") then Some (v_RunnerUpMinor v) else None)
        invoiceID
        (if bool_decide (v_FailureReason v ≠ "") then Some (v_FailureReason v) else None)).

Definition Http_GetSettlementStatus (ctx : option auth.User) (auctionID : uuid)
    (db : SettlementDB) : result ApiSettlement :=
  user ← auth.UserFromCtx ctx;
  if bool_decide (auth.u_Role user ≠ auth.RoleOperations)
  then Fail (NewForbiddenError "operations-only")
  else
    id ← with_cause (NewIncorrectInputError "invalid-auction-id") (NewAuctionID auctionID);
    view ← SettlementStatusHandler id db;
    toAPISettlement view.
End Status.

(** ** Assembly *)

(** The configuration [NewService] accepts. *)
Definition NewService (relistDelay relistDuration : Duration) : result RelistPolicy :=
  wrap_err "settlement service: relist policy" (NewRelistPolicy relistDelay relistDuration).

Definition topicForEvent (eventName : string) : string :=
  if auction_app.HasSuffix eventName "InvoicePaidV1"
     || auction_app.HasSuffix eventName "InvoiceExpiredV1"
  then billing_Topic
  else auction_Topic.
End saga.
