(* ===== verification/Ports.v ===== *)
(** * The generated servers of the contexts

    [internal/*/ports/openapi.gen.go]: for each context the operations its
    implementation offers ([StrictServerInterface]), the response objects and how
    they are written, the wrappers that bind the parameters of a request
    ([siw_*]), the strict handlers ([sh_*]) and the routes
    ([HandlerWithOptions]); and the registration of the routes with their error
    handlers ([RegisterHTTP], [RegisterPublicRoutes]).  [S] is the state the
    operations work on. *)

From stdpp Require Import base numbers list strings gmap.
From Stdlib Require Import ZArith Lia.
From S2P Require Import Prelude Errs Auth HttpServer OpenApi AuctionApp AuctionProjections InvoiceRepo Settlement ParticipantRepo.

(** ** Auction *)

Module auction_ports.
Import server openapi auction_app projections.

Inductive ActiveAuctionsCatalogResponse :=
| ActiveAuctionsCatalog200JSONResponse (page : CatalogPage)
| ActiveAuctionsCatalog401JSONResponse (e : Error).
Inductive ListAuctionResponse :=
| ListAuction204Response (ContentLocation : option string)
| ListAuction400JSONResponse (e : Error)
| ListAuction401JSONResponse (e : Error).
Inductive AuctionCardResponse :=
| AuctionCard200JSONResponse (card : AuctionCardView)
| AuctionCard401JSONResponse (e : Error)
| AuctionCard404JSONResponse (e : Error).
Inductive BidHistoryResponse :=
| BidHistory200JSONResponse (page : BidHistoryPage)
| BidHistory401JSONResponse (e : Error).
Inductive PlaceBidResponse :=
| PlaceBid204Response (ContentLocation : option string)
| PlaceBid400JSONResponse (e : Error)
| PlaceBid401JSONResponse (e : Error)
| PlaceBid403JSONResponse (e : Error)
| PlaceBid404JSONResponse (e : Error)
| PlaceBid409JSONResponse (e : Error).
Inductive CancelAuctionResponse :=
| CancelAuction204Response
| CancelAuction401JSONResponse (e : Error)
| CancelAuction403JSONResponse (e : Error)
| CancelAuction404JSONResponse (e : Error)
| CancelAuction409JSONResponse (e : Error).
Inductive SellerDashboardResponse :=
| SellerDashboard200JSONResponse (dashboard : DashboardView)
| SellerDashboard401JSONResponse (e : Error)
| SellerDashboard403JSONResponse (e : Error).

(** The first argument of an operation is the user of the context. *)
Record StrictServerInterface (S : Type) := {
  ssi_ActiveAuctionsCatalog : option auth.User → option Z → option Z → M S ActiveAuctionsCatalogResponse;
  ssi_ListAuction : option auth.User → ListAuctionBody → M S ListAuctionResponse;
  ssi_AuctionCard : option auth.User → uuid → M S AuctionCardResponse;
  ssi_BidHistory : option auth.User → uuid → option Z → option Z → M S BidHistoryResponse;
  ssi_PlaceBid : option auth.User → uuid → PlaceBidBody → M S PlaceBidResponse;
  ssi_CancelAuction : option auth.User → uuid → M S CancelAuctionResponse;
  ssi_SellerDashboard : option auth.User → uuid → M S SellerDashboardResponse;
}.
Arguments ssi_ActiveAuctionsCatalog {_} _ _ _ _.
Arguments ssi_ListAuction {_} _ _ _.
Arguments ssi_AuctionCard {_} _ _ _.
Arguments ssi_BidHistory {_} _ _ _ _ _.
Arguments ssi_PlaceBid {_} _ _ _ _.
Arguments ssi_CancelAuction {_} _ _ _.
Arguments ssi_SellerDashboard {_} _ _ _.

Section Server.
Context {S : Type} `{BindLib} `{!Encoder Error}.
Context `{!Decoder ListAuctionBody} `{!Decoder PlaceBidBody}.
Context `{!Encoder CatalogPage} `{!Encoder AuctionCardView} `{!Encoder BidHistoryPage}
  `{!Encoder DashboardView}.

Definition VisitActiveAuctionsCatalogResponse (response : ActiveAuctionsCatalogResponse)
    : Header → result HttpResponse :=
  match response with
  | ActiveAuctionsCatalog200JSONResponse page => json_response 200 (Encode page)
  | ActiveAuctionsCatalog401JSONResponse e => json_response 401 (Encode e)
  end.
Definition VisitListAuctionResponse (response : ListAuctionResponse) : Header → result HttpResponse :=
  match response with
  | ListAuction204Response location => no_content location
  | ListAuction400JSONResponse e => json_response 400 (Encode e)
  | ListAuction401JSONResponse e => json_response 401 (Encode e)
  end.
Definition VisitAuctionCardResponse (response : AuctionCardResponse) : Header → result HttpResponse :=
  match response with
  | AuctionCard200JSONResponse card => json_response 200 (Encode card)
  | AuctionCard401JSONResponse e => json_response 401 (Encode e)
  | AuctionCard404JSONResponse e => json_response 404 (Encode e)
  end.
Definition VisitBidHistoryResponse (response : BidHistoryResponse) : Header → result HttpResponse :=
  match response with
  | BidHistory200JSONResponse page => json_response 200 (Encode page)
  | BidHistory401JSONResponse e => json_response 401 (Encode e)
  end.
Definition VisitPlaceBidResponse (response : PlaceBidResponse) : Header → result HttpResponse :=
  match response with
  | PlaceBid204Response location => no_content location
  | PlaceBid400JSONResponse e => json_response 400 (Encode e)
  | PlaceBid401JSONResponse e => json_response 401 (Encode e)
  | PlaceBid403JSONResponse e => json_response 403 (Encode e)
  | PlaceBid404JSONResponse e => json_response 404 (Encode e)
  | PlaceBid409JSONResponse e => json_response 409 (Encode e)
  end.
Definition VisitCancelAuctionResponse (response : CancelAuctionResponse) : Header → result HttpResponse :=
  match response with
  | CancelAuction204Response => no_content None
  | CancelAuction401JSONResponse e => json_response 401 (Encode e)
  | CancelAuction403JSONResponse e => json_response 403 (Encode e)
  | CancelAuction404JSONResponse e => json_response 404 (Encode e)
  | CancelAuction409JSONResponse e => json_response 409 (Encode e)
  end.
Definition VisitSellerDashboardResponse (response : SellerDashboardResponse)
    : Header → result HttpResponse :=
  match response with
  | SellerDashboard200JSONResponse dashboard => json_response 200 (Encode dashboard)
  | SellerDashboard401JSONResponse e => json_response 401 (Encode e)
  | SellerDashboard403JSONResponse e => json_response 403 (Encode e)
  end.

(** *** The strict handlers *)

Record ServerInterface := {
  si_ActiveAuctionsCatalog : option Z → option Z → HttpHandler S;
  si_ListAuction : HttpHandler S;
  si_AuctionCard : uuid → HttpHandler S;
  si_BidHistory : uuid → option Z → option Z → HttpHandler S;
  si_PlaceBid : uuid → HttpHandler S;
  si_CancelAuction : uuid → HttpHandler S;
  si_SellerDashboard : uuid → HttpHandler S;
}.

Definition sh_ActiveAuctionsCatalog (sh : strictHandler (StrictServerInterface S))
    (page pageSize : option Z) : HttpHandler S := fun r =>
  strict sh VisitActiveAuctionsCatalogResponse
    (ssi_ActiveAuctionsCatalog (ssi sh) (rq_user r) page pageSize) r.
Definition sh_ListAuction (sh : strictHandler (StrictServerInterface S)) : HttpHandler S :=
  json_body sh Decode (fun body r =>
    strict sh VisitListAuctionResponse (ssi_ListAuction (ssi sh) (rq_user r) body) r).
Definition sh_AuctionCard (sh : strictHandler (StrictServerInterface S)) (auctionID : uuid)
    : HttpHandler S := fun r =>
  strict sh VisitAuctionCardResponse (ssi_AuctionCard (ssi sh) (rq_user r) auctionID) r.
Definition sh_BidHistory (sh : strictHandler (StrictServerInterface S)) (auctionID : uuid)
    (page pageSize : option Z) : HttpHandler S := fun r =>
  strict sh VisitBidHistoryResponse (ssi_BidHistory (ssi sh) (rq_user r) auctionID page pageSize) r.
Definition sh_PlaceBid (sh : strictHandler (StrictServerInterface S)) (auctionID : uuid)
    : HttpHandler S :=
  json_body sh Decode (fun body r =>
    strict sh VisitPlaceBidResponse (ssi_PlaceBid (ssi sh) (rq_user r) auctionID body) r).
Definition sh_CancelAuction (sh : strictHandler (StrictServerInterface S)) (auctionID : uuid)
    : HttpHandler S := fun r =>
  strict sh VisitCancelAuctionResponse (ssi_CancelAuction (ssi sh) (rq_user r) auctionID) r.
Definition sh_SellerDashboard (sh : strictHandler (StrictServerInterface S)) (sellerID : uuid)
    : HttpHandler S := fun r =>
  strict sh VisitSellerDashboardResponse (ssi_SellerDashboard (ssi sh) (rq_user r) sellerID) r.

Definition NewStrictHandlerWithOptions (impl : StrictServerInterface S)
    (options : StrictHTTPServerOptions) : ServerInterface :=
  let sh := mkStrictHandler impl options in {|
    si_ActiveAuctionsCatalog := sh_ActiveAuctionsCatalog sh;
    si_ListAuction := sh_ListAuction sh;
    si_AuctionCard := sh_AuctionCard sh;
    si_BidHistory := sh_BidHistory sh;
    si_PlaceBid := sh_PlaceBid sh;
    si_CancelAuction := sh_CancelAuction sh;
    si_SellerDashboard := sh_SellerDashboard sh;
  |}.

(** *** The wrappers *)

Abbreviation Wrapper := (ServerInterfaceWrapper S ServerInterface).

Definition siw_ActiveAuctionsCatalog (siw : Wrapper) : HttpHandler S :=
  query_int siw "page" (fun page =>
  query_int siw "pageSize" (fun pageSize =>
  wrap_middlewares (HandlerMiddlewares siw) (si_ActiveAuctionsCatalog (Handler siw) page pageSize))).
Definition siw_ListAuction (siw : Wrapper) : HttpHandler S :=
  wrap_middlewares (HandlerMiddlewares siw) (si_ListAuction (Handler siw)).
Definition siw_AuctionCard (siw : Wrapper) : HttpHandler S :=
  path_uuid siw "auctionID" (fun auctionID =>
  wrap_middlewares (HandlerMiddlewares siw) (si_AuctionCard (Handler siw) auctionID)).
Definition siw_BidHistory (siw : Wrapper) : HttpHandler S :=
  path_uuid siw "auctionID" (fun auctionID =>
  query_int siw "page" (fun page =>
  query_int siw "pageSize" (fun pageSize =>
  wrap_middlewares (HandlerMiddlewares siw) (si_BidHistory (Handler siw) auctionID page pageSize)))).
Definition siw_PlaceBid (siw : Wrapper) : HttpHandler S :=
  path_uuid siw "auctionID" (fun auctionID =>
  wrap_middlewares (HandlerMiddlewares siw) (si_PlaceBid (Handler siw) auctionID)).
Definition siw_CancelAuction (siw : Wrapper) : HttpHandler S :=
  path_uuid siw "auctionID" (fun auctionID =>
  wrap_middlewares (HandlerMiddlewares siw) (si_CancelAuction (Handler siw) auctionID)).
Definition siw_SellerDashboard (siw : Wrapper) : HttpHandler S :=
  path_uuid siw "sellerID" (fun sellerID =>
  wrap_middlewares (HandlerMiddlewares siw) (si_SellerDashboard (Handler siw) sellerID)).

(** *** The routes *)

Definition HandlerWithOptions (si : ServerInterface) (options : ChiServerOptions S)
    : list (Route S) :=
  let wrapper := mkServerInterfaceWrapper si (Middlewares options)
    (default default_param_error (opt_ErrorHandlerFunc options)) in
  BaseRouter options ++
  [ Get (BaseURL options +:+ "/auctions") (siw_ActiveAuctionsCatalog wrapper);
    Post (BaseURL options +:+ "/auctions") (siw_ListAuction wrapper);
    Get (BaseURL options +:+ "/auctions/{auctionID}") (siw_AuctionCard wrapper);
    Get (BaseURL options +:+ "/auctions/{auctionID}/bids") (siw_BidHistory wrapper);
    Post (BaseURL options +:+ "/auctions/{auctionID}/bids") (siw_PlaceBid wrapper);
    Post (BaseURL options +:+ "/auctions/{auctionID}/cancellation") (siw_CancelAuction wrapper);
    Get (BaseURL options +:+ "/sellers/{sellerID}/dashboard") (siw_SellerDashboard wrapper) ].

Definition HandlerFromMux (si : ServerInterface) (r : list (Route S)) : list (Route S) :=
  HandlerWithOptions si (mkChiServerOptions "" r [] None).

Definition RegisterHTTP (http : StrictServerInterface S) (api : list (Route S)) : list (Route S) :=
  HandlerFromMux (NewStrictHandlerWithOptions http slug_options) api.
End Server.
End auction_ports.

(** ** Billing *)

Module billing_ports.
Import server openapi invoice_repo.

Inductive GetBidderPendingInvoicesResponse :=
| GetBidderPendingInvoices200JSONResponse (invoices : list InvoiceView)
| GetBidderPendingInvoices400JSONResponse (e : Error)
| GetBidderPendingInvoices403JSONResponse (e : Error).
Inductive GetInvoiceResponse :=
| GetInvoice200JSONResponse (invoice : InvoiceView)
| GetInvoice404JSONResponse (e : Error).
Inductive PayInvoiceResponse :=
| PayInvoice204Response
| PayInvoice404JSONResponse (e : Error)
| PayInvoice409JSONResponse (e : Error)
| PayInvoice502JSONResponse (e : Error).

(** [InvoiceStatus.Valid], [GetBidderPendingInvoicesParamsStatus.Valid]. *)
Definition InvoiceStatus_Valid (e : string) : bool :=
  bool_decide (e ∈ ["expired"; "paid"; "pending"; "voided"]).
Definition PendingParamsStatus_Valid (e : string) : bool := bool_decide (e = "pending").

Record StrictServerInterface (S : Type) := {
  ssi_GetBidderPendingInvoices : option auth.User → uuid → option string →
    M S GetBidderPendingInvoicesResponse;
  ssi_GetInvoice : option auth.User → uuid → M S GetInvoiceResponse;
  ssi_PayInvoice : option auth.User → uuid → M S PayInvoiceResponse;
}.
Arguments ssi_GetBidderPendingInvoices {_} _ _ _ _.
Arguments ssi_GetInvoice {_} _ _ _.
Arguments ssi_PayInvoice {_} _ _ _.

Section Server.
Context {S : Type} `{BindLib} `{!Encoder Error}.
Context `{!Encoder InvoiceView} `{!Encoder (list InvoiceView)}.

Definition VisitGetBidderPendingInvoicesResponse (response : GetBidderPendingInvoicesResponse)
    : Header → result HttpResponse :=
  match response with
  | GetBidderPendingInvoices200JSONResponse invoices => json_response 200 (Encode invoices)
  | GetBidderPendingInvoices400JSONResponse e => json_response 400 (Encode e)
  | GetBidderPendingInvoices403JSONResponse e => json_response 403 (Encode e)
  end.
Definition VisitGetInvoiceResponse (response : GetInvoiceResponse) : Header → result HttpResponse :=
  match response with
  | GetInvoice200JSONResponse invoice => json_response 200 (Encode invoice)
  | GetInvoice404JSONResponse e => json_response 404 (Encode e)
  end.
Definition VisitPayInvoiceResponse (response : PayInvoiceResponse) : Header → result HttpResponse :=
  match response with
  | PayInvoice204Response => no_content None
  | PayInvoice404JSONResponse e => json_response 404 (Encode e)
  | PayInvoice409JSONResponse e => json_response 409 (Encode e)
  | PayInvoice502JSONResponse e => json_response 502 (Encode e)
  end.

(** *** The strict handlers *)

Record ServerInterface := {
  si_GetBidderPendingInvoices : uuid → option string → HttpHandler S;
  si_GetInvoice : uuid → HttpHandler S;
  si_PayInvoice : uuid → HttpHandler S;
}.

Definition sh_GetBidderPendingInvoices (sh : strictHandler (StrictServerInterface S))
    (bidderID : uuid) (status : option string) : HttpHandler S := fun r =>
  strict sh VisitGetBidderPendingInvoicesResponse
    (ssi_GetBidderPendingInvoices (ssi sh) (rq_user r) bidderID status) r.
Definition sh_GetInvoice (sh : strictHandler (StrictServerInterface S)) (invoiceID : uuid)
    : HttpHandler S := fun r =>
  strict sh VisitGetInvoiceResponse (ssi_GetInvoice (ssi sh) (rq_user r) invoiceID) r.
Definition sh_PayInvoice (sh : strictHandler (StrictServerInterface S)) (invoiceID : uuid)
    : HttpHandler S := fun r =>
  strict sh VisitPayInvoiceResponse (ssi_PayInvoice (ssi sh) (rq_user r) invoiceID) r.

Definition NewStrictHandlerWithOptions (impl : StrictServerInterface S)
    (options : StrictHTTPServerOptions) : ServerInterface :=
  let sh := mkStrictHandler impl options in {|
    si_GetBidderPendingInvoices := sh_GetBidderPendingInvoices sh;
    si_GetInvoice := sh_GetInvoice sh;
    si_PayInvoice := sh_PayInvoice sh;
  |}.

(** *** The wrappers *)

Abbreviation Wrapper := (ServerInterfaceWrapper S ServerInterface).

Definition siw_GetBidderPendingInvoices (siw : Wrapper) : HttpHandler S :=
  path_uuid siw "bidderID" (fun bidderID =>
  query_string siw "status" (fun status =>
  wrap_middlewares (HandlerMiddlewares siw) (si_GetBidderPendingInvoices (Handler siw) bidderID status))).
Definition siw_GetInvoice (siw : Wrapper) : HttpHandler S :=
  path_uuid siw "invoiceID" (fun invoiceID =>
  wrap_middlewares (HandlerMiddlewares siw) (si_GetInvoice (Handler siw) invoiceID)).
Definition siw_PayInvoice (siw : Wrapper) : HttpHandler S :=
  path_uuid siw "invoiceID" (fun invoiceID =>
  wrap_middlewares (HandlerMiddlewares siw) (si_PayInvoice (Handler siw) invoiceID)).

(** *** The routes *)

Definition HandlerWithOptions (si : ServerInterface) (options : ChiServerOptions S)
    : list (Route S) :=
  let wrapper := mkServerInterfaceWrapper si (Middlewares options)
    (default default_param_error (opt_ErrorHandlerFunc options)) in
  BaseRouter options ++
  [ Get (BaseURL options +:+ "/bidders/{bidderID}/invoices") (siw_GetBidderPendingInvoices wrapper);
    Get (BaseURL options +:+ "/invoices/{invoiceID}") (siw_GetInvoice wrapper);
    Post (BaseURL options +:+ "/invoices/{invoiceID}/payment") (siw_PayInvoice wrapper) ].

Definition HandlerFromMux (si : ServerInterface) (r : list (Route S)) : list (Route S) :=
  HandlerWithOptions si (mkChiServerOptions "" r [] None).

Definition RegisterHTTP (application : StrictServerInterface S) (api : list (Route S))
    : list (Route S) :=
  HandlerFromMux (NewStrictHandlerWithOptions application slug_options) api.
End Server.
End billing_ports.

(** ** Settlement *)

Module settlement_ports.
Import server openapi saga.

Inductive DeclineSecondChanceOfferResponse :=
| DeclineSecondChanceOffer204Response
| DeclineSecondChanceOffer403JSONResponse (e : Error)
| DeclineSecondChanceOffer404JSONResponse (e : Error)
| DeclineSecondChanceOffer409JSONResponse (e : Error).
Inductive GetSettlementStatusResponse :=
| GetSettlementStatus200JSONResponse (settlement : ApiSettlement)
| GetSettlementStatus403JSONResponse (e : Error)
| GetSettlementStatus404JSONResponse (e : Error).

(** [SettlementFailureReason.Valid], [SettlementState.Valid]. *)
Definition SettlementFailureReason_Valid (e : string) : bool :=
  bool_decide (e ∈ ["payment_timeout"; "second_chance_declined"]).
Definition SettlementState_Valid (e : string) : bool :=
  bool_decide (e ∈ ["awaiting_payment"; "awarding_runner_up"; "failed_unsold"; "relisted";
                    "second_chance_payment"; "settled"; "started"]).

Record StrictServerInterface (S : Type) := {
  ssi_DeclineSecondChanceOffer : option auth.User → uuid → M S DeclineSecondChanceOfferResponse;
  ssi_GetSettlementStatus : option auth.User → uuid → M S GetSettlementStatusResponse;
}.
Arguments ssi_DeclineSecondChanceOffer {_} _ _ _.
Arguments ssi_GetSettlementStatus {_} _ _ _.

Section Server.
Context {S : Type} `{BindLib} `{!Encoder Error} `{!Encoder ApiSettlement}.

Definition VisitDeclineSecondChanceOfferResponse (response : DeclineSecondChanceOfferResponse)
    : Header → result HttpResponse :=
  match response with
  | DeclineSecondChanceOffer204Response => no_content None
  | DeclineSecondChanceOffer403JSONResponse e => json_response 403 (Encode e)
  | DeclineSecondChanceOffer404JSONResponse e => json_response 404 (Encode e)
  | DeclineSecondChanceOffer409JSONResponse e => json_response 409 (Encode e)
  end.
Definition VisitGetSettlementStatusResponse (response : GetSettlementStatusResponse)
    : Header → result HttpResponse :=
  match response with
  | GetSettlementStatus200JSONResponse settlement => json_response 200 (Encode settlement)
  | GetSettlementStatus403JSONResponse e => json_response 403 (Encode e)
  | GetSettlementStatus404JSONResponse e => json_response 404 (Encode e)
  end.

(** *** The strict handlers *)

Record ServerInterface := {
  si_DeclineSecondChanceOffer : uuid → HttpHandler S;
  si_GetSettlementStatus : uuid → HttpHandler S;
}.

Definition sh_DeclineSecondChanceOffer (sh : strictHandler (StrictServerInterface S))
    (auctionID : uuid) : HttpHandler S := fun r =>
  strict sh VisitDeclineSecondChanceOfferResponse
    (ssi_DeclineSecondChanceOffer (ssi sh) (rq_user r) auctionID) r.
Definition sh_GetSettlementStatus (sh : strictHandler (StrictServerInterface S))
    (auctionID : uuid) : HttpHandler S := fun r =>
  strict sh VisitGetSettlementStatusResponse
    (ssi_GetSettlementStatus (ssi sh) (rq_user r) auctionID) r.

Definition NewStrictHandlerWithOptions (impl : StrictServerInterface S)
    (options : StrictHTTPServerOptions) : ServerInterface :=
  let sh := mkStrictHandler impl options in {|
    si_DeclineSecondChanceOffer := sh_DeclineSecondChanceOffer sh;
    si_GetSettlementStatus := sh_GetSettlementStatus sh;
  |}.

(** *** The wrappers *)

Abbreviation Wrapper := (ServerInterfaceWrapper S ServerInterface).

Definition siw_DeclineSecondChanceOffer (siw : Wrapper) : HttpHandler S :=
  path_uuid siw "auctionID" (fun auctionID =>
  wrap_middlewares (HandlerMiddlewares siw) (si_DeclineSecondChanceOffer (Handler siw) auctionID)).
Definition siw_GetSettlementStatus (siw : Wrapper) : HttpHandler S :=
  path_uuid siw "auctionID" (fun auctionID =>
  wrap_middlewares (HandlerMiddlewares siw) (si_GetSettlementStatus (Handler siw) auctionID)).

(** *** The routes *)

Definition HandlerWithOptions (si : ServerInterface) (options : ChiServerOptions S)
    : list (Route S) :=
  let wrapper := mkServerInterfaceWrapper si (Middlewares options)
    (default default_param_error (opt_ErrorHandlerFunc options)) in
  BaseRouter options ++
  [ Post (BaseURL options +:+ "/auctions/{auctionID}/second-chance/decline")
      (siw_DeclineSecondChanceOffer wrapper);
    Get (BaseURL options +:+ "/auctions/{auctionID}/settlement") (siw_GetSettlementStatus wrapper) ].

Definition HandlerFromMux (si : ServerInterface) (r : list (Route S)) : list (Route S) :=
  HandlerWithOptions si (mkChiServerOptions "" r [] None).

Definition RegisterHTTP (application : StrictServerInterface S) (api : list (Route S))
    : list (Route S) :=
  HandlerFromMux (NewStrictHandlerWithOptions application slug_options) api.
End Server.
End settlement_ports.

(** ** Participant

    The only context that passes an error handler for the parameters; its
    registration is public. *)

Module participant_ports.
Import server openapi participant_repo.

Record RegisterParticipantRequest := mkRegisterParticipantRequest {
  rq_DisplayName : string;
  rq_Email : string;
  rq_Id : string;
}.

Inductive RegisterParticipantResponse :=
| RegisterParticipant204Response (ContentLocation : option string)
| RegisterParticipant400JSONResponse (e : Error)
| RegisterParticipant409JSONResponse (e : Error).
Inductive ParticipantProfileResponse :=
| ParticipantProfile200JSONResponse (profile : ProfileView)
| ParticipantProfile400JSONResponse (e : Error)
| ParticipantProfile401JSONResponse (e : Error)
| ParticipantProfile404JSONResponse (e : Error).
Inductive VerifyParticipantResponse :=
| VerifyParticipant204Response
| VerifyParticipant400JSONResponse (e : Error)
| VerifyParticipant401JSONResponse (e : Error)
| VerifyParticipant403JSONResponse (e : Error)
| VerifyParticipant404JSONResponse (e : Error)
| VerifyParticipant409JSONResponse (e : Error).

(** [ProfileResponseStatus.Valid]. *)
Definition ProfileResponseStatus_Valid (e : string) : bool :=
  bool_decide (e ∈ ["registered"; "verified"]).

Record StrictServerInterface (S : Type) := {
  ssi_RegisterParticipant : option auth.User → RegisterParticipantRequest →
    M S RegisterParticipantResponse;
  ssi_ParticipantProfile : option auth.User → string → M S ParticipantProfileResponse;
  ssi_VerifyParticipant : option auth.User → string → M S VerifyParticipantResponse;
}.
Arguments ssi_RegisterParticipant {_} _ _ _.
Arguments ssi_ParticipantProfile {_} _ _ _.
Arguments ssi_VerifyParticipant {_} _ _ _.

Section Server.
Context {S : Type} `{BindLib} `{!Encoder Error}.
Context `{!Decoder RegisterParticipantRequest} `{!Encoder ProfileView}.

Definition VisitRegisterParticipantResponse (response : RegisterParticipantResponse)
    : Header → result HttpResponse :=
  match response with
  | RegisterParticipant204Response location => no_content location
  | RegisterParticipant400JSONResponse e => json_response 400 (Encode e)
  | RegisterParticipant409JSONResponse e => json_response 409 (Encode e)
  end.
Definition VisitParticipantProfileResponse (response : ParticipantProfileResponse)
    : Header → result HttpResponse :=
  match response with
  | ParticipantProfile200JSONResponse profile => json_response 200 (Encode profile)
  | ParticipantProfile400JSONResponse e => json_response 400 (Encode e)
  | ParticipantProfile401JSONResponse e => json_response 401 (Encode e)
  | ParticipantProfile404JSONResponse e => json_response 404 (Encode e)
  end.
Definition VisitVerifyParticipantResponse (response : VerifyParticipantResponse)
    : Header → result HttpResponse :=
  match response with
  | VerifyParticipant204Response => no_content None
  | VerifyParticipant400JSONResponse e => json_response 400 (Encode e)
  | VerifyParticipant401JSONResponse e => json_response 401 (Encode e)
  | VerifyParticipant403JSONResponse e => json_response 403 (Encode e)
  | VerifyParticipant404JSONResponse e => json_response 404 (Encode e)
  | VerifyParticipant409JSONResponse e => json_response 409 (Encode e)
  end.

(** *** The strict handlers *)

Record ServerInterface := {
  si_RegisterParticipant : HttpHandler S;
  si_ParticipantProfile : string → HttpHandler S;
  si_VerifyParticipant : string → HttpHandler S;
}.

Definition sh_RegisterParticipant (sh : strictHandler (StrictServerInterface S)) : HttpHandler S :=
  json_body sh Decode (fun body r =>
    strict sh VisitRegisterParticipantResponse
      (ssi_RegisterParticipant (ssi sh) (rq_user r) body) r).
Definition sh_ParticipantProfile (sh : strictHandler (StrictServerInterface S))
    (participantID : string) : HttpHandler S := fun r =>
  strict sh VisitParticipantProfileResponse
    (ssi_ParticipantProfile (ssi sh) (rq_user r) participantID) r.
Definition sh_VerifyParticipant (sh : strictHandler (StrictServerInterface S))
    (participantID : string) : HttpHandler S := fun r =>
  strict sh VisitVerifyParticipantResponse
    (ssi_VerifyParticipant (ssi sh) (rq_user r) participantID) r.

Definition NewStrictHandlerWithOptions (impl : StrictServerInterface S)
    (options : StrictHTTPServerOptions) : ServerInterface :=
  let sh := mkStrictHandler impl options in {|
    si_RegisterParticipant := sh_RegisterParticipant sh;
    si_ParticipantProfile := sh_ParticipantProfile sh;
    si_VerifyParticipant := sh_VerifyParticipant sh;
  |}.

(** *** The wrappers *)

Abbreviation Wrapper := (ServerInterfaceWrapper S ServerInterface).

Definition siw_RegisterParticipant (siw : Wrapper) : HttpHandler S :=
  wrap_middlewares (HandlerMiddlewares siw) (si_RegisterParticipant (Handler siw)).
Definition siw_ParticipantProfile (siw : Wrapper) : HttpHandler S :=
  path_string siw "participantID" (fun participantID =>
  wrap_middlewares (HandlerMiddlewares siw) (si_ParticipantProfile (Handler siw) participantID)).
Definition siw_VerifyParticipant (siw : Wrapper) : HttpHandler S :=
  path_string siw "participantID" (fun participantID =>
  wrap_middlewares (HandlerMiddlewares siw) (si_VerifyParticipant (Handler siw) participantID)).

(** *** The routes *)

Definition newServerWrapper (server : StrictServerInterface S) : Wrapper :=
  mkServerInterfaceWrapper (NewStrictHandlerWithOptions server slug_options) []
    (fun e => request_error (ParamError_error e)).

Definition RegisterAuthenticatedRoutes (server : StrictServerInterface S) (api : list (Route S))
    : list (Route S) :=
  let wrapper := newServerWrapper server in
  api ++
  [ Get "/participants/{participantID}" (siw_ParticipantProfile wrapper);
    Post "/participants/{participantID}/verification" (siw_VerifyParticipant wrapper) ].

Definition RegisterPublicRoutes (server : StrictServerInterface S) (public : list (Route S))
    : list (Route S) :=
  public ++ [ Post "/participants" (siw_RegisterParticipant (newServerWrapper server)) ].
End Server.
End participant_ports.
