(* ===== verification/Api.v ===== *)
(** * The HTTP API of the monolith

    The implementations of the generated interfaces ([ports/http.go],
    [HTTPServer] of each context) over the databases of the contexts and the
    payment provider, and the routes [internal/monolith] registers on the root
    router and on the [/api] group. *)

From stdpp Require Import base numbers list strings gmap.
From Stdlib Require Import ZArith Lia.
From S2P Require Import Prelude GoText Errs Auth HttpServer OpenApi Events AuctionDomain AuctionRepo AuctionApp AuctionProjections InvoiceDomain InvoiceRepo Billing Processes ParticipantDomain ParticipantRepo Participant SettlementDomain SettlementRepo Settlement Ports.

Module api.
Import server openapi.
Local Open Scope Z_scope.

(** ** The state behind the endpoints

    The auctions with their projections, the sagas, the invoices, the
    participants, and the provider. *)
Record backend (P : Type) := mkBackend {
  be_auction : projections.ReadDB;
  be_saga : settlement_repo.SettlementDB;
  be_billing : invoice_repo.InvoiceDB;
  be_participants : participant_repo.ParticipantDB;
  be_psp : P;
}.
Arguments mkBackend {_} _ _ _ _ _.
Arguments be_auction {_} _.
Arguments be_saga {_} _.
Arguments be_billing {_} _.
Arguments be_participants {_} _.
Arguments be_psp {_} _.

Definition set_write (a : auction_repo.AuctionDB) (db : projections.ReadDB) : projections.ReadDB :=
  projections.mkReadDB a (projections.rd_profiles db) (projections.rd_catalog db)
    (projections.rd_dashboard db).

(** A query. *)
Definition reads {S A} (q : S → result A) : M S A := fun s => (q s, s).

Section Api.
Context `{UUIDLib} `{GoText} `{MailLib} {P : Type} `{PaymentGateway P}.
Context `{!AuctionRepository auction_repo.AuctionDB} `{!InvoiceRepository invoice_repo.InvoiceDB}
  `{!ParticipantRepository participant_repo.ParticipantDB}
  `{!SettlementRepository settlement_repo.SettlementDB}.
Context (rules : auction.ListingRules) (policy : invoice.CommissionPolicy) (term : invoice.PaymentTerm)
  (relist : settlement.RelistPolicy).

(** What the clocks answer while a request is handled: those of the contexts,
    the saga's with those it calls, and the one that stamps participants. *)
Record Now := mkNow { now : Time; now_saga : saga.Clocks; now_stamp : Time }.
Context (clocks : Now).

Abbreviation W := (backend P).

Definition on_auction {A} (m : M auction_repo.AuctionDB A) : M W A := fun w =>
  let '(r, a) := m (projections.rd_write (be_auction w)) in
  (r, mkBackend (set_write a (be_auction w)) (be_saga w) (be_billing w) (be_participants w) (be_psp w)).

Definition on_billing {A} (m : M (invoice_repo.InvoiceDB * P) A) : M W A := fun w =>
  let '(r, (b, p)) := m (be_billing w, be_psp w) in
  (r, mkBackend (be_auction w) (be_saga w) b (be_participants w) p).

Definition on_participants {A} (m : M participant_repo.ParticipantDB A) : M W A := fun w =>
  let '(r, ps) := m (be_participants w) in
  (r, mkBackend (be_auction w) (be_saga w) (be_billing w) ps (be_psp w)).

Abbreviation contexts :=
  (saga.net settlement_repo.SettlementDB auction_repo.AuctionDB invoice_repo.InvoiceDB).
Definition on_contexts {A} (m : M contexts A) : M W A := fun w =>
  let '(r, n) := m (saga.mkNet (be_saga w) (projections.rd_write (be_auction w)) (be_billing w)) in
  (r, mkBackend (set_write (saga.n_auctions n) (be_auction w)) (saga.n_saga n) (saga.n_billing n)
        (be_participants w) (be_psp w)).

(** ** The implementations *)

Definition auction_http : auction_ports.StrictServerInterface W := {|
  auction_ports.ssi_ActiveAuctionsCatalog _ page pageSize :=
    view ← reads (fun w => projections.Http_ActiveAuctionsCatalog (now clocks) page pageSize (be_auction w));
    mret (auction_ports.ActiveAuctionsCatalog200JSONResponse view);
  auction_ports.ssi_ListAuction ctx body :=
    location ← on_auction (auction_app.Http_ListAuction rules (now clocks) ctx body);
    mret (auction_ports.ListAuction204Response (Some location));
  auction_ports.ssi_AuctionCard _ auctionID :=
    view ← reads (fun w => projections.Http_AuctionCard auctionID (be_auction w));
    mret (auction_ports.AuctionCard200JSONResponse view);
  auction_ports.ssi_BidHistory _ auctionID page pageSize :=
    view ← reads (fun w => projections.Http_BidHistory auctionID page pageSize (be_auction w));
    mret (auction_ports.BidHistory200JSONResponse view);
  auction_ports.ssi_PlaceBid ctx auctionID body :=
    location ← (fun w => on_auction (auction_app.Http_PlaceBid (projections.BidderByID (be_auction w))
                                       (now clocks) ctx auctionID body) w);
    mret (auction_ports.PlaceBid204Response (Some location));
  auction_ports.ssi_CancelAuction ctx auctionID :=
    on_auction (auction_app.Http_CancelAuction (now clocks) ctx auctionID);;
    mret auction_ports.CancelAuction204Response;
  auction_ports.ssi_SellerDashboard ctx sellerID :=
    view ← reads (fun w => projections.Http_SellerDashboard ctx sellerID (be_auction w));
    mret (auction_ports.SellerDashboard200JSONResponse view);
|}.

Definition billing_http : billing_ports.StrictServerInterface W := {|
  billing_ports.ssi_GetBidderPendingInvoices ctx bidderID status :=
    views ← reads (fun w => billing.Http_GetBidderPendingInvoices ctx bidderID status (be_billing w));
    mret (billing_ports.GetBidderPendingInvoices200JSONResponse views);
  billing_ports.ssi_GetInvoice ctx invoiceID :=
    view ← reads (fun w => billing.Http_GetInvoice ctx invoiceID (be_billing w));
    mret (billing_ports.GetInvoice200JSONResponse view);
  billing_ports.ssi_PayInvoice ctx invoiceID :=
    on_billing (billing.Http_PayInvoice (now clocks) ctx invoiceID);;
    mret billing_ports.PayInvoice204Response;
|}.

#[local] Existing Instance saga.auction_facade.
#[local] Instance api_bills : BillingGateway invoice_repo.InvoiceDB := saga.billing_facade policy term.

Definition settlement_http : settlement_ports.StrictServerInterface W := {|
  settlement_ports.ssi_DeclineSecondChanceOffer ctx auctionID :=
    on_contexts (run (saga.Http_DeclineSecondChanceOffer relist (now_saga clocks) ctx auctionID));;
    mret settlement_ports.DeclineSecondChanceOffer204Response;
  settlement_ports.ssi_GetSettlementStatus ctx auctionID :=
    view ← reads (fun w => saga.Http_GetSettlementStatus ctx auctionID (be_saga w));
    mret (settlement_ports.GetSettlementStatus200JSONResponse view);
|}.

Definition participant_http : participant_ports.StrictServerInterface W := {|
  participant_ports.ssi_RegisterParticipant _ body :=
    location ← on_participants (participant_app.Http_RegisterParticipant (now clocks)
      (participant_ports.rq_Id body) (participant_ports.rq_Email body)
      (participant_ports.rq_DisplayName body));
    mret (participant_ports.RegisterParticipant204Response (Some location));
  participant_ports.ssi_ParticipantProfile _ participantID :=
    view ← reads (fun w => participant_app.Http_ParticipantProfile participant_repo.pg.Profile
                             participantID (be_participants w));
    mret (participant_ports.ParticipantProfile200JSONResponse view);
  participant_ports.ssi_VerifyParticipant ctx participantID :=
    on_participants (participant_app.Http_VerifyParticipant ctx (now clocks) (now_stamp clocks)
                       participantID);;
    mret participant_ports.VerifyParticipant204Response;
|}.

(** ** The routers *)

Context `{BindLib} `{!Encoder Error}.
Context `{!Decoder auction_app.ListAuctionBody} `{!Decoder auction_app.PlaceBidBody}
  `{!Decoder participant_ports.RegisterParticipantRequest}.
Context `{!Encoder projections.CatalogPage} `{!Encoder projections.AuctionCardView}
  `{!Encoder projections.BidHistoryPage} `{!Encoder projections.DashboardView}
  `{!Encoder invoice_repo.InvoiceView} `{!Encoder (list invoice_repo.InvoiceView)}
  `{!Encoder saga.ApiSettlement} `{!Encoder participant_repo.ProfileView}.

(** The registrations of [newApplication], in its order. *)
Definition api_routes : list (Route W) :=
  settlement_ports.RegisterHTTP settlement_http
    (billing_ports.RegisterHTTP billing_http
      (participant_ports.RegisterAuthenticatedRoutes participant_http
        (auction_ports.RegisterHTTP auction_http []))).

Definition public_routes : list (Route W) :=
  participant_ports.RegisterPublicRoutes participant_http [].

Definition HTTPHandler `{EdgeLib W} `{MuxLib W} (authMiddleware : auth.Middleware)
    (readiness : list (ReadinessProbe (S := W))) : HttpHandler W :=
  NewRouter (authenticate authMiddleware (now clocks))
    (RegisterHealthEndpoints readiness (chi_Mux "" public_routes))
    (chi_Mux "/api" api_routes).
End Api.
End api.
