(* ===== verification/ApiTheory.v ===== *)
(** * What the API answers

    [perform] says, operation by operation, what a request to the API asks for
    and what it is answered; [api_serves] that the assembled router, through the
    edge, the routes, the generated wrappers and strict handlers and the
    implementations, does exactly that, and [registration_serves] the same of
    the public registration. *)

From stdpp Require Import base numbers list strings gmap.
From Stdlib Require Import ZArith Lia.
From S2P Require Import Prelude GoText DemoUUID Errs Auth Postgres HttpServer OpenApi Events AuctionDomain AuctionTheory AuctionRepo AuctionApp AuctionRepoTheory AuctionProjections InvoiceDomain InvoiceRepo Billing Processes ParticipantDomain ParticipantRepo Participant ParticipantTheory SettlementDomain SettlementRepo Settlement Ports Api.

Module api_theory.
Import server openapi api.
Local Open Scope Z_scope.

(** ** Routing *)

(** No path fits both patterns: somewhere they require different segments. *)
Fixpoint disjoint (p q : list string) : bool :=
  match p, q with
  | [], [] => false
  | x :: p, y :: q =>
      (bool_decide (param_name x = None) && bool_decide (param_name y = None) && bool_decide (x ≠ y))
      || disjoint p q
  | _, _ => true
  end.

Lemma disjoint_sound p q path ps :
  disjoint p q = true → match_segments p path = Some ps → match_segments q path = None.
Proof.
  revert q path ps. induction p as [|x p IH]; intros [|y q] [|seg path] ps; simpl; try done.
  intros Hd Hm. destruct (param_name x) as [nx|] eqn:Ex, (param_name y) as [ny|] eqn:Ey; simpl in Hd;
    repeat (case_bool_decide; simplify_eq/=); try done;
    repeat match goal with H : _ <$> _ = Some _ |- _ => apply fmap_Some in H as (? & H & _) end;
    try (by rewrite (IH _ _ _ Hd Hm)); by eapply IH.
Qed.

Inductive operation :=
| ActiveAuctionsCatalog | ListAuction | AuctionCard | BidHistory | PlaceBid | CancelAuction
| SellerDashboard
| ParticipantProfile | VerifyParticipant
| GetBidderPendingInvoices | GetInvoice | PayInvoice
| DeclineSecondChanceOffer | GetSettlementStatus.

(** The participants are the one context that answers a malformed parameter as
    it answers any other error. *)
Definition slugged (op : operation) : bool :=
  match op with ParticipantProfile | VerifyParticipant => true | _ => false end.

Definition operations : list operation :=
  [ ActiveAuctionsCatalog; ListAuction; AuctionCard; BidHistory; PlaceBid; CancelAuction;
    SellerDashboard; ParticipantProfile; VerifyParticipant; GetBidderPendingInvoices; GetInvoice;
    PayInvoice; DeclineSecondChanceOffer; GetSettlementStatus ].

(** The method and the path of an operation, under [/api]. *)
Definition endpoint (op : operation) : string * string :=
  match op with
  | ActiveAuctionsCatalog => ("GET", "/auctions")
  | ListAuction => ("POST", "/auctions")
  | AuctionCard => ("GET", "/auctions/{auctionID}")
  | BidHistory => ("GET", "/auctions/{auctionID}/bids")
  | PlaceBid => ("POST", "/auctions/{auctionID}/bids")
  | CancelAuction => ("POST", "/auctions/{auctionID}/cancellation")
  | SellerDashboard => ("GET", "/sellers/{sellerID}/dashboard")
  | ParticipantProfile => ("GET", "/participants/{participantID}")
  | VerifyParticipant => ("POST", "/participants/{participantID}/verification")
  | GetBidderPendingInvoices => ("GET", "/bidders/{bidderID}/invoices")
  | GetInvoice => ("GET", "/invoices/{invoiceID}")
  | PayInvoice => ("POST", "/invoices/{invoiceID}/payment")
  | DeclineSecondChanceOffer => ("POST", "/auctions/{auctionID}/second-chance/decline")
  | GetSettlementStatus => ("GET", "/auctions/{auctionID}/settlement")
  end.

Definition fits (method path : string) (op : operation) : option (operation * gmap string string) :=
  if bool_decide ((endpoint op).1 = method)
  then (fun params => (op, params)) <$> route_match ("/api" +:+ (endpoint op).2) path
  else None.

(** The operation a request asks for. *)
Definition asks (r : Request) : option (operation * gmap string string) :=
  head (omap (fits (rq_method r) (rq_path r)) operations).

Definition exclusive (op1 op2 : operation) : bool :=
  negb (bool_decide ((endpoint op1).1 = (endpoint op2).1))
  || disjoint (segments ("/api" +:+ (endpoint op1).2)) (segments ("/api" +:+ (endpoint op2).2)).

Fixpoint pairwise {A} (f : A → A → bool) (l : list A) : bool :=
  match l with [] => true | x :: l => forallb (f x) l && pairwise f l end.

Lemma operations_exclusive : pairwise exclusive operations = true.
Proof. by vm_compute. Qed.

Lemma exclusive_fits m path op1 op2 x :
  exclusive op1 op2 = true → fits m path op1 = Some x → fits m path op2 = None.
Proof.
  unfold exclusive, fits. intros He Hf.
  destruct (bool_decide ((endpoint op1).1 = m)) eqn:E1; [|done].
  destruct (bool_decide ((endpoint op2).1 = m)) eqn:E2; [|done].
  apply bool_decide_eq_true in E1, E2. apply fmap_Some in Hf as (ps & Hf & _).
  rewrite (bool_decide_eq_true_2 ((endpoint op1).1 = _)) in He by congruence. cbn [negb orb] in He.
  unfold route_match in *. by rewrite (disjoint_sound _ _ _ _ He Hf).
Qed.

(** At most one operation fits. *)
Lemma fits_one m path l :
  pairwise exclusive l = true →
  omap (fits m path) l = match head (omap (fits m path) l) with Some x => [x] | None => [] end.
Proof.
  induction l as [|op l IH]; [done|]. simpl. intros [Hop Hl]%andb_true_iff.
  destruct (fits m path op) as [x|] eqn:E; simpl; [|by apply IH]. f_equal.
  clear IH Hl. induction l as [|op2 l IH]; [done|]. simpl in *.
  apply andb_true_iff in Hop as [H2 Hop]. rewrite (exclusive_fits _ _ _ _ _ H2 E). by apply IH.
Qed.

(** ** What the operations answer *)

Inductive answer :=
| Malformed (e : ParamError)
| Undecodable (e : error)
| Refused (e : error)
| Accepted (location : option string)
| Document (body : string)
| Crashed.

Definition status_of (a : answer) : Z :=
  match a with
  | Malformed _ | Undecodable _ => 400
  | Refused e => statusFromKind (KindFromError e)
  | Accepted _ => 204
  | Document _ => 200
  | Crashed => 500
  end.

Definition slug_type : option (list string) := Some ["application/json; charset=utf-8"].

(** The response that shows an answer; [as_slug]: whether a malformed parameter
    is answered like any other error, or in plain text. *)
Definition shows `{BindLib} (as_slug : bool) (a : answer) (rsp : HttpResponse) : Prop :=
  rs_status rsp = status_of a ∧
  match a with
  | Malformed e =>
      if as_slug
      then rs_body rsp = "invalid-request" ∧ rs_header rsp !! "Content-Type" = slug_type
      else rs_body rsp = ParamError_Error e +:+ LF
           ∧ rs_header rsp !! "Content-Type" = Some ["text/plain; charset=utf-8"]
  | Undecodable _ => rs_body rsp = "invalid-request" ∧ rs_header rsp !! "Content-Type" = slug_type
  | Refused e =>
      rs_body rsp = resp_slug (RespondWithSlugError (Some e))
      ∧ rs_header rsp !! "Content-Type" = slug_type
  | Accepted location =>
      rs_body rsp = ""
      ∧ match location with Some l => rs_header rsp !! "Content-Location" = Some [l] | None => True end
  | Document body =>
      rs_body rsp = body ∧ rs_header rsp !! "Content-Type" = Some ["application/json"]
  | Crashed => True
  end.

Section Answers.
Context {W : Type} `{BindLib}.
Implicit Types (w : W).

Definition given {T} (report : error → ParamError) (v : result T) (next : T → W → answer * W) : W → answer * W :=
  fun w => match v with Ok v => next v w | Fail e => (Malformed (report e), w) | Panic _ => (Crashed, w) end.

Definition decoded {T} `{!Decoder T} (body : string) (next : T → W → answer * W) : W → answer * W :=
  fun w => match Decode body with Ok v => next v w | Fail e => (Undecodable e, w) | Panic _ => (Crashed, w) end.

Definition created (m : M W string) : W → answer * W := fun w =>
  let '(r, w) := m w in
  (match r with Ok l => Accepted (Some l) | Fail e => Refused e | Panic _ => Crashed end, w).

Definition accepted (m : M W unit) : W → answer * W := fun w =>
  let '(r, w) := m w in
  (match r with Ok _ => Accepted None | Fail e => Refused e | Panic _ => Crashed end, w).

Definition document {T} `{!Encoder T} (q : W → result T) : W → answer * W := fun w =>
  (match v ← q w; Encode v with Ok body => Document body | Fail e => Refused e | Panic _ => Crashed end, w).

(** [out] is what a handler does, [spec] what it has to. *)
Definition does (as_slug : bool) (out : option HttpResponse * W) (spec : answer * W) : Prop :=
  out.2 = spec.2 ∧
  match out.1 with
  | Some rsp => shows as_slug spec.1 rsp ∧ secured (rs_header rsp) ∧ spec.1 ≠ Crashed
  | None => spec.1 = Crashed
  end.

Lemma set_same k v h : Header_Set k v h !! k = Some [v].
Proof. apply lookup_insert_eq. Qed.

Lemma secured_location l h : secured h → secured (Header_Set "Content-Location" l h).
Proof. intros []. by split; unfold Header_Set; rewrite lookup_insert_ne by done. Qed.

(** The handler of the participants. *)
Definition param_slug (e : ParamError) : Header → HttpResponse := request_error (ParamError_error e).

(** [http.Error] sets one of the headers again. *)
Lemma secured_http_Error msg code h : secured h → secured (rs_header (http_Error msg code h)).
Proof.
  intros [_ Hf]. split; unfold http_Error, Header_Set; cbn [rs_header]; [apply lookup_insert_eq|].
  by rewrite !lookup_insert_ne.
Qed.

Lemma does_malformed {T I} (as_slug : bool) (siw : ServerInterfaceWrapper W I) report (v : result T) next spec r h w :
  ErrorHandlerFunc siw = (if as_slug then param_slug else default_param_error) →
  secured h →
  (∀ x, v = Ok x → does as_slug (next x r h w) (spec x w)) →
  does as_slug (bound siw report v next r h w) (given report v spec w).
Proof.
  intros He Hs Hn. unfold bound, given. destruct v as [x|e|p]; [by apply Hn| |done].
  split; [done|]. simpl. rewrite He. destruct as_slug.
  - split; [|by split; [apply secured_content_type|]]. split_and!; [done..|apply set_same].
  - split; [|by split; [apply secured_http_Error|]]. split; [done|]. split; [done|].
    unfold default_param_error, http_Error, Header_Set. cbn [rs_header].
    by rewrite lookup_insert_ne by done; apply lookup_insert_eq.
Qed.

Context {SSI : Type} (sh : strictHandler SSI) (sh_slugs : options sh = slug_options) (as_slug : bool).

Lemma does_refused e h w : secured h →
  does as_slug (Some (ResponseErrorHandlerFunc (options sh) e h), w) (Refused e, w).
Proof.
  intros Hs. rewrite sh_slugs. split; [done|]. simpl.
  split; [|by split; [apply secured_content_type|]]. split_and!; [done..|apply set_same].
Qed.

Lemma does_body {T} `{!Decoder T} (next : T → HttpHandler W) spec r h w :
  secured h → (∀ x, does as_slug (next x r h w) (spec x w)) →
  does as_slug (json_body sh Decode next r h w) (decoded (rq_body r) spec w).
Proof.
  intros Hs Hn. unfold json_body, decoded. destruct (Decode _) as [x|e|p]; [apply Hn| |done].
  split; [done|]. simpl. rewrite sh_slugs.
  split; [|by split; [apply secured_content_type|]]. split_and!; [done..|apply set_same].
Qed.

Lemma does_strict {R X} (visit : R → Header → result HttpResponse) (C : X → R) (m : M W X)
    (ok : X → answer) r h w :
  secured h →
  (∀ x w', does as_slug (match visit (C x) h with
                         | Ok rsp => (Some rsp, w')
                         | Fail e => (Some (ResponseErrorHandlerFunc (options sh) e h), w')
                         | Panic _ => (None, w')
                         end) (ok x, w')) →
  does as_slug (strict sh visit (x ← m; mret (C x)) r h w)
    (let '(v, w') := m w in
     (match v with Ok x => ok x | Fail e => Refused e | Panic _ => Crashed end, w')).
Proof.
  intros Hs Hok. unfold strict, mbind, GoM_bind. destruct (m w) as [[x|e|p] w']; cbn -[options].
  - apply Hok.
  - by apply does_refused.
  - done.
Qed.

Lemma does_created {R} visit (C : string → R) (m : M W string) r h w :
  (∀ l, visit (C l) = no_content (Some l)) → secured h →
  does as_slug (strict sh visit (l ← m; mret (C l)) r h w) (created m w).
Proof.
  intros Hv Hs. apply (does_strict visit C m (fun l => Accepted (Some l))); [done|].
  intros l w'. rewrite Hv. split; [done|]. simpl.
  split; [|by split; [apply secured_location|]]. split_and!; [done..|apply set_same].
Qed.

Lemma does_accepted {R} visit (C : R) (m : M W unit) r h w :
  visit C = no_content None → secured h →
  does as_slug (strict sh visit (m;; mret C) r h w) (accepted m w).
Proof.
  intros Hv Hs. apply (does_strict visit (fun _ => C) m (fun _ => Accepted None)); [done|].
  intros [] w'. rewrite Hv. by repeat split; try apply Hs.
Qed.

Lemma does_document {R T} `{!Encoder T} visit (C : T → R) (q : W → result T) r h w :
  (∀ v, visit (C v) = json_response 200 (Encode v)) → secured h →
  does as_slug (strict sh visit (v ← reads q; mret (C v)) r h w) (document q w).
Proof.
  intros Hv Hs. unfold strict, mbind, GoM_bind, document, reads. cbn -[options].
  destruct (q w) as [v|e|p]; cbn -[options]; [|by apply does_refused|done].
  rewrite Hv. unfold json_response, mbind. cbn -[options].
  destruct (Encode v) as [body|e|p]; cbn -[options]; [|by apply does_refused|done].
  split; [done|]. simpl.
  split; [|by split; [apply secured_content_type|]]. split_and!; [done..|apply set_same].
Qed.
End Answers.

(** ** What the operations do *)

Section Serving.
Context `{UUIDLib} `{GoText} `{MailLib} {P : Type} `{PaymentGateway P}.
Context `{!AuctionRepository auction_repo.AuctionDB} `{!InvoiceRepository invoice_repo.InvoiceDB}
  `{!ParticipantRepository participant_repo.ParticipantDB}
  `{!SettlementRepository settlement_repo.SettlementDB}.
Context (rules : auction.ListingRules) (policy : invoice.CommissionPolicy) (term : invoice.PaymentTerm)
  (relist : settlement.RelistPolicy) (clocks : Now).
Context `{BindLib} `{!Encoder Error}.
Context `{!Decoder auction_app.ListAuctionBody} `{!Decoder auction_app.PlaceBidBody}
  `{!Decoder participant_ports.RegisterParticipantRequest}.
Context `{!Encoder projections.CatalogPage} `{!Encoder projections.AuctionCardView}
  `{!Encoder projections.BidHistoryPage} `{!Encoder projections.DashboardView}
  `{!Encoder invoice_repo.InvoiceView} `{!Encoder (list invoice_repo.InvoiceView)}
  `{!Encoder saga.ApiSettlement} `{!Encoder participant_repo.ProfileView}.

Abbreviation W := (backend P).
#[local] Existing Instance saga.auction_facade.
#[local] Instance bills : BillingGateway invoice_repo.InvoiceDB := saga.billing_facade policy term.

Definition perform (op : operation) (user : option auth.User) (params : gmap string string)
    (query : Values) (body : string) : W → answer * W :=
  let id name := bind_uuid (default "" (params !! name)) in
  let key name := bind_string (default "" (params !! name)) in
  let number name := bind_query_int name query in
  let path := InvalidParamFormatError in
  match op with
  | ActiveAuctionsCatalog =>
      given (query_error "page") (number "page") (fun page => given (query_error "pageSize") (number "pageSize") (fun size =>
      document (fun w => projections.Http_ActiveAuctionsCatalog (now clocks) page size (be_auction w))))
  | ListAuction =>
      decoded body (fun b => created (on_auction (auction_app.Http_ListAuction rules (now clocks) user b)))
  | AuctionCard =>
      given (path "auctionID") (id "auctionID") (fun a =>
      document (fun w => projections.Http_AuctionCard a (be_auction w)))
  | BidHistory =>
      given (path "auctionID") (id "auctionID") (fun a =>
      given (query_error "page") (number "page") (fun page => given (query_error "pageSize") (number "pageSize") (fun size =>
      document (fun w => projections.Http_BidHistory a page size (be_auction w)))))
  | PlaceBid =>
      given (path "auctionID") (id "auctionID") (fun a => decoded body (fun b => created (fun w =>
      on_auction (auction_app.Http_PlaceBid (projections.BidderByID (be_auction w)) (now clocks) user a b) w)))
  | CancelAuction =>
      given (path "auctionID") (id "auctionID") (fun a =>
      accepted (on_auction (auction_app.Http_CancelAuction (now clocks) user a)))
  | SellerDashboard =>
      given (path "sellerID") (id "sellerID") (fun s =>
      document (fun w => projections.Http_SellerDashboard user s (be_auction w)))
  | ParticipantProfile =>
      given (path "participantID") (key "participantID") (fun p =>
      document (fun w => participant_app.Http_ParticipantProfile participant_repo.pg.Profile p
                           (be_participants w)))
  | VerifyParticipant =>
      given (path "participantID") (key "participantID") (fun p =>
      accepted (on_participants (participant_app.Http_VerifyParticipant user (now clocks)
                                   (now_stamp clocks) p)))
  | GetBidderPendingInvoices =>
      given (path "bidderID") (id "bidderID") (fun b =>
      given (query_error "status") (bind_query_string "status" query) (fun status =>
      document (fun w => billing.Http_GetBidderPendingInvoices user b status (be_billing w))))
  | GetInvoice =>
      given (path "invoiceID") (id "invoiceID") (fun i =>
      document (fun w => billing.Http_GetInvoice user i (be_billing w)))
  | PayInvoice =>
      given (path "invoiceID") (id "invoiceID") (fun i =>
      accepted (on_billing (billing.Http_PayInvoice (now clocks) user i)))
  | DeclineSecondChanceOffer =>
      given (path "auctionID") (id "auctionID") (fun a =>
      accepted (on_contexts (run (saga.Http_DeclineSecondChanceOffer relist (now_saga clocks) user a))))
  | GetSettlementStatus =>
      given (path "auctionID") (id "auctionID") (fun a =>
      document (fun w => saga.Http_GetSettlementStatus user a (be_saga w)))
  end.

(** The registration of a participant, the public operation. *)
Definition register (body : string) : W → answer * W :=
  decoded body (fun b => created (on_participants (participant_app.Http_RegisterParticipant (now clocks)
    (participant_ports.rq_Id b) (participant_ports.rq_Email b) (participant_ports.rq_DisplayName b)))).

(** *** The handlers of the routes *)

Abbreviation auctions := (auction_http rules clocks).
Abbreviation bills_http := (billing_http clocks).
Abbreviation sagas := (settlement_http policy term relist clocks).
Abbreviation participants := (participant_http clocks).

Definition wrapper_of {I} (si : I) : ServerInterfaceWrapper W I :=
  mkServerInterfaceWrapper si [] default_param_error.

Definition handler_of (op : operation) : HttpHandler W :=
  let aw := wrapper_of (auction_ports.NewStrictHandlerWithOptions auctions slug_options) in
  let bw := wrapper_of (billing_ports.NewStrictHandlerWithOptions bills_http slug_options) in
  let sw := wrapper_of (settlement_ports.NewStrictHandlerWithOptions sagas slug_options) in
  let pw := participant_ports.newServerWrapper participants in
  match op with
  | ActiveAuctionsCatalog => auction_ports.siw_ActiveAuctionsCatalog aw
  | ListAuction => auction_ports.siw_ListAuction aw
  | AuctionCard => auction_ports.siw_AuctionCard aw
  | BidHistory => auction_ports.siw_BidHistory aw
  | PlaceBid => auction_ports.siw_PlaceBid aw
  | CancelAuction => auction_ports.siw_CancelAuction aw
  | SellerDashboard => auction_ports.siw_SellerDashboard aw
  | ParticipantProfile => participant_ports.siw_ParticipantProfile pw
  | VerifyParticipant => participant_ports.siw_VerifyParticipant pw
  | GetBidderPendingInvoices => billing_ports.siw_GetBidderPendingInvoices bw
  | GetInvoice => billing_ports.siw_GetInvoice bw
  | PayInvoice => billing_ports.siw_PayInvoice bw
  | DeclineSecondChanceOffer => settlement_ports.siw_DeclineSecondChanceOffer sw
  | GetSettlementStatus => settlement_ports.siw_GetSettlementStatus sw
  end.

Abbreviation routes := (api_routes rules policy term relist clocks).

Lemma api_routes_table :
  routes = (fun op => mkRoute (endpoint op).1 (endpoint op).2 (handler_of op)) <$> operations.
Proof. reflexivity. Qed.

Lemma resolve_asks r :
  resolve "/api" routes r =
    match asks r with Some (op, params) => [(handler_of op, params)] | None => [] end.
Proof.
  transitivity ((fun x => (handler_of x.1, x.2)) <$> omap (fits (rq_method r) (rq_path r)) operations).
  - rewrite api_routes_table. unfold resolve, fits. generalize operations as ops.
    induction ops as [|op ops IH]; [done|]. simpl in *.
    case_bool_decide; [|exact IH].
    destruct (route_match _ _); simpl; [by f_equal|exact IH].
  - rewrite fits_one by apply operations_exclusive. unfold asks.
    by destruct (head _) as [[op params]|].
Qed.

(** Parameter by parameter, then the body, then the operation. *)
#[local] Ltac serve_step :=
  first
    [ apply does_malformed; [reflexivity|assumption|intros ? _]
    | apply does_body; [reflexivity|assumption|intros ?]
    | apply does_document; [reflexivity|reflexivity|assumption]
    | apply does_created; [reflexivity|reflexivity|assumption]
    | apply does_accepted; [reflexivity|reflexivity|assumption] ].

Lemma does_operation op r h w :
  secured h →
  does (slugged op) (handler_of op r h w)
    (perform op (rq_user r) (rq_params r) (rq_query r) (rq_body r) w).
Proof.
  intros Hs. destruct op; repeat serve_step.
Qed.

Definition registration_handler : HttpHandler W :=
  participant_ports.siw_RegisterParticipant (participant_ports.newServerWrapper participants).

Lemma does_registration r h w :
  secured h →
  does true (registration_handler r h w)
    (register (rq_body r) w).
Proof. intros Hs. repeat serve_step. Qed.

(** *** Behind the edge *)

Context `{EL : EdgeLib W} `{!EdgeLaws W} `{ML : MuxLib W} `{!MuxLaws W} `{auth.JWTLib}.

(** The answer [rsp] to a request, and the state [w'] after it, when what it
    asks for is [spec]; [crash] is the status of a panic. *)
Definition answered (crash : Z) (as_slug : bool) (spec : answer * W) (rsp : HttpResponse) (w' : W) : Prop :=
  w' = spec.2 ∧ rs_status rsp = match spec.1 with Crashed => crash | a => status_of a end ∧
  (spec.1 ≠ Crashed → shows as_slug spec.1 rsp ∧ secured (rs_header rsp)).

(** The same of a path that fits no route. *)
Definition unrouted (r : Request) (w : W) (rsp : HttpResponse) (w' : W) : Prop :=
  "" ∉ tail (segments (rq_path r)) →
  w' = w ∧ (rs_status rsp = 404 ∨ rs_status rsp = 405) ∧ secured (rs_header rsp).

Lemma does_answered crash as_slug (out : option HttpResponse * W) spec rsp w' :
  does as_slug out spec →
  out.2 = w' → match out.1 with Some rsp' => rsp = rsp' | None => rs_status rsp = crash end →
  answered crash as_slug spec rsp w'.
Proof.
  intros [-> Hd] <- Hrsp. split; [done|]. destruct out.1 as [rsp'|].
  - destruct Hd as (Hsh & Hs & Hc), Hrsp. split; [destruct Hsh; by destruct spec.1|done].
  - by rewrite Hd.
Qed.

Lemma api_answers crash r h w rsp w' :
  secured h →
  let out := chi_Mux "/api" routes r h w in
  out.2 = w' → match out.1 with Some rsp' => rsp = rsp' | None => rs_status rsp = crash end →
  match asks r with
  | Some (op, params) =>
      answered crash (slugged op) (perform op (rq_user r) params (rq_query r) (rq_body r) w) rsp w'
  | None => unrouted r w rsp w'
  end.
Proof.
  intros Hs out Hw Hrsp. pose proof (resolve_asks r) as Hr. destruct (asks r) as [[op params]|].
  - unfold out in *. rewrite (chi_Mux_route _ _ _ h _ _ Hr) in Hw, Hrsp. eapply does_answered; [|done..].
    apply (does_operation op (with_params params r) h w Hs).
  - intros Hc. destruct (chi_Mux_none _ _ _ h w Hr Hc) as (rsp' & E & Hst & Hsec).
    unfold out in *. rewrite E in Hw, Hrsp. cbn in Hw, Hrsp. subst. by auto.
Qed.

(** A request for the public operation. *)
Definition registering (r : Request) : bool :=
  bool_decide (rq_method r = "POST") && bool_decide (is_Some (route_match "/participants" (rq_path r))).

Lemma public_answers crash r h w rsp w' :
  secured h →
  let out := chi_Mux "" (public_routes clocks) r h w in
  out.2 = w' → match out.1 with Some rsp' => rsp = rsp' | None => rs_status rsp = crash end →
  if registering r then answered crash true (register (rq_body r) w) rsp w' else unrouted r w rsp w'.
Proof.
  intros Hs out Hw Hrsp. unfold registering.
  assert (Hr : resolve "" (public_routes clocks) r =
    if bool_decide ("POST" = rq_method r) then
      match route_match "/participants" (rq_path r) with
      | Some ps => [(registration_handler, ps)]
      | None => []
      end
    else []).
  { unfold resolve. simpl. case_bool_decide; [|done]. by destruct (route_match _ (rq_path r)). }
  assert (Hnone : resolve "" (public_routes (P := P) clocks) r = [] → unrouted r w rsp w').
  { intros Hn Hc. destruct (chi_Mux_none _ _ _ h w Hn Hc) as (rsp' & E & Hst & Hsec).
    unfold out in *. rewrite E in Hw, Hrsp. cbn in Hw, Hrsp. subst. by auto. }
  destruct (decide (rq_method r = "POST")) as [Hm|Hm].
  2:{ rewrite (bool_decide_eq_false_2 (rq_method r = "POST")) by done. apply Hnone. rewrite Hr.
      by rewrite bool_decide_eq_false_2 by congruence. }
  rewrite (bool_decide_eq_true_2 (rq_method r = "POST")) by done.
  rewrite bool_decide_eq_true_2 in Hr by done. cbn [andb].
  destruct (route_match "/participants" (rq_path r)) as [ps|]; [|by apply Hnone].
  cbn. unfold out in *. rewrite (chi_Mux_route _ _ _ h _ _ Hr) in Hw, Hrsp.
  eapply does_answered; [|done..]. apply (does_registration (with_params ps r) h w Hs).
Qed.

(** The public registration needs no token. *)
Lemma registration_serves mw readiness r w :
  preflight r = false → under_api (rq_path r) = false → registering r = true →
  ∃ rsp w',
    HTTPHandler rules policy term relist clocks mw readiness r ∅ w = (Some rsp, w') ∧
    answered (recovered_status r) true (register (rq_body r) w) rsp w'.
Proof.
  intros Hp Hapi Hreg. unfold HTTPHandler.
  destruct (edge_inner (authenticate mw (now clocks)) (RegisterHealthEndpoints readiness
    (chi_Mux "" (public_routes clocks))) (chi_Mux "/api" routes) r w Hp) as (h' & rsp & Hs & HR & Hrsp).
  cbv zeta in HR, Hrsp. rewrite Hapi in HR, Hrsp.
  assert (rq_method r = "POST") as Hm.
  { unfold registering in Hreg. apply andb_prop in Hreg as [Hm _]. by apply bool_decide_eq_true in Hm. }
  unfold RegisterHealthEndpoints in HR, Hrsp. rewrite Hm in HR, Hrsp. cbn in HR, Hrsp.
  eexists rsp, _. split; [exact HR|].
  pose proof (public_answers _ r h' w rsp _ Hs eq_refl Hrsp) as Ha. by rewrite Hreg in Ha.
Qed.

(** C4: the API of the monolith, from the router down to the handlers of the
    contexts.  A request under [/api] with a valid token asks for at most one
    operation: its method and path select it.  Its answer and its effects are
    those of the operation, performed for the user the token names on the
    parameters of the path, the query and the body: a malformed parameter or a
    body that does not decode is a 400 and changes nothing; a refusal is
    answered with the status and the slug of its error; a command 204, with the
    location of what it created; a query 200 with its document; a panic 500
    (200 on an upgraded connection).
    A path that fits no operation is answered 404 or 405 and changes nothing. *)
Theorem api_serves secret mw readiness r w user :
  auth.NewMiddleware auth.ModeLocalHS256 secret = Ok mw →
  preflight r = false → under_api (rq_path r) = true →
  auth.userFromRequest secret (now clocks) (Header_Get "Authorization" (rq_header r)) = Ok user →
  ∃ rsp w',
    HTTPHandler rules policy term relist clocks mw readiness r ∅ w = (Some rsp, w') ∧
    match asks r with
    | Some (op, params) =>
        answered (recovered_status r) (slugged op) (perform op (Some user) params (rq_query r) (rq_body r) w) rsp w'
    | None => unrouted r w rsp w'
    end.
Proof.
  intros Hmw Hp Hapi Hu. unfold HTTPHandler.
  destruct (edge_api secret mw (now clocks) (RegisterHealthEndpoints readiness
    (chi_Mux "" (public_routes clocks))) (chi_Mux "/api" routes) r w user Hmw Hp Hapi Hu)
    as (r' & h' & Hb & Hs & rsp & HR & Hrsp).
  eexists rsp, _. split; [exact HR|].
  pose proof (api_answers _ r' h' w rsp _ Hs eq_refl Hrsp) as Ha.
  unfold bare in Hb. injection Hb as Hm Hpa Hq Hbd _ Huser.
  unfold asks, unrouted in *. by rewrite Hm, Hpa, Hq, Hbd, Huser in Ha.
Qed.
End Serving.

(** ** A small deployment, for the witnesses

    A router and middlewares that do only what their laws say, one body that
    decodes, and the database with one open auction. *)

Section Demo.
Context {S : Type}.

#[local] Instance demo_EdgeLib : EdgeLib S := {
  chi_RequestID next := next;
  chi_ClientIPFromRemoteAddr next := next;
  otelhttp_Middleware next := next;
  chi_Recoverer next r h s :=
    match next r h s with
    | (Some rsp, s') => (Some rsp, s')
    | (None, s') => (Some (mkHttpResponse (recovered_status r) h ""), s')
    end;
  chi_NoCache next := next;
}.

Lemma demo_EdgeLaws : EdgeLaws S.
Proof.
  split; try done.
  - intros next r h s rsp s' E. cbn. by rewrite E.
  - intros next r h s s' E. exists h. cbn. by rewrite E.
  - intros next r h. by exists r, h.
Qed.

#[local] Instance demo_MuxLib : MuxLib S := {
  chi_Mux prefix routes r h s :=
    match resolve prefix routes r with
    | (handler, params) :: _ => handler (with_params params r) h s
    | [] => (Some (mkHttpResponse 404 h ""), s)
    end;
}.

Lemma demo_MuxLaws : MuxLaws S.
Proof.
  split.
  - intros prefix routes r h handler params E. cbn. by rewrite E.
  - intros prefix routes r h s E _. eexists. split; [cbn; by rewrite E|]. by split; [left|].
Qed.
End Demo.

Definition demo_bind : BindLib := {|
  bind_uuid s := match demo_uuid.parse s with
                 | Some id => Ok id
                 | None => Fail (ErrNew "invalid UUID")
                 end;
  bind_string s := Ok s;
  bind_query_int _ _ := Ok None;
  bind_query_string _ _ := Ok None;
  bind_Error _ := "invalid UUID";
  bind_required _ := false;
|}.

(** No document of the demonstration is looked at. *)
Definition demo_encoder {T} : Encoder T := fun _ => Ok "{}".
Definition demo_decoder {T} (text : string) (v : T) : Decoder T := fun s =>
  if bool_decide (s = text) then Ok v else Fail (ErrNew "unexpected end of JSON input").

Definition demo_backend : backend billing.FakePSP :=
  mkBackend (projections.mkReadDB auction_repo_theory.demo_db ∅ ∅ ∅)
    (settlement_repo.mkSettlementDB ∅ []) (invoice_repo.mkInvoiceDB ∅ [] 0)
    (participant_repo.mkParticipantDB ∅ [] 0) (billing.mkFakePSP billing.PSPModeSuccess ∅ ∅ ∅ 0).

Definition demo_now : Now := mkNow (1500 * Second) (saga.mkClocks 0 0 0) 0.
Definition demo_token : Header := {[ "Authorization" := ["Bearer " +:+ "header.payload.signature"] ]}.
Definition demo_bid (path body : string) : Request :=
  mkRequest "POST" path ∅ demo_token body None ∅.

(** *** Requests to it *)

#[local] Existing Instances demo_uuid.lib participant_theory.demo_text.text
  participant_theory.demo_text.mail demo_EdgeLib demo_EdgeLaws demo_MuxLib demo_MuxLaws demo_bind
  demo_encoder auth.demo_jwt billing.fake_gateway.
#[local] Instance demo_auctions : AuctionRepository auction_repo.AuctionDB :=
  auction_repo.pg.repository no_faults.
#[local] Instance demo_invoices : InvoiceRepository invoice_repo.InvoiceDB :=
  invoice_repo.pg.repository no_faults.
#[local] Instance demo_participants : ParticipantRepository participant_repo.ParticipantDB :=
  participant_repo.pg.repository no_faults.
#[local] Instance demo_sagas : SettlementRepository settlement_repo.SettlementDB :=
  settlement_repo.pg.repository no_faults.
#[local] Instance demo_list_body : Decoder auction_app.ListAuctionBody :=
  fun _ => Fail (ErrNew "unexpected end of JSON input").
#[local] Instance demo_bid_body : Decoder auction_app.PlaceBidBody :=
  demo_decoder "bid" (auction_app.mkPlaceBidBody 11 1000 "EUR").
#[local] Instance demo_register_body : Decoder participant_ports.RegisterParticipantRequest :=
  fun _ => Fail (ErrNew "unexpected end of JSON input").

Definition demo_handler : HttpHandler (backend billing.FakePSP) :=
  HTTPHandler auction_theory.demo.rules (invoice.mkCommissionPolicy 500)
    (invoice.mkPaymentTerm (72 * 3600 * Second))
    (settlement.mkRelistPolicy (3600 * Second) (24 * 3600 * Second)) demo_now
    (auth.hs256Middleware "s3cret") [].

Abbreviation demo_perform :=
  (perform auction_theory.demo.rules (invoice.mkCommissionPolicy 500) (invoice.mkPaymentTerm (72 * 3600 * Second))
     (settlement.mkRelistPolicy (3600 * Second) (24 * 3600 * Second)) demo_now).

Lemma demo_user :
  auth.userFromRequest "s3cret" (now demo_now) (Header_Get "Authorization" demo_token)
    = Ok (auth.mkUser 5 auth.RoleSeller).
Proof. vm_compute. reflexivity. Qed.

(** A bid is taken; one in a body that does not decode, and one on a malformed
    identity, are refused. *)
Lemma api_serves_witness :
  let answers path body code :=
    ∃ rsp w', demo_handler (demo_bid path body) ∅ demo_backend = (Some rsp, w') ∧ rs_status rsp = code in
  answers "/api/auctions/1/bids" "bid" 204 ∧
  answers "/api/auctions/1/bids" "{" 400 ∧
  answers "/api/auctions/one/bids" "bid" 400.
Proof.
  intros answers.
  assert (∀ path body op params code,
    under_api path = true → asks (demo_bid path body) = Some (op, params) →
    status_of (demo_perform op (Some (auth.mkUser 5 auth.RoleSeller)) params ∅ body demo_backend).1 = code →
    answers path body code) as H.
  { intros path body op params code Hu Ha <-.
    destruct (api_serves auction_theory.demo.rules (invoice.mkCommissionPolicy 500)
      (invoice.mkPaymentTerm (72 * 3600 * Second))
      (settlement.mkRelistPolicy (3600 * Second) (24 * 3600 * Second)) demo_now "s3cret" (auth.hs256Middleware "s3cret") [] (demo_bid path body)
      demo_backend (auth.mkUser 5 auth.RoleSeller) eq_refl eq_refl Hu demo_user) as (rsp & w' & HR & Hok).
    rewrite Ha in Hok. destruct Hok as (_ & Hst & _). by exists rsp, w'. }
  split; [|split].
  - apply (H _ _ PlaceBid {[ "auctionID" := "1" ]}); vm_compute; reflexivity.
  - apply (H _ _ PlaceBid {[ "auctionID" := "1" ]}); vm_compute; reflexivity.
  - apply (H _ _ PlaceBid {[ "auctionID" := "one" ]}); vm_compute; reflexivity.
Defined.
End api_theory.
