(* ===== verification/ApiAccess.v ===== *)
(** * Who may change what through the API

    What one request to the monolith can change, over the Postgres repositories
    with whatever their drivers answer to a transaction.  The [*_frame] lemmas
    say what each command of a context leaves alone, and what has to hold for it
    to change anything; [permits] is the change an operation may make and for
    whom, and [api_access] that nothing else ever changes anything. *)

From stdpp Require Import base numbers list strings gmap.
From Stdlib Require Import ZArith Lia.
From S2P Require Import Prelude GoText DemoUUID Errs Auth Postgres HttpServer OpenApi Events AuctionDomain AuctionTheory AuctionRepo AuctionApp AuctionRepoTheory AuctionAppTheory AuctionProjections InvoiceDomain InvoiceRepo InvoiceRepoTheory Billing BillingTheory PaymentProtocol Processes ParticipantDomain ParticipantRepo Participant ParticipantTheory SettlementDomain SettlementRepo Settlement Ports Api ApiTheory.

Module api_access.
Import server openapi api api_theory.
Local Open Scope Z_scope.

(** ** Transactions *)

Lemma RunInTx_after {DB A} f (m : M DB A) db :
  (RunInTx f m db).2 = db ∨ (RunInTx f m db).2 = (m db).2.
Proof.
  unfold RunInTx. destruct (begin_err f); [by left|].
  destruct (m db) as [[x|e|p] db']; simpl; destruct (commit_err f), (commit_applied f), (rollback_err f);
    simpl; eauto.
Qed.

Lemma bind_after {W A B} (m : M W A) (k : A → M W B) w :
  (∃ x, (m w).1 = Ok x ∧ ((m ≫= k) w).2 = (k x (m w).2).2) ∨ ((m ≫= k) w).2 = (m w).2.
Proof. unfold mbind, GoM_bind. destruct (m w) as [[x|e|p] w']; eauto. Qed.

Lemma on_error_after {W} (m : M W unit) f w : (on_error m f w).2 = (m w).2.
Proof. unfold on_error. by destruct (m w) as [[]]. Qed.

Lemma then_ret_after {W A B} (m : M W A) (b : B) w : ((m ≫= fun _ => mret b) w).2 = (m w).2.
Proof. unfold mbind, GoM_bind. by destruct (m w) as [[]]. Qed.

(** A guard or a conversion in front of a handler: it runs only past it. *)
Lemma lift_after {W A B} (r : result A) (k : A → M W B) w :
  ((lift r ≫= k) w).2 = w ∨ ∃ x, r = Ok x ∧ ((lift r ≫= k) w).2 = (k x w).2.
Proof. destruct r; [right; by eexists|by left..]. Qed.

(** Programs that stay inside a relation between states. *)
Definition within {W A} (R : relation W) (m : M W A) : Prop := ∀ w, R w (m w).2.

Section Within.
Context {W : Type} (R : relation W) `{!PreOrder R}.

Lemma within_bind {A B} (m : M W A) (k : A → M W B) :
  within R m → (∀ x, within R (k x)) → within R (m ≫= k).
Proof.
  intros Hm Hk w. destruct (bind_after m k w) as [(x & _ & ->)| ->]; [|apply Hm].
  etrans; [apply Hm|apply Hk].
Qed.

Lemma within_still {A} (m : M W A) : (∀ w, (m w).2 = w) → within R m.
Proof. intros Hm w. by rewrite Hm. Qed.

Lemma within_modify f : (∀ w, R w (f w)) → within R (modify f).
Proof. intros Hf w. apply Hf. Qed.

Lemma within_tx {A} f (m : M W A) : within R m → within R (RunInTx f m).
Proof. intros Hm w. destruct (RunInTx_after f m w) as [->| ->]; [done|apply Hm]. Qed.
End Within.

#[local] Ltac stay :=
  repeat first
    [ apply within_bind; [apply _| |intros ?]
    | apply within_still; [apply _|intros; reflexivity]
    | match goal with
      | |- within _ (match ?x with _ => _ end) => destruct x
      | |- within _ (throw_if ?b _) => destruct b
      end ].

Section Auctions.
Context `{UUIDLib}.
Import auction auction_theory auction_repo auction_repo_theory auction_app_theory.

(** Only the auction [id], if that, has changed. *)
Definition one_auction (id : uuid) (db db' : AuctionDB) : Prop :=
  ∀ u, u ≠ id → db_auctions db' !! u = db_auctions db !! u.

Lemma append_bids_auctions a es db :
  db_auctions (pg.append_bids a es db).2 = db_auctions db.
Proof.
  revert db. induction es as [|[] es IH]; intros db; simpl; try done.
  unfold pg.insert_bid. run_go. case_match; run_go; [done|]. by rewrite IH.
Qed.

Lemma publishMapped_auctions a es db : db_auctions (pg.publishMapped a es db).2 = db_auctions db.
Proof. unfold pg.publishMapped, modify. simpl. by destruct (mapEvents _ _ _). Qed.

Lemma pg_update_frame f id fn db :
  pg_ok db → (∀ a a', fn a = Ok a' → a_id a' = a_id a) →
  let db' := (pg.update f id fn db).2 in
  db' = db ∨ (∃ a a', pg.Get id db = Ok a ∧ fn a = Ok a' ∧ one_auction (AuctionID_UUID id) db db').
Proof.
  intros Hok Hid db'. unfold db', pg.update. clear db'.
  match goal with |- context [RunInTx f ?m db] =>
    destruct (RunInTx_after f m db) as [->| ->]; [by left|] end.
  run_go. destruct (db_auctions db !! AuctionID_UUID id) as [p|] eqn:E; [|run_go; by left].
  destruct (Hok _ _ E) as (a & Hs & He & Ha & ->). rewrite toDomain_toPg, drained_same by done. run_go.
  destruct (fn a) as [a'|e|p'] eqn:Ef; [|run_go; by left..]. right. exists a, a'.
  split; [by unfold pg.Get; rewrite E, toDomain_toPg, drained_same by done|]. split; [done|]. intros u Hu.
  unfold pg.update_auction. run_go. simpl. rewrite (Hid _ _ Ef), Ha, E, Z.eqb_refl. run_go.
  change (1 =? 0) with false. cbv iota.
  assert (∀ x, db_auctions (pg.put_row (pg.update_columns (toPgAuction a') x (toPgAuction a)) db) !! u
    = db_auctions db !! u) as Hput by (intros x; apply lookup_insert_ne; simpl; congruence).
  match goal with |- db_auctions ((?m ≫= ?k) ?w).2 !! u = _ =>
    destruct (bind_after m k w) as [(y & _ & ->)| ->] end.
  - rewrite publishMapped_auctions, append_bids_auctions. apply Hput.
  - rewrite append_bids_auctions. apply Hput.
Qed.

(** [Add] writes no row but the new one. *)
Lemma pg_add_frame f a db :
  let db' := (pg.Add f (Some a) db).2 in
  db' = db ∨
  (db_auctions db !! AuctionID_UUID (a_id a) = None ∧
   db_auctions db' = <[AuctionID_UUID (a_id a) := toPgAuction a]> (db_auctions db)).
Proof.
  intros db'. unfold db', pg.Add. clear db'.
  match goal with |- context [RunInTx f ?m db] =>
    destruct (RunInTx_after f m db) as [->| ->]; [by left|] end.
  unfold pg.insert_auction. run_go. simpl.
  destruct (db_auctions db !! _) eqn:E; run_go; [by left|].
  match goal with |- context [if ?b then (Fail _, db) else _] => destruct b end; [by left|].
  right. change (1 =? 0) with false. cbv iota. unfold pg.publishIntegrationEvents.
  by rewrite publishMapped_auctions.
Qed.

(** *** The handlers *)

Lemma New_identity id seller lot sp inc rsv w rules now a :
  New id seller lot sp inc rsv w rules now = Ok a → a_id a = id ∧ a_seller a = seller.
Proof.
  unfold New, closure, record, modify. intros Hn. repeat (case_match; [done|]).
  simpl in Hn. by injection Hn as <-.
Qed.

Lemma list_command_seller user body cmd :
  auction_app.list_auction_command user body = Ok cmd →
  auction_app.la_Seller cmd = mkSellerID (auth.u_ID user).
Proof.
  unfold auction_app.list_auction_command. intros E. apply res_bind_ok in E as (seller & Hs & E).
  apply with_cause_ok in Hs. unfold NewSellerID in Hs. case_bool_decide; [done|].
  repeat (apply res_bind_ok in E as (? & ? & E); simplify_eq/=). by simplify_eq/=.
Qed.

Lemma bid_command_inv user u body cmd :
  auction_app.place_bid_command user u body = Ok cmd →
  auction_app.pb_AuctionID cmd = mkAuctionID u ∧ auction_app.pb_Bidder cmd = mkBidderID (auth.u_ID user).
Proof.
  unfold auction_app.place_bid_command. intros E.
  apply res_bind_ok in E as (b & Hb & E). apply res_bind_ok in E as (a & Ha & E).
  apply with_cause_ok in Ha, Hb. unfold NewBidderID, NewAuctionID in *. do 2 (case_bool_decide; [done|]).
  repeat (apply res_bind_ok in E as (? & ? & E); simplify_eq/=). by simplify_eq/=.
Qed.

Lemma list_frame f rules now ctx body db :
  let db' := (@auction_app.Http_ListAuction _ (pg.repository f) _ rules now ctx body db).2 in
  db' = db ∨ ∃ user row, ctx = Some user ∧ p_SellerID row = auth.u_ID user
    ∧ db_auctions db !! p_ID row = None ∧ db_auctions db' = <[p_ID row := row]> (db_auctions db).
Proof.
  intros db'. unfold db', auction_app.Http_ListAuction. clear db'.
  destruct ctx as [user|]; [|by left]. simpl. run_go.
  destruct (auction_app.list_auction_command user body) as [cmd|e|p] eqn:E; [|by left..]. run_go.
  rewrite then_ret_after. unfold auction_app.ListAuctionHandler.
  destruct (New _ _ _ _ _ _ _ _ _) as [a|e|p] eqn:En; [|by left..].
  apply New_identity in En as [Hid Hse]. apply list_command_seller in E. cbn [repo_Add pg.repository].
  destruct (pg_add_frame f a db) as [->|[Hn Hdb]]; [by left|right].
  exists user, (toPgAuction a). split; [done|]. split; [simpl; by rewrite Hse, E|]. by split.
Qed.

Lemma bidder_named db id b : projections.BidderByID db id = Ok b → bd_id b = id.
Proof.
  unfold projections.BidderByID, NewBidder.
  destruct (projections.rd_profiles db !! _), (IsZero id); by intros [= <-].
Qed.

Lemma bid_frame f profiles now ctx u body db :
  pg_ok db →
  (∀ id b, profiles id = Ok b → bd_id b = id) →
  let db' := (@auction_app.Http_PlaceBid _ (pg.repository f) _ profiles now ctx u body db).2 in
  db' = db ∨ ∃ user a, ctx = Some user ∧ pg.Get (mkAuctionID u) db = Ok a
    ∧ a_seller a ≠ mkSellerID (auth.u_ID user) ∧ one_auction u db db'.
Proof.
  intros Hok Hprof db'. unfold db', auction_app.Http_PlaceBid. clear db'.
  destruct ctx as [user|]; [|by left]. simpl. run_go.
  destruct (auction_app.place_bid_command user u body) as [cmd|e|p] eqn:E; [|by left..]. run_go.
  apply bid_command_inv in E as [Ha Hb].
  rewrite then_ret_after. unfold auction_app.PlaceBidHandler. rewrite Ha, Hb.
  destruct (profiles _) as [b|e|p] eqn:Ep; [|by left..]. run_go. apply Hprof in Ep.
  rewrite on_error_after. cbn. unfold pg.Update. run_go. destruct (IsZero _); [by left|]. cbn.
  match goal with |- context [pg.update f _ ?fn db] =>
    destruct (pg_update_frame f (mkAuctionID u) fn db) as [->|(a & a' & Hg & Hc & Hone)];
      [done| |by left|] end.
  { intros c c' (x & Hc)%closure_ok.
    apply PlaceBid_ok_inv in Hc as (_ & _ & _ & ->). apply (sl_id _ _ (accept_same_listing _ _ _)). }
  right. exists user, a. apply closure_ok in Hc as (x & Hc).
  apply PlaceBid_ok_inv in Hc as (_ & Hac & _ & _). apply acc_not_seller in Hac.
  rewrite Ep in Hac. split_and!; try done. intros Hs. by rewrite Hs in Hac.
Qed.

Lemma cancel_frame f now ctx u db :
  pg_ok db →
  let db' := (@auction_app.Http_CancelAuction _ (pg.repository f) now ctx u db).2 in
  db' = db ∨ ∃ user a, ctx = Some user ∧ pg.Get (mkAuctionID u) db = Ok a
    ∧ a_seller a = mkSellerID (auth.u_ID user) ∧ HasBids a = false ∧ one_auction u db db'.
Proof.
  intros Hok db'. unfold db', auction_app.Http_CancelAuction. clear db'.
  destruct ctx as [user|]; [|by left]. simpl. run_go.
  unfold NewSellerID, NewAuctionID. case_bool_decide; [by left|]. simpl. run_go.
  case_bool_decide; [by left|]. simpl. run_go.
  unfold auction_app.CancelAuctionHandler. rewrite on_error_after. cbn. unfold pg.Update. run_go.
  destruct (IsZero _); [by left|]. cbn.
  destruct (pg_update_frame f (mkAuctionID u) (closure (Cancel (mkSellerID (auth.u_ID user)) now)) db)
    as [->|(a & a' & Hg & Hc & Hone)]; [done| |by left|].
  { intros b b' (x & Hb)%closure_ok. by apply (sl_id _ _ (run_ok_same_listing (CCancel _ _) _ _ _ Hb)). }
  right. exists user, a. apply closure_ok in Hc as (x & Hc).
  apply Cancel_ok_inv in Hc as (Hs & _ & Hb & _). by split_and!.
Qed.
End Auctions.

Section Invoices.
Context `{UUIDLib} {P : Type} `{PaymentGateway P}.
Import invoice invoice_repo invoice_repo_theory.

Definition one_invoice (id : uuid) (db db' : InvoiceDB) : Prop :=
  ∀ u, u ≠ id → db_invoices db' !! u = db_invoices db !! u.

Lemma publish_invoices es db : db_invoices (pg.publishDomainEvents es db).2 = db_invoices db.
Proof. unfold pg.publishDomainEvents, modify. simpl. by destruct (mapEvents _ _). Qed.

Lemma invoice_update_frame f id actor fn db :
  pg_ok db → one_invoice (InvoiceID_UUID id) db (pg.update f id actor fn db).2.
Proof.
  intros Hok. unfold pg.update.
  match goal with |- context [RunInTx f ?m db] =>
    destruct (RunInTx_after f m db) as [->| ->]; [done|] end.
  run_go. destruct (db_invoices db !! InvoiceID_UUID id) as [p|] eqn:E; [|run_go; done].
  destruct (Hok _ _ E) as (i & Hs & He & Hi & ->). rewrite inv_toDomain_toPg by done. simpl. run_go.
  match goal with |- context [if ?b then (Fail _, db) else _] => destruct b end; [done|].
  destruct (fn _) as [i'|e|p]; [|run_go; done..]. run_go.
  unfold pg.update_invoice. run_go. rewrite E. destruct (_ =? _); run_go; [|done].
  change (negb (1 =? 1)) with false. cbv iota. intros u Hu. rewrite publish_invoices.
  apply lookup_insert_ne. simpl. congruence.
Qed.

Lemma refund_after {S A} `{InvoiceRepository S} key (k : unit → M (S * P) A) (s : S) (p : P) :
  (∀ p', (k tt (s, p')).2.1 = s) → ((billing.refund key ≫= k) (s, p)).2.1 = s.
Proof.
  intros Hk. unfold billing.refund, on_error, billing.on_psp, mbind, GoM_bind. simpl.
  by destruct (gw_Refund key p) as [[[]| |] p'].
Qed.

(** The handler writes the invoice through [Update], if it gets that far, and
    does nothing for an invoice [Get] does not find. *)
Lemma pay_after {S} `{InvoiceRepository S} now cmd (s : S) (p : P) :
  let w' := (billing.PayInvoiceHandler now cmd (s, p)).2 in
  w' = (s, p) ∨
  ∃ i, inv_Get (billing.py_InvoiceID cmd) (billing.py_Payer cmd) s = Ok i ∧
    (w'.1 = s ∨ ∃ fn, w'.1 = (inv_Update (billing.py_InvoiceID cmd) (billing.py_Payer cmd) fn s).2).
Proof.
  intros w'. unfold w', billing.PayInvoiceHandler. clear w'.
  rewrite run_get, payment.run_attempt. unfold lift. cbn [fst].
  destruct (inv_Get _ _ s) as [i|e|m] eqn:E; [right; exists i; split; [done|]|by left..].
  destruct (i_status i); [by left| |by left|left; by apply refund_after..].
  rewrite payment.run_attempt. unfold billing.on_psp. cbn [fst snd].
  destruct (gw_Charge _ _ p) as [[ref|e|m] p']; [|by left..].
  rewrite payment.run_attempt. unfold billing.on_repo. cbn [fst snd].
  right. exists (closure (MarkPaid ref now)). destruct (inv_Update _ _ _ s) as [[x|e|m] s'] eqn:Eu; [done| |done].
  repeat case_match; [done|by apply refund_after|done].
Qed.

Lemma pay_frame f now ctx u db (p : P) :
  pg_ok db →
  let w' := (@billing.Http_PayInvoice _ _ (pg.repository f) _ now ctx u (db, p)).2 in
  w' = (db, p) ∨ ∃ user i, ctx = Some user
    ∧ pg.Get (mkInvoiceID u) (mkBidderID (auth.u_ID user)) db = Ok i ∧ one_invoice u db w'.1.
Proof.
  intros Hok w'. unfold w', billing.Http_PayInvoice. clear w'.
  destruct ctx as [user|]; [|by left]. unfold billing.actorFromCtx. simpl. unfold NewBidderID, NewInvoiceID.
  destruct (bool_decide (auth.u_ID user = uuid_Nil)); [by left|]. simpl. run_go.
  destruct (bool_decide (u = uuid_Nil)); [by left|]. simpl. run_go.
  destruct (@pay_after _ (pg.repository f) now
    (billing.mkPayInvoice (mkInvoiceID u) (mkBidderID (auth.u_ID user))) db p) as [->|(i & Hg & Hw)];
    [by left|right].
  exists user, i. split; [done|]. split; [exact Hg|].
  destruct Hw as [->|[fn ->]]; [done|]. by apply (invoice_update_frame f (mkInvoiceID u)).
Qed.
End Invoices.

Section Participants.
Context `{GoText} `{MailLib} `{UUIDLib}.
Import participant participant_repo.

Definition one_participant (id : string) : relation ParticipantDB := fun db db' =>
  ∀ u, u ≠ id → db_participants db' !! u = db_participants db !! u.
#[local] Instance one_participant_preorder id : PreOrder (one_participant id).
Proof. split; [done|]. intros x y z Hxy Hyz u Hu. by rewrite Hyz, Hxy. Qed.

Lemma publish_participants now es db :
  db_participants (pg.publishIntegrationEvents now es db).2 = db_participants db.
Proof.
  revert db. induction es as [|e es IH]; intros db; [done|]. cbn [pg.publishIntegrationEvents].
  unfold pg.publish. run_go. by rewrite IH.
Qed.

Lemma publish_within id now es : within (one_participant id) (pg.publishIntegrationEvents now es).
Proof. intros db u _. by rewrite publish_participants. Qed.

Lemma participant_update_within now id guard fn :
  within (one_participant (ParticipantID_String id)) (pg.update_tx now id guard fn).
Proof.
  unfold pg.update_tx, pg.update_participant. stay; try apply publish_within.
  apply within_modify. intros db u Hu. by apply lookup_insert_ne.
Qed.

Definition keeps_participants : relation ParticipantDB := fun db db' =>
  db_participants db ⊆ db_participants db'.
#[local] Instance keeps_participants_preorder : PreOrder keeps_participants.
Proof.
  split; unfold keeps_participants; [by intros x|]. intros x y z Hxy Hyz. by etrans.
Qed.

Lemma insert_within row : within keeps_participants (pg.insert_participant row).
Proof.
  intros db. unfold pg.insert_participant. run_go. destruct (negb _); [done|]. run_go.
  destruct (db_participants db !! row_ID row) eqn:E; [done|]. run_go.
  destruct (pg.email_taken row db); [done|]. by apply insert_subseteq.
Qed.

Lemma register_within f now id email name :
  within keeps_participants
    (@participant_app.Http_RegisterParticipant _ _ _ (pg.repository f) now id email name).
Proof.
  unfold participant_app.Http_RegisterParticipant, participant_app.RegisterParticipantHandler.
  stay. intros db. rewrite on_error_after. apply (within_tx keeps_participants f).
  unfold pg.add_tx. apply within_bind; [apply _|stay|intros status].
  apply within_bind; [apply _|apply insert_within|intros _].
  intros db'. unfold keeps_participants. by rewrite publish_participants.
Qed.

Lemma verify_frame f ctx now stamp raw db :
  let db' := (@participant_app.Http_VerifyParticipant _ _ (pg.repository f) ctx now stamp raw db).2 in
  db' = db ∨ ∃ user id, ctx = Some user ∧ auth.u_Role user = auth.RoleOperations
    ∧ NewParticipantID raw = Ok id ∧ one_participant (ParticipantID_String id) db db'.
Proof.
  intros db'. unfold db', participant_app.Http_VerifyParticipant. clear db'.
  destruct ctx as [user|]; [|by left]. cbn. run_go.
  destruct (bool_decide (auth.u_Role user ≠ _)) eqn:Er; run_go; [by left|].
  destruct (with_cause _ _) as [id|e|p] eqn:Ei; run_go; [|by left..].
  apply with_cause_ok in Ei. right. exists user, id. split; [done|]. split; [by breflect|]. split; [done|].
  unfold participant_app.VerifyParticipantHandler. rewrite on_error_after.
  apply (within_tx _ f), participant_update_within.
Qed.
End Participants.

Section Sagas.
Context {S A B : Type} `{SettlementRepository S} `{AuctionGateway A} `{BillingGateway B} `{UUIDLib}.
Import settlement saga.

(** The handler gets past its first call only for the runner-up of an open
    second-chance offer. *)
Lemma decline_handler_frame relist clk cmd (w : net S A B) :
  (run (DeclineSecondChanceOfferHandler relist clk cmd) w).2 = w
  ∨ ∃ s, st_Get (de_AuctionID cmd) (n_saga w) = Ok s
    ∧ s_runnerUp s = de_Actor cmd ∧ s_state s = StateSecondChancePayment.
Proof.
  unfold DeclineSecondChanceOfferHandler. rewrite prog_run_attempt. unfold get_saga. rewrite run_call.
  cbn [fst snd]. destruct (st_Get _ _) as [s|e|p]; [|by left..].
  destruct (DecideOnDecline s _) as [step|e|p] eqn:Ed; [right|by left..].
  exists s. split; [done|]. unfold DecideOnDecline, CanRunnerUpDecline in Ed.
  destruct (_ || _) eqn:Eg; [by repeat case_match|]. by breflect.
Qed.

Lemma decline_frame relist clk ctx u (w : net S A B) :
  let w' := (run (Http_DeclineSecondChanceOffer relist clk ctx u) w).2 in
  w' = w ∨ ∃ user s, ctx = Some user ∧ st_Get (mkAuctionID u) (n_saga w) = Ok s
    ∧ s_runnerUp s = mkBidderID (auth.u_ID user) ∧ s_state s = StateSecondChancePayment.
Proof.
  intros w'. unfold w', Http_DeclineSecondChanceOffer. clear w'.
  destruct ctx as [user|]; [|by left]. unfold NewBidderID, NewAuctionID.
  destruct (bool_decide (auth.u_ID user = uuid_Nil)) eqn:Eu.
  { left. cbn -[DeclineSecondChanceOfferHandler]. by rewrite Eu. }
  destruct (bool_decide (u = uuid_Nil)) eqn:Ea.
  { left. cbn -[DeclineSecondChanceOfferHandler]. by rewrite Eu. }
  cbn -[DeclineSecondChanceOfferHandler]. rewrite Eu. cbn -[DeclineSecondChanceOfferHandler].
  destruct (decline_handler_frame relist clk
    (mkDeclineSecondChanceOffer (mkAuctionID u) (mkBidderID (auth.u_ID user))) w) as [E|(s & Hg & Hr & Hs)];
    [by left|right; by exists user, s].
Qed.
End Sagas.

(** ** What an operation may change *)

Section Access.
Context `{UUIDLib} `{GoText} `{MailLib} {P : Type} `{PaymentGateway P} `{BindLib}.
Context (fa fb fp fs : TxFaults).

(** The Postgres repositories, with what their drivers answer meanwhile. *)
#[local] Instance auction_store : AuctionRepository auction_repo.AuctionDB :=
  auction_repo.pg.repository fa.
#[local] Instance billing_store : InvoiceRepository invoice_repo.InvoiceDB :=
  invoice_repo.pg.repository fb.
#[local] Instance participant_store : ParticipantRepository participant_repo.ParticipantDB :=
  participant_repo.pg.repository fp.
#[local] Instance saga_store : SettlementRepository settlement_repo.SettlementDB :=
  settlement_repo.pg.repository fs.

Abbreviation W := (backend P).
Implicit Types (w : W).

Definition auctions_of w : auction_repo.AuctionDB := projections.rd_write (be_auction w).

Definition only_auctions w w' : Prop :=
  w' = mkBackend (set_write (auctions_of w') (be_auction w)) (be_saga w) (be_billing w)
         (be_participants w) (be_psp w).
Definition only_participants w w' : Prop :=
  w' = mkBackend (be_auction w) (be_saga w) (be_billing w) (be_participants w') (be_psp w).

(** The change an operation can make, and for whom: a seller lists auctions of
    their own, and withdraws their own while nobody has bid; anybody but the
    seller bids; operations verify; debtors pay their invoices; the runner-up
    declines an offer that is open. *)
Definition permits (op : operation) (user : auth.User) (params : gmap string string) w w' : Prop :=
  let me := auth.u_ID user in
  let named name (Q : uuid → Prop) := ∃ id, bind_uuid (default "" (params !! name)) = Ok id ∧ Q id in
  let the_auction id (Q : auction.Auction → Prop) :=
    ∃ a, auction_repo.pg.Get (auction.mkAuctionID id) (auctions_of w) = Ok a ∧ Q a in
  match op with
  | ListAuction =>
      only_auctions w w' ∧ ∃ row,
        auction_repo.p_SellerID row = me
        ∧ auction_repo.db_auctions (auctions_of w) !! auction_repo.p_ID row = None
        ∧ auction_repo.db_auctions (auctions_of w')
          = <[auction_repo.p_ID row := row]> (auction_repo.db_auctions (auctions_of w))
  | PlaceBid =>
      only_auctions w w' ∧ named "auctionID" (fun id =>
        one_auction id (auctions_of w) (auctions_of w')
        ∧ the_auction id (fun a => auction.a_seller a ≠ auction.mkSellerID me))
  | CancelAuction =>
      only_auctions w w' ∧ named "auctionID" (fun id =>
        one_auction id (auctions_of w) (auctions_of w')
        ∧ the_auction id (fun a => auction.a_seller a = auction.mkSellerID me ∧ auction.HasBids a = false))
  | VerifyParticipant =>
      only_participants w w' ∧ auth.u_Role user = auth.RoleOperations
      ∧ ∃ id, one_participant id (be_participants w) (be_participants w')
  | PayInvoice =>
      w' = mkBackend (be_auction w) (be_saga w) (be_billing w') (be_participants w) (be_psp w')
      ∧ named "invoiceID" (fun id =>
          one_invoice id (be_billing w) (be_billing w')
          ∧ ∃ i, invoice_repo.pg.Get (invoice.mkInvoiceID id) (invoice.mkBidderID me) (be_billing w) = Ok i)
  | DeclineSecondChanceOffer =>
      w' = mkBackend (set_write (auctions_of w') (be_auction w)) (be_saga w') (be_billing w')
             (be_participants w) (be_psp w)
      ∧ named "auctionID" (fun id =>
          ∃ s, settlement_repo.pg.Get (settlement.mkAuctionID id) (be_saga w) = Ok s
            ∧ settlement.s_runnerUp s = settlement.mkBidderID me
            ∧ settlement.s_state s = settlement.StateSecondChancePayment)
  | _ => False
  end.

(** A registration leaves the other participants as they are. *)
Definition registers w w' : Prop :=
  only_participants w w'
  ∧ participant_repo.db_participants (be_participants w)
    ⊆ participant_repo.db_participants (be_participants w').

(** *** The operations *)

Context (rules : auction.ListingRules) (policy : invoice.CommissionPolicy) (term : invoice.PaymentTerm)
  (relist : settlement.RelistPolicy) (clocks : Now).
Context `{!Encoder Error}.
Context `{!Decoder auction_app.ListAuctionBody} `{!Decoder auction_app.PlaceBidBody}
  `{!Decoder participant_ports.RegisterParticipantRequest}.
Context `{!Encoder projections.CatalogPage} `{!Encoder projections.AuctionCardView}
  `{!Encoder projections.BidHistoryPage} `{!Encoder projections.DashboardView}
  `{!Encoder invoice_repo.InvoiceView} `{!Encoder (list invoice_repo.InvoiceView)}
  `{!Encoder saga.ApiSettlement} `{!Encoder participant_repo.ProfileView}.

Lemma given_after {T} report (v : result T) next w :
  (given report v next w).2 = w ∨ ∃ x, v = Ok x ∧ (given report v next w).2 = (next x w).2.
Proof. destruct v; [right; by eexists|by left..]. Qed.

Lemma decoded_after {T} `{!Decoder T} body next w :
  (decoded body next w).2 = w ∨ ∃ x : T, (decoded body next w).2 = (next x w).2.
Proof. unfold decoded. destruct (Decode body); [right; by eexists|by left..]. Qed.

Lemma created_after (m : M W string) w : (created m w).2 = (m w).2.
Proof. unfold created. by destruct (m w). Qed.
Lemma accepted_after (m : M W unit) w : (accepted m w).2 = (m w).2.
Proof. unfold accepted. by destruct (m w). Qed.

Lemma on_auction_after {A} (m : M auction_repo.AuctionDB A) w :
  (on_auction m w).2 =
    mkBackend (set_write (m (auctions_of w)).2 (be_auction w)) (be_saga w) (be_billing w)
      (be_participants w) (be_psp w).
Proof. unfold on_auction, auctions_of. by destruct (m _). Qed.

Lemma on_participants_after {A} (m : M participant_repo.ParticipantDB A) w :
  (on_participants m w).2 =
    mkBackend (be_auction w) (be_saga w) (be_billing w) (m (be_participants w)).2 (be_psp w).
Proof. unfold on_participants. by destruct (m _). Qed.

Lemma same_write w :
  mkBackend (set_write (auctions_of w) (be_auction w)) (be_saga w) (be_billing w) (be_participants w)
    (be_psp w) = w.
Proof. by destruct w as [[]]. Qed.

(** Past the parameters and the body of a command. *)
#[local] Ltac past_params :=
  repeat (match goal with
    | |- context [(given ?report ?v ?next ?w).2] =>
        destruct (given_after report v next w) as [->|(? & ? & ->)]; [by left|]
    | |- context [(decoded ?body ?next ?w).2] =>
        destruct (decoded_after body next w) as [->|(? & ->)]; [by left|]
    end; cbv beta).

Lemma on_auction_still {A} (m : M auction_repo.AuctionDB A) w :
  (m (auctions_of w)).2 = auctions_of w → (on_auction m w).2 = w.
Proof. intros E. rewrite on_auction_after, E. apply same_write. Qed.

Abbreviation after op user params query body w :=
  ((perform rules policy term relist clocks op (Some user) params query body w).2).

Lemma list_permits user params query body w :
  let w' := after ListAuction user params query body w in
  w' = w ∨ permits ListAuction user params w w'.
Proof.
  cbv zeta. cbn [perform]. past_params. rewrite created_after.
  match goal with |- context [auction_app.Http_ListAuction _ _ _ ?b] =>
    destruct (list_frame fa rules (now clocks) (Some user) b (auctions_of w))
      as [E|(u & row & [= <-] & Hs & Hn & Hdb)] end; [left; by apply on_auction_still|].
  right. rewrite on_auction_after. split; [done|]. by exists row.
Qed.

Lemma bid_permits user params query body w :
  auction_repo_theory.pg_ok (auctions_of w) →
  let w' := after PlaceBid user params query body w in
  w' = w ∨ permits PlaceBid user params w w'.
Proof.
  intros Hok. cbv zeta. cbn [perform]. past_params. rewrite created_after.
  match goal with |- context [auction_app.Http_PlaceBid ?ps _ _ ?a ?b] =>
    destruct (bid_frame fa ps (now clocks) (Some user) a b (auctions_of w) Hok)
      as [E|(u & auc & [= <-] & Hg & Hs & Hone)] end;
    [apply bidder_named|left; by apply on_auction_still|].
  right. rewrite on_auction_after. split; [done|]. eexists. split; [done|]. split; [done|]. by exists auc.
Qed.

Lemma cancel_permits user params query body w :
  auction_repo_theory.pg_ok (auctions_of w) →
  let w' := after CancelAuction user params query body w in
  w' = w ∨ permits CancelAuction user params w w'.
Proof.
  intros Hok. cbv zeta. cbn [perform]. past_params. rewrite accepted_after.
  match goal with |- context [auction_app.Http_CancelAuction _ _ ?a] =>
    destruct (cancel_frame fa (now clocks) (Some user) a (auctions_of w) Hok)
      as [E|(u & auc & [= <-] & Hg & Hs & Hb & Hone)] end; [left; by apply on_auction_still|].
  right. rewrite on_auction_after. split; [done|]. eexists. split; [done|]. split; [done|]. by exists auc.
Qed.

Lemma verify_permits user params query body w :
  let w' := after VerifyParticipant user params query body w in
  w' = w ∨ permits VerifyParticipant user params w w'.
Proof.
  cbv zeta. cbn [perform]. past_params. rewrite accepted_after, on_participants_after.
  match goal with |- context [participant_app.Http_VerifyParticipant _ _ _ ?a] =>
    destruct (verify_frame fp (Some user) (now clocks) (now_stamp clocks) a (be_participants w))
      as [E|(u & id & [= <-] & Hr & _ & Hone)] end.
  - left. unfold participant_store. rewrite E. by destruct w.
  - right. split; [done|]. split; [done|]. by eexists.
Qed.

Lemma pay_permits user params query body w :
  invoice_repo_theory.pg_ok (be_billing w) →
  let w' := after PayInvoice user params query body w in
  w' = w ∨ permits PayInvoice user params w w'.
Proof.
  intros Hok. cbv zeta. cbn [perform]. past_params. rewrite accepted_after. unfold on_billing.
  match goal with |- context [billing.Http_PayInvoice _ _ ?a] =>
    pose proof (pay_frame fb (now clocks) (Some user) a (be_billing w) (be_psp w) Hok) as Hp end.
  destruct (billing.Http_PayInvoice _ _ _ _) as [r [db p]]. cbn in Hp |- *.
  destruct Hp as [[= -> ->]|(u & i & [= <-] & Hg & Hone)]; [left; by destruct w|right].
  split; [done|]. eexists. split; [done|]. split; [done|]. by exists i.
Qed.

Lemma decline_permits user params query body w :
  let w' := after DeclineSecondChanceOffer user params query body w in
  w' = w ∨ permits DeclineSecondChanceOffer user params w w'.
Proof.
  cbv zeta. cbn [perform]. past_params. rewrite accepted_after. unfold on_contexts.
  match goal with |- context [run ?p ?n] =>
    match p with @saga.Http_DeclineSecondChanceOffer _ _ _ ?hs ?ha ?hb ?hu ?rl ?clk _ ?a =>
      pose proof (@decline_frame _ _ _ hs ha hb hu rl clk (Some user) a n) as Hp end end.
  destruct (run _ _) as [r [sg au bi]]. cbn in Hp |- *.
  destruct Hp as [[= -> -> ->]|(u & s & [= <-] & Hg & Hr & Hs)]; [left; apply same_write|right].
  split; [done|]. eexists. split; [done|]. by exists s.
Qed.

Lemma perform_permits op user params query body w :
  auction_repo_theory.pg_ok (auctions_of w) → invoice_repo_theory.pg_ok (be_billing w) →
  let w' := after op user params query body w in
  w' = w ∨ permits op user params w w'.
Proof.
  intros Ha Hi. destruct op;
    first [ by apply list_permits | by apply bid_permits | by apply cancel_permits
          | by apply verify_permits | by apply pay_permits | by apply decline_permits
          | cbv zeta; cbn [perform]; past_params; by left ].
Qed.

Lemma register_registers body w :
  let w' := (register clocks body w).2 in w' = w ∨ registers w w'.
Proof.
  cbv zeta. unfold register. past_params. rewrite created_after, on_participants_after. right.
  split; [done|]. apply (register_within fp).
Qed.

(** *** Requests *)

Context `{EL : EdgeLib W} `{!EdgeLaws W} `{ML : MuxLib W} `{!MuxLaws W} `{auth.JWTLib}.

(** What a request may change: nothing, what the operation it asks for permits
    the user its token names, or a registration. *)
Definition allowed secret (r : Request) w w' : Prop :=
  w' = w
  ∨ (∃ user op params,
       auth.userFromRequest secret (now clocks) (Header_Get "Authorization" (rq_header r)) = Ok user
       ∧ asks r = Some (op, params) ∧ permits op user params w w')
  ∨ (registering r = true ∧ registers w w').

Lemma readyz_still (readiness : list (ReadinessProbe (S := W))) h w : (readyz readiness h w).2 = w.
Proof.
  induction readiness as [|probe readiness IH]; [done|]. cbn. by destruct (probe_Check probe w).
Qed.

Lemma root_allowed crash secret readiness r h w rsp :
  secured h → "" ∉ tail (segments (rq_path r)) →
  let out := RegisterHealthEndpoints readiness (chi_Mux "" (public_routes clocks)) r h w in
  match out.1 with Some rsp' => rsp = rsp' | None => rs_status rsp = crash end →
  allowed secret r w out.2.
Proof.
  intros Hs Hc out Hrsp. unfold out, RegisterHealthEndpoints in *. clear out.
  destruct (_ && _); [by left|]. destruct (_ && _); [left; apply readyz_still|].
  pose proof (public_answers clocks _ r h w rsp _ Hs eq_refl Hrsp) as Ha.
  destruct (registering r) eqn:Hr; [|left; by destruct (Ha Hc)].
  destruct Ha as [-> _]. destruct (register_registers (rq_body r) w) as [->|]; [by left|].
  right; right. by split.
Qed.

Lemma api_allowed crash secret r user r' h w rsp :
  auction_repo_theory.pg_ok (auctions_of w) → invoice_repo_theory.pg_ok (be_billing w) →
  secured h → "" ∉ tail (segments (rq_path r)) →
  auth.userFromRequest secret (now clocks) (Header_Get "Authorization" (rq_header r)) = Ok user →
  bare r' = bare (with_user (Some user) r) →
  let out := chi_Mux "/api" (api_routes rules policy term relist clocks) r' h w in
  match out.1 with Some rsp' => rsp = rsp' | None => rs_status rsp = crash end →
  allowed secret r w out.2.
Proof.
  intros Hok Hiv Hs Hc Hu Hb out Hrsp.
  pose proof (api_answers rules policy term relist clocks _ r' h w rsp _ Hs eq_refl Hrsp) as Ha.
  unfold bare in Hb. injection Hb as Hm Hp Hq Hbd _ Hus.
  unfold asks in Ha. rewrite Hm, Hp, Hq, Hbd, Hus in Ha. cbn [rq_user with_user] in Ha.
  fold (asks r) in Ha. destruct (asks r) as [[op params]|] eqn:Hr.
  - destruct Ha as [Ew _]. fold out in Ew. rewrite Ew.
    destruct (perform_permits op user params (rq_query r) (rq_body r) w Hok Hiv) as [->|Hperm]; [by left|].
    right; left. exists user, op, params. by rewrite Hr.
  - left. unfold unrouted in Ha. rewrite Hp in Ha. by destruct (Ha Hc).
Qed.

(** C3: who may change what through the API.  Over the Postgres repositories of
    the contexts, whatever their drivers answer to a transaction, every request is
    answered and changes nothing, unless it carries a valid token, asks for a command, and
    the change is one the command permits the user the token names: a listing
    adds one auction, the user's own; a bid touches one auction, which the user
    does not sell; a cancellation one the user sells and nobody has bid on; a
    verification one participant, for operations only; a payment one invoice of
    the user's, and the provider; a decline needs the runner-up of an open
    offer.  Without a token only a registration changes anything, and it leaves
    the other participants as they are. *)
Theorem api_access secret mw readiness r w :
  auth.NewMiddleware auth.ModeLocalHS256 secret = Ok mw →
  auction_repo_theory.pg_ok (auctions_of w) → invoice_repo_theory.pg_ok (be_billing w) →
  "" ∉ tail (segments (rq_path r)) →
  ∃ rsp w',
    HTTPHandler rules policy term relist clocks mw readiness r ∅ w = (Some rsp, w') ∧
    allowed secret r w w'.
Proof.
  intros Hmw Hok Hiv Hc. apply hs256_middleware in Hmw as ->. unfold HTTPHandler.
  set (root := RegisterHealthEndpoints _ _). set (api := chi_Mux "/api" _).
  destruct (preflight r) eqn:Hp.
  { destruct (edge_preflight (authenticate (auth.hs256Middleware secret) (now clocks)) root api r w Hp)
      as (rsp & HR & _). exists rsp, w. split; [done|by left]. }
  destruct (edge_inner (authenticate (auth.hs256Middleware secret) (now clocks)) root api r w Hp)
    as (h & rsp & Hs & HR & Hrsp).
  eexists rsp, _. split; [exact HR|]. destruct (under_api (rq_path r)); [|by eapply root_allowed].
  destruct (api_stack_next (auth.hs256Middleware secret) (now clocks) api r h w Hs) as (h1 & Hs1 & Ha).
  unfold auth.hs256Middleware in Ha at 1.
  destruct (auth.userFromRequest secret (now clocks) _) as [user|e|p] eqn:Hu.
  - destruct Ha as (r' & Hb & E). rewrite E in *. by eapply api_allowed.
  - rewrite Ha in *. by left.
  - rewrite Ha in *. by left.
Qed.
End Access.

#[local] Existing Instances demo_uuid.lib participant_theory.demo_text.text
  participant_theory.demo_text.mail demo_EdgeLib demo_EdgeLaws demo_MuxLib demo_MuxLaws demo_bind
  demo_encoder auth.demo_jwt billing.fake_gateway demo_list_body demo_bid_body demo_register_body
  demo_auctions demo_invoices demo_participants demo_sagas.

(** A bid in the name of the token's user; without the token it changes
    nothing. *)
Lemma api_access_witness :
  let serve r := demo_handler r ∅ demo_backend in
  let bid := demo_bid "/api/auctions/1/bids" "bid" in
  let anonymous := mkRequest "POST" "/api/auctions/1/bids" ∅ ∅ "bid" None ∅ in
  (∃ rsp w', serve bid = (Some rsp, w') ∧
     one_auction 1 (auctions_of demo_backend) (auctions_of w')) ∧
  (∃ rsp, serve anonymous = (Some rsp, demo_backend)).
Proof.
  intros serve bid anonymous.
  assert (auction_repo_theory.pg_ok (auctions_of demo_backend)) as Hok
    by exact auction_repo_theory.demo_pg_ok.
  assert (invoice_repo_theory.pg_ok (be_billing demo_backend)) as Hiv by (intros u p E; done).
  pose proof (fun r => api_access no_faults no_faults no_faults no_faults auction_theory.demo.rules
    (invoice.mkCommissionPolicy 500) (invoice.mkPaymentTerm (72 * 3600 * Second))
    (settlement.mkRelistPolicy (3600 * Second) (24 * 3600 * Second)) demo_now "s3cret"
    (auth.hs256Middleware "s3cret") [] r demo_backend eq_refl Hok Hiv) as H.
  assert (asks bid = Some (PlaceBid, {[ "auctionID" := "1" ]})) as Hasks by (vm_compute; reflexivity).
  split.
  - destruct (H bid) as (rsp & w' & E & Ha); [apply (bool_decide_unpack _); vm_compute; exact I|].
    exists rsp, w'. split; [exact E|].
    destruct Ha as [->|[(user & op & params & _ & Hop & Hp)|[F _]]]; [done| |by vm_compute in F].
    rewrite Hasks in Hop. injection Hop as <- <-. destruct Hp as [_ (id & Hid & Hone & _)].
    vm_compute in Hid. by injection Hid as <-.
  - destruct (H anonymous) as (rsp & w' & E & Ha); [apply (bool_decide_unpack _); vm_compute; exact I|].
    exists rsp. destruct Ha as [->|[(user & op & params & F & _)|[F _]]]; [exact E|by vm_compute in F..].
Defined.
End api_access.
