(* ===== verification/SettlementRepoTheory.v ===== *)
(** * Properties of the storage of the saga state

    The round trip between a saga and its row, the laws of the repository
    interface, and their proof for both repositories. *)

From stdpp Require Import base numbers list strings gmap fin_maps.
From Stdlib Require Import ZArith Lia.
From S2P Require Import Prelude DemoUUID Errs Postgres SettlementDomain SettlementRepo.

Module settlement_repo_theory.
Import settlement settlement_repo.
Local Open Scope Z_scope.

(** ** What a row can hold *)

Record storable (s : Settlement) : Prop := {
  so_auction : s_auctionID s ≠ zero_value;
  so_state : s_state s ≠ StateZero;
  so_winner : s_winner s ≠ zero_value;
  so_currency : NewCurrency (c_code (m_currency (s_hammer s))) = Ok (m_currency (s_hammer s));
  so_hammer : 0 ≤ m_amount (s_hammer s);
  so_runnerUp : (s_runnerUp s = zero_value ∧ s_runnerUpAmount s = zero_value)
    ∨ (s_runnerUp s ≠ zero_value ∧ 0 ≤ m_amount (s_runnerUpAmount s)
       ∧ m_currency (s_runnerUpAmount s) = m_currency (s_hammer s));
  so_attempt : s_attempt s = 1 ∨ s_attempt s = 2;
  so_version : 1 ≤ s_version s;
}.

Lemma saga_NewCurrency_nonzero s c : NewCurrency s = Ok c → c ≠ zero_value.
Proof.
  unfold NewCurrency. intros H. repeat (case_match; [done|]). injection H as <-.
  intros E. injection E as ->. done.
Qed.

Lemma saga_NewMoney_Ok n c : c ≠ zero_value → 0 ≤ n → NewMoney n c = Ok (mkMoney n c).
Proof.
  intros Hc Hn. unfold NewMoney. by rewrite (proj2 (IsZero_false _) Hc), (proj2 (Z.ltb_ge _ 0) Hn).
Qed.

Lemma saga_NewAuctionID_Ok i : i ≠ zero_value → NewAuctionID (AuctionID_UUID i) = Ok i.
Proof.
  destruct i as [u]. intros Hz. unfold NewAuctionID. case_bool_decide as E; [|done].
  simpl in E. by subst.
Qed.
Lemma saga_NewBidderID_Ok i : i ≠ zero_value → NewBidderID (BidderID_UUID i) = Ok i.
Proof.
  destruct i as [u]. intros Hz. unfold NewBidderID. case_bool_decide as E; [|done].
  simpl in E. by subst.
Qed.
Lemma saga_NewInvoiceID_Ok i : i ≠ zero_value → NewInvoiceID (InvoiceID_UUID i) = Ok i.
Proof.
  destruct i as [u]. intros Hz. unfold NewInvoiceID. case_bool_decide as E; [|done].
  simpl in E. by subst.
Qed.
Lemma NewState_Ok s : s ≠ StateZero → NewStateFromString (State_String s) = Ok s.
Proof. by destruct s. Qed.
Lemma NewReason_Ok r : r ≠ ReasonZero →
  NewFailureReasonFromString (FailureReason_String r) = Ok r.
Proof. by destruct r. Qed.

(** A column that is null exactly when the value is the zero value. *)
Lemma nullable_roundtrip {X Y} `{GoZero X, EqDecision X} (show : X → Y) (mk : Y → result X) msg x :
  (x ≠ zero_value → mk (show x) = Ok x) →
  match (if IsZero x then None else Some (show x)) with
  | Some y => wrap_err msg (mk y)
  | None => Ok zero_value
  end = Ok x.
Proof.
  intros Hx. destruct (IsZero x) eqn:Hz; breflect; [by rewrite Hz|]. by rewrite Hx.
Qed.

Lemma runnerUp_roundtrip s :
  storable s →
  match p_RunnerUpID (toPgSettlement s) with
  | Some id =>
      runnerUp ← wrap_err "invalid runner-up id in db" (NewBidderID id);
      amount ← wrap_err "invalid runner-up amount in db"
        (NewMoney (default 0 (p_RunnerUpMinor (toPgSettlement s))) (m_currency (s_hammer s)));
      Ok (runnerUp, amount)
  | None => Ok (zero_value : BidderID, zero_value : Money)
  end = (Ok (s_runnerUp s, s_runnerUpAmount s) : result (BidderID * Money)).
Proof.
  intros Hs. unfold toPgSettlement; cbn [p_RunnerUpID p_RunnerUpMinor].
  destruct (so_runnerUp s Hs) as [[Hr Ha]|(Hr & Ha & Hc)].
  - by rewrite (proj2 (IsZero_true _) Hr), Hr, Ha.
  - rewrite (proj2 (IsZero_false _) Hr). rewrite saga_NewBidderID_Ok by done. simpl.
    rewrite saga_NewMoney_Ok; [|by eapply saga_NewCurrency_nonzero, so_currency|done].
    simpl. rewrite <-Hc. by destruct (s_runnerUpAmount s).
Qed.

Lemma storable_hammer_nonzero s : storable s → s_hammer s ≠ zero_value.
Proof.
  intros Hs E. pose proof (so_currency s Hs) as Hc. by rewrite E in Hc.
Qed.

Lemma saga_Unmarshal_Ok s : storable s → ∀ v, 1 ≤ v →
  UnmarshalFromDatabase (s_auctionID s) (s_state s) (s_winner s) (s_hammer s) (s_runnerUp s)
    (s_runnerUpAmount s) (s_runnerUpQualifies s) (s_relistGen s) (s_attempt s) (s_invoiceID s)
    (s_failureReason s) v
  = Ok (mkSettlement (s_auctionID s) (s_state s) (s_winner s) (s_hammer s) (s_runnerUp s)
    (s_runnerUpAmount s) (s_runnerUpQualifies s) (s_relistGen s) (s_attempt s) (s_invoiceID s)
    (s_failureReason s) v).
Proof.
  intros Hs v Hv. unfold UnmarshalFromDatabase.
  rewrite (proj2 (IsZero_false _) (so_auction s Hs)), (proj2 (IsZero_false _) (so_state s Hs)),
    (proj2 (IsZero_false _) (so_winner s Hs)),
    (proj2 (IsZero_false _) (storable_hammer_nonzero s Hs)), (proj2 (Z.ltb_ge _ _) Hv).
  by destruct (so_attempt s Hs) as [-> | ->].
Qed.

Lemma saga_toDomain_toPg s : storable s → toDomainSettlement (toPgSettlement s) = Ok s.
Proof.
  intros Hs. pose proof (saga_NewCurrency_nonzero _ _ (so_currency s Hs)) as Hnz.
  pose proof (runnerUp_roundtrip s Hs) as Hru.
  unfold toDomainSettlement.
  cbn [toPgSettlement p_AuctionID p_State p_WinnerID p_Currency p_HammerMinor].
  rewrite saga_NewAuctionID_Ok by apply Hs; cbn.
  rewrite NewState_Ok by apply Hs; cbn. rewrite saga_NewBidderID_Ok by apply Hs; cbn.
  rewrite (so_currency s Hs); cbn.
  rewrite (saga_NewMoney_Ok (m_amount (s_hammer s))) by (done || apply Hs); cbn.
  cbn in Hru. rewrite Hru; cbn.
  rewrite (nullable_roundtrip InvoiceID_UUID NewInvoiceID) by apply saga_NewInvoiceID_Ok; cbn.
  rewrite (nullable_roundtrip FailureReason_String NewFailureReasonFromString)
    by apply NewReason_Ok; cbn.
  assert (mkMoney (m_amount (s_hammer s)) (m_currency (s_hammer s)) = s_hammer s) as ->
    by (by destruct (s_hammer s)).
  rewrite (saga_Unmarshal_Ok s Hs _ (so_version s Hs)). by destruct s.
Qed.

(** ** The laws of the interface *)

Definition set_version (v : Z) (s : Settlement) : Settlement :=
  mkSettlement (s_auctionID s) (s_state s) (s_winner s) (s_hammer s) (s_runnerUp s)
    (s_runnerUpAmount s) (s_runnerUpQualifies s) (s_relistGen s) (s_attempt s)
    (s_invoiceID s) (s_failureReason s) v.

(** The saga a successful update leaves in the store. *)
Definition bumped (s : Settlement) : Settlement := set_version (s_version s + 1) s.

(** What an update closure may return for the saga [s]: the methods write
    the state, the winner, the attempt, the invoice and the reason. *)
Definition admissible (s s' : Settlement) : Prop :=
  ∃ st w n inv r, st ≠ StateZero ∧ w ≠ zero_value ∧ (n = 1 ∨ n = 2)
    ∧ s_version s < int64_max
    ∧ s' = set_failureReason r (set_invoiceID inv (set_attempt n (set_winner w (set_state st s)))).

Class SettlementRepositoryLaws (S : Type) `{SettlementRepository S} := {
  st_ok : S → Prop;
  st_view : S → gmap AuctionID Settlement;
  st_view_ok : ∀ s id x, st_ok s → st_view s !! id = Some x → storable x ∧ s_auctionID x = id;
  st_Get_Some : ∀ s id x, st_ok s → st_view s !! id = Some x → st_Get id s = Ok x;
  st_Get_None : ∀ s id, st_ok s → st_view s !! id = None →
    st_Get id s = Fail (SettlementNotFoundError (AuctionID_UUID id));
  st_Add_exists : ∀ s x, st_ok s → is_Some (st_view s !! s_auctionID x) →
    st_Add x s = (Ok tt, s);
  st_Add_new : ∀ s x, st_ok s → storable x → st_view s !! s_auctionID x = None →
    ∃ s', st_Add x s = (Ok tt, s') ∧ st_ok s'
          ∧ st_view s' = <[s_auctionID x := x]> (st_view s);
  st_Update_missing : ∀ s id fn, st_ok s → st_view s !! id = None →
    st_Update id fn s = (Fail (SettlementNotFoundError (AuctionID_UUID id)), s);
  st_Update_fail : ∀ s id x fn e, st_ok s → st_view s !! id = Some x → fn x = Fail e →
    st_Update id fn s = (Fail e, s);
  st_Update_ok : ∀ s id x x' fn, st_ok s → st_view s !! id = Some x → fn x = Ok x' →
    admissible x x' →
    ∃ s', st_Update id fn s = (Ok tt, s') ∧ st_ok s'
          ∧ st_view s' = <[id := bumped x']> (st_view s);
}.

Lemma saga_storable_admissible s s' :
  storable s → admissible s s' → storable (bumped s').
Proof.
  intros [] (st & w & n & inv & r & Hst & Hw & Hn & _ & ->). constructor; simpl; try done. lia.
Qed.

Lemma admissible_id s s' : admissible s s' → s_auctionID s' = s_auctionID s.
Proof. by intros (? & ? & ? & ? & ? & _ & _ & _ & _ & ->). Qed.

(** ** The in-memory repository satisfies them *)

Definition saga_mem_ok (r : SettlementInMemoryRepository) : Prop :=
  ∀ id s, byAuction r !! id = Some s → storable s ∧ s_auctionID s = id.

Lemma saga_mem_ok_put r s : saga_mem_ok r → storable s → saga_mem_ok (inmem.put (s_auctionID s) s r).
Proof.
  intros Hr Hs id x. simpl. rewrite lookup_insert_Some. intros [[<- <-]|[_ Hx]]; auto.
Qed.

Lemma inmem_update_run r id x x' fn :
  saga_mem_ok r → byAuction r !! id = Some x → fn x = Ok x' → admissible x x' →
  inmem.Update id fn r = (Ok tt, inmem.put id (bumped x') r).
Proof.
  intros Hr Hl Hfn Had. destruct (Hr _ _ Hl) as [Hx _].
  pose proof (saga_storable_admissible _ _ Hx Had) as Hs.
  destruct Had as (st & w & n & inv & rs & Hst & Hw & Hn & Hv & ->).
  unfold inmem.Update. run_go. rewrite Hl. run_go. rewrite Hfn. run_go.
  pose proof (so_version x Hx). rewrite wrap64_small; cbn [s_version set_failureReason set_invoiceID set_attempt
    set_winner set_state].
  2:{ unfold in_int64, int64_min in *. lia. }
  pose proof (saga_Unmarshal_Ok _ Hs (s_version x + 1)) as Hu. cbn in Hu |- *.
  rewrite Hu by lia. done.
Qed.

#[export] Instance saga_inmem_laws :
  @SettlementRepositoryLaws SettlementInMemoryRepository inmem.repository.
Proof.
  refine {| st_ok := saga_mem_ok; st_view := byAuction |}; simpl.
  - auto.
  - intros s id x _ Hl. unfold inmem.Get. by rewrite Hl.
  - intros s id _ Hl. unfold inmem.Get. by rewrite Hl.
  - intros s x _ [y Hl]. unfold inmem.Add. run_go. by rewrite Hl.
  - intros s x Hs Hx Hl. exists (inmem.put (s_auctionID x) x s). unfold inmem.Add. run_go.
    rewrite Hl. split_and!; [done|by apply saga_mem_ok_put|done].
  - intros s id fn _ Hl. unfold inmem.Update. run_go. by rewrite Hl.
  - intros s id x fn e _ Hl Hfn. unfold inmem.Update. run_go. rewrite Hl. run_go. by rewrite Hfn.
  - intros s id x x' fn Hs Hl Hfn Had. exists (inmem.put id (bumped x') s).
    split_and!; [by eapply inmem_update_run| |done].
    destruct (Hs _ _ Hl) as [Hx Hid]. rewrite <-Hid.
    pose proof (admissible_id _ _ Had) as Hid'.
    change (s_auctionID x') with (s_auctionID (bumped x')) in Hid'. rewrite <-Hid'.
    apply saga_mem_ok_put; [done|by eapply saga_storable_admissible].
Defined.

(** ** The Postgres repository satisfies them *)

Definition saga_pg_ok (db : SettlementDB) : Prop :=
  ∀ u p, db_settlements db !! u = Some p →
    ∃ s, storable s ∧ AuctionID_UUID (s_auctionID s) = u ∧ p = toPgSettlement s.

Definition saga_ok_option {A} (r : result A) : option A :=
  match r with Ok a => Some a | _ => None end.

Definition saga_pg_view (db : SettlementDB) : gmap AuctionID Settlement :=
  kmap mkAuctionID (omap (fun p => saga_ok_option (toDomainSettlement p)) (db_settlements db)).

#[local] Instance saga_mkAuctionID_inj : Inj eq eq mkAuctionID.
Proof. by intros ? ? [=]. Qed.

Lemma saga_AuctionID_eta i : mkAuctionID (AuctionID_UUID i) = i.
Proof. by destruct i. Qed.

Lemma saga_pg_lookup db id :
  saga_pg_ok db →
  (db_settlements db !! AuctionID_UUID id = None ∧ saga_pg_view db !! id = None)
  ∨ ∃ s, db_settlements db !! AuctionID_UUID id = Some (toPgSettlement s)
      ∧ saga_pg_view db !! id = Some s ∧ storable s ∧ s_auctionID s = id.
Proof.
  intros Hok. unfold saga_pg_view.
  rewrite <-(saga_AuctionID_eta id), lookup_kmap, lookup_omap by apply _. simpl.
  destruct (db_settlements db !! _) as [p|] eqn:E; [right|by left].
  destruct (Hok _ _ E) as (s & Hs & Hid & ->). exists s. simpl.
  rewrite saga_toDomain_toPg by done. split_and!; [done..|].
  by rewrite <-Hid, saga_AuctionID_eta.
Qed.

Lemma saga_pg_put db s tr :
  saga_pg_ok db → storable s →
  let db' := mkSettlementDB (<[AuctionID_UUID (s_auctionID s) := toPgSettlement s]>
                               (db_settlements db)) tr in
  saga_pg_ok db' ∧ saga_pg_view db' = <[s_auctionID s := s]> (saga_pg_view db).
Proof.
  intros Hok Hs. split.
  - intros u p. simpl. rewrite lookup_insert_Some. intros [[<- <-]|[_ Hl]]; eauto.
  - unfold saga_pg_view; simpl.
    rewrite (omap_insert_Some _ _ _ _ s) by (by rewrite saga_toDomain_toPg).
    by rewrite kmap_insert, saga_AuctionID_eta by apply _.
Qed.

(** The row a committed update leaves. *)
Lemma saga_update_columns x x' :
  admissible x x' →
  pg.update_columns (toPgSettlement x') (toPgSettlement x) = toPgSettlement (bumped x').
Proof. by intros (? & ? & ? & ? & ? & _ & _ & _ & _ & ->). Qed.

Lemma saga_update_tx_run db id x x' fn :
  saga_pg_ok db → saga_pg_view db !! id = Some x → fn x = Ok x' → admissible x x' →
  pg.update_tx id fn db =
    (Ok (State_String (s_state x), State_String (s_state x'),
         FailureReason_String (s_failureReason x')),
     mkSettlementDB (<[AuctionID_UUID id := toPgSettlement (bumped x')]> (db_settlements db))
       (db_transitions db)).
Proof.
  intros Hok Hl Hfn Had.
  destruct (saga_pg_lookup db id Hok) as [[_ ?]|(s & Hrow & Hv & Hs & Hid)]; [congruence|].
  rewrite Hl in Hv. injection Hv as <-.
  unfold pg.update_tx. run_go. rewrite Hrow. run_go. rewrite saga_toDomain_toPg by done.
  cbn [wrap_err]. rewrite Hfn. unfold pg.update_settlement. run_go.
  cbn [p_AuctionID toPgSettlement]. rewrite (admissible_id _ _ Had), Hid, Hrow.
  cbn [p_Version toPgSettlement]. rewrite Z.eqb_refl. run_go.
  rewrite saga_update_columns by done. unfold pg.put_row. cbn [toPgSettlement p_AuctionID].
  cbn [bumped set_version s_auctionID]. by rewrite (admissible_id _ _ Had), Hid.
Qed.

#[export] Instance saga_pg_laws : @SettlementRepositoryLaws SettlementDB (pg.repository no_faults).
Proof.
  refine {| st_ok := saga_pg_ok; st_view := saga_pg_view |}; simpl.
  - intros s id x Hs Hl. destruct (saga_pg_lookup s id Hs) as [[_ ?]|(y & _ & Hv & Hy & Hid)];
      [congruence|]. rewrite Hl in Hv. injection Hv as <-. done.
  - intros s id x Hs Hl. unfold pg.Get.
    destruct (saga_pg_lookup s id Hs) as [[_ ?]|(y & -> & Hv & Hy & Hid)]; [congruence|].
    rewrite saga_toDomain_toPg by done. simpl. congruence.
  - intros s id Hs Hl. unfold pg.Get.
    destruct (saga_pg_lookup s id Hs) as [[-> _]|(y & _ & Hv & _)]; [done|congruence].
  - intros s x Hs [y Hl]. unfold pg.Add. run_go. cbn [toPgSettlement p_AuctionID].
    destruct (saga_pg_lookup s (s_auctionID x) Hs) as [[_ ?]|(z & -> & _)]; [congruence|done].
  - intros s x Hs Hx Hl. unfold pg.Add. run_go. cbn [toPgSettlement p_AuctionID].
    destruct (saga_pg_lookup s (s_auctionID x) Hs) as [[-> _]|(z & _ & ? & _)]; [|congruence].
    eexists. split; [done|]. by apply saga_pg_put.
  - intros s id fn Hs Hl. unfold pg.Update. run_go. unfold mbind, GoM_bind.
    rewrite RunInTx_no_faults. unfold pg.update_tx. run_go.
    destruct (saga_pg_lookup s id Hs) as [[-> _]|(y & _ & Hv & _)]; [done|congruence].
  - intros s id x fn e Hs Hl Hfn. unfold pg.Update. unfold mbind at 1, GoM_bind at 1.
    rewrite RunInTx_no_faults. unfold pg.update_tx. run_go.
    destruct (saga_pg_lookup s id Hs) as [[_ ?]|(y & -> & Hv & Hy & _)]; [congruence|].
    rewrite Hl in Hv. injection Hv as <-. run_go. rewrite saga_toDomain_toPg by done.
    cbn [wrap_err].
    by rewrite Hfn.
  - intros s id x x' fn Hs Hl Hfn Had. unfold pg.Update. unfold mbind, GoM_bind.
    rewrite RunInTx_no_faults, (saga_update_tx_run s id x x') by done. cbn [fst snd].
    destruct (saga_pg_lookup s id Hs) as [[_ ?]|(y & _ & Hv & Hy & Hid)]; [congruence|].
    rewrite Hl in Hv. injection Hv as <-.
    pose proof (saga_storable_admissible _ _ Hy Had) as Hb.
    assert (id = s_auctionID (bumped x')) as -> by (cbn; by rewrite (admissible_id _ _ Had)).
    case_bool_decide; (eexists; split; [reflexivity|]); by apply saga_pg_put.
Defined.
End settlement_repo_theory.
