(* ===== verification/SagaTheory.v ===== *)
(** * The saga against its gateways

    What the settlement saga expects of the auction and billing contexts, as
    laws of the two gateways; the well-formedness of a saga, the order its
    transitions follow, and what each state says of the other contexts. *)

From stdpp Require Import base numbers list strings gmap fin_maps.
From Stdlib Require Import ZArith Lia.
From S2P Require Import Prelude Errs Auth Postgres Events Processes SettlementDomain SettlementRepo Settlement SettlementRepoTheory.

Module saga_theory.
Import settlement settlement_repo saga settlement_repo_theory.
Local Open Scope Z_scope.

(** ** The contracts of the gateways *)

(** The facts about a sale a saga may rely on: they hold for ever once they
    hold. *)
Record SaleFacts (A : Type) := {
  sf_awarded : A → AuctionID → Prop;
  sf_settled : A → AuctionID → Prop;
  sf_failed : A → AuctionID → Prop;
  sf_relisted : A → AuctionID → AuctionID → Prop;
}.
Arguments sf_awarded {_} _ _ _.
Arguments sf_settled {_} _ _ _.
Arguments sf_failed {_} _ _ _.
Arguments sf_relisted {_} _ _ _ _.

Record sale_le {A} (F : SaleFacts A) (a a' : A) : Prop := {
  sl_awarded : ∀ id, sf_awarded F a id → sf_awarded F a' id;
  sl_settled : ∀ id, sf_settled F a id → sf_settled F a' id;
  sl_failed : ∀ id, sf_failed F a id → sf_failed F a' id;
  sl_relisted : ∀ id new, sf_relisted F a id new → sf_relisted F a' id new;
}.

#[export] Instance sale_le_preorder {A} (F : SaleFacts A) : PreOrder (sale_le F).
Proof. split; [by split|]. intros a b c [] []. split; auto. Qed.

Record BillFacts (B : Type) := {
  bf_billed : B → InvoiceID → Prop;
  bf_paid : B → InvoiceID → Prop;
  bf_closed : B → InvoiceID → Prop;
}.
Arguments bf_billed {_} _ _ _.
Arguments bf_paid {_} _ _ _.
Arguments bf_closed {_} _ _ _.

Record bill_le {B} (F : BillFacts B) (b b' : B) : Prop := {
  bl_billed : ∀ i, bf_billed F b i → bf_billed F b' i;
  bl_paid : ∀ i, bf_paid F b i → bf_paid F b' i;
  bl_closed : ∀ i, bf_closed F b i → bf_closed F b' i;
}.

#[export] Instance bill_le_preorder {B} (F : BillFacts B) : PreOrder (bill_le F).
Proof. split; [by split|]. intros a b c [] []. split; auto. Qed.

(** A call keeps the invariant and the facts, and establishes [post] when it
    returns nil. *)
Definition keeps {W} (inv : W → Prop) (le : W → W → Prop) (m : M W unit) (post : W → Prop)
    (w : W) : Prop :=
  inv (m w).2 ∧ le w (m w).2 ∧ ((m w).1 = Ok tt → post (m w).2).

(** A call that returned nil may be repeated: before its effect was seen it
    would succeed at any other time, and afterwards it does nothing. *)
Definition repeatable {W} (m m' : M W unit) (w : W) : Prop :=
  ∀ w1, m w = (Ok tt, w1) → is_ok (m' w).1 = true ∧ m' w1 = (Ok tt, w1).

(** A relist window a clock reading [now] accepts. *)
Definition open_window (now startsAt endsAt : Time) : Prop :=
  0 < startsAt ∧ startsAt < endsAt ∧ now < endsAt.

Class AuctionGatewayLaws (A : Type) `{AuctionGateway A} := {
  ag_inv : A → Prop;
  ag_fits : A → Prop;
  ag_facts : SaleFacts A;
  ag_settled_failed : ∀ a id, ag_inv a → sf_settled ag_facts a id → ¬ sf_failed ag_facts a id;
  ag_Award_spec : ∀ now id a, ag_inv a → ag_fits a →
    keeps ag_inv (sale_le ag_facts) (ag_AwardToRunnerUp now id)
      (fun a' => sf_awarded ag_facts a' id) a;
  ag_Confirm_spec : ∀ now id a, ag_inv a → ag_fits a →
    keeps ag_inv (sale_le ag_facts) (ag_ConfirmSettlement now id)
      (fun a' => sf_settled ag_facts a' id) a;
  ag_Fail_spec : ∀ now id r a, ag_inv a → ag_fits a →
    keeps ag_inv (sale_le ag_facts) (ag_MarkSaleFailed now id r)
      (fun a' => sf_failed ag_facts a' id) a;
  ag_Relist_spec : ∀ now id new st e a, ag_inv a → 0 < st →
    keeps ag_inv (sale_le ag_facts) (ag_Relist now id new st e)
      (fun a' => sf_relisted ag_facts a' id new) a;
  ag_Award_again : ∀ now now' id a, ag_inv a → ag_fits a →
    repeatable (ag_AwardToRunnerUp now id) (ag_AwardToRunnerUp now' id) a;
  ag_Confirm_again : ∀ now now' id a, ag_inv a → ag_fits a →
    repeatable (ag_ConfirmSettlement now id) (ag_ConfirmSettlement now' id) a;
  ag_Fail_again : ∀ now now' id r a, ag_inv a → ag_fits a →
    repeatable (ag_MarkSaleFailed now id r) (ag_MarkSaleFailed now' id r) a;
  ag_Relist_again : ∀ now now' id new st e st' e' a, ag_inv a →
    open_window now st e → open_window now' st' e' →
    repeatable (ag_Relist now id new st e) (ag_Relist now' id new st' e') a;
  ag_Fail_done : ∀ now id r a, ag_inv a → sf_failed ag_facts a id → r ≠ zero_value →
    ag_MarkSaleFailed now id r a = (Ok tt, a);
  (* that the sale failed does not change whether it can be relisted *)
  ag_Relist_frame : ∀ now now' id new st e r a, ag_inv a → ag_fits a → 0 < st →
    is_ok (ag_Relist now id new st e (ag_MarkSaleFailed now' id r a).2).1
    = is_ok (ag_Relist now id new st e a).1;
}.

Class BillingGatewayLaws (B : Type) `{UUIDLib} `{BillingGateway B} := {
  bg_inv : B → Prop;
  bg_facts : BillFacts B;
  (* the amounts, in minor units, whose commission does not overflow *)
  bg_amount_ok : Z → Prop;
  bg_amount_zero : bg_amount_ok 0;
  bg_paid_closed : ∀ b i, bg_inv b → bf_paid bg_facts b i → ¬ bf_closed bg_facts b i;
  bg_Issue_spec : ∀ now inv auc debtor amount n b, bg_inv b → 0 < now →
    bg_amount_ok (m_amount amount) → InvoiceIDForAttempt auc n = Ok inv →
    keeps bg_inv (bill_le bg_facts) (bg_IssueInvoice now inv auc debtor amount n)
      (fun b' => bf_billed bg_facts b' inv) b;
  bg_Void_spec : ∀ now inv b, bg_inv b →
    keeps bg_inv (bill_le bg_facts) (bg_VoidInvoice now inv)
      (fun b' => bf_closed bg_facts b' inv) b;
  bg_Void_paid : ∀ now inv b e, bg_inv b → (bg_VoidInvoice now inv b).1 = Fail e →
    errors_Is e ErrOfferAlreadyPaid = true → bf_paid bg_facts b inv;
  bg_Issue_again : ∀ now now' inv auc debtor amount n b, bg_inv b → 0 < now →
    0 < now' → bg_amount_ok (m_amount amount) → InvoiceIDForAttempt auc n = Ok inv →
    repeatable (bg_IssueInvoice now inv auc debtor amount n)
      (bg_IssueInvoice now' inv auc debtor amount n) b;
  bg_Void_again : ∀ now now' inv b, bg_inv b →
    repeatable (bg_VoidInvoice now inv) (bg_VoidInvoice now' inv) b;
}.

(** ** The state machine *)

Definition rank (st : State) : Z :=
  match st with
  | StateZero | StateStarted => 0
  | StateAwaitingPayment => 1
  | StateAwardingRunnerUp => 2
  | StateSecondChancePayment => 3
  | StateSettled | StateRelisted | StateFailedUnsold => 4
  end.

(** What no transition changes. *)
Record same_sale (s s' : Settlement) : Prop := {
  ss_auction : s_auctionID s' = s_auctionID s;
  ss_hammer : s_hammer s' = s_hammer s;
  ss_runnerUp : s_runnerUp s' = s_runnerUp s;
  ss_amount : s_runnerUpAmount s' = s_runnerUpAmount s;
  ss_qualifies : s_runnerUpQualifies s' = s_runnerUpQualifies s;
  ss_relistGen : s_relistGen s' = s_relistGen s;
}.

(** A saga changes only by moving up. *)
Definition advances (s s' : Settlement) : Prop :=
  same_sale s s' ∧ (s' = s ∨ rank (s_state s) < rank (s_state s')).

#[export] Instance advances_preorder : PreOrder advances.
Proof.
  split; [by repeat split; left|].
  intros s1 s2 s3 [[] H1] [[] H2]. split; [split; congruence|].
  destruct H1 as [->|H1], H2 as [->|H2]; auto; right; lia.
Qed.

Section Wf.
Context `{UUIDLib}.

Definition failed_state (st : State) : Prop := st = StateRelisted ∨ st = StateFailedUnsold.

(** A saga as the transitions build it. *)
Record saga_wf (s : Settlement) : Prop := {
  wf_storable : storable s;
  wf_version : s_version s ≤ 1 + rank (s_state s);
  wf_qualifies : s_runnerUpQualifies s = true → s_runnerUp s ≠ zero_value;
  wf_invoice : InvoiceIDForAttempt (s_auctionID s) (s_attempt s) = Ok (s_invoiceID s);
  wf_first : rank (s_state s) ≤ 2 → s_attempt s = 1;
  wf_second : s_state s = StateSecondChancePayment → s_attempt s = 2;
  wf_debtor : s_attempt s = 2 → s_winner s = s_runnerUp s ∧ s_runnerUp s ≠ zero_value;
  wf_awarding : s_state s = StateAwardingRunnerUp → s_runnerUpQualifies s = true;
  wf_reason : s_failureReason s ≠ zero_value ↔ failed_state (s_state s);
  wf_relisted : s_state s = StateRelisted → s_relistGen s = 0;
  wf_unsold : s_state s = StateFailedUnsold → s_relistGen s ≠ 0;
}.

(** A commit of the state machine. *)
Record commits (s s' : Settlement) : Prop := {
  co_wf : saga_wf (bumped s');
  co_adm : admissible s s';
  co_same : same_sale s s';
  co_rank : rank (s_state s) < rank (s_state s');
}.

Lemma wf_room s : saga_wf s → s_version s < int64_max.
Proof.
  intros Hs. pose proof (wf_version s Hs).
  assert (rank (s_state s) ≤ 4) by (by destruct (s_state s)). unfold int64_max. lia.
Qed.

(** Moving to a state [st], everything else as it is. *)
Lemma commits_state s st r :
  saga_wf s → rank (s_state s) < rank st → (st = StateAwaitingPayment ∨ 4 ≤ rank st
    ∨ st = StateAwardingRunnerUp ∧ s_runnerUpQualifies s = true) →
  (r ≠ zero_value ↔ failed_state st) →
  (st = StateRelisted → s_relistGen s = 0) → (st = StateFailedUnsold → s_relistGen s ≠ 0) →
  commits s (set_failureReason r (set_state st s)).
Proof.
  intros Hs Hr Hst Hrs Hre Hun. pose proof (wf_room s Hs). pose proof (wf_version s Hs).
  assert (admissible s (set_failureReason r (set_state st s))) as Had.
  { exists st, (s_winner s), (s_attempt s), (s_invoiceID s), r. split_and!; try apply Hs; try done.
    intros ->. simpl in Hr. by destruct (s_state s). }
  constructor; [|done|by split|done]. constructor; simpl; try apply Hs; try done.
  - apply (saga_storable_admissible s); [apply Hs|done].
  - lia.
  - intros Hle. apply Hs. destruct Hst as [->|[?|[-> _]]]; simpl in *; lia.
  - intros ->. destruct Hst as [?|[?|[? _]]]; done.
  - intros ->. by destruct Hst as [?|[?|[_ ?]]].
Qed.

Lemma failureReason_same s st : s_failureReason s = zero_value →
  set_failureReason zero_value (set_state st s) = set_state st s.
Proof. destruct s. simpl. by intros ->. Qed.

Lemma wf_no_reason s : saga_wf s → rank (s_state s) < 4 → s_failureReason s = zero_value.
Proof.
  intros Hs Hr. destruct (decide (s_failureReason s = zero_value)) as [|Hn]; [done|].
  apply (wf_reason s Hs) in Hn. destruct Hn as [E|E]; rewrite E in Hr; simpl in Hr; lia.
Qed.

(** *** The transitions *)

Definition awaits (s : Settlement) : Prop :=
  s_state s = StateStarted ∨ s_state s = StateAwaitingPayment
  ∨ s_state s = StateSecondChancePayment.

Lemma guardLive_spec s inv :
  (guardLiveInvoice s inv = Ok tt ∧ awaits s ∧ inv = s_invoiceID s ∧ inv ≠ zero_value)
  ∨ guardLiveInvoice s inv = Fail ErrUnexpectedTransition.
Proof.
  unfold guardLiveInvoice, awaits. destruct (s_state s) eqn:E; try (by right);
    destruct (IsZero inv) eqn:Hz; [by right| |by right| |by right|];
    case_bool_decide; [by right| |by right| |by right|]; breflect; left; naive_solver.
Qed.

Lemma awaits_rank s : awaits s → rank (s_state s) < 4.
Proof. intros [->|[->| ->]]; simpl; lia. Qed.

Lemma commit_InvoiceIssued inv s : saga_wf s →
  (∃ s', closure (InvoiceIssued inv) s = Ok s' ∧ commits s s' ∧ inv = s_invoiceID s
      ∧ s_state s' = StateAwaitingPayment ∧ s_invoiceID s' = s_invoiceID s)
  ∨ closure (InvoiceIssued inv) s = Fail ErrUnexpectedTransition.
Proof.
  intros Hs. unfold closure, InvoiceIssued. run_go.
  destruct (bool_decide _ || _ || _) eqn:E; [by right|left]. breflect. run_go.
  eexists. split; [done|]. split_and!; try done.
  rewrite <-(failureReason_same s) by (apply wf_no_reason; [done|]; by rewrite H0).
  apply commits_state; try done; rewrite ?H0; [done|by left|].
  split; [done|]. by intros [?|?].
Qed.

Lemma commit_PaymentReceived inv s : saga_wf s →
  (∃ s', closure (PaymentReceived inv) s = Ok s' ∧ commits s s' ∧ s_state s' = StateSettled
     ∧ s_invoiceID s' = inv)
  ∨ closure (PaymentReceived inv) s = Fail ErrUnexpectedTransition.
Proof.
  intros Hs. unfold closure, PaymentReceived. run_go.
  destruct (guardLive_spec s inv) as [(-> & Ha & -> & _)| ->]; [left|by right]. run_go.
  pose proof (awaits_rank s Ha). eexists. split; [done|]. split; [|done].
  rewrite <-(failureReason_same s) by (by apply wf_no_reason).
  apply commits_state; try done; [by right; left|]. split; [done|]. by intros [?|?].
Qed.

(** A step the constants of the sale call for. *)
Definition step_fits (step : NextStep) (s : Settlement) : Prop :=
  match step with
  | StepAwardRunnerUp => s_runnerUpQualifies s = true
  | StepRelist => s_relistGen s = 0
  | StepFailUnsold => s_relistGen s ≠ 0
  | StepZero => False
  end.

Lemma nextStep_fits s : step_fits (nextStepOnFailure s) s.
Proof.
  unfold nextStepOnFailure.
  destruct (_ && _) eqn:E; [by apply andb_true_iff in E as [_ E]|].
  destruct (s_relistGen s =? 0) eqn:E'; breflect; done.
Qed.

Lemma step_fits_same step s s' : same_sale s s' → step_fits step s → step_fits step s'.
Proof. intros [_ _ _ _ Hq Hg]. destruct step; simpl; by rewrite ?Hq, ?Hg. Qed.

Definition step_state (step : NextStep) : State :=
  match step with
  | StepAwardRunnerUp => StateAwardingRunnerUp
  | StepRelist => StateRelisted
  | StepFailUnsold => StateFailedUnsold
  | StepZero => StateZero
  end.

(** The states a compensation step leaves. *)
Definition can_apply (step : NextStep) (s : Settlement) : Prop :=
  match step with
  | StepAwardRunnerUp => s_state s = StateStarted ∨ s_state s = StateAwaitingPayment
  | _ => awaits s
  end.

Lemma commit_failure step r s : saga_wf s → step ≠ StepAwardRunnerUp → step_fits step s →
  r ≠ zero_value →
  (∃ s', closure (ApplyNextStep step r) s = Ok s' ∧ commits s s' ∧ awaits s
     ∧ s_state s' = step_state step ∧ s_invoiceID s' = s_invoiceID s ∧ s_failureReason s' = r
     ∧ s_attempt s' = s_attempt s)
  ∨ closure (ApplyNextStep step r) s = Fail ErrUnexpectedTransition ∧ ¬ awaits s.
Proof.
  intros Hs Hna Hf Hr. assert (failed_state (step_state step)) as Hfs
    by (destruct step; simpl; [done..|by left|by right]).
  assert (commits s (set_failureReason r (set_state (step_state step) s)) ∨ ¬ awaits s) as Hc.
  { destruct (decide (rank (s_state s) < 4)) as [Hlt|Hge].
    - left. apply commits_state; try done.
      + destruct Hfs as [-> | ->]; simpl; lia.
      + right; left. destruct Hfs as [-> | ->]; simpl; lia.
      + by destruct step.
      + by destruct step.
    - right. intros Ha%awaits_rank. lia. }
  unfold closure, ApplyNextStep, awaits in *.
  destruct step; [done..| |]; run_go; rewrite (proj2 (IsZero_false r) Hr); run_go;
    destruct (s_state s) eqn:E; run_go;
    first [ left; eexists; split; [reflexivity|]; split_and!; try done; first [by auto|destruct Hc as [Hc|[]]; [exact Hc|by auto]]
          | right; split; [done|]; by intros [|[]] ].
Qed.

Lemma commit_award s : saga_wf s → s_runnerUpQualifies s = true →
  (∃ s', closure (ApplyNextStep StepAwardRunnerUp zero_value) s = Ok s' ∧ commits s s'
     ∧ s_state s' = StateAwardingRunnerUp ∧ s_invoiceID s' = s_invoiceID s ∧ s_attempt s = 1)
  ∨ closure (ApplyNextStep StepAwardRunnerUp zero_value) s = Fail ErrUnexpectedTransition.
Proof.
  intros Hs Hq. unfold closure, ApplyNextStep. run_go.
  destruct (bool_decide _ && _) eqn:E; [by right|left]. run_go.
  assert (rank (s_state s) < 2) as Hlt.
  { apply andb_false_iff in E as [E|E]; breflect; rewrite E; simpl; lia. }
  eexists. split; [done|]. split; [|split_and!; [done..|apply (wf_first s Hs); lia]].
  rewrite <-(failureReason_same s) by (apply wf_no_reason; [done|lia]).
  apply commits_state; try done; [by right; right|]. split; [done|]. by intros [?|?].
Qed.

Lemma InvoiceIDForAttempt_nonzero auc n inv :
  InvoiceIDForAttempt auc n = Ok inv → inv ≠ zero_value.
Proof.
  unfold InvoiceIDForAttempt, NewInvoiceID. case_bool_decide as E; [done|].
  intros [= <-] Hz. injection Hz as Hz. by apply E.
Qed.

Lemma DecideOnWinnerReassigned_spec s w p :
  (DecideOnWinnerReassigned s w p = Ok tt ∧ w = s_runnerUp s ∧ w ≠ zero_value
     ∧ p = s_runnerUpAmount s
     ∧ (s_state s = StateAwaitingPayment ∨ s_state s = StateAwardingRunnerUp))
  ∨ ∃ e, DecideOnWinnerReassigned s w p = Fail e.
Proof.
  unfold DecideOnWinnerReassigned.
  destruct (IsZero w || _ || _) eqn:E; [right; destruct (s_state s); eauto|].
  breflect. destruct (s_state s); eauto; left; split_and!; auto.
Qed.

Lemma commit_reassigned w price inv s :
  saga_wf s → InvoiceIDForAttempt (s_auctionID s) 2 = Ok inv →
  (∃ s', closure (RunnerUpAwarded w price;; SecondChanceInvoiceIssued inv) s = Ok s'
     ∧ commits s s' ∧ s_state s' = StateSecondChancePayment ∧ s_invoiceID s' = inv)
  ∨ ∃ e, closure (RunnerUpAwarded w price;; SecondChanceInvoiceIssued inv) s = Fail e.
Proof.
  intros Hs Hinv. pose proof (InvoiceIDForAttempt_nonzero _ _ _ Hinv) as Hnz.
  unfold closure, RunnerUpAwarded. run_go.
  destruct (DecideOnWinnerReassigned_spec s w price) as [(-> & -> & Hz & _ & Hst)|[e ->]]; [|eauto].
  left. run_go. unfold SecondChanceInvoiceIssued. run_go.
  rewrite (proj2 (IsZero_false inv) Hnz). simpl. run_go.
  assert (rank (s_state s) < 3) as Hlt by (destruct Hst as [-> | ->]; simpl; lia).
  pose proof (wf_room s Hs). pose proof (wf_version s Hs).
  eexists. split; [done|]. split; [|done].
  set (s' := set_invoiceID _ _).
  assert (admissible s s') as Had.
  { exists StateSecondChancePayment, (s_runnerUp s), 2, inv, (s_failureReason s).
    split_and!; try done. by right. }
  constructor; [|done|by split|done]. constructor; simpl; try done; try apply Hs.
  - apply (saga_storable_admissible s); [apply Hs|done].
  - lia.
  - rewrite (wf_no_reason s Hs) by lia. split; [done|]. by intros [?|?].
Qed.
End Wf.

(** ** The whole *)

Section World.
Context {S A B : Type} `{SettlementRepositoryLaws S} `{UUIDLib}
  `{!AuctionGateway A} `{!AuctionGatewayLaws A} `{!BillingGateway B} `{!BillingGatewayLaws B}.
Implicit Types (w : net S A B) (s : Settlement).

(** The live invoice can no longer be paid, unless a runner-up that did not
    qualify was billed. *)
Definition lapsed (b : B) s : Prop :=
  s_runnerUpQualifies s = true ∨ s_attempt s = 1 → bf_closed bg_facts b (s_invoiceID s).

(** What the state of a saga says of the other contexts. *)
Definition state_fact (a : A) (b : B) s : Prop :=
  match s_state s with
  | StateZero | StateStarted => True
  | StateAwaitingPayment | StateSecondChancePayment => bf_billed bg_facts b (s_invoiceID s)
  | StateAwardingRunnerUp =>
      sf_awarded ag_facts a (s_auctionID s) ∧ bf_closed bg_facts b (s_invoiceID s)
  | StateSettled => sf_settled ag_facts a (s_auctionID s) ∧ bf_paid bg_facts b (s_invoiceID s)
  | StateRelisted =>
      sf_failed ag_facts a (s_auctionID s)
      ∧ (∃ new, RelistIDFor (s_auctionID s) = Ok new ∧ sf_relisted ag_facts a (s_auctionID s) new)
      ∧ lapsed b s
  | StateFailedUnsold => sf_failed ag_facts a (s_auctionID s) ∧ lapsed b s
  end.

(** Both prices of the sale can be billed. *)
Definition billable s : Prop :=
  bg_amount_ok (B := B) (m_amount (s_hammer s)) ∧ bg_amount_ok (B := B) (m_amount (s_runnerUpAmount s)).

(** ... and a declined offer, of its invoice. *)
Definition saga_fact (a : A) (b : B) s : Prop :=
  state_fact a b s
  ∧ (s_failureReason s = ReasonSecondChanceDeclined → bf_closed bg_facts b (s_invoiceID s)).

Record net_inv w : Prop := {
  ni_saga : st_ok (n_saga w);
  ni_auctions : ag_inv (n_auctions w);
  ni_billing : bg_inv (n_billing w);
  ni_wf : ∀ id s, st_view (n_saga w) !! id = Some s →
    saga_wf s ∧ billable s ∧ saga_fact (n_auctions w) (n_billing w) s;
}.

Definition net_fits w : Prop := ag_fits (n_auctions w).

Record net_le w w' : Prop := {
  nl_saga : ∀ id s, st_view (n_saga w) !! id = Some s →
    ∃ s', st_view (n_saga w') !! id = Some s' ∧ advances s s';
  nl_auctions : sale_le ag_facts (n_auctions w) (n_auctions w');
  nl_billing : bill_le bg_facts (n_billing w) (n_billing w');
}.

#[export] Instance net_le_preorder : PreOrder net_le.
Proof.
  split; [intros w; split; [|done|done]; intros id s Hl; by exists s|].
  intros w1 w2 w3 [Hs1 Ha1 Hb1] [Hs2 Ha2 Hb2]. split; [|by etrans|by etrans].
  intros id s Hl. destruct (Hs1 _ _ Hl) as (s' & Hl' & Had).
  destruct (Hs2 _ _ Hl') as (s'' & Hl'' & Had'). exists s''. split; [done|by etrans].
Qed.

Lemma saga_fact_mono a a' b b' s :
  sale_le ag_facts a a' → bill_le bg_facts b b' → saga_fact a b s → saga_fact a' b' s.
Proof.
  intros [] [] [Hf Hr]. split; [|auto]. unfold state_fact, lapsed in *.
  destruct (s_state s); naive_solver.
Qed.

(** *** Calls on the other contexts *)

Lemma on_auctions_spec (m : M A unit) (post : A → Prop) w :
  net_inv w → keeps ag_inv (sale_le ag_facts) m post (n_auctions w) →
  keeps net_inv net_le (on_auctions m) (fun w' => post (n_auctions w')) w.
Proof.
  intros [Hs Ha Hb Hw] (Hi & Hle & Hp). unfold keeps, on_auctions.
  destruct (m (n_auctions w)) as [r a] eqn:E. simpl in *. split_and!; [|split|]; simpl; auto.
  - split; simpl; auto. intros id s Hl. destruct (Hw _ _ Hl) as (? & ? & ?).
    split_and!; [done..|]. by eapply saga_fact_mono.
  - intros id s Hl. exists s. by split.
  - done.
Qed.

Lemma on_billing_spec (m : M B unit) (post : B → Prop) w :
  net_inv w → keeps bg_inv (bill_le bg_facts) m post (n_billing w) →
  keeps net_inv net_le (on_billing m) (fun w' => post (n_billing w')) w.
Proof.
  intros [Hs Ha Hb Hw] (Hi & Hle & Hp). unfold keeps, on_billing.
  destruct (m (n_billing w)) as [r b] eqn:E. simpl in *. split_and!; [|split|]; simpl; auto.
  - split; simpl; auto. intros id s Hl. destruct (Hw _ _ Hl) as (? & ? & ?).
    split_and!; [done..|]. by eapply saga_fact_mono.
  - intros id s Hl. exists s. by split.
  - done.
Qed.

(** *** Commits *)

Lemma net_put w id s st' x :
  net_inv w → st_ok st' → st_view st' = <[id := x]> (st_view (n_saga w)) →
  saga_wf x → billable x → saga_fact (n_auctions w) (n_billing w) x →
  (st_view (n_saga w) !! id = None ∨ st_view (n_saga w) !! id = Some s ∧ advances s x) →
  let w' := mkNet st' (n_auctions w) (n_billing w) in net_inv w' ∧ net_le w w'.
Proof.
  intros [Hs Ha Hb Hw] Hok Hv Hx Hbl Hf Hold. simpl. split; split; simpl; try done.
  - intros k y. rewrite Hv, lookup_insert_Some. intros [[<- <-]|[_ Hl]]; [by split_and!|by apply (Hw k)].
  - intros k y Hl. rewrite Hv. destruct (decide (id = k)) as [<-|Hne].
    + rewrite lookup_insert_eq. destruct Hold as [?|[Hl' Had]]; [congruence|].
      rewrite Hl in Hl'. injection Hl' as ->. eauto.
    + rewrite lookup_insert_ne by done. exists y. by split.
Qed.

(** What a commit does: the closure [fn] runs on the stored saga. *)
Lemma update_spec id fn w :
  net_inv w →
  (∀ s, st_view (n_saga w) !! id = Some s →
     (∃ s', fn s = Ok s' ∧ commits s s' ∧ saga_fact (n_auctions w) (n_billing w) s')
     ∨ ∃ e, fn s = Fail e) →
  let r := (on_saga (st_Update id fn) w).1 in
  let w' := (on_saga (st_Update id fn) w).2 in
  net_inv w' ∧ net_le w w' ∧
  match r with
  | Ok _ => ∃ s s', st_view (n_saga w) !! id = Some s ∧ fn s = Ok s'
            ∧ st_view (n_saga w') !! id = Some (bumped s')
  | Fail e => w' = w ∧ match st_view (n_saga w) !! id with
                       | Some s => fn s = Fail e
                       | None => e = SettlementNotFoundError (AuctionID_UUID id)
                       end
  | Panic _ => False
  end.
Proof.
  intros Hi Hfn. pose proof (ni_saga w Hi) as Hok. unfold on_saga. destruct w as [st a b].
  simpl in *. destruct (st_view st !! id) as [s|] eqn:Hl.
  2:{ rewrite (st_Update_missing _ _ fn Hok Hl). simpl. by split_and!. }
  destruct (Hfn s eq_refl) as [(s' & E & [Hwf Had Hsame Hrk] & Hf)|[e E]].
  2:{ rewrite (st_Update_fail _ _ _ _ _ Hok Hl E). simpl. by split_and!. }
  destruct (st_Update_ok _ _ _ _ _ Hok Hl E Had) as (st' & -> & Hok' & Hv). simpl.
  assert (billable (bumped s')) as Hbl.
  { destruct (ni_wf _ Hi id s Hl) as (_ & Hbl & _). unfold billable in *. simpl.
    by rewrite (ss_hammer _ _ Hsame), (ss_amount _ _ Hsame). }
  destruct (net_put (mkNet st a b) id s st' (bumped s') Hi Hok' Hv Hwf Hbl Hf) as [??].
  { right. split; [done|]. split; [|by right]. by destruct Hsame. }
  split_and!; [done..|]. exists s, s'. by rewrite Hv, lookup_insert_eq.
Qed.
End World.
End saga_theory.
