(* ===== verification/SagaGateways.v ===== *)
(** * The facades of the other contexts, for the saga

    The auction and billing facades satisfy the contracts of the saga's
    gateways, over any repository that satisfies its own laws: what the
    settlement context relies on is what the other two contexts promise. *)

From stdpp Require Import base numbers list strings gmap fin_maps.
From Stdlib Require Import ZArith Lia.
From S2P Require Import Prelude Errs Auth Postgres Events AuctionDomain AuctionTheory AuctionRepo AuctionApp AuctionRepoTheory AuctionAppTheory InvoiceDomain InvoiceRepo Billing InvoiceRepoTheory InvoiceTheory BillingTheory Processes SettlementDomain SettlementRepo Settlement SettlementRepoTheory SagaTheory.

Module saga_gateways.
Import settlement saga saga_theory.
Local Open Scope Z_scope.

(** ** Auctions *)

Section Auctions.
Context {A : Type} `{auction_repo_theory.AuctionRepositoryLaws A}.
Import auction auction_theory auction_app auction_repo_theory auction_app_theory.
Implicit Types (a : A) (id : settlement.AuctionID).

(** The same identity in the auction context. *)
Definition au (id : settlement.AuctionID) : auction.AuctionID :=
  auction.mkAuctionID (settlement.AuctionID_UUID id).

Definition sale (P : Auction → Prop) (a : A) (id : settlement.AuctionID) : Prop :=
  ∃ x, repo_view a !! au id = Some x ∧ P x.

Definition replaced (a : A) (id new : settlement.AuctionID) : Prop :=
  relisted a (au id) (au new)
  ∧ sale (fun o => a_relistGen o < 1) a id ∧ au new ≠ zero_value.

Definition auction_facts : SaleFacts A := {|
  sf_awarded := sale (fun x => a_winnerReassigned x = true);
  sf_settled := sale settled_sale;
  sf_failed := sale failed_sale;
  sf_relisted := replaced;
|}.

(** *** What keeps the facts *)

(** An auction that keeps what a saga may have relied on. *)
Record sale_kept (x x' : Auction) : Prop := {
  sk_awarded : a_winnerReassigned x = true → a_winnerReassigned x' = true;
  sk_settled : settled_sale x → settled_sale x';
  sk_failed : failed_sale x → failed_sale x';
  sk_relistOf : a_relistOf x' = a_relistOf x;
  sk_relistGen : a_relistGen x' = a_relistGen x;
}.

(** Every successful method does. *)
Lemma run_sale_kept c x r x' : run c x = (Ok r, x') → sale_kept x (stored x').
Proof.
  intros Hr. pose proof (run_ok_same_listing _ _ _ _ Hr) as Hsl.
  assert (∀ P Q : Prop, a_status x = StatusListed →
    (settled_sale x → P) ∧ (failed_sale x → Q)) as Hopen
    by (intros P Q Hs; split; intros (Hc & _); congruence).
  assert ((a_winnerReassigned x = true → a_winnerReassigned x' = true)
    ∧ (settled_sale x → settled_sale x') ∧ (failed_sale x → failed_sale x')) as (? & ? & ?).
  { destruct c as [i b m t|sl t|t|t|t|re t].
    - apply run_ok_inv in Hr as [Hacc ->]. split; [by destruct (extends x t) eqn:E; unfold accept; rewrite E|].
      apply Hopen. pose proof (acc_open _ _ _ _ _ Hacc) as Ho. unfold Auction_IsOpenAt in Ho. by breflect.
    - apply run_ok_inv in Hr as (_ & Hs & ->). split; [done|by apply Hopen].
    - apply run_ok_inv in Hr as (Hs & r' & ->). split; [done|by apply Hopen].
    - apply run_ok_inv in Hr as (Hs & _ & b & ->). by split_and!.
    - apply run_ok_inv in Hr as (Hs & ->). split_and!; [done| |done]. by intros (? & ? & _).
    - apply FailSale_ok_inv in Hr as (_ & Hs & _ & Hse & ->). split_and!; [done| |done].
      intros (_ & _ & ?). congruence. }
  destruct Hsl. by split.
Qed.

(** Only [AwardToRunnerUp] promotes a runner-up. *)
Definition awards (c : call) : bool :=
  match c with CAwardToRunnerUp _ => true | _ => false end.

Lemma run_promotes c x r x' : run c x = (Ok r, x') → a_winnerReassigned x' = true →
  awards c = true ∨ a_winnerReassigned x = true.
Proof.
  intros Hr%run_ok_inv. destruct c; break; simpl; auto.
Qed.

(** From [s] to [s'], only auctions that satisfy [P] got their runner-up
    promoted. *)
Definition promotes (P : auction.AuctionID → Prop) (s s' : A) : Prop :=
  ∀ k x', repo_view s' !! k = Some x' → a_winnerReassigned x' = true →
    P k ∨ ∃ x, repo_view s !! k = Some x ∧ a_winnerReassigned x = true.

Lemma promotes_refl P (s : A) : promotes P s s.
Proof. intros k x Hl Hw. right. eauto. Qed.

Lemma update_promotes (P : auction.AuctionID → Prop) (s s' : A) c k x r x' :
  repo_view s !! k = Some x → run c x = (Ok r, x') →
  repo_view s' = <[k := stored x']> (repo_view s) → (awards c = true → P k) → promotes P s s'.
Proof.
  intros Hl Hr Hv HP k' y. rewrite Hv, lookup_insert_Some. intros [[<- <-]|[_ Hy]] Hw; [|eauto].
  destruct (run_promotes _ _ _ _ Hr Hw); [left; auto|right; eauto].
Qed.

Lemma add_promotes P (s s' : A) k x :
  a_winnerReassigned x = false → repo_view s' = <[k := x]> (repo_view s) → promotes P s s'.
Proof.
  intros Hx Hv k' y. rewrite Hv, lookup_insert_Some. intros [[_ <-]|[_ Hy]] Hw; [congruence|eauto].
Qed.

Lemma sale_mono (P Q : Auction → Prop) (s s' : A) id k x x' :
  repo_view s !! k = Some x → repo_view s' = <[k := x']> (repo_view s) →
  (∀ y, P y → Q y) → (P x → Q x') → sale P s id → sale Q s' id.
Proof.
  intros Hl Hv HPQ Hx (y & Hy & HP). unfold sale. rewrite Hv.
  destruct (decide (k = au id)) as [->|Hne].
  - rewrite lookup_insert_eq. rewrite Hl in Hy. injection Hy as ->. eauto.
  - rewrite lookup_insert_ne by done. eauto.
Qed.

(** A stored update that keeps the sale keeps the facts. *)
Lemma update_sale_le (s s' : A) k x x' :
  repo_view s !! k = Some x → repo_view s' = <[k := x']> (repo_view s) → sale_kept x x' →
  sale_le auction_facts s s'.
Proof.
  intros Hl Hv [Ha Hs Hf Ho Hg]. split; simpl.
  - intros id. by eapply sale_mono.
  - intros id. by eapply sale_mono.
  - intros id. by eapply sale_mono.
  - intros id new (Hr & Hgen & Hn). refine (conj _ (conj _ Hn)).
    2:{ eapply sale_mono; [exact Hl|exact Hv|intros y Hy; exact Hy| |exact Hgen].
        simpl. by rewrite Hg. }
    unfold relisted in *. rewrite Hv. destruct Hr as [Hr|(k' & y & Hy & Hof)].
    + left. by apply lookup_insert_is_Some'; right.
    + right. destruct (decide (k = k')) as [<-|Hne].
      * exists k, x'. rewrite lookup_insert_eq. rewrite Hl in Hy. injection Hy as ->. by rewrite Ho.
      * exists k', y. by rewrite lookup_insert_ne.
Qed.

(** A new auction too. *)
Lemma add_sale_le (s s' : A) k x :
  repo_view s !! k = None → repo_view s' = <[k := x]> (repo_view s) →
  sale_le auction_facts s s'.
Proof.
  intros Hl Hv. assert (∀ P id, sale P s id → sale P s' id) as Hsale.
  { intros P id (y & Hy & HP). exists y. rewrite Hv, lookup_insert_ne by congruence. done. }
  split; simpl; try (intros id; apply Hsale). intros id new (Hr & Hg & Hn).
  refine (conj _ (conj _ Hn)); [|by apply Hsale]. unfold relisted in *. rewrite Hv.
  destruct Hr as [Hr|(k' & y & Hy & Hof)]; [left; by apply lookup_insert_is_Some'; right|right].
  exists k', y. rewrite lookup_insert_ne by congruence. done.
Qed.

(** *** The commands that run one method *)

Definition command (fn : Auction → result Auction) (sw : error → option error) (u : uuid)
    : M A unit :=
  id ← lift (with_cause (NewIncorrectInputError "invalid-id") (auction.NewAuctionID u));
  on_error (repo_UpdateAsSystem id fn) sw.

Lemma command_run fn sw u (s : A) :
  command fn sw u s =
    if bool_decide (u = uuid_Nil)
    then (Fail (WithCause (NewIncorrectInputError "invalid-id") ErrInvalidID), s)
    else on_error (repo_UpdateAsSystem (auction.mkAuctionID u) fn) sw s.
Proof.
  unfold command. rewrite run_lift. unfold auction.NewAuctionID. by destruct (bool_decide _).
Qed.

Lemma command_spec c fn sw (P : Auction → Prop) u (s : A) :
  quiet c → (∀ b, fn b = closure (run c) b) →
  sw (AuctionNotFoundError u) ≠ None →
  (∀ x e, run c x = (Fail e, x) → sw e = None → P x) →
  (∀ x r x', run c x = (Ok r, x') → P (stored x')) →
  repo_ok s → room s →
  keeps repo_ok (sale_le auction_facts) (command fn sw u)
    (fun s' => sale P s' (settlement.mkAuctionID u)) s.
Proof.
  intros Hq Hfn Hsw Hfail Hdone Hok Hroom. unfold keeps. rewrite command_run.
  destruct (bool_decide _); [by split_and!|]. unfold on_error.
  destruct (repo_view s !! auction.mkAuctionID u) as [x|] eqn:Hl.
  2:{ rewrite (Update_missing (auction.mkAuctionID u) fn s) by done. simpl.
      split_and!; [done..|]. by destruct (sw _). }
  destruct (system_update c fn s _ x Hok Hroom Hl Hq Hfn)
    as [(r & x' & s1 & Hr & -> & Hok1 & Hv)|[(e & Hr & ->)|(p & x' & Hr)]]; simpl.
  - split_and!; [done| |].
    + eapply update_sale_le; [done..|]. by eapply run_sale_kept.
    + intros _. exists (stored x'). rewrite Hv. simpl. rewrite lookup_insert_eq. eauto.
  - split_and!; [done..|]. destruct (sw e) eqn:E; [done|]. intros _. exists x. eauto.
  - destruct (view_ok s _ x Hok Hl) as (Hso & _).
    exfalso. eapply quiet_no_panic; [apply Hso|done|done].
Qed.

Lemma command_promotes c fn sw u (s : A) :
  quiet c → (∀ b, fn b = closure (run c) b) → repo_ok s → room s →
  promotes (fun k => awards c = true ∧ k = auction.mkAuctionID u) s (command fn sw u s).2.
Proof.
  intros Hq Hfn Hok Hroom. rewrite command_run. destruct (bool_decide _); [apply promotes_refl|].
  unfold on_error. destruct (repo_view s !! auction.mkAuctionID u) as [x|] eqn:Hl.
  2:{ rewrite (Update_missing (auction.mkAuctionID u) fn s) by done. apply promotes_refl. }
  destruct (system_update c fn s _ x Hok Hroom Hl Hq Hfn)
    as [(r & x' & s1 & Hr & -> & Hok1 & Hv)|[(e & Hr & ->)|(p & x' & Hr)]]; simpl.
  - by eapply update_promotes.
  - apply promotes_refl.
  - destruct (view_ok s _ x Hok Hl) as (Hso & _).
    exfalso. eapply quiet_no_panic; [apply Hso|done|done].
Qed.

(** Two commands that differ in the time only. *)
Lemma command_again c c' fn fn' sw (P : Auction → Prop) u (s : A) :
  quiet c → quiet c' → (∀ b, fn b = closure (run c) b) → (∀ b, fn' b = closure (run c') b) →
  sw (AuctionNotFoundError u) ≠ None →
  (∀ x e, run c x = (Fail e, x) → sw e = None → P x) →
  (∀ x r x', run c x = (Ok r, x') → P (stored x')) →
  (∀ x, (run c x).1 = (run c' x).1) →
  (∀ x, P x → ∃ e, fn' x = Fail e ∧ sw e = None) →
  repo_ok s → room s →
  repeatable (command fn sw u) (command fn' sw u) s.
Proof.
  intros Hq Hq' Hfn Hfn' Hsw Hfail Hdone Hsame Hrep Hok Hroom s1 Hrun.
  destruct (command_spec c fn sw P u s Hq Hfn Hsw Hfail Hdone Hok Hroom) as (Hok1 & _ & Hp).
  rewrite Hrun in Hok1, Hp. destruct (Hp eq_refl) as (x1 & Hl1 & HP1).
  rewrite command_run in Hrun. rewrite !command_run. destruct (bool_decide _); [done|].
  split.
  - unfold on_error in *. destruct (repo_view s !! auction.mkAuctionID u) as [x|] eqn:Hl.
    2:{ rewrite (Update_missing (auction.mkAuctionID u) fn s) in Hrun by done.
        simpl in Hrun. by destruct (sw _). }
    destruct (view_ok s _ x Hok Hl) as (Hso & _). specialize (Hsame x).
    destruct (system_update c fn s _ x Hok Hroom Hl Hq Hfn)
      as [(r & x' & s2 & Hr & E & _ & _)|[(e & Hr & E)|(p & x' & Hr)]];
      [| |exfalso; eapply quiet_no_panic; [apply Hso|exact Hq|exact Hr]]; rewrite E in Hrun;
    (destruct (system_update c' fn' s _ x Hok Hroom Hl Hq' Hfn')
      as [(r' & y' & s3 & Hr' & -> & _ & _)|[(e' & Hr' & ->)|(p' & y' & Hr')]];
      [| |exfalso; eapply quiet_no_panic; [apply Hso|exact Hq'|exact Hr']]);
      rewrite Hr, Hr' in Hsame; simplify_eq/=; try done.
    by destruct (sw e').
  - destruct (Hrep x1 HP1) as (e & He & Hs). by eapply system_command_repeat.
Qed.

Lemma award_same now now' x : (run (CAwardToRunnerUp now) x).1 = (run (CAwardToRunnerUp now') x).1.
Proof.
  simpl. unfold forget, auction.AwardToRunnerUp, unknown_status, record. run_go.
  repeat (case_match; run_go; simplify_eq/=; try done).
Qed.
Lemma confirm_same now now' x :
  (run (CConfirmSettlement now) x).1 = (run (CConfirmSettlement now') x).1.
Proof.
  simpl. unfold auction.ConfirmSettlement, unknown_status, record. run_go.
  repeat (case_match; run_go; simplify_eq/=; try done).
Qed.
Lemma fail_same r now now' x : (run (CFailSale r now) x).1 = (run (CFailSale r now') x).1.
Proof.
  simpl. unfold FailSale, unknown_status, record. run_go.
  repeat (case_match; run_go; simplify_eq/=; try done).
Qed.

(** *** Relisting *)

Lemma RelistedFrom_cases o new w now :
  (∃ err, RelistedFrom (Some o) new w now = Fail err ∧ mapRelistError err ≠ None)
  ∨ ∃ x, RelistedFrom (Some o) new w now = Ok x.
Proof.
  unfold RelistedFrom. repeat (case_match; [left; eexists; split; [done|]; done|]).
  right. unfold closure, record, modify. simpl. eauto.
Qed.

Lemma RelistedFrom_any o new w w' now now' x :
  RelistedFrom (Some o) new w now = Ok x → w' ≠ zero_value → now' < w_endsAt w' →
  ∃ x', RelistedFrom (Some o) new w' now' = Ok x'.
Proof.
  intros Hr Hw Hn. destruct (RelistedFrom_ok_inv _ _ _ _ _ Hr) as (_ & _ & Hg & _ & _ & Hz).
  unfold RelistedFrom, time_After.
  rewrite (proj2 (IsZero_false new) Hz), (proj2 (Z.leb_gt 1 _) Hg), (proj2 (IsZero_false w') Hw),
    (proj2 (Z.ltb_lt _ _) Hn). unfold closure, record, modify. simpl. eauto.
Qed.

Lemma relist_cases orig new st e w now (s : A) :
  repo_ok s → 0 < st → NewBiddingWindow st e = Ok w →
  (∃ err, RelistAuctionHandler now (mkRelistAuction orig new w) s = (Fail err, s)
     ∧ ∀ o x, repo_view s !! orig = Some o → RelistedFrom (Some o) new w now ≠ Ok x)
  ∨ ∃ o x, repo_view s !! orig = Some o ∧ RelistedFrom (Some o) new w now = Ok x
    ∧ ((RelistAuctionHandler now (mkRelistAuction orig new w) s = (Ok tt, s)
        ∧ relisted s orig new)
       ∨ ∃ s', RelistAuctionHandler now (mkRelistAuction orig new w) s = (Ok tt, s')
          ∧ repo_ok s' ∧ repo_view s !! new = None
          ∧ repo_view s' = <[new := set_events [] x]> (repo_view s)).
Proof.
  intros Hok Hst Hw. unfold RelistAuctionHandler. rewrite run_get. cbn -[RelistedFrom].
  destruct (repo_view s !! orig) as [o|] eqn:Hl.
  2:{ left. rewrite (Get_None s orig) by done. simpl. by eexists. }
  rewrite (Get_Some s orig o) by done. cbn -[RelistedFrom].
  destruct (RelistedFrom_cases o new w now) as [(err & Hr & Hm)|[x Hr]]; rewrite Hr.
  { left. unfold on_error, throw. destruct (mapRelistError err) eqn:E; [|done].
    eexists. split; [done|]. intros o' x' [= <-]. by rewrite Hr. }
  right. exists o, x. split_and!; [done..|].
  destruct (RelistedFrom_ok_inv _ _ _ _ _ Hr) as (Hi & Hof & _).
  destruct (view_ok s orig o Hok Hl) as (Hso & Hio & _). unfold on_error.
  destruct (repo_view s !! new) as [x0|] eqn:Hn.
  { left. rewrite (Add_exists s x x0) by (done || by rewrite Hi). split; [done|left; eauto]. }
  destruct (decide (map_Exists (fun _ y => a_relistOf y = orig) (repo_view s)))
    as [(id' & y & Hl' & Ho')|Hnone].
  { left. split; [|right; eauto]. rewrite (Add_relisted s x id' y); try done.
    - by rewrite Hi.
    - rewrite Hof. apply Hso.
    - by rewrite Hof, Hio. }
  right. destruct (Add_ok s x) as (s1 & E & Hok1 & Hv); try done.
  - by eapply RelistedFrom_storable.
  - by eapply RelistedFrom_opens.
  - by rewrite Hi.
  - intros _ id' y Hl' He. apply Hnone. exists id', y. rewrite Hof, Hio in He. done.
  - rewrite E. exists s1. split_and!; [done..|]. by rewrite Hv, Hi.
Qed.

(** The validation of the facade, then the handler. *)
Lemma Facade_Relist_run now u u' st e (s : A) :
  (∃ err, Facade_Relist now u u' st e s = (Fail err, s)
     ∧ (u = uuid_Nil ∨ u' = uuid_Nil ∨ e ≤ st ∨ time_IsZero st || time_IsZero e = true))
  ∨ ∃ w, NewBiddingWindow st e = Ok w ∧ u ≠ uuid_Nil ∧ u' ≠ uuid_Nil
    ∧ Facade_Relist now u u' st e s =
      RelistAuctionHandler now (mkRelistAuction (auction.mkAuctionID u) (auction.mkAuctionID u') w) s.
Proof.
  unfold Facade_Relist, auction.NewAuctionID. rewrite run_lift.
  destruct (bool_decide (u = uuid_Nil)) eqn:Hu; cbn [with_cause]; [left; breflect; eauto|].
  rewrite run_lift.
  destruct (bool_decide (u' = uuid_Nil)) eqn:Hu'; cbn [with_cause]; [left; breflect; eauto|].
  rewrite run_lift. breflect.
  unfold NewBiddingWindow. destruct (_ || _ || _) eqn:E; cbn [with_cause].
  - left. eexists. split; [done|]. do 2 right. apply orb_true_iff in E as [E|E]; [by right|].
    left. unfold time_After in E. apply negb_true_iff, Z.ltb_ge in E. done.
  - right. by eexists.
Qed.

Lemma relist_spec now id new st e (s : A) :
  repo_ok s → 0 < st →
  keeps repo_ok (sale_le auction_facts) (ag_Relist now id new st e)
    (fun s' => sf_relisted auction_facts s' id new) s.
Proof.
  intros Hok Hst. unfold keeps. cbn [ag_Relist auction_facade].
  destruct (Facade_Relist_run now (settlement.AuctionID_UUID id) (settlement.AuctionID_UUID new) st e s)
    as [(err & -> & _)|(w & Hw & Hu & Hu' & ->)]; [by split_and!|].
  fold (au id) (au new).
  assert (au new ≠ zero_value) as Hz by (intros E; injection E as E; done).
  destruct (relist_cases (au id) (au new) st e w now s Hok Hst Hw)
    as [(err & -> & _)|(o & x & Hl & Hr & Hc)]; [by split_and!|].
  pose proof (RelistedFrom_ok_inv _ _ _ _ _ Hr) as (_ & _ & Hg & _).
  destruct Hc as [[-> Hrel]|(s' & -> & Hok' & Hn & Hv)]; simpl.
  - split_and!; [done..|]. intros _. refine (conj Hrel (conj _ Hz)). by exists o.
  - split_and!; [done|by eapply add_sale_le|]. intros _.
    refine (conj _ (conj _ Hz)); [left; by rewrite Hv, lookup_insert_eq|].
    exists o. rewrite Hv, lookup_insert_ne by congruence. done.
Qed.

Lemma relist_promotes P now id new st e (s : A) :
  repo_ok s → 0 < st → promotes P s (ag_Relist now id new st e s).2.
Proof.
  intros Hok Hst. cbn [ag_Relist auction_facade].
  destruct (Facade_Relist_run now (settlement.AuctionID_UUID id) (settlement.AuctionID_UUID new) st e s)
    as [(err & -> & _)|(w & Hw & _ & _ & ->)]; [apply promotes_refl|].
  fold (au id) (au new).
  destruct (relist_cases (au id) (au new) st e w now s Hok Hst Hw)
    as [(err & -> & _)|(o & x & _ & Hr & [[-> _]|(s' & -> & _ & _ & Hv)])]; try apply promotes_refl.
  destruct (RelistedFrom_opens _ _ _ _ _ Hr) as (_ & Hx & _).
  eapply add_promotes; [|exact Hv]. exact Hx.
Qed.

Lemma relist_again now now' id new st e st' e' (s : A) :
  repo_ok s → open_window now st e → open_window now' st' e' →
  repeatable (ag_Relist now id new st e) (ag_Relist now' id new st' e') s.
Proof.
  intros Hok (Hst & _ & _) (Hst' & Hlt' & Hn') s1. cbn [ag_Relist auction_facade]. intros Hrun.
  set (u := settlement.AuctionID_UUID id) in *. set (u' := settlement.AuctionID_UUID new) in *.
  destruct (Facade_Relist_run now u u' st e s) as [(err & E & _)|(w & Hw & Hu & Hu' & E)];
    rewrite E in Hrun; [done|]. clear E.
  assert (∃ w', NewBiddingWindow st' e' = Ok w' ∧ w' ≠ zero_value ∧ w_endsAt w' = e'
    ∧ ∀ s0 : A, Facade_Relist now' u u' st' e' s0 =
        RelistAuctionHandler now' (mkRelistAuction (auction.mkAuctionID u) (auction.mkAuctionID u') w') s0)
    as (w' & Hw' & Hz' & He' & Hrun').
  { destruct (Facade_Relist_run now' u u' st' e' s) as [(err & _ & Hbad)|(w' & Hw' & _)].
    - exfalso. destruct Hbad as [?|[?|[?|Hb]]]; [done..|lia|].
      unfold time_IsZero in Hb. breflect; lia.
    - exists w'. pose proof (NewBiddingWindow_ok _ _ _ Hw') as (-> & Hz & _).
      split_and!; [done..|]. intros s0.
      destruct (Facade_Relist_run now' u u' st' e' s0) as [(err & _ & Hbad)|(w2 & Hw2 & _ & _ & ->)].
      + exfalso. destruct Hbad as [?|[?|[?|Hb]]]; [done..|lia|].
        unfold time_IsZero in Hb. breflect; lia.
      + rewrite Hw' in Hw2. by injection Hw2 as <-. }
  rewrite !Hrun'.
  destruct (relist_ok _ _ _ _ _ _ _ _ Hok Hst Hw Hrun) as (Hok1 & Hrel & o1 & x1 & Hl1 & Hr1).
  destruct (relist_cases (auction.mkAuctionID u) (auction.mkAuctionID u') st e w now s Hok Hst Hw)
    as [(err & E & _)|(o & x & Hl & Hr & _)]; [by rewrite E in Hrun|].
  split.
  - destruct (RelistedFrom_any _ _ _ w' _ now' _ Hr Hz') as [x' Hr']; [by rewrite He'|].
    destruct (relist_cases (auction.mkAuctionID u) (auction.mkAuctionID u') st' e' w' now' s Hok Hst' Hw')
      as [(err & _ & Hbad)|(o' & y & _ & _ & [[-> _]|(s2 & -> & _)])]; [|done..].
    by destruct (Hbad o x' Hl).
  - destruct (RelistedFrom_any _ _ _ w' _ now' _ Hr1 Hz') as [x' Hr']; [by rewrite He'|].
    by eapply relist_repeat.
Qed.
(** Whether an auction can be relisted only depends on its generation. *)
Lemma RelistedFrom_gen o o' new w now :
  a_relistGen o' = a_relistGen o →
  is_ok (RelistedFrom (Some o') new w now) = is_ok (RelistedFrom (Some o) new w now).
Proof.
  intros Hg. unfold RelistedFrom. rewrite Hg. repeat (case_match; [done|]).
  unfold closure, record, modify. done.
Qed.

Lemma relist_is_ok now id new st e (s : A) : repo_ok s → 0 < st →
  is_ok (ag_Relist now id new st e s).1 = true ↔
  ∃ w o, NewBiddingWindow st e = Ok w ∧ au id ≠ zero_value ∧ au new ≠ zero_value
    ∧ repo_view s !! au id = Some o ∧ is_ok (RelistedFrom (Some o) (au new) w now) = true.
Proof.
  intros Hok Hst. cbn [ag_Relist auction_facade].
  assert (∀ i, au i ≠ zero_value ↔ settlement.AuctionID_UUID i ≠ uuid_Nil) as Hz.
  { intros [u]. unfold au. simpl. split; intros Hn E; apply Hn; [by rewrite E|by injection E]. }
  destruct (Facade_Relist_run now (settlement.AuctionID_UUID id) (settlement.AuctionID_UUID new) st e s)
    as [(err & -> & Hbad)|(w & Hw & Hu & Hu' & ->)].
  - split; [done|]. intros (w & o & Hw & Hi%Hz & Hn%Hz & _).
    destruct Hbad as [?|[?|Hbad]]; [done..|]. unfold NewBiddingWindow in Hw.
    destruct Hbad as [Hle|Hb]; [|by rewrite Hb in Hw].
    unfold time_After in Hw. rewrite (proj2 (Z.ltb_ge _ _) Hle), orb_true_r in Hw. done.
  - fold (au id) (au new).
    destruct (relist_cases (au id) (au new) st e w now s Hok Hst Hw)
      as [(err & -> & Hbad)|(o & x & Hl & Hr & Hc)].
    + split; [done|]. intros (w' & o & Hw' & _ & _ & Hl & Hr). rewrite Hw in Hw'. injection Hw' as <-.
      destruct (RelistedFrom (Some o) (au new) w now) as [x| |] eqn:E; try done. by destruct (Hbad o x Hl).
    + split; [intros _|by destruct Hc as [[-> _]|(s' & -> & _)]].
      exists w, o. rewrite Hr. split_and!; try done; by apply Hz.
Qed.

(** What a command leaves of the relist generations. *)
Lemma command_frame c fn sw u (s : A) :
  quiet c → (∀ b, fn b = closure (run c) b) → repo_ok s → room s →
  let s' := (command fn sw u s).2 in
  repo_ok s' ∧ ∀ k, a_relistGen <$> repo_view s' !! k = a_relistGen <$> repo_view s !! k.
Proof.
  intros Hq Hfn Hok Hroom. cbv zeta. rewrite command_run. destruct (bool_decide _); [done|].
  unfold on_error. destruct (repo_view s !! auction.mkAuctionID u) as [x|] eqn:Hl.
  2:{ by rewrite (Update_missing (auction.mkAuctionID u) fn s). }
  destruct (system_update c fn s _ x Hok Hroom Hl Hq Hfn)
    as [(r & x' & s1 & Hr & -> & Hok1 & Hv)|[(e & Hr & ->)|(p & x' & Hr)]]; simpl; [|done|].
  - split; [done|]. intros k. rewrite Hv.
    destruct (decide (auction.mkAuctionID u = k)) as [<-|Hne]; [|by rewrite lookup_insert_ne].
    rewrite lookup_insert_eq, Hl. simpl. f_equal. apply (sk_relistGen _ _ (run_sale_kept _ _ _ _ Hr)).
  - destruct (view_ok s _ x Hok Hl) as (Hso & _).
    exfalso. eapply quiet_no_panic; [apply Hso|done|done].
Qed.

(** *** The contract *)

Definition awarded_sale (x : Auction) : Prop := a_winnerReassigned x = true.

Lemma award_fails now x e :
  run (CAwardToRunnerUp now) x = (Fail e, x) → award_switch e = None → awarded_sale x.
Proof.
  simpl. unfold forget. intros Hr Hs. apply (award_already now x e); [|done].
  destruct (auction.AwardToRunnerUp now x) as [[] ?] eqn:E; simplify_eq/=; done.
Qed.

Lemma award_does now x r x' : run (CAwardToRunnerUp now) x = (Ok r, x') → awarded_sale (stored x').
Proof. intros Hr. apply run_ok_inv in Hr as (_ & _ & b & ->). done. Qed.

Lemma confirm_does now x r x' :
  run (CConfirmSettlement now) x = (Ok r, x') → settled_sale (stored x').
Proof. intros Hr. simpl in Hr. apply ConfirmSettlement_ok_inv in Hr as (? & ? & _ & ->). done. Qed.

Lemma fail_does r now x v x' : run (CFailSale r now) x = (Ok v, x') → failed_sale (stored x').
Proof. intros Hr. simpl in Hr. apply FailSale_ok_inv in Hr as (? & ? & _ & _ & ->). done. Qed.

(** The reasons the auction context knows are the saga's. *)
Lemma MarkSaleFailed_cases (r : settlement.FailureReason) :
  (r = zero_value ∧ ∀ now id (s : A), ∃ e, ag_MarkSaleFailed now id r s = (Fail e, s))
  ∨ ∃ r', r' ≠ zero_value ∧ ∀ now id (s : A),
      ag_MarkSaleFailed now id r s
      = command (closure (FailSale r' now)) fail_switch (settlement.AuctionID_UUID id) s.
Proof.
  destruct r.
  - left. split; [done|]. intros now id s. simpl. unfold Facade_MarkSaleFailed. rewrite run_lift.
    unfold auction.NewAuctionID. by case_bool_decide; eexists.
  - right. exists ReasonPaymentTimeout. by split.
  - right. exists ReasonSecondChanceDeclined. by split.
Qed.

#[export] Instance auction_gateway_laws : AuctionGatewayLaws A.
Proof.
  refine {| ag_inv := repo_ok; ag_fits := room; ag_facts := auction_facts |}.
  - intros a id Hok (x & Hx & Hs) (y & Hy & Hf). rewrite Hx in Hy. injection Hy as <-.
    destruct Hs as (_ & Ho & _), Hf as (_ & Ho'). congruence.
  - intros now id a Hok Hr. destruct id as [u].
    apply (command_spec (CAwardToRunnerUp now) _ _ awarded_sale); try done.
    + apply award_closure.
    + apply award_fails.
    + apply award_does.
  - intros now id a Hok Hr. destruct id as [u].
    apply (command_spec (CConfirmSettlement now) _ _ settled_sale); try done.
    + intros x e Hx. apply (confirm_already now). simpl in Hx. by rewrite Hx.
    + apply confirm_does.
  - intros now id r a Hok Hr. destruct id as [u].
    destruct (MarkSaleFailed_cases r) as [[Hrz Hf]|(r' & Hz & E)].
    { unfold keeps. destruct (Hf now (settlement.mkAuctionID u) a) as [e ->]. by split_and!. }
    unfold keeps. rewrite E. apply (command_spec (CFailSale r' now) _ _ failed_sale); try done.
    + intros x e Hx. apply (fail_already r' now). simpl in Hx. by rewrite Hx.
    + apply fail_does.
  - intros now id new st e a Hok Hst. by apply relist_spec.
  - intros now now' id a Hok Hr.
    apply (command_again (CAwardToRunnerUp now) (CAwardToRunnerUp now') _ _ _ awarded_sale); try done.
    + apply award_closure.
    + apply award_closure.
    + apply award_fails.
    + apply award_does.
    + apply award_same.
    + intros x Hx. eexists. split; [by apply award_done|done].
  - intros now now' id a Hok Hr.
    apply (command_again (CConfirmSettlement now) (CConfirmSettlement now') _ _ _ settled_sale); try done.
    + intros x e Hx. apply (confirm_already now). simpl in Hx. by rewrite Hx.
    + apply confirm_does.
    + apply confirm_same.
    + intros x Hx. eexists. split; [by apply confirm_done|done].
  - intros now now' id r a Hok Hr.
    destruct (MarkSaleFailed_cases r) as [[Hrz Hf]|(r' & Hz & E)].
    { intros s1 Hs1. destruct (Hf now id a) as [e He]. by rewrite He in Hs1. }
    intros s1. rewrite !E. revert s1.
    apply (command_again (CFailSale r' now) (CFailSale r' now') _ _ _ failed_sale); try done.
    + intros x e Hx. apply (fail_already r' now). simpl in Hx. by rewrite Hx.
    + apply fail_does.
    + apply fail_same.
    + intros x Hx. eexists. split; [by apply fail_done|done].
  - intros now now' id new st e st' e' a Hok. by apply relist_again.
  - intros now id r a Hok (x & Hl & Hx) Hr. destruct id as [u].
    destruct (MarkSaleFailed_cases r) as [[Hrz Hf]|(r' & Hz & E)].
    { done. }
    rewrite E, command_run. simpl.
    destruct (view_ok a _ x Hok Hl) as (Hso & Hid & _).
    rewrite bool_decide_eq_false_2; [|intros ->; by apply (so_id x Hso)].
    eapply system_command_repeat; [done|exact Hl|by apply fail_done|done].
  - intros now now' id new st e r a Hok Hr Hst.
    destruct (MarkSaleFailed_cases r) as [[Hrz Hf]|(r' & Hz & E)].
    { destruct (Hf now' id a) as [err ->]. done. }
    rewrite E. destruct (command_frame (CFailSale r' now') (closure (FailSale r' now')) fail_switch
      (settlement.AuctionID_UUID id) a I (fun _ => eq_refl) Hok Hr) as [Hok' Hg].
    specialize (Hg (au id)). apply eq_true_iff_eq. rewrite !relist_is_ok by done.
    revert Hg. generalize (repo_view (command (closure (FailSale r' now')) fail_switch
      (settlement.AuctionID_UUID id) a).2 !! au id). intros o' Hg.
    split; intros (w & o & Hw & Hi & Hn & Hl & Ho); exists w.
    + rewrite Hl in Hg. symmetry in Hg. apply fmap_Some in Hg as (x & Hx & Hgx).
      exists x. split_and!; try done. by rewrite (RelistedFrom_gen o x).
    + rewrite Hl in Hg. apply fmap_Some in Hg as (x & Hx & Hgx).
      exists x. split_and!; try done. by rewrite (RelistedFrom_gen o x).
Defined.
End Auctions.
(** ** Invoices *)

Section Invoices.
Context `{UUIDLib} {B : Type} `{invoice_repo_theory.InvoiceRepositoryLaws B}.
Import invoice invoice_theory invoice_repo_theory billing billing_theory.
Context (policy : CommissionPolicy) (term : PaymentTerm).
Context (Hpolicy : valid_policy policy) (Hterm : 0 < PaymentTerm_Duration term).
Implicit Types (b : B) (inv : settlement.InvoiceID).

(** The same identity in the billing context. *)
Definition iv (inv : settlement.InvoiceID) : invoice.InvoiceID :=
  invoice.mkInvoiceID (settlement.InvoiceID_UUID inv).

Definition invoiced (P : Invoice → Prop) (b : B) (inv : settlement.InvoiceID) : Prop :=
  ∃ i, inv_view b !! iv inv = Some i ∧ P i.

Definition paid_invoice (i : Invoice) : Prop := i_status i = StatusPaid.
Definition closed_invoice (i : Invoice) : Prop :=
  i_status i = StatusExpired ∨ i_status i = StatusVoided.

Definition invoice_facts : BillFacts B := {|
  bf_billed := invoiced (fun _ => True);
  bf_paid := invoiced paid_invoice;
  bf_closed := invoiced closed_invoice;
|}.

(** Every invoice has the identity the saga derives for its auction and
    attempt: the saga is the only one that issues. *)
Definition derived (b : B) : Prop :=
  ∀ k i, inv_view b !! k = Some i →
    InvoiceIDForAttempt (settlement.mkAuctionID (AuctionID_UUID (i_auctionID i)))
      (Attempt_Int (i_attempt i)) = Ok (settlement.mkInvoiceID (invoice.InvoiceID_UUID k)).

Definition books_ok (b : B) : Prop := inv_ok b ∧ derived b.

Lemma update_bill_le b b' k i i' :
  inv_view b !! k = Some i → inv_view b' = <[k := i']> (inv_view b) →
  (paid_invoice i → paid_invoice i') → (closed_invoice i → closed_invoice i') →
  bill_le invoice_facts b b'.
Proof.
  intros Hl Hv Hp Hc.
  assert (∀ P inv, (P i → P i') → invoiced P b inv → invoiced P b' inv) as Hm.
  { intros P inv HP (j & Hj & HPj). unfold invoiced. rewrite Hv.
    destruct (decide (k = iv inv)) as [->|Hne].
    - rewrite lookup_insert_eq. rewrite Hl in Hj. injection Hj as ->. eauto.
    - rewrite lookup_insert_ne by done. eauto. }
  split; simpl; intros inv; by apply Hm.
Qed.

Lemma add_bill_le b b' k i :
  inv_view b !! k = None → inv_view b' = <[k := i]> (inv_view b) → bill_le invoice_facts b b'.
Proof.
  intros Hl Hv.
  assert (∀ P inv, invoiced P b inv → invoiced P b' inv) as Hm.
  { intros P inv (j & Hj & HPj). exists j. rewrite Hv, lookup_insert_ne by congruence. done. }
  split; simpl; intros inv; by apply Hm.
Qed.

(** A stored invoice of the auction and attempt is the one with the derived
    identity. *)
Lemma taken_billed b i auc n inv :
  derived b → InvoiceIDForAttempt auc n = Ok inv → i_id i = iv inv →
  AuctionID_UUID (i_auctionID i) = settlement.AuctionID_UUID auc → Attempt_Int (i_attempt i) = n →
  taken (inv_view b) i → bf_billed invoice_facts b inv.
Proof.
  intros Hd Hinv Hi Ha Hn [[j Hj]|(k & j & Hj & Hja & Hjn)]; [exists j; by rewrite Hi in Hj|].
  exists j. split; [|done]. pose proof (Hd k j Hj) as Hk. destruct auc as [u].
  rewrite Hja, Hjn, Ha, Hn in Hk. cbn in Hk.
  rewrite Hinv in Hk. injection Hk as ->. destruct k. done.
Qed.

(** An attempt at issuing, by the time it is made. *)
Lemma issue_run auc n inv debtor amount b :
  books_ok b → settlement.m_amount amount * 10000 ≤ int64_max → InvoiceIDForAttempt auc n = Ok inv →
  let issue now := bg_IssueInvoice (BillingGateway := billing_facade policy term)
                     now inv auc debtor amount n in
  (∃ e, ∀ now b', issue now b' = (Fail e, b'))
  ∨ ∀ now, 0 < now →
      bf_billed invoice_facts b inv ∧ issue now b = (Ok tt, b)
      ∨ ¬ bf_billed invoice_facts b inv
        ∧ ∃ b', issue now b = (Ok tt, b') ∧ books_ok b' ∧ bill_le invoice_facts b b'
            ∧ bf_billed invoice_facts b' inv.
Proof.
  intros [Hok Hd] Hmax Hinv issue. subst issue. cbn [bg_IssueInvoice billing_facade].
  destruct (facade_issue_cases (S := B) (settlement.InvoiceID_UUID inv) (settlement.AuctionID_UUID auc) (settlement.BidderID_UUID debtor)
              (settlement.m_amount amount) (settlement.c_code (settlement.m_currency amount)) n) as [[e E]|[Hval E]].
  { left. exists e. intros. apply E. }
  right. intros now Hnow. rewrite E.
  pose proof (valid_cmd_issuable policy term now _ _ _ _ _ _ Hval Hpolicy Hterm Hnow Hmax) as Hi.
  destruct (issue_spec _ _ _ _ b Hok Hi) as (i & Hi' & Hcase).
  destruct (cmd_invoice_Ok _ _ _ _ Hi) as (i0 & Hi0 & Hst & _ & Hid & Hau & _ & _ & Hat & _).
  rewrite Hi' in Hi0. injection Hi0 as <-.
  destruct Hcase as [[Ht Er]|(Hnt & b' & Er & Hok' & Hv)]; rewrite Er.
  - left. split; [|done]. eapply taken_billed; try done; [by rewrite Hau|by rewrite Hat].
  - right. simpl in Hid, Hv.
    assert (inv_view b !! iv inv = None) as Hnone.
    { destruct (inv_view b !! iv inv) eqn:El; [|done]. destruct Hnt. left. rewrite Hid. by eexists. }
    split; [by intros (j & Hj & _); rewrite Hnone in Hj|]. exists b'. split; [done|].
    split_and!; [split; [done|]|by eapply add_bill_le|].
    + intros k j. rewrite Hv. destruct (decide (k = iv inv)) as [->|Hne].
      * rewrite lookup_insert_eq. intros [= <-]. simpl. rewrite Hau, Hat. simpl.
        destruct auc, inv. done.
      * rewrite lookup_insert_ne by done. apply Hd.
    + exists (set_events [] i). split; [by rewrite Hv, lookup_insert_eq|done].
Qed.
Lemma void_run inv b :
  books_ok b →
  let void now := bg_VoidInvoice (BillingGateway := billing_facade policy term) now inv in
  (∃ e, (∀ now, void now b = (Fail e, b)) ∧ ¬ bf_closed invoice_facts b inv
     ∧ (errors_Is e ErrOfferAlreadyPaid = true → bf_paid invoice_facts b inv))
  ∨ (bf_closed invoice_facts b inv ∧ ∀ now, void now b = (Ok tt, b))
  ∨ ¬ bf_closed invoice_facts b inv
    ∧ ∀ now, ∃ b', void now b = (Ok tt, b') ∧ books_ok b' ∧ bill_le invoice_facts b b'
      ∧ bf_closed invoice_facts b' inv.
Proof.
  intros [Hok Hd] void. subst void. cbn [bg_VoidInvoice billing_facade].
  destruct (bool_decide (settlement.InvoiceID_UUID inv = uuid_Nil)) eqn:Hz.
  { left. eexists. split_and!.
    - intros now. rewrite on_error_run. unfold Facade_VoidInvoice, NewInvoiceID. by rewrite Hz.
    - intros (i & Hi & _). destruct (inv_view_ok b _ i Hok Hi) as (Hst & Hid & _).
      apply (so_id i Hst). rewrite Hid. unfold iv. breflect. by rewrite Hz.
    - done. }
  assert (∀ now, on_error (Facade_VoidInvoice now (settlement.InvoiceID_UUID inv))
      (fun err => Some (translate_paid err)) b
    = on_error (VoidInvoiceHandler now (mkVoidInvoice (iv inv))) (fun err => Some (translate_paid err)) b)
    as Hf.
  { intros now. rewrite !on_error_run. unfold Facade_VoidInvoice, NewInvoiceID. by rewrite Hz. }
  destruct (inv_view b !! iv inv) as [i|] eqn:Hl.
  2:{ left. eexists. split_and!; [intros now; rewrite Hf, on_error_run|..].
      - by rewrite (proj2 (system_missing now b (iv inv) Hok Hl)).
      - by intros (i & Hi & _); rewrite Hl in Hi.
      - done. }
  assert (∀ P, invoiced P b inv → P i) as Hinv by (intros P (j & Hj & HP); congruence).
  pose proof (fun now => void_spec now b (iv inv) i Hok Hl) as Hv.
  destruct (i_status i) eqn:Hs.
  - destruct (inv_view_ok b _ i Hok Hl) as (Hst & _). by destruct (so_status i Hst).
  - right. right. split; [intros Hc%Hinv; unfold closed_invoice in Hc; rewrite Hs in Hc; by destruct Hc|].
    intros now. destruct (Hv now) as (b' & v & E & Hok' & Hview).
    exists b'. rewrite Hf, on_error_run, E. split_and!; [done|split; [done|]| |].
    + intros k j. rewrite Hview. destruct (decide (k = iv inv)) as [->|Hne].
      * rewrite lookup_insert_eq. intros [= <-]. apply (Hd _ i Hl).
      * rewrite lookup_insert_ne by done. apply Hd.
    + eapply update_bill_le; [done..| |]; unfold paid_invoice, closed_invoice; rewrite Hs.
      * done.
      * by intros [].
    + eexists. rewrite Hview, lookup_insert_eq. split; [done|]. by right.
  - left. eexists. split_and!; [intros now; by rewrite Hf, on_error_run, (Hv now)|..].
    + intros Hc%Hinv. unfold closed_invoice in Hc. rewrite Hs in Hc. by destruct Hc.
    + intros _. by exists i.
  - right. left. split; [exists i; split; [done|by left]|].
    intros now. by rewrite Hf, on_error_run, (Hv now).
  - right. left. split; [exists i; split; [done|by right]|].
    intros now. by rewrite Hf, on_error_run, (Hv now).
Qed.
(** What an invoice charges, and for what. *)
Definition charges (i : Invoice) (auc : settlement.AuctionID) (debtor : settlement.BidderID)
    (amount : settlement.Money) (n : Z) : Prop :=
  AuctionID_UUID (i_auctionID i) = settlement.AuctionID_UUID auc
  ∧ BidderID_UUID (i_debtor i) = settlement.BidderID_UUID debtor
  ∧ m_amount (i_hammer i) = settlement.m_amount amount
  ∧ c_code (m_currency (i_hammer i)) = settlement.c_code (settlement.m_currency amount)
  ∧ Attempt_Int (i_attempt i) = n.

(** The part of an invoice no method changes. *)
Definition same_charge (i i' : Invoice) : Prop :=
  i_auctionID i' = i_auctionID i ∧ i_debtor i' = i_debtor i ∧ i_hammer i' = i_hammer i
  ∧ i_attempt i' = i_attempt i.

Lemma run_op_same_charge o i i' : i_status i ≠ StatusZero → run_op o i = (Ok tt, i') → same_charge i i'.
Proof.
  intros Hz Hr. destruct (i_status i) eqn:E; [done| |..].
  - destruct (run_op_pending o i E) as [[e Hf]|(j & Hj & Hw & _)]; [by rewrite Hf in Hr|].
    rewrite Hj in Hr. injection Hr as <-. by destruct o; simpl in Hw; destruct_and?; subst.
  - destruct (run_op_terminal o i) as [e Hf]; [by left|by rewrite Hf in Hr].
  - destruct (run_op_terminal o i) as [e Hf]; [by right; left|by rewrite Hf in Hr].
  - destruct (run_op_terminal o i) as [e Hf]; [by right; right|by rewrite Hf in Hr].
Qed.

(** Issuing adds at most the invoice it is asked for. *)
Lemma issue_charges now inv auc debtor amount n b k i :
  inv_ok b → 0 < now → settlement.m_amount amount * 10000 ≤ int64_max →
  inv_view (bg_IssueInvoice (BillingGateway := billing_facade policy term)
              now inv auc debtor amount n b).2 !! k = Some i →
  inv_view b !! k = Some i ∨ charges i auc debtor amount n.
Proof.
  intros Hok Hnow Hmax. cbn [bg_IssueInvoice billing_facade].
  destruct (facade_issue_cases (S := B) (settlement.InvoiceID_UUID inv) (settlement.AuctionID_UUID auc) (settlement.BidderID_UUID debtor)
              (settlement.m_amount amount) (settlement.c_code (settlement.m_currency amount)) n) as [[e E]|[Hval E]];
    rewrite E; [by left|].
  pose proof (valid_cmd_issuable policy term now _ _ _ _ _ _ Hval Hpolicy Hterm Hnow Hmax) as Hi.
  destruct (issue_spec _ _ _ _ b Hok Hi) as (j & Hj & [[_ ->]|(_ & b' & -> & _ & Hv)]); [by left|].
  simpl. rewrite Hv, lookup_insert_Some. intros [[_ <-]|[_ Hl]]; [right|by left].
  destruct (cmd_invoice_Ok _ _ _ _ Hi) as (j0 & Hj0 & _ & _ & _ & Hau & Hde & Hh & Hat & _).
  rewrite Hj in Hj0. injection Hj0 as <-. unfold charges. simpl. by rewrite Hau, Hde, Hh, Hat.
Qed.

(** Voiding changes no charge. *)
Lemma void_charges now inv b k i :
  inv_ok b →
  inv_view (bg_VoidInvoice (BillingGateway := billing_facade policy term) now inv b).2 !! k = Some i →
  ∃ j, inv_view b !! k = Some j ∧ same_charge j i.
Proof.
  intros Hok. cbn [bg_VoidInvoice billing_facade]. rewrite on_error_run. unfold Facade_VoidInvoice, NewInvoiceID.
  destruct (bool_decide (settlement.InvoiceID_UUID inv = uuid_Nil)); [simpl; intros Hl; by exists i|].
  cbn [with_cause]. rewrite run_lift. fold (iv inv).
  destruct (inv_view b !! iv inv) as [j|] eqn:Hl.
  2:{ rewrite (proj2 (system_missing now b (iv inv) Hok Hl)). simpl. intros Hk. by exists i. }
  pose proof (void_spec now b (iv inv) j Hok Hl) as Hv.
  destruct (i_status j); try (rewrite Hv; simpl; intros Hk; by exists i).
  destruct Hv as (b' & v & -> & _ & Hv). simpl. rewrite Hv, lookup_insert_Some.
  intros [[<- <-]|[_ Hk]]; [by exists j|by exists i].
Qed.

Definition billing_gateway_laws :
  BillingGatewayLaws B (H0 := billing_facade policy term).
Proof.
  refine {| bg_inv := books_ok; bg_facts := invoice_facts;
            bg_amount_ok := fun amount => amount * 10000 ≤ int64_max |}.
  - done.
  - intros b inv _ (i & Hi & Hp) (j & Hj & Hc). rewrite Hi in Hj. injection Hj as <-.
    unfold paid_invoice, closed_invoice in *. rewrite Hp in Hc. by destruct Hc.
  - intros now inv auc debtor amount n b Hok Hnow Hmax Hinv. unfold keeps.
    destruct (issue_run auc n inv debtor amount b Hok Hmax Hinv) as [[e E]|E].
    { rewrite E. by split_and!. }
    destruct (E now Hnow) as [[Hb ->]|(_ & b' & -> & ? & ? & ?)]; by split_and!.
  - intros now inv b Hok. unfold keeps.
    destruct (void_run inv b Hok) as [(e & E & _)|[[Hc E]|[_ E]]]; [rewrite E; by split_and!..|].
    destruct (E now) as (b' & -> & ? & ? & ?). by split_and!.
  - intros now inv b e Hok.
    destruct (void_run inv b Hok) as [(e' & -> & _ & Hp)|[[Hc ->]|[_ E]]]; [|done|].
    + intros [= <-]. done.
    + by destruct (E now) as (b' & -> & _).
  - intros now now' inv auc debtor amount n b Hok Hnow Hnow' Hmax Hinv b1 Hb1.
    destruct (issue_run auc n inv debtor amount b Hok Hmax Hinv) as [[e E]|E]; [by rewrite E in Hb1|].
    assert (is_ok (bg_IssueInvoice (BillingGateway := billing_facade policy term)
              now' inv auc debtor amount n b).1 = true) as Hr
      by (destruct (E now' Hnow') as [[_ ->]|(_ & b2 & -> & _)]; done).
    assert (books_ok b1 ∧ bf_billed invoice_facts b1 inv) as [Hok1 Hbill].
    { destruct (E now Hnow) as [[Hb E1]|(_ & b' & E1 & ? & _ & ?)];
        rewrite E1 in Hb1; injection Hb1 as <-; done. }
    split; [done|].
    destruct (issue_run auc n inv debtor amount b1 Hok1 Hmax Hinv) as [[e' E']|E'].
    { by rewrite E' in Hb1. }
    by destruct (E' now' Hnow') as [[_ E2]|(Hn & _)].
  - intros now now' inv b Hok b1 Hb1.
    assert (is_ok (bg_VoidInvoice (BillingGateway := billing_facade policy term) now' inv b).1 = true
            ∧ books_ok b1 ∧ bf_closed invoice_facts b1 inv) as (Hr & Hok1 & Hc).
    { destruct (void_run inv b Hok) as [(e & E & _)|[[Hc E]|[_ E]]].
      - by rewrite E in Hb1.
      - rewrite E in *. by injection Hb1 as <-.
      - destruct (E now) as (b' & E1 & ? & _ & ?). rewrite E1 in Hb1. injection Hb1 as <-.
        by destruct (E now') as (b2 & -> & _). }
    split; [done|]. by destruct (void_run inv b1 Hok1) as [(e & _ & Hn & _)|[[_ E]|[Hn _]]].
Defined.
End Invoices.
End saga_gateways.
