(* ===== verification/SagaProtocol.v ===== *)
(** * The saga protocol

    Every handler of the saga, interleaved with the others, with itself, with
    crashes and with the rest of the two other contexts. *)

From stdpp Require Import base numbers list strings gmap fin_maps.
From Stdlib Require Import ZArith Lia.
From S2P Require Import Prelude Errs Auth Postgres Events Processes SettlementDomain SettlementRepo Settlement SettlementRepoTheory SagaTheory.

Module saga_protocol.
Import settlement settlement_repo saga settlement_repo_theory saga_theory.
Local Open Scope Z_scope.

Definition valid_policy (p : RelistPolicy) : Prop := 0 < rp_delay p ∧ 0 < rp_duration p.

Section Protocol.
Context {S A B : Type} `{SettlementRepositoryLaws S} `{UUIDLib}
  `{!AuctionGateway A} `{!AuctionGatewayLaws A} `{!BillingGateway B} `{!BillingGatewayLaws B}.
Context (relist : RelistPolicy) (relist_valid : valid_policy relist).
Implicit Types (w : net S A B) (s : Settlement).

Abbreviation swp := (wp (W := net S A B) net_le net_inv net_fits).
Abbreviation done_ok := (when_ok (W := net S A B) (A := unit) (fun _ _ => True)).

(** ** Rules for the saga's calls *)

(** A saga that is, or was and went on. *)
Definition seen (id : AuctionID) s w : Prop :=
  saga_wf s ∧ s_auctionID s = id ∧ billable (B := B) s
  ∧ ∃ s1, st_view (n_saga w) !! id = Some s1 ∧ saga_wf s1 ∧ advances s s1.

Lemma seen_le id s w w1 : net_le w w1 → net_inv w1 → seen id s w → seen id s w1.
Proof.
  intros [Hsg _ _] Hi (Hwf & Hid & Hbl & s1 & Hl & _ & Had). split_and!; [done..|].
  destruct (Hsg _ _ Hl) as (s2 & Hl2 & Had2). exists s2.
  split_and!; [done|by apply (ni_wf w1 Hi id)|by etrans].
Qed.

Lemma view_spec id s w : net_inv w → st_view (n_saga w) !! id = Some s →
  saga_wf s ∧ s_auctionID s = id ∧ saga_fact (n_auctions w) (n_billing w) s.
Proof.
  intros Hi Hl. destruct (ni_wf w Hi _ _ Hl) as (Hwf & _ & Hf).
  by destruct (st_view_ok _ _ _ (ni_saga w Hi) Hl) as [_ ->].
Qed.

Lemma seen_now id s w : net_inv w → st_view (n_saga w) !! id = Some s → seen id s w.
Proof.
  intros Hi Hl. destruct (view_spec _ _ _ Hi Hl) as (Hwf & Hid & _).
  split_and!; [done..|by apply (ni_wf w Hi _ _ Hl)|]. exists s. by split_and!.
Qed.

Lemma get_saga_spec id w : net_inv w →
  (∃ s, st_view (n_saga w) !! id = Some s ∧ st_Get id (n_saga w) = Ok s)
  ∨ (st_view (n_saga w) !! id = None
     ∧ st_Get id (n_saga w) = Fail (SettlementNotFoundError (AuctionID_UUID id))).
Proof.
  intros Hi. pose proof (ni_saga w Hi) as Hok.
  destruct (st_view (n_saga w) !! id) as [s|] eqn:Hl; [left|right].
  - exists s. split; [done|by apply st_Get_Some].
  - split; [done|by apply st_Get_None].
Qed.

Lemma wp_get id w : swp (get_saga id) (when_ok (seen id)) w.
Proof.
  apply wp_call. intros w1 _ Hi _. simpl. split_and!; [done..|].
  intros s w2 Hg Hle Hi2. destruct (get_saga_spec id w1 Hi) as [(s' & Hl & Hg')|[_ Hg']];
    rewrite Hg' in Hg; [|done]. injection Hg as ->.
  eapply seen_le; [done..|by apply seen_now].
Qed.

Lemma wp_effect (m : M (net S A B) unit) (post : net S A B → Prop) w :
  (∀ w1, net_inv w1 → net_fits w1 → keeps net_inv net_le m post w1) →
  (∀ w1 w2, net_le w1 w2 → post w1 → post w2) →
  swp (call m) (when_ok (fun _ => post)) w.
Proof.
  intros Hm Hp. apply wp_call. intros w1 _ Hi Hf.
  destruct (Hm w1 Hi Hf) as (Hi' & Hle & Hpost). split_and!; [done..|].
  intros [] w2 Hr Hle2 _. eauto.
Qed.

Lemma wp_commit id fn f w :
  (∀ w1 s, net_le w w1 → net_inv w1 → st_view (n_saga w1) !! id = Some s →
     (∃ s', fn s = Ok s' ∧ commits s s' ∧ saga_fact (n_auctions w1) (n_billing w1) s')
     ∨ ∃ e, fn s = Fail e) →
  swp (handle (update_saga id fn) f) done_ok w.
Proof.
  intros Hfn. apply wp_attempt; [apply _|]. unfold update_saga, call. cbn [wp]. intros w1 Hle Hi _.
  destruct (update_spec id fn w1 Hi (fun s => Hfn w1 s Hle Hi)) as (Hi' & Hle' & _).
  split_and!; [done..|]. intros w2 Hle2 Hi2 _. destruct (_ : res error unit) as [[]|e|q].
  - by apply wp_ret.
  - by apply wp_ret.
  - by apply wp_panic.
Qed.

(** ** The effects *)

Definition effect_done (id : AuctionID) (step : NextStep) w : Prop :=
  match step with
  | StepZero => False
  | StepAwardRunnerUp => sf_awarded ag_facts (n_auctions w) id
  | StepRelist =>
      sf_failed ag_facts (n_auctions w) id
      ∧ ∃ new, RelistIDFor id = Ok new ∧ sf_relisted ag_facts (n_auctions w) id new
  | StepFailUnsold => sf_failed ag_facts (n_auctions w) id
  end.

Lemma effect_done_le id step w w1 : net_le w w1 → effect_done id step w → effect_done id step w1.
Proof. intros [_ [] _]. unfold effect_done. destruct step; naive_solver. Qed.

Lemma wp_auctions m (post : A → Prop) w :
  (∀ a, ag_inv a → ag_fits a → keeps ag_inv (sale_le ag_facts) m post a) →
  (∀ a a', sale_le ag_facts a a' → post a → post a') →
  swp (call (on_auctions m)) (when_ok (fun _ w => post (n_auctions w))) w.
Proof.
  intros Hm Hp. apply wp_effect.
  - intros w1 Hi Hf. apply on_auctions_spec; [done|]. apply Hm; [apply Hi|done].
  - intros w1 w2 [_ Ha _]. by apply Hp.
Qed.

Lemma wp_billing m (post : B → Prop) w :
  (∀ b, bg_inv b → keeps bg_inv (bill_le bg_facts) m post b) →
  (∀ b b', bill_le bg_facts b b' → post b → post b') →
  swp (call (on_billing m)) (when_ok (fun _ w => post (n_billing w))) w.
Proof.
  intros Hm Hp. apply wp_effect.
  - intros w1 Hi _. apply on_billing_spec; [done|]. apply Hm, Hi.
  - intros w1 w2 [_ _ Hb]. by apply Hp.
Qed.

Lemma wp_issue now inv auc debtor amount n w : 0 < now →
  bg_amount_ok (B := B) (m_amount amount) → InvoiceIDForAttempt auc n = Ok inv →
  swp (call (on_billing (bg_IssueInvoice now inv auc debtor amount n)))
    (when_ok (fun _ w => bf_billed bg_facts (n_billing w) inv)) w.
Proof.
  intros Hnow Ham Hinv. apply (wp_billing _ (fun b => bf_billed bg_facts b inv)).
  - intros b Hb. by apply bg_Issue_spec.
  - intros b b' []. auto.
Qed.

Lemma wp_compensate clk id step reason w :
  0 ≤ clk_saga clk → step ≠ StepZero →
  swp (compensate relist clk id step reason) (when_ok (fun _ => effect_done id step)) w.
Proof.
  intros Hclk Hz. destruct step; [done|..]; unfold compensate.
  - apply (wp_auctions _ (fun a => sf_awarded ag_facts a id)).
    + intros a ? ?. by apply ag_Award_spec.
    + intros a a' []. auto.
  - eapply wp_seq; [apply _|apply (wp_auctions _ (fun a => sf_failed ag_facts a id))|].
    + intros a ? ?. by apply ag_Fail_spec.
    + intros a a' []. auto.
    + intros [] w1 _ _ Hfail. cbn [Window]. apply wp_pure. intros new Hnew.
      apply wp_call. intros w2 Hle Hi Hf.
      destruct (on_auctions_spec (ag_Relist (clk_auction clk) id new
        (time_Add (clk_saga clk) (rp_delay relist))
        (time_Add (time_Add (clk_saga clk) (rp_delay relist)) (rp_duration relist)))
        (fun a => sf_relisted ag_facts a id new) w2 Hi) as (Hi' & Hle' & Hp).
      { apply ag_Relist_spec; [apply Hi|]. destruct relist_valid. unfold time_Add. lia. }
      split_and!; [done..|]. intros [] w3 Hr Hle3 _. eapply effect_done_le; [done|].
      split; [|exists new; split; [done|by apply Hp]].
      apply (sl_failed _ _ _ (nl_auctions _ _ Hle')), (sl_failed _ _ _ (nl_auctions _ _ Hle)), Hfail.
  - apply (wp_auctions _ (fun a => sf_failed ag_facts a id)).
    + intros a ? ?. by apply ag_Fail_spec.
    + intros a a' []. auto.
Qed.

(** ** The event handlers *)

Lemma fact_of_state a b s : saga_wf (bumped s) → ¬ failed_state (s_state s) →
  state_fact a b s → saga_fact a b s.
Proof.
  intros Hwf Hn Hf. split; [done|]. intros Hr. destruct Hn.
  apply (wf_reason _ Hwf). simpl. by rewrite Hr.
Qed.

Lemma parseSagaIDs_inv auctionID invoiceID id inv :
  parseSagaIDs auctionID invoiceID = Ok (id, inv) → id = mkAuctionID auctionID ∧ inv = mkInvoiceID invoiceID.
Proof.
  unfold parseSagaIDs, wrap_err, NewAuctionID, NewInvoiceID. 
  by do 2 case_bool_decide; simpl; intros [=].
Qed.

Lemma wp_OnInvoicePaid clk auctionID invoiceID w :
  bf_paid bg_facts (n_billing w) (mkInvoiceID invoiceID) →
  swp (OnInvoicePaid clk auctionID invoiceID) done_ok w.
Proof.
  intros Hpaid. unfold OnInvoicePaid. apply wp_pure. intros [id inv] Hids.
  apply parseSagaIDs_inv in Hids as [_ ->].
  eapply wp_seq; [apply _|apply wp_get|]. intros s w1 Hle1 _ Hseen.
  destruct (DecideOnPaymentReceived s (mkInvoiceID invoiceID)) as [u|e|q];
    [|by apply wp_ret|by apply wp_panic].
  eapply wp_seq; [apply _|apply (wp_auctions _ (fun a => sf_settled ag_facts a id))|].
  - intros a ? ?. by apply ag_Confirm_spec.
  - intros a a' []. auto.
  - intros [] w2 Hle2 _ Hset. apply wp_commit. intros w3 s3 Hle Hi Hl.
    destruct (view_spec _ _ _ Hi Hl) as (Hwf & Hid & _).
    destruct (commit_PaymentReceived (mkInvoiceID invoiceID) s3 Hwf)
      as [(s' & E & Hc & Hst & Hinv)|E]; [left|right; eauto].
    exists s'. split_and!; [done..|]. apply fact_of_state; [apply Hc|rewrite Hst; by intros [|]|].
    unfold state_fact. rewrite Hst, (ss_auction _ _ (co_same _ _ Hc)), Hid.
    split; [by apply (sl_settled _ _ _ (nl_auctions _ _ Hle))|]. rewrite Hinv.
    apply (bl_paid _ _ _ (nl_billing w w3 ltac:(by do 2 (etrans; [done|])))), Hpaid.
Qed.

Lemma DecideOnPaymentTimeout_Ok s inv step : DecideOnPaymentTimeout s inv = Ok step →
  step = nextStepOnFailure s ∧ awaits s ∧ inv = s_invoiceID s.
Proof.
  unfold DecideOnPaymentTimeout. destruct (guardLive_spec s inv) as [(-> & Ha & -> & _)| ->]; [|done].
  by intros [= <-].
Qed.

(** While it awaits its first payment, a saga has its first invoice. *)
Lemma first_invoice s s' :
  saga_wf s → saga_wf s' → advances s s' → s_attempt s' = 1 → awaits s' ∨ rank (s_state s') ≤ 2 →
  s_invoiceID s' = s_invoiceID s.
Proof.
  intros Hs Hs' [Hsame [->|Hlt]] Hat Hr; [done|].
  assert (rank (s_state s') ≤ 3) by (destruct Hr as [[-> |[-> | ->]]|?]; simpl; lia).
  pose proof (wf_invoice s Hs) as Hv. pose proof (wf_invoice s' Hs') as Hv'.
  rewrite (wf_first s Hs) in Hv by lia. rewrite Hat, (ss_auction _ _ Hsame) in Hv'. congruence.
Qed.

(** A timeout that does not award settles the saga it was decided on. *)
Lemma failed_invoice s s' :
  saga_wf s → saga_wf s' → advances s s' → nextStepOnFailure s ≠ StepAwardRunnerUp → awaits s' →
  s_runnerUpQualifies s' = true ∨ s_attempt s' = 1 → s_invoiceID s' = s_invoiceID s.
Proof.
  intros Hs Hs' Had Hn Haw [Hq|Hat]; [|apply first_invoice; auto].
  destruct (proj2 Had) as [->|Hlt]; [done|].
  assert (rank (s_state s') ≤ 3) by (destruct Haw as [-> |[-> | ->]]; simpl; lia).
  destruct Hn. unfold nextStepOnFailure.
  by rewrite (wf_first s Hs), <-(ss_qualifies _ _ (proj1 Had)), Hq by lia.
Qed.

Lemma wp_OnInvoiceExpired clk auctionID invoiceID w : 0 ≤ clk_saga clk →
  bf_closed bg_facts (n_billing w) (mkInvoiceID invoiceID) →
  swp (OnInvoiceExpired relist clk auctionID invoiceID) done_ok w.
Proof.
  intros Hclk Hcl. unfold OnInvoiceExpired. apply wp_pure. intros [id inv] Hids.
  apply parseSagaIDs_inv in Hids as [_ ->].
  eapply wp_seq; [apply _|apply wp_get|]. intros s w1 Hle1 _ Hseen.
  destruct (DecideOnPaymentTimeout s (mkInvoiceID invoiceID)) as [step|e|q] eqn:Hd;
    [|by apply wp_ret|by apply wp_panic].
  apply DecideOnPaymentTimeout_Ok in Hd as (Hstep & _ & Hinv).
  rewrite Hinv in Hcl.
  pose proof (nextStep_fits s) as Hfit. rewrite <-Hstep in Hfit.
  eapply wp_seq; [apply _|apply wp_compensate; [done|by destruct step]|].
  intros [] w2 Hle2 Hi2 Heff. apply (seen_le _ _ _ _ Hle2 Hi2) in Hseen.
  cbv zeta. apply wp_commit. intros w3 s3 Hle Hi Hl.
  destruct (view_spec _ _ _ Hi Hl) as (Hwf & Hid & _).
  apply (seen_le _ _ _ _ Hle Hi) in Hseen as (Hwfs & _ & _ & s3' & Hl' & _ & Had).
  rewrite Hl in Hl'. injection Hl' as <-. pose proof (proj1 Had) as Hsame.
  apply (bl_closed _ _ _ (nl_billing w w3 ltac:(by do 2 (etrans; [done|])))) in Hcl.
  apply (step_fits_same _ _ _ Hsame) in Hfit. apply (effect_done_le _ _ _ _ Hle) in Heff.
  destruct (decide (step = StepAwardRunnerUp)) as [Ea|Hna].
  - rewrite bool_decide_eq_false_2 by naive_solver. rewrite Ea in *.
    destruct (commit_award s3 Hwf Hfit) as [(s' & E & Hc & Hst & Hi' & Hat)|E]; [left|right; eauto].
    exists s'. split_and!; [done..|]. apply fact_of_state; [apply Hc|rewrite Hst; by intros [|]|].
    unfold state_fact. rewrite Hst, (ss_auction _ _ (co_same _ _ Hc)), Hid, Hi'. split; [done|].
    pose proof (co_rank _ _ Hc) as Hrk. rewrite Hst in Hrk. simpl in Hrk.
    rewrite (first_invoice s s3); [done..|right; lia].
  - rewrite bool_decide_eq_true_2 by done.
    destruct (commit_failure step ReasonPaymentTimeout s3 Hwf Hna Hfit) as
      [(s' & E & Hc & Haw & Hst & Hi' & Hr & Hat)|[E _]]; [done|left|right; eauto].
    exists s'. split_and!; [done..|]. split; [|by rewrite Hr].
    assert (lapsed (n_billing w3) s') as Hlap.
    { unfold lapsed. rewrite Hi', Hat, (ss_qualifies _ _ (co_same _ _ Hc)). intros Hq.
      by rewrite (failed_invoice s s3) by (done || by rewrite <-Hstep). }
    unfold state_fact. rewrite Hst, (ss_auction _ _ (co_same _ _ Hc)), Hid.
    destruct step; naive_solver.
Qed.

Lemma wp_OnWinnerReassigned clk auctionID newWinner price currency w : 0 < clk_billing clk →
  swp (OnWinnerReassigned clk auctionID newWinner price currency) done_ok w.
Proof.
  intros Hclk. unfold OnWinnerReassigned. do 4 (apply wp_pure; intros ? _).
  eapply wp_seq; [apply _|apply wp_get|]. intros s w1 _ _ (_ & _ & [_ Hbl] & _).
  destruct (DecideOnWinnerReassigned s _ _) as [u|e|q]; [|by apply wp_ret|by apply wp_panic].
  apply wp_pure. intros inv Hinv. eapply wp_seq; [apply _|by apply wp_issue|].
  intros [] w2 _ _ Hb. apply wp_commit. intros w3 s3 Hle Hi Hl.
  destruct (view_spec _ _ _ Hi Hl) as (Hwf & Hid & _). rewrite <-Hid in Hinv.
  destruct (commit_reassigned a0 a2 inv s3 Hwf Hinv) as [(s' & E & Hc & Hst & Hi')|E];
    [left|by right].
  exists s'. split_and!; [done..|]. apply fact_of_state; [apply Hc|rewrite Hst; by intros [|]|].
  unfold state_fact. rewrite Hst, Hi'. by apply (bl_billed _ _ _ (nl_billing _ _ Hle)).
Qed.

(** A saga as the event starts it. *)
Lemma NewAuctionID_inv u i : NewAuctionID u = Ok i → i = mkAuctionID u ∧ i ≠ zero_value.
Proof. unfold NewAuctionID. case_bool_decide; [done|]. intros [= <-]. split; [done|]. by intros [= ->]. Qed.
Lemma NewBidderID_inv u i : NewBidderID u = Ok i → i = mkBidderID u ∧ i ≠ zero_value.
Proof. unfold NewBidderID. case_bool_decide; [done|]. intros [= <-]. split; [done|]. by intros [= ->]. Qed.
Lemma NewMoney_inv n c m : NewMoney n c = Ok m → m = mkMoney n c ∧ 0 ≤ n.
Proof.
  unfold NewMoney. destruct (n <? 0) eqn:E; [done|]. case_match; [done|].
  intros [= <-]. breflect. by split.
Qed.
Lemma NewCurrency_inv code c : NewCurrency code = Ok c → NewCurrency (c_code c) = Ok c.
Proof. intros H'. pose proof H' as E. unfold NewCurrency in E. repeat (case_match; [done|]). by injection E as <-. Qed.

Lemma NewClosing_inv auc win ham ru amt q g inv c :
  NewClosing auc win ham ru amt q g inv = Ok c →
  c = mkClosing auc win ham ru amt q g inv ∧ 0 ≤ g ∧ (q = true → ru ≠ zero_value).
Proof.
  unfold NewClosing. repeat (case_match; [done|]). intros [= <-]. breflect; split_and!; try done.
  all: by intros ->.
Qed.

Lemma buildClosing_started e c s :
  buildClosing e = Ok c → Start c = Ok s →
  saga_wf s ∧ s_state s = StateStarted ∧ s_auctionID s = cl_auctionID c
  ∧ m_amount (s_hammer s) = ca_HammerMinor e
  ∧ (m_amount (s_runnerUpAmount s) = ca_RunnerUpMinor e ∨ m_amount (s_runnerUpAmount s) = 0).
Proof.
  unfold buildClosing. intros Hb Hs.
  destruct (NewAuctionID _) as [auc| |] eqn:E1; [|done..]. simpl in Hb.
  destruct (NewBidderID (ca_WinnerID e)) as [win| |] eqn:E2; [|done..]. simpl in Hb.
  destruct (NewCurrency _) as [cur| |] eqn:E3; [|done..]. simpl in Hb.
  destruct (NewMoney (ca_HammerMinor e) cur) as [ham| |] eqn:E4; [|done..]. simpl in Hb.
  destruct (if bool_decide _ then _ else _) as [[ru amt]| |] eqn:E5; [|done..]. simpl in Hb.
  destruct (InvoiceIDForAttempt auc 1) as [inv| |] eqn:E6; [|done..]. simpl in Hb.
  apply NewClosing_inv in Hb as (-> & Hg & Hq).
  apply NewAuctionID_inv in E1 as [-> Hauc]. apply NewBidderID_inv in E2 as [-> Hwin].
  apply NewMoney_inv in E4 as [-> Hham]. apply NewCurrency_inv in E3.
  unfold Start in Hs. case_match; [done|]. injection Hs as <-. simpl.
  assert (m_amount amt = ca_RunnerUpMinor e ∨ m_amount amt = 0) as Hamt.
  { case_bool_decide; [|right; by simplify_eq/=].
    destruct (NewBidderID _); [simpl in E5|done..].
    destruct (NewMoney _ _) as [amt'| |] eqn:E8; [|done..]. simplify_eq/=.
    apply NewMoney_inv in E8 as [-> _]. by left. }
  split_and!; [|done..]. constructor; simpl; try done.
  - constructor; simpl; try done; [|by left]. case_bool_decide; [|left; by simplify_eq/=].
    right. destruct (NewBidderID _) as [ru'| |] eqn:E7; [|done..]. simpl in E5.
    destruct (NewMoney _ _) as [amt'| |] eqn:E8; [|done..]. simplify_eq/=.
    apply NewBidderID_inv in E7 as [-> ?]. by apply NewMoney_inv in E8 as [-> ?].
  - split; [done|]. by intros [|].
Qed.

Lemma add_spec x w : saga_wf x → billable (B := B) x → s_state x = StateStarted → net_inv w →
  ∃ st', st_Add x (n_saga w) = (Ok tt, st') ∧ is_Some (st_view st' !! s_auctionID x)
    ∧ net_inv (mkNet st' (n_auctions w) (n_billing w))
    ∧ net_le w (mkNet st' (n_auctions w) (n_billing w)).
Proof.
  intros Hx Hbl Hst Hi. pose proof (ni_saga _ Hi) as Hok. destruct w as [st a b]. simpl in *.
  destruct (st_view st !! s_auctionID x) as [y|] eqn:Hl.
  - exists st. rewrite st_Add_exists by (done || by eexists). by rewrite Hl.
  - destruct (st_Add_new st x Hok (wf_storable _ Hx) Hl) as (st' & E & Hok' & Hv).
    destruct (net_put (mkNet st a b) (s_auctionID x) x st' x Hi Hok' Hv Hx Hbl) as [??].
    + split; [unfold state_fact; by rewrite Hst|]. intros Hr.
      assert (failed_state (s_state x)) as [Ef|Ef] by (apply (wf_reason x Hx); by rewrite Hr);
        by rewrite Hst in Ef.
    + by left.
    + exists st'. rewrite Hv, lookup_insert_eq. by split_and!.
Qed.

Lemma wp_Add x w : saga_wf x → billable (B := B) x → s_state x = StateStarted →
  swp (call (on_saga (st_Add x))) done_ok w.
Proof.
  intros Hx Hbl Hst. apply wp_call. intros w1 _ Hi _.
  destruct (add_spec x w1 Hx Hbl Hst Hi) as (st' & E & _ & ? & ?).
  unfold on_saga. rewrite E. by split_and!.
Qed.

(** The amounts of the event can be billed. *)
Definition closed_billable (e : ClosedAuction) : Prop :=
  bg_amount_ok (B := B) (ca_HammerMinor e) ∧ bg_amount_ok (B := B) (ca_RunnerUpMinor e).

Lemma wp_OnAuctionClosed clk e w : 0 < clk_billing clk → closed_billable e →
  swp (OnAuctionClosed clk e) done_ok w.
Proof.
  intros Hclk [Hh Hru]. unfold OnAuctionClosed. do 2 (apply wp_pure; intros ? _).
  destruct (negb _); [by apply wp_ret|]. apply wp_pure. intros c Hc.
  apply wp_pure. intros x Hx. apply with_wrap_err in Hc.
  destruct (buildClosing_started _ _ _ Hc Hx) as (Hwf & Hst & Hid & Ham & Hra).
  eapply wp_seq; [apply _|apply wp_Add; [done| |done]|].
  { split; [by rewrite Ham|]. destruct Hra as [-> | ->]; [done|apply bg_amount_zero]. }
  intros [] w1 _ _ _.
  eapply wp_seq; [apply _|apply wp_get|]. intros s w2 _ _ (Hswf & Hsid & [Hbl _] & _).
  destruct (DecideOnInvoiceIssue s) as [[]|err|q];
    [|by apply wp_ret|by apply wp_ret|by apply wp_panic]. cbn [negb].
  eapply wp_seq; [apply _|apply wp_issue; [done|done|apply Hswf]|].
  intros [] w3 _ _ Hb. apply wp_commit. intros w4 s4 Hle Hi Hl.
  destruct (view_spec _ _ _ Hi Hl) as (Hwf4 & _ & _).
  destruct (commit_InvoiceIssued (s_invoiceID s) s4 Hwf4)
    as [(s' & E & Hco & Hinv & Hst' & Hinv')|E]; [left|right; eauto].
  exists s'. split_and!; [done..|]. apply fact_of_state; [apply Hco|rewrite Hst'; by intros [|]|].
  unfold state_fact. rewrite Hst', Hinv', <-Hinv. by apply (bl_billed _ _ _ (nl_billing _ _ Hle)).
Qed.

(** What an event says is so: the invoice it names was paid, or can no longer
    be paid. *)
Definition truthful (e : Event) w : Prop :=
  match e with
  | OfAuction (EvAuctionClosedV1 e) =>
      bg_amount_ok (B := B) (acl_HammerPriceMinor e)
      ∧ bg_amount_ok (B := B) (acl_RunnerUpAmountMinor e)
  | OfBilling (EvInvoicePaidV1 e) =>
      ∀ i, parseEventUUID "invoice_id" (ip_InvoiceID e) = Ok i →
        bf_paid bg_facts (n_billing w) (mkInvoiceID i)
  | OfBilling (EvInvoiceExpiredV1 e) =>
      ∀ i, parseEventUUID "invoice_id" (ie_InvoiceID e) = Ok i →
        bf_closed bg_facts (n_billing w) (mkInvoiceID i)
  | _ => True
  end.

Lemma truthful_expired e u w :
  parseEventUUID "invoice_id" (ie_InvoiceID e) = Ok u →
  bf_closed bg_facts (n_billing w) (mkInvoiceID u) → truthful (OfBilling (EvInvoiceExpiredV1 e)) w.
Proof. intros Hp Hc i Hi. rewrite Hp in Hi. by injection Hi as <-. Qed.

Definition valid_clocks (clk : Clocks) : Prop :=
  0 ≤ clk_saga clk ∧ 0 < clk_billing clk.

Lemma wp_deliver clk e w : valid_clocks clk → truthful e w → swp (deliver relist clk e) done_ok w.
Proof.
  intros [Hclk Hclk'] He. destruct e as [[]|[]|[]]; cbn [deliver truthful] in *;
    try (by apply wp_ret); apply wp_pure; intros ? _; apply wp_pure; intros ? ?.
  - apply wp_pure. intros ? _. by apply wp_OnAuctionClosed.
  - by apply wp_OnWinnerReassigned.
  - apply wp_OnInvoicePaid. auto.
  - apply wp_OnInvoiceExpired; auto.
Qed.

(** ** The decline command *)

(** The sale did not happen, and never will. *)
Definition concluded (id : AuctionID) w : Prop :=
  ∃ s, st_view (n_saga w) !! id = Some s ∧ failed_state (s_state s).

Lemma failed_rank st : failed_state st → rank st = 4.
Proof. by intros [-> | ->]. Qed.

Lemma rank_le st : rank st ≤ 4.
Proof. by destruct st. Qed.

(** A saga in a terminal state stays what it is. *)
Lemma terminal_stays s s' : rank (s_state s) = 4 → advances s s' → s' = s.
Proof. intros Hr [_ [->|Hlt]]; [done|]. pose proof (rank_le (s_state s')). lia. Qed.

Lemma seen_terminal id s w : seen id s w → rank (s_state s) = 4 →
  st_view (n_saga w) !! id = Some s.
Proof.
  intros (_ & _ & _ & s1 & Hl & _ & Had) Hr. by rewrite <-(terminal_stays _ _ Hr Had).
Qed.

Lemma concluded_le id w w1 : net_le w w1 → concluded id w → concluded id w1.
Proof.
  intros [Hs _ _] (s & Hl & Hf). destruct (Hs _ _ Hl) as (s' & Hl' & Had).
  rewrite (terminal_stays _ _ (failed_rank _ Hf) Had) in Hl'. by exists s.
Qed.

Lemma DecideOnDecline_spec s actor :
  match DecideOnDecline s actor with
  | Ok step => step = nextStepOnFailure s ∧ s_state s = StateSecondChancePayment
               ∧ actor = s_runnerUp s
  | Fail e => declineOutcome (Some e) = None → failed_state (s_state s)
  | Panic _ => False
  end.
Proof.
  unfold DecideOnDecline, CanRunnerUpDecline.
  destruct (IsZero actor || _ || _ || _) eqn:E.
  - destruct (negb _ && _); [|done]. destruct (s_state s) eqn:Es; try done.
    + by left.
    + by right.
  - breflect. split_and!; [done| |].
    + by destruct (decide (s_state s = StateSecondChancePayment)).
    + by destruct (decide (actor = s_runnerUp s)).
Qed.

Lemma wp_handle_strict (p : prog (net S A B) unit) f (R : unit → net S A B → Prop) w :
  (∀ e, f e ≠ None) → (∀ w1 w2, net_le w1 w2 → R tt w1 → R tt w2) →
  swp p (when_ok R) w → swp (handle p f) (when_ok R) w.
Proof.
  intros Hf HR Hp. apply wp_attempt; [apply _|]. eapply wp_mono; [apply _|exact Hp|].
  intros r w1 _ _ HRr. destruct r as [[]|e|q]; [|specialize (Hf e); destruct (f e); [|done]|].
  - apply wp_ret. intros [] w2 _ Hle _. eapply HR; [done|]. by apply HRr.
  - apply wp_fail.
  - apply wp_panic.
Qed.

Lemma from_err_ok o : from_err o = Ok tt → o = None.
Proof. by destruct o. Qed.

Lemma wp_answer cmd s w : seen (de_AuctionID cmd) s w → rank (s_state s) = 4 →
  swp (answer_by_state cmd) (when_ok (fun _ => concluded (de_AuctionID cmd))) w.
Proof.
  intros Hseen Hr. apply wp_attempt; [apply _|]. unfold get_saga, call. cbn [wp].
  intros w1 Hle Hi _. simpl. apply (seen_le _ _ _ _ Hle Hi) in Hseen as Hseen1.
  pose proof (seen_terminal _ _ _ Hseen1 Hr) as Hl.
  rewrite (st_Get_Some _ _ _ (ni_saga w1 Hi) Hl). split_and!; [done..|].
  intros w2 Hle2 Hi2 _. pose proof (DecideOnDecline_spec s (de_Actor cmd)) as Hd.
  destruct (DecideOnDecline _ _) as [step|e|q]; [|apply wp_ret|done].
  { destruct Hd as (_ & Hst & _). by rewrite Hst in Hr. }
  intros [] w3 Ha Hle3 _. apply (concluded_le _ w1).
  { by etrans. }
  exists s. split; [done|]. apply Hd. exact (from_err_ok _ Ha).
Qed.

Lemma wp_void clk inv w :
  swp (void_offer clk inv) (when_ok (fun _ w => bf_closed bg_facts (n_billing w) inv)) w.
Proof.
  apply wp_handle_strict.
  - intros e. by case_match.
  - intros w1 w2 [_ _ []]. auto.
  - apply (wp_billing _ (fun b => bf_closed bg_facts b inv)).
    + intros b Hb. by apply bg_Void_spec.
    + intros b b' []. auto.
Qed.

Lemma wp_decline_compensate clk id step w :
  0 ≤ clk_saga clk → step ≠ StepZero → step ≠ StepAwardRunnerUp →
  swp (decline_compensate relist clk id step) (when_ok (fun _ => effect_done id step)) w.
Proof.
  intros Hclk Hz Ha.
  assert (decline_compensate (S := S) (B := B) relist clk id step
          = compensate relist clk id step ReasonSecondChanceDeclined) as -> by (by destruct step).
  by apply wp_compensate.
Qed.

Lemma decline_step s : saga_wf s → s_state s = StateSecondChancePayment →
  nextStepOnFailure s ≠ StepAwardRunnerUp.
Proof.
  intros Hs Hst. unfold nextStepOnFailure. rewrite (wf_second _ Hs Hst). simpl. by case_match.
Qed.

(** The commit, and the answer when it is refused. *)
Lemma wp_decline_commit cmd s step w :
  seen (de_AuctionID cmd) s w → s_state s = StateSecondChancePayment →
  step = nextStepOnFailure s → effect_done (de_AuctionID cmd) step w →
  bf_closed bg_facts (n_billing w) (s_invoiceID s) →
  swp (attempt (update_saga (de_AuctionID cmd)
                  (closure (ApplyNextStep step ReasonSecondChanceDeclined)))
         (fun r => match r with
                   | Fail err => if errors_Is err ErrUnexpectedTransition
                                 then answer_by_state cmd else Ret (Fail err)
                   | r => Ret r
                   end)) (when_ok (fun _ => concluded (de_AuctionID cmd))) w.
Proof.
  intros Hseen Hst Hstep Heff Hcl. apply wp_attempt; [apply _|].
  unfold update_saga, call. cbn [wp]. intros w1 Hle Hi _.
  apply (effect_done_le _ _ _ _ Hle) in Heff.
  apply (bl_closed _ _ _ (nl_billing _ _ Hle)) in Hcl.
  apply (seen_le _ _ _ _ Hle Hi) in Hseen as (Hwf & Hid & _ & s1 & Hl & Hwf1 & Had).
  pose proof (decline_step s Hwf Hst) as Hna. rewrite <-Hstep in Hna.
  pose proof (nextStep_fits s) as Hfit. rewrite <-Hstep in Hfit.
  apply (step_fits_same _ _ s1 (proj1 Had)) in Hfit.
  pose proof (commit_failure step ReasonSecondChanceDeclined s1 Hwf1 Hna Hfit) as Hc.
  assert (awaits s1 → s1 = s) as Hsame.
  { intros Ha%awaits_rank. destruct Had as [_ [->|Hlt]]; [done|]. rewrite Hst in Hlt. simpl in Hlt. lia. }
  pose proof (update_spec (de_AuctionID cmd)
    (closure (ApplyNextStep step ReasonSecondChanceDeclined)) w1 Hi) as Hu.
  destruct Hu as (Hi' & Hle' & Hr).
  { intros s2 Hl2. rewrite Hl in Hl2. injection Hl2 as <-.
    destruct Hc as [(s' & E & Hco & Haw & Hst' & Hinv & Hre & _)|[E _]]; [done|left|right; eauto].
    exists s'. split_and!; [done..|]. split.
    - unfold state_fact. rewrite Hst', (ss_auction _ _ (co_same _ _ Hco)),
        (ss_auction _ _ (proj1 Had)), Hid.
      assert (lapsed (n_billing w1) s') as Hlap by (intros _; by rewrite Hinv, (Hsame Haw)).
      destruct step; naive_solver.
    - intros _. by rewrite Hinv, (Hsame Haw). }
  split_and!; [done..|]. intros w2 Hle2 Hi2 Hf2.
  destruct (_ : res error unit) as [[]|e|q]; [|destruct Hr as [Hw Hr]; rewrite Hl in Hr|done].
  - destruct Hr as (s2 & s' & Hl2 & E & Hl').
    apply wp_ret; [intros [] w3 _ Hle3 _|done..]. apply (concluded_le _ w2); [done|].
    apply (concluded_le _ _ _ Hle2). exists (bumped s'). split; [done|].
    rewrite Hl in Hl2. injection Hl2 as <-.
    destruct Hc as [(s'' & E' & _ & _ & Hst' & _)|[E' _]]; [done| |congruence].
    rewrite E in E'. injection E' as <-. simpl. rewrite Hst'. destruct step; [done..|by left|by right].
  - destruct (errors_Is e ErrUnexpectedTransition) eqn:He; [|by apply wp_fail].
    destruct Hc as [(s'' & E' & _)|[_ Hnaw]]; [done|congruence|].
    apply (wp_answer _ s1).
    + apply (seen_le _ _ _ _ Hle2 Hi2). rewrite Hw. by apply seen_now.
    + destruct Had as [_ [->|Hlt]].
      * destruct Hnaw. right. by right.
      * rewrite Hst in Hlt. pose proof (rank_le (s_state s1)). simpl in Hlt. lia.
Qed.

Lemma wp_decline clk cmd w : 0 ≤ clk_saga clk →
  swp (DeclineSecondChanceOfferHandler relist clk cmd)
    (when_ok (fun _ => concluded (de_AuctionID cmd))) w.
Proof.
  intros Hclk. apply wp_attempt; [apply _|]. eapply wp_mono; [apply _|apply wp_get|].
  intros r w1 Hle Hi Hseen. destruct r as [s|e|q]; [|apply wp_fail|apply wp_panic].
  specialize (Hseen s eq_refl). pose proof (DecideOnDecline_spec s (de_Actor cmd)) as Hd.
  destruct (DecideOnDecline _ _) as [step|e|q]; [| |done].
  - destruct Hd as (Hstep & Hst & _). destruct (Hseen) as (Hwf & _).
    pose proof (decline_step s Hwf Hst) as Hna. rewrite <-Hstep in Hna.
    pose proof (nextStep_fits s) as Hfit. rewrite <-Hstep in Hfit.
    eapply wp_seq; [apply _|apply wp_void|]. intros [] w2 Hle2 Hi2 Hcl.
    eapply wp_seq; [apply _|apply wp_decline_compensate; [done|by destruct step|done]|].
    intros [] w3 Hle3 Hi3 Heff. apply (wp_decline_commit _ s); try done.
    + apply (seen_le _ _ w2); [done..|]. by apply (seen_le _ _ w1).
    + by apply (bl_closed _ _ _ (nl_billing _ _ Hle3)).
  - apply wp_ret. intros [] w2 Ha Hle2 _. apply (concluded_le _ w1); [done|].
    assert (failed_state (s_state s)) as Hf by (apply Hd; exact (from_err_ok _ Ha)).
    exists s. split; [|done]. by apply (seen_terminal _ _ _ Hseen), failed_rank.
Qed.
(** ** The handlers that may run *)

Inductive request :=
| Delivery (e : Event)
| Decline (cmd : DeclineSecondChanceOffer).

(** A request, and what the clocks answer while it is handled. *)
Definition job : Type := Clocks * request.

Definition job_may (j : job) w : Prop :=
  valid_clocks j.1 ∧ match j.2 with Delivery e => truthful e w | Decline _ => True end.

Definition job_body (j : job) : prog (net S A B) unit :=
  match j.2 with
  | Delivery e => deliver relist j.1 e
  | Decline cmd => DeclineSecondChanceOfferHandler relist j.1 cmd
  end.

Definition job_post (j : job) : res error unit → net S A B → Prop :=
  match j.2 with
  | Delivery _ => done_ok
  | Decline cmd => when_ok (fun _ => concluded (de_AuctionID cmd))
  end.

Lemma wp_job j w : job_may j w → swp (job_body j) (job_post j) w.
Proof.
  destruct j as [clk [e|cmd]]; intros [Hclk He]; cbn.
  - by apply wp_deliver.
  - apply wp_decline, Hclk.
Qed.

(** What the others may do to the two contexts. *)
Lemma net_env w w' :
  net_inv w → n_saga w' = n_saga w →
  ag_inv (n_auctions w') → sale_le ag_facts (n_auctions w) (n_auctions w') →
  bg_inv (n_billing w') → bill_le bg_facts (n_billing w) (n_billing w') →
  net_le w w' ∧ net_inv w'.
Proof.
  intros [Hs _ _ Hw] E Ha Hla Hb Hlb. split; split; rewrite ?E; try done.
  - intros id s Hl. by exists s.
  - intros id s Hl. destruct (Hw id s Hl) as (? & ? & ?). split_and!; [done..|].
    by eapply saga_fact_mono.
Qed.
End Protocol.
End saga_protocol.
