(* ===== verification/SagaRedelivery.v ===== *)
(** * Redelivery

    Events are delivered at least once: a handler that died half way, or whose
    acknowledgement was lost, is run again from the start, later.  A second
    run after a first one that would have succeeded, wherever it was cut off,
    succeeds and leaves the settlements as the first would have. *)

From stdpp Require Import base numbers list strings gmap fin_maps.
From Stdlib Require Import ZArith Lia.
From S2P Require Import Prelude Errs Auth Postgres Events Processes SettlementDomain SettlementRepo Settlement SettlementRepoTheory SagaTheory SagaProtocol.

Module saga_redelivery.
Import settlement saga settlement_repo_theory saga_theory saga_protocol.
Local Open Scope Z_scope.

Section Redelivery.
Context {S A B : Type} `{SettlementRepositoryLaws S} `{UUIDLib}
  `{!AuctionGateway A} `{!AuctionGatewayLaws A} `{!BillingGateway B} `{!BillingGatewayLaws B}.
Context (relist : RelistPolicy) (relist_valid : valid_policy relist).
Implicit Types (w : net S A B) (s : Settlement).

(** ** Effects that may be repeated

    [e'] is the same effect at a later time: after any prefix of a successful
    [e] it succeeds, and neither touches the settlements. *)
Definition recoverable (e e' : prog (net S A B) unit) w : Prop :=
  is_ok (run e w).1 = true → ∀ n, let wn := crash_after n e w in
    n_saga wn = n_saga w ∧ net_inv wn
    ∧ ∃ w1, run e' wn = (Ok tt, w1) ∧ n_saga w1 = n_saga w ∧ net_inv w1.

Lemma is_ok_unit (r : res error unit) : is_ok r = true → r = Ok tt.
Proof. by destruct r as [[]| |]. Qed.

Lemma recoverable_auctions (m m' : M A unit) post post' w :
  net_inv w → repeatable m m' (n_auctions w) →
  keeps ag_inv (sale_le ag_facts) m post (n_auctions w) →
  keeps ag_inv (sale_le ag_facts) m' post' (n_auctions w) →
  recoverable (call (on_auctions m)) (call (on_auctions m')) w.
Proof.
  intros Hi Hrep Hk Hk' Hok n. cbv zeta.
  destruct (on_auctions_spec m post w Hi Hk) as (Hi1 & _).
  destruct (on_auctions_spec m' post' w Hi Hk') as (Hi2 & _).
  pose proof (crash_after_call n (on_auctions m) w) as Hn. revert Hn.
  generalize (crash_after n (call (on_auctions m)) w). intros wn Hn.
  rewrite run_call in Hok. destruct w as [st a b]. unfold on_auctions in *. simpl in *.
  destruct (m a) as [r a1] eqn:E. simpl in Hok. apply is_ok_unit in Hok as ->.
  destruct (Hrep a1) as [Hr' E1]; [done|].
  destruct Hn as [-> | ->]; simpl.
  - destruct (m' a) as [r2 a2]. simpl in *. apply is_ok_unit in Hr' as ->. eauto 10.
  - rewrite E1. simpl. eauto 10.
Qed.

Lemma recoverable_billing (m m' : M B unit) post post' w :
  net_inv w → repeatable m m' (n_billing w) →
  keeps bg_inv (bill_le bg_facts) m post (n_billing w) →
  keeps bg_inv (bill_le bg_facts) m' post' (n_billing w) →
  recoverable (call (on_billing m)) (call (on_billing m')) w.
Proof.
  intros Hi Hrep Hk Hk' Hok n. cbv zeta.
  destruct (on_billing_spec m post w Hi Hk) as (Hi1 & _).
  destruct (on_billing_spec m' post' w Hi Hk') as (Hi2 & _).
  pose proof (crash_after_call n (on_billing m) w) as Hn. revert Hn.
  generalize (crash_after n (call (on_billing m)) w). intros wn Hn.
  rewrite run_call in Hok. destruct w as [st a b]. unfold on_billing in *. simpl in *.
  destruct (m b) as [r b1] eqn:E. simpl in Hok. apply is_ok_unit in Hok as ->.
  destruct (Hrep b1) as [Hr' E1]; [done|].
  destruct Hn as [-> | ->]; simpl.
  - destruct (m' b) as [r2 b2]. simpl in *. apply is_ok_unit in Hr' as ->. eauto 10.
  - rewrite E1. simpl. eauto 10.
Qed.

(** A relist whose window is still open when the auctions see it. *)
Definition timely (clk : Clocks) : Prop :=
  0 ≤ clk_saga clk ∧ 0 < clk_billing clk
  ∧ clk_auction clk < time_Add (time_Add (clk_saga clk) (rp_delay relist)) (rp_duration relist).

Lemma timely_window clk : timely clk →
  open_window (clk_auction clk) (time_Add (clk_saga clk) (rp_delay relist))
    (time_Add (time_Add (clk_saga clk) (rp_delay relist)) (rp_duration relist)).
Proof. intros (? & ? & ?). destruct relist_valid. unfold time_Add in *. split_and!; lia. Qed.

Lemma recoverable_auctions_only e e' w :
  net_inv w →
  (is_ok (run e w).1 = true → ∀ n,
     let at_ a := mkNet (n_saga w) a (n_billing w) in
     ∃ a a1, crash_after n e w = at_ a ∧ run e' (at_ a) = (Ok tt, at_ a1)
       ∧ ag_inv a ∧ sale_le ag_facts (n_auctions w) a
       ∧ ag_inv a1 ∧ sale_le ag_facts (n_auctions w) a1) →
  recoverable e e' w.
Proof.
  intros Hi He Hok n. cbv zeta. destruct (He Hok n) as (a & a1 & -> & Hr & ? & ? & ? & ?).
  pose proof (ni_billing w Hi). split; [done|]. split; [by eapply (net_env w)|].
  eexists. split_and!; [exact Hr|done|by eapply (net_env w)].
Qed.

(** Two calls on the auctions, one after the other. *)
Definition two (m1 m2 : M A unit) : prog (net S A B) unit :=
  call (on_auctions m1);; call (on_auctions m2).

Lemma run_two (m1 m2 : M A unit) st a b :
  run (two m1 m2) (mkNet st a b)
  = let '(r, a1) := m1 a in
    match r with
    | Ok _ => ((m2 a1).1, mkNet st (m2 a1).2 b)
    | Fail e => (Fail e, mkNet st a1 b)
    | Panic q => (Panic q, mkNet st a1 b)
    end.
Proof.
  unfold two. rewrite run_bind. unfold mbind, GoM_bind. rewrite run_call. unfold on_auctions at 1. simpl.
  destruct (m1 a) as [[]]; try done. unfold on_auctions. simpl. by destruct (m2 _).
Qed.

Lemma crash_two n (m1 m2 : M A unit) st a b :
  let p := two m1 m2 in
  let a1 := (m1 a).2 in
  crash_after n p (mkNet st a b) = mkNet st a b
  ∨ crash_after n p (mkNet st a b) = mkNet st a1 b
  ∨ crash_after n p (mkNet st a b) = mkNet st (m2 a1).2 b.
Proof.
  cbv zeta. unfold two, mbind, prog_bind.
  pose proof (crash_after_attempt n (call (on_auctions m1)) (fun r : res error unit =>
      match r with Ok a => call (on_auctions m2) | Fail e => Ret (Fail e) | Panic q => Ret (Panic q) end)
      (mkNet st a b)) as Hc. revert Hc. generalize (crash_after n (attempt (call (on_auctions m1)) (fun r =>
      match r with Ok a => call (on_auctions m2) | Fail e => Ret (Fail e) | Panic q => Ret (Panic q) end))
      (mkNet st a b)). intros X [->|[k ->]].
  - destruct (crash_after_call n (on_auctions m1) (mkNet st a b)) as [-> | ->]; [by left|].
    unfold on_auctions. simpl. destruct (m1 a). simpl. auto.
  - rewrite run_call. assert (on_auctions (S := S) (B := B) m1 (mkNet st a b)
      = ((m1 a).1, mkNet st (m1 a).2 b)) as -> by (unfold on_auctions; simpl; by destruct (m1 a)).
    simpl. destruct ((m1 a).1); [|rewrite !crash_after_Ret; auto..].
    pose proof (crash_after_call k (on_auctions m2) (mkNet st (m1 a).2 b)) as Hc. revert Hc.
    generalize (crash_after k (call (on_auctions m2)) (mkNet st (m1 a).2 b)). intros X [-> | ->]; [auto|].
    unfold on_auctions. simpl. destruct (m2 (m1 a).2). auto.
Qed.

Definition opens (clk : Clocks) : Time := time_Add (clk_saga clk) (rp_delay relist).
Definition ends (clk : Clocks) : Time := time_Add (opens clk) (rp_duration relist).

(** From the start, the two calls succeed at any other time. *)
Lemma relist_at_start clk clk' id new reason a a1 a2 :
  ag_inv a → ag_fits a →
  open_window (clk_auction clk) (opens clk) (ends clk) →
  open_window (clk_auction clk') (opens clk') (ends clk') →
  ag_MarkSaleFailed (clk_auction clk) id reason a = (Ok tt, a1) →
  ag_Relist (clk_auction clk) id new (opens clk) (ends clk) a1 = (Ok tt, a2) →
  ∃ a3 a4, ag_MarkSaleFailed (clk_auction clk') id reason a = (Ok tt, a3)
    ∧ ag_Relist (clk_auction clk') id new (opens clk') (ends clk') a3 = (Ok tt, a4)
    ∧ ag_inv a4 ∧ sale_le ag_facts a a4.
Proof.
  intros Ha Hf Hc Hc' E1 E2.
  destruct (ag_Fail_spec (clk_auction clk') id reason a Ha Hf) as (Ha3 & Hle3 & _).
  destruct (ag_Fail_again (clk_auction clk) (clk_auction clk') id reason a Ha Hf a1 E1) as [Hok1 _].
  pose proof (ag_Relist_frame (clk_auction clk) (clk_auction clk) id new (opens clk) (ends clk)
    reason a Ha Hf (proj1 Hc)) as Hfr. rewrite E1 in Hfr. cbn [snd] in Hfr. rewrite E2 in Hfr.
  pose proof (ag_Relist_frame (clk_auction clk') (clk_auction clk') id new (opens clk') (ends clk')
    reason a Ha Hf (proj1 Hc')) as Hfr'.
  destruct (ag_Relist (clk_auction clk) id new (opens clk) (ends clk) a) as [r0 a0] eqn:E0.
  symmetry in Hfr. apply is_ok_unit in Hfr. simpl in Hfr. subst r0.
  destruct (ag_Relist_again (clk_auction clk) (clk_auction clk') id new _ _ _ _ a Ha Hc Hc' a0 E0)
    as [Hok2 _]. rewrite Hok2 in Hfr'.
  destruct (ag_MarkSaleFailed (clk_auction clk') id reason a) as [r3 a3] eqn:E3. cbn [fst snd] in *.
  apply is_ok_unit in Hok1 as ->.
  destruct (ag_Relist_spec (clk_auction clk') id new (opens clk') (ends clk') a3 Ha3 (proj1 Hc'))
    as (Ha4 & Hle4 & _).
  destruct (ag_Relist (clk_auction clk') id new (opens clk') (ends clk') a3) as [r4 a4] eqn:E4.
  cbn [fst snd] in *. apply is_ok_unit in Hfr' as ->. exists a3, a4. split_and!; try done. by transitivity a3.
Qed.

Lemma recoverable_relist clk clk' id new reason w :
  net_inv w → net_fits w → timely clk → timely clk' → reason ≠ zero_value →
  let fail clk := ag_MarkSaleFailed (clk_auction clk) id reason in
  let list clk := ag_Relist (clk_auction clk) id new (opens clk) (ends clk) in
  recoverable (two (fail clk) (list clk)) (two (fail clk') (list clk')) w.
Proof.
  intros Hi Hf Hc%timely_window Hc'%timely_window Hr.
  fold (opens clk) (opens clk') in Hc, Hc'. fold (ends clk) (ends clk') in Hc, Hc'.
  apply recoverable_auctions_only; [done|]. destruct w as [st a b].
  cbv zeta. cbn [n_saga n_auctions n_billing]. rewrite run_two.
  pose proof (ni_auctions _ Hi) as Ha. simpl in Ha. unfold net_fits in Hf. simpl in Hf.
  destruct (ag_Fail_spec (clk_auction clk) id reason a Ha Hf) as (Ha1 & Hle1 & Hd1).
  pose proof (ag_Fail_again (clk_auction clk) (clk_auction clk') id reason a Ha Hf) as Hrep.
  pose proof (ag_Relist_frame (clk_auction clk) (clk_auction clk) id new (opens clk) (ends clk)
    reason a Ha Hf (proj1 Hc)) as Hfr.
  unfold repeatable in Hrep.
  destruct (ag_MarkSaleFailed (clk_auction clk) id reason a) as [r a1] eqn:E1.
  cbn [fst snd] in *. destruct r as [[]| |]; [|done..].
  destruct (Hrep a1 eq_refl) as [Hok' E1']. specialize (Hd1 eq_refl).
  destruct (ag_Relist_spec (clk_auction clk) id new (opens clk) (ends clk) a1 Ha1 (proj1 Hc))
    as (Ha2 & Hle2 & _).
  pose proof (ag_Relist_again (clk_auction clk) (clk_auction clk') id new (opens clk) (ends clk)
    (opens clk') (ends clk') a1 Ha1 Hc Hc') as Hrel.
  unfold repeatable in Hrel. intros Hok2.
  destruct (ag_Relist (clk_auction clk) id new (opens clk) (ends clk) a1) as [r2 a2] eqn:E2.
  cbn [fst snd] in *. apply is_ok_unit in Hok2 as ->. destruct (Hrel a2 eq_refl) as [Hok3 E3].
  intros n. pose proof (crash_two n (ag_MarkSaleFailed (clk_auction clk) id reason)
    (ag_Relist (clk_auction clk) id new (opens clk) (ends clk)) st a b) as Hcr.
  cbv zeta in Hcr. rewrite E1 in Hcr. cbn [snd] in Hcr. rewrite E2 in Hcr. cbn [snd] in Hcr.
  destruct Hcr as [-> |[-> | ->]].
  - destruct (relist_at_start clk clk' id new reason a a1 a2) as (a3 & a4 & E3' & E4 & ? & ?); try done.
    exists a, a4. rewrite run_two, E3', E4. by split_and!.
  - destruct (ag_Relist_spec (clk_auction clk') id new (opens clk') (ends clk') a1 Ha1 (proj1 Hc'))
      as (Ha3 & Hle3 & _).
    exists a1, (ag_Relist (clk_auction clk') id new (opens clk') (ends clk') a1).2.
    rewrite run_two, E1', (is_ok_unit _ Hok3). split_and!; try done. by transitivity a1.
  - exists a2, a2. rewrite run_two, (ag_Fail_done _ _ _ a2) by (try done; by apply (sl_failed _ _ _ Hle2)). rewrite E3.
    split_and!; try done; by transitivity a1.
Qed.

Lemma recoverable_compensate clk clk' id step reason w :
  net_inv w → net_fits w → timely clk → timely clk' → reason ≠ zero_value →
  recoverable (compensate relist clk id step reason) (compensate relist clk' id step reason) w.
Proof.
  intros Hi Hf Hc Hc' Hr. pose proof (ni_auctions w Hi) as Ha. destruct step; unfold compensate.
  - intros Hok. done.
  - eapply recoverable_auctions; [done|by apply ag_Award_again|by apply ag_Award_spec..].
  - destruct (RelistIDFor id) as [new|e|q] eqn:E.
    + change (recoverable (two (ag_MarkSaleFailed (clk_auction clk) id reason)
          (ag_Relist (clk_auction clk) id new (opens clk) (ends clk)))
        (two (ag_MarkSaleFailed (clk_auction clk') id reason)
          (ag_Relist (clk_auction clk') id new (opens clk') (ends clk'))) w).
      by apply recoverable_relist.
    + intros Hok. exfalso. rewrite run_bind in Hok. unfold mbind, GoM_bind in Hok. simpl in Hok.
      by destruct (on_auctions _ w) as [[]].
    + intros Hok. exfalso. rewrite run_bind in Hok. unfold mbind, GoM_bind in Hok. simpl in Hok.
      by destruct (on_auctions _ w) as [[]].
  - eapply recoverable_auctions; [done|by apply ag_Fail_again|by apply ag_Fail_spec..].
Qed.

Lemma recoverable_issue clk clk' inv auc debtor amount n w :
  net_inv w → timely clk → timely clk' → bg_amount_ok (B := B) (m_amount amount) →
  InvoiceIDForAttempt auc n = Ok inv →
  recoverable (call (on_billing (bg_IssueInvoice (clk_billing clk) inv auc debtor amount n)))
    (call (on_billing (bg_IssueInvoice (clk_billing clk') inv auc debtor amount n))) w.
Proof.
  intros Hi (_ & Hc & _) (_ & Hc' & _) Ham Hinv. pose proof (ni_billing w Hi).
  eapply recoverable_billing; [done|by apply bg_Issue_again|by apply bg_Issue_spec..].
Qed.

(** ** Look, decide, act, commit

    The shape of the handlers: what they read decides what they do to the
    other contexts, and only then the settlement moves. *)
Section Shape.
Context (id : AuctionID) {D : Type} (decide : Settlement → result D).
Context (eff : Clocks → Settlement → D → prog (net S A B) unit).
Context (fn : Settlement → D → Settlement → result Settlement).
Context (hk : Settlement → D → res error unit → prog (net S A B) unit).
Context (ack : error → option error).
Context (k : Clocks → res error Settlement → prog (net S A B) unit).

Definition looked (clk : Clocks) : prog (net S A B) unit := attempt (get_saga id) (k clk).
Definition act (clk : Clocks) s d : prog (net S A B) unit :=
  eff clk s d;; attempt (update_saga id (fn s d)) (hk s d).

Hypothesis k_Ok : ∀ clk s, same_run (k clk (Ok s))
  (match decide s with
   | Fail err => Ret (from_err (ack err))
   | Panic q => Ret (Panic q)
   | Ok d => act clk s d
   end).
Hypothesis k_Fail : ∀ clk e, ∃ e', k clk (Fail e) = Ret (Fail e').
Hypothesis hk_Ok : ∀ s d, hk s d (Ok tt) = Ret (Ok tt).
(* the commit of a decision succeeds on the settlement it was taken on, and
   the decision is not taken again *)
Hypothesis commits_once : ∀ s d, saga_wf s → s_auctionID s = id → decide s = Ok d →
  ∃ s', fn s d s = Ok s' ∧ admissible s s' ∧ ∃ e, decide (bumped s') = Fail e ∧ ack e = None.

Lemma run_get_saga w s : st_ok (n_saga w) → st_view (n_saga w) !! id = Some s →
  run (get_saga (A := A) (B := B) id) w = (Ok s, w).
Proof. intros Hi Hl. unfold get_saga. rewrite run_call. by rewrite (st_Get_Some _ _ _ Hi Hl). Qed.

Lemma run_looked clk w s : st_ok (n_saga w) → st_view (n_saga w) !! id = Some s →
  run (looked clk) w = run (k clk (Ok s)) w.
Proof. intros Hi Hl. unfold looked. by rewrite prog_run_attempt, (run_get_saga w s Hi Hl). Qed.

Lemma crash_looked n clk w s : st_ok (n_saga w) → st_view (n_saga w) !! id = Some s →
  crash_after n (looked clk) w = w ∨ ∃ m, crash_after n (looked clk) w = crash_after m (k clk (Ok s)) w.
Proof.
  intros Hi Hl. unfold looked.
  destruct (crash_after_attempt n (get_saga id) (k clk) w) as [-> |[m ->]].
  - left. unfold get_saga. by destruct (crash_after_call n (fun w => (st_Get id (n_saga w), w)) w).
  - right. exists m. by rewrite (run_get_saga w s Hi Hl).
Qed.

(** The commit, on any memory that has the settlements decided on. *)
Lemma run_commit s d s' w : st_ok (n_saga w) → st_view (n_saga w) !! id = Some s →
  fn s d s = Ok s' → admissible s s' →
  ∃ st', run (update_saga id (fn s d)) w = (Ok tt, mkNet st' (n_auctions w) (n_billing w))
    ∧ st_ok st' ∧ st_view st' = <[id := bumped s']> (st_view (n_saga w)).
Proof.
  intros Hi Hl Hf Ha. destruct (st_Update_ok _ _ _ _ _ Hi Hl Hf Ha) as (st' & E & Hok & Hv).
  exists st'. split_and!; [|done..]. unfold update_saga, on_saga. rewrite run_call. simpl. by rewrite E.
Qed.

Lemma run_act clk s d s' w w1 : run (eff clk s d) w = (Ok tt, w1) →
  st_ok (n_saga w1) → st_view (n_saga w1) !! id = Some s → fn s d s = Ok s' → admissible s s' →
  ∃ st', run (act clk s d) w = (Ok tt, mkNet st' (n_auctions w1) (n_billing w1))
    ∧ st_ok st' ∧ st_view st' = <[id := bumped s']> (st_view (n_saga w1)).
Proof.
  intros He Hi Hl Hf Ha. destruct (run_commit s d s' w1 Hi Hl Hf Ha) as (st' & E & Hok & Hv).
  exists st'. split_and!; [|done..]. unfold act. rewrite run_bind. unfold mbind, GoM_bind.
  rewrite He, prog_run_attempt, E. simpl. by rewrite hk_Ok.
Qed.

Lemma crash_act n clk s d w w1 :
  run (eff clk s d) w = (Ok tt, w1) → (run (update_saga id (fn s d)) w1).1 = Ok tt →
  (∃ m, crash_after n (act clk s d) w = crash_after m (eff clk s d) w)
  ∨ crash_after n (act clk s d) w = (run (act clk s d) w).2.
Proof.
  intros He Hu. assert (run (act clk s d) w = run (update_saga id (fn s d)) w1) as Hact.
  { unfold act. rewrite run_bind. unfold mbind, GoM_bind. rewrite He, prog_run_attempt, Hu, hk_Ok.
    destruct (run (update_saga id (fn s d)) w1). simpl in *. by subst. }
  rewrite Hact. unfold act, mbind, prog_bind.
  match goal with |- context [attempt (eff clk s d) ?h] =>
    destruct (crash_after_attempt n (eff clk s d) h w) as [-> |[m ->]] end; [left; by exists n|].
  rewrite He. cbn [fst snd].
  destruct (crash_after_attempt m (update_saga id (fn s d)) (hk s d) w1) as [-> |[m' ->]].
  - unfold update_saga. destruct (crash_after_call m (on_saga (st_Update id (fn s d))) w1) as [-> | ->].
    + left. destruct (crash_after_all (eff clk s d) w) as [N HN]. exists N. by rewrite HN, He.
    + right. by rewrite run_call.
  - right. by rewrite Hu, hk_Ok, crash_after_Ret.
Qed.

(** Once the commit is made, a redelivery does nothing. *)
Lemma looked_again clk w s s' d : st_ok (n_saga w) → st_view (n_saga w) !! id = Some (bumped s') →
  saga_wf s → s_auctionID s = id → decide s = Ok d → fn s d s = Ok s' →
  run (looked clk) w = (Ok tt, w).
Proof.
  intros Hi Hl Hwf Hid Hd Hf. destruct (commits_once s d Hwf Hid Hd) as (s2 & E & _ & e & He & Hack).
  rewrite Hf in E. injection E as <-. by rewrite (run_looked clk w _ Hi Hl), (proj1 (k_Ok _ _ _)), He, Hack.
Qed.

Lemma redeliver clk clk' w w' :
  net_inv w →
  (∀ s d, st_view (n_saga w) !! id = Some s → decide s = Ok d →
     recoverable (eff clk s d) (eff clk' s d) w) →
  run (looked clk) w = (Ok tt, w') →
  ∀ n, let wn := crash_after n (looked clk) w in
    st_ok (n_saga wn) ∧ is_Some (st_view (n_saga wn) !! id)
    ∧ ∃ w2, run (looked clk') wn = (Ok tt, w2) ∧ st_view (n_saga w2) = st_view (n_saga w').
Proof.
  intros Hi Hrec Hrun n. cbv zeta. pose proof (ni_saga w Hi) as Hst.
  destruct (st_view (n_saga w) !! id) as [s|] eqn:Hl.
  2:{ exfalso. unfold looked, get_saga in Hrun. rewrite prog_run_attempt, run_call in Hrun.
      rewrite (st_Get_None _ _ Hst Hl) in Hrun. simpl in Hrun.
      destruct (k_Fail clk (SettlementNotFoundError (AuctionID_UUID id))) as [e' E].
      by rewrite E in Hrun. }
  pose proof (crash_looked n clk w s Hst Hl) as Hc.
  rewrite (run_looked clk w s Hst Hl), (proj1 (k_Ok _ _ _)) in Hrun.
  assert (∀ m, crash_after m (k clk (Ok s)) w = crash_after m (match decide s with
    | Fail err => Ret (from_err (ack err)) | Panic q => Ret (Panic q) | Ok d => act clk s d end) w)
    as Hk by (intros m; apply k_Ok).
  destruct (view_spec id s w Hi Hl) as (Hwf & Hid & _).
  destruct (decide s) as [d|err|q] eqn:Hd; [| |done].
  2:{ assert (crash_after n (looked clk) w = w) as -> by (destruct Hc as [?|[m Hc]]; [done|];
        by rewrite Hc, Hk, crash_after_Ret).
      split_and!; [done|by rewrite Hl|]. exists w.
      rewrite (run_looked clk' w s Hst Hl), (proj1 (k_Ok _ _ _)), Hd.
      simpl in Hrun |- *. injection Hrun as Hr ->. by rewrite Hr. }
  destruct (commits_once s d Hwf Hid Hd) as (s' & Hf & Ha & _).
  specialize (Hrec s d eq_refl Hd). unfold recoverable in Hrec.
  destruct (run (eff clk s d) w) as [[[]|e|q] w1] eqn:He;
    [|unfold act in Hrun; rewrite run_bind in Hrun; unfold mbind, GoM_bind in Hrun;
      by rewrite He in Hrun..].
  specialize (Hrec eq_refl). cbv zeta in Hrec.
  destruct (crash_after_all (eff clk s d) w) as [N HN]. destruct (Hrec N) as (Hs1 & Hi1 & _).
  rewrite HN, He in Hs1, Hi1. simpl in Hs1, Hi1.
  destruct (run_act clk s d s' w w1 He) as (st' & Eact & Hst' & Hv); [by rewrite Hs1..|done|done|].
  rewrite Eact in Hrun. injection Hrun as <-. rewrite Hs1 in Hv. simpl.
  assert ((run (update_saga id (fn s d)) w1).1 = Ok tt) as Hu.
  { destruct (run_commit s d s' w1) as (st2 & E2 & _); [by rewrite Hs1|by rewrite Hs1|done|done|].
    by rewrite E2. }
  assert (∀ m, st_ok (n_saga (crash_after m (eff clk s d) w))
    ∧ is_Some (st_view (n_saga (crash_after m (eff clk s d) w)) !! id)
    ∧ ∃ w2, run (looked clk') (crash_after m (eff clk s d) w) = (Ok tt, w2)
        ∧ st_view (n_saga w2) = st_view st') as Heff.
  { intros m. destruct (Hrec m) as (Hsm & _ & w2 & E2 & Hs2 & _). rewrite Hsm, Hl.
    split_and!; [done|done|].
    destruct (run_act clk' s d s' (crash_after m (eff clk s d) w) w2 E2) as (st2 & E & _ & Hv2);
      [by rewrite Hs2..|done|done|].
    rewrite (run_looked clk' _ s), (proj1 (k_Ok _ _ _)), Hd, E by (by rewrite Hsm).
    eexists. split; [done|]. simpl. by rewrite Hv2, Hv, Hs2. }
  assert (∀ x, x = w ∨ (∃ m, x = crash_after m (eff clk s d) w)
      ∨ x = mkNet st' (n_auctions w1) (n_billing w1) →
    st_ok (n_saga x) ∧ is_Some (st_view (n_saga x) !! id)
    ∧ ∃ w2, run (looked clk') x = (Ok tt, w2) ∧ st_view (n_saga w2) = st_view st') as Hall.
  { intros x [->|[[m ->]| ->]]; [apply (Heff 0%nat)|apply Heff|]. simpl.
    assert (st_view st' !! id = Some (bumped s')) as Hl' by (by rewrite Hv, lookup_insert_eq).
    rewrite Hl'. split_and!; [done|done|].
    exists (mkNet st' (n_auctions w1) (n_billing w1)). split; [|done].
    by apply (looked_again clk' (mkNet st' (n_auctions w1) (n_billing w1)) s s' d). }
  apply Hall. destruct Hc as [->|[m ->]]; [by left|right]. rewrite Hk.
  destruct (crash_act m clk s d w w1 He Hu) as [[m' ->]| ->]; [left; by exists m'|right].
  by rewrite Eact.
Qed.
End Shape.

(** ** The handlers *)

(** The second run of a handler cut off anywhere. *)
Definition redelivered (h h' : prog (net S A B) unit) w : Prop :=
  ∀ w', run h w = (Ok tt, w') → ∀ n, ∃ w2, run h' (crash_after n h w) = (Ok tt, w2)
    ∧ st_view (n_saga w2) = st_view (n_saga w').

Lemma redelivered_pure {X} (r : result X) (h h' : X → prog (net S A B) unit) w :
  (∀ x, r = Ok x → redelivered (h x) (h' x) w) → redelivered (Ret r ≫= h) (Ret r ≫= h') w.
Proof. intros Hh w' Hr. destruct r as [x|e|q]; [by apply (Hh x)|done..]. Qed.

Lemma redelivered_ret r w : redelivered (Ret r) (Ret r) w.
Proof. intros w' Hr n. rewrite crash_after_Ret. eauto. Qed.

(** The event handlers: their refusals are acknowledged. *)
Definition event_handler {D} (id : AuctionID) (decide : Settlement → result D)
    (eff : Clocks → Settlement → D → prog (net S A B) unit)
    (fn : Settlement → D → Settlement → result Settlement) (clk : Clocks) : prog (net S A B) unit :=
  s ← get_saga id;
  match decide s with
  | Fail err => Ret (from_err (ackUnexpected err))
  | Panic p => Ret (Panic p)
  | Ok d => eff clk s d;; handle (update_saga id (fn s d)) ackUnexpected
  end.

Lemma redeliver_event {D} id (decide : Settlement → result D) eff fn clk clk' w w' n :
  (∀ s d, saga_wf s → s_auctionID s = id → decide s = Ok d →
     ∃ s', fn s d s = Ok s' ∧ admissible s s' ∧ ∃ e, decide (bumped s') = Fail e ∧ ackUnexpected e = None) →
  net_inv w →
  (∀ s d, st_view (n_saga w) !! id = Some s → decide s = Ok d →
     recoverable (eff clk s d) (eff clk' s d) w) →
  run (event_handler id decide eff fn clk) w = (Ok tt, w') →
  let wn := crash_after n (event_handler id decide eff fn clk) w in
    st_ok (n_saga wn) ∧ is_Some (st_view (n_saga wn) !! id)
    ∧ ∃ w2, run (event_handler id decide eff fn clk') wn = (Ok tt, w2)
        ∧ st_view (n_saga w2) = st_view (n_saga w').
Proof.
  intros Hc Hi Hrec Hr.
  apply (redeliver id decide eff fn
    (fun _ _ r => match r with
                  | Fail e => Ret (match ackUnexpected e with Some e' => Fail e' | None => Ok tt end)
                  | r => Ret r end)
    ackUnexpected
    (fun clk r => match r with
       | Ok s => match decide s with
                 | Fail err => Ret (from_err (ackUnexpected err))
                 | Panic p => Ret (Panic p)
                 | Ok d => eff clk s d;; handle (update_saga id (fn s d)) ackUnexpected end
       | Fail e => Ret (Fail e)
       | Panic q => Ret (Panic q) end)); try done.
  intros _ e. by exists e.
Qed.

Lemma redelivered_event {D} id (decide : Settlement → result D) eff fn clk clk' w :
  (∀ s d, saga_wf s → s_auctionID s = id → decide s = Ok d →
     ∃ s', fn s d s = Ok s' ∧ admissible s s' ∧ ∃ e, decide (bumped s') = Fail e ∧ ackUnexpected e = None) →
  net_inv w →
  (∀ s d, st_view (n_saga w) !! id = Some s → decide s = Ok d →
     recoverable (eff clk s d) (eff clk' s d) w) →
  redelivered (event_handler id decide eff fn clk) (event_handler id decide eff fn clk') w.
Proof. intros Hc Hi Hrec w' Hr n. by apply (redeliver_event id decide eff fn clk clk' w w' n). Qed.

Lemma redeliver_OnInvoicePaid clk clk' auctionID invoiceID w :
  net_inv w → net_fits w →
  redelivered (OnInvoicePaid clk auctionID invoiceID) (OnInvoicePaid clk' auctionID invoiceID) w.
Proof.
  intros Hi Hf. pose proof (ni_auctions w Hi). apply redelivered_pure. intros [id inv] _.
  apply (redelivered_event id (fun s => DecideOnPaymentReceived s inv)
    (fun clk _ _ => call (on_auctions (ag_ConfirmSettlement (clk_auction clk) id)))
    (fun _ _ => closure (PaymentReceived inv))); [|done|].
  - intros s d Hwf _ Hd.
    destruct (commit_PaymentReceived inv s Hwf) as [(s' & E & Hc & Hst & _)|E].
    + exists s'. split_and!; [done|apply Hc|]. exists ErrUnexpectedTransition. split; [|done].
      unfold DecideOnPaymentReceived, guardLiveInvoice. simpl. by rewrite Hst.
    + exfalso. revert E. unfold closure, PaymentReceived. run_go.
      unfold DecideOnPaymentReceived in Hd. by rewrite Hd.
  - intros s d _ _. eapply recoverable_auctions; [done|by apply ag_Confirm_again|by apply ag_Confirm_spec..].
Qed.

Lemma timeout_commit s inv step : saga_wf s → DecideOnPaymentTimeout s inv = Ok step →
  ∃ s', closure (ApplyNextStep step
      (if bool_decide (step ≠ StepAwardRunnerUp) then ReasonPaymentTimeout else zero_value)) s = Ok s'
    ∧ commits s s' ∧ s_state s' = step_state step.
Proof.
  intros Hwf Hd. apply DecideOnPaymentTimeout_Ok in Hd as (-> & Ha & _).
  pose proof (nextStep_fits s) as Hfit.
  destruct (decide (nextStepOnFailure s = StepAwardRunnerUp)) as [E|Hne].
  - rewrite E in *. rewrite bool_decide_eq_false_2 by naive_solver.
    destruct (commit_award s Hwf Hfit) as [(s' & E' & Hc & Hst & _)|E']; [by exists s'|exfalso].
    revert E'. unfold closure, ApplyNextStep. run_go.
    assert (s_state s ≠ StateSecondChancePayment) as Hn.
    { intros Hst. pose proof (wf_second s Hwf Hst) as Hat. unfold nextStepOnFailure in E.
      rewrite Hat in E. simpl in E. by case_match. }
    destruct Ha as [Ha|[Ha|Ha]]; [by rewrite Ha..|done].
  - rewrite bool_decide_eq_true_2 by done.
    destruct (commit_failure (nextStepOnFailure s) ReasonPaymentTimeout s Hwf Hne Hfit)
      as [(s' & E' & Hc & _ & Hst & _)|[_ Hn]]; [done|by exists s'|done].
Qed.

Lemma redeliver_OnInvoiceExpired clk clk' auctionID invoiceID w :
  net_inv w → net_fits w → timely clk → timely clk' →
  redelivered (OnInvoiceExpired relist clk auctionID invoiceID)
    (OnInvoiceExpired relist clk' auctionID invoiceID) w.
Proof.
  intros Hi Hf Hc Hc'. apply redelivered_pure. intros [id inv] _.
  apply (redelivered_event id (fun s => DecideOnPaymentTimeout s inv)
    (fun clk _ step => compensate relist clk id step ReasonPaymentTimeout)
    (fun _ step => closure (ApplyNextStep step
      (if bool_decide (step ≠ StepAwardRunnerUp) then ReasonPaymentTimeout else zero_value)))); [|done|].
  - intros s step Hwf _ Hd. destruct (timeout_commit s inv step Hwf Hd) as (s' & E & Hco & Hst).
    exists s'. split_and!; [done|apply Hco|]. exists ErrUnexpectedTransition. split; [|done].
    unfold DecideOnPaymentTimeout, guardLiveInvoice. simpl. rewrite Hst. by destruct step.
  - intros s step _ _. by apply recoverable_compensate.
Qed.

(** A handler that only reads. *)
Lemma redelivered_readonly id (k k' : Settlement → prog (net S A B) unit) w :
  (∀ s, ∃ r, k s = Ret r ∧ k' s = Ret r) →
  redelivered (get_saga id ≫= k) (get_saga id ≫= k') w.
Proof.
  intros Hk w' Hr n.
  assert (∀ n, crash_after n (get_saga id ≫= k) w = w) as ->.
  { intros m. unfold mbind, prog_bind.
    match goal with |- context [attempt _ ?h] =>
      destruct (crash_after_attempt m (get_saga id) h w) as [-> |[m' ->]] end.
    - unfold get_saga. by destruct (crash_after_call m (fun w => (st_Get id (n_saga w), w)) w).
    - unfold get_saga. rewrite run_call. simpl. destruct (st_Get id (n_saga w)) as [s| |];
        [destruct (Hk s) as (r & -> & _)|..]; by rewrite crash_after_Ret. }
  rewrite run_bind in *. unfold mbind, GoM_bind, get_saga in *. rewrite run_call in *. simpl in *.
  destruct (st_Get id (n_saga w)) as [s| |]; [|done..].
  destruct (Hk s) as (r & E & E'). rewrite E in Hr. rewrite E'. eauto.
Qed.

Lemma redeliver_OnWinnerReassigned clk clk' auctionID newWinner price currency w :
  net_inv w → timely clk → timely clk' →
  redelivered (OnWinnerReassigned clk auctionID newWinner price currency)
    (OnWinnerReassigned clk' auctionID newWinner price currency) w.
Proof.
  intros Hi Hc Hc'. apply redelivered_pure. intros id _. apply redelivered_pure. intros nw _.
  apply redelivered_pure. intros cur _. apply redelivered_pure. intros p _. cbv beta.
  destruct (InvoiceIDForAttempt id 2) as [inv|e|q] eqn:Hinv.
  2,3: apply redelivered_readonly; intros s; destruct (DecideOnWinnerReassigned s nw p); by eexists.
  apply (redelivered_event id (fun s => DecideOnWinnerReassigned s nw p)
    (fun clk s _ => call (on_billing (bg_IssueInvoice (clk_billing clk) inv id (s_runnerUp s)
                        (s_runnerUpAmount s) 2)))
    (fun s _ => closure (RunnerUpAwarded nw p;; SecondChanceInvoiceIssued inv))); [|done|].
  - intros s d Hwf Hid Hd. rewrite <-Hid in Hinv.
    destruct (commit_reassigned nw p inv s Hwf Hinv) as [(s' & E & Hco & Hst & _)|[e E]].
    + exists s'. split_and!; [done|apply Hco|]. exists ErrUnexpectedTransition. split; [|done].
      unfold DecideOnWinnerReassigned. simpl. by rewrite Hst.
    + exfalso. revert E. unfold closure, RunnerUpAwarded, SecondChanceInvoiceIssued. run_go.
      rewrite Hd. run_go. rewrite (proj2 (IsZero_false inv)) by (by eapply InvoiceIDForAttempt_nonzero).
      done.
  - intros s d Hl _. apply recoverable_issue; try done. apply (ni_wf w Hi _ _ Hl).
Qed.

(** [OnAuctionClosed] once the settlement is stored. *)
Definition issue_first (id : AuctionID) (clk : Clocks) : prog (net S A B) unit :=
  current ← get_saga id;
  match DecideOnInvoiceIssue current with
  | Fail err => Ret (from_err (ackUnexpected err))
  | Panic p => Ret (Panic p)
  | Ok needIssue =>
      if negb needIssue then mret tt
      else
        call (on_billing (bg_IssueInvoice (clk_billing clk) (s_invoiceID current)
                            (s_auctionID current) (s_winner current) (s_hammer current)
                            (s_attempt current)));;
        handle (update_saga id (closure (InvoiceIssued (s_invoiceID current)))) ackUnexpected
  end.

Lemma redeliver_first id clk clk' w w' :
  net_inv w → timely clk → timely clk' → run (issue_first id clk) w = (Ok tt, w') →
  ∀ n, let wn := crash_after n (issue_first id clk) w in
    st_ok (n_saga wn) ∧ is_Some (st_view (n_saga wn) !! id)
    ∧ ∃ w2, run (issue_first id clk') wn = (Ok tt, w2) ∧ st_view (n_saga w2) = st_view (n_saga w').
Proof.
  intros Hi Hc Hc' Hr n.
  apply (redeliver id (fun s => match DecideOnInvoiceIssue s with
      | Ok true => Ok tt | Ok false => Fail ErrUnexpectedTransition | Fail e => Fail e | Panic q => Panic q end)
    (fun clk s _ => call (on_billing (bg_IssueInvoice (clk_billing clk) (s_invoiceID s)
                            (s_auctionID s) (s_winner s) (s_hammer s) (s_attempt s))))
    (fun s _ => closure (InvoiceIssued (s_invoiceID s)))
    (fun _ _ r => match r with
                  | Fail e => Ret (match ackUnexpected e with Some e' => Fail e' | None => Ok tt end)
                  | r => Ret r end)
    ackUnexpected
    (fun clk r => match r with
       | Ok current => match DecideOnInvoiceIssue current with
          | Fail err => Ret (from_err (ackUnexpected err))
          | Panic p => Ret (Panic p)
          | Ok needIssue =>
              if negb needIssue then mret tt
              else
                call (on_billing (bg_IssueInvoice (clk_billing clk) (s_invoiceID current)
                                    (s_auctionID current) (s_winner current) (s_hammer current)
                                    (s_attempt current)));;
                handle (update_saga id (closure (InvoiceIssued (s_invoiceID current)))) ackUnexpected
          end
       | Fail e => Ret (Fail e)
       | Panic q => Ret (Panic q) end)); try done.
  - intros c s. by destruct (DecideOnInvoiceIssue s) as [[]| |].
  - intros _ e. by exists e.
  - intros s d Hwf _ Hd. unfold DecideOnInvoiceIssue in Hd. case_bool_decide as Hst; [|done].
    destruct (commit_InvoiceIssued (s_invoiceID s) s Hwf) as [(s' & E & Hco & _ & Hst' & _)|E].
    + exists s'. split_and!; [done|apply Hco|]. exists ErrUnexpectedTransition. split; [|done].
      unfold DecideOnInvoiceIssue. simpl. by rewrite Hst'.
    + exfalso. revert E. unfold closure, InvoiceIssued. run_go. rewrite Hst. run_go.
      rewrite (proj2 (IsZero_false (s_invoiceID s)))
        by (eapply InvoiceIDForAttempt_nonzero, wf_invoice, Hwf).
      by rewrite !bool_decide_eq_false_2 by naive_solver.
  - intros s d Hl _. destruct (ni_wf w Hi _ _ Hl) as (Hwf & [Hbl _] & _).
    apply recoverable_issue; try done. apply Hwf.
Qed.

(** A handler that first stores its settlement. *)
Lemma redelivered_add x (rest rest' : prog (net S A B) unit) w st' :
  st_Add x (n_saga w) = (Ok tt, st') →
  let wa := mkNet st' (n_auctions w) (n_billing w) in
  (∀ w', run rest wa = (Ok tt, w') → ∀ n, let wn := crash_after n rest wa in
    st_ok (n_saga wn) ∧ is_Some (st_view (n_saga wn) !! s_auctionID x)
    ∧ ∃ w2, run rest' wn = (Ok tt, w2) ∧ st_view (n_saga w2) = st_view (n_saga w')) →
  redelivered (call (on_saga (st_Add x));; rest) (call (on_saga (st_Add x));; rest') w.
Proof.
  intros Ha wa Hrest w' Hr n.
  assert (∀ p : prog (net S A B) unit, run (call (on_saga (st_Add x));; p) w = run p wa) as Hfirst.
  { intros p. rewrite run_bind. unfold mbind, GoM_bind. rewrite run_call. unfold on_saga. by rewrite Ha. }
  rewrite Hfirst in Hr. specialize (Hrest w' Hr). cbv zeta in Hrest.
  assert (∀ m, ∃ w2, run (call (on_saga (st_Add x));; rest') (crash_after m rest wa) = (Ok tt, w2)
    ∧ st_view (n_saga w2) = st_view (n_saga w')) as Hm.
  { intros m. destruct (Hrest m) as (Hok & Hin & w2 & E & Hv). exists w2. split; [|done].
    rewrite run_bind. unfold mbind, GoM_bind. rewrite run_call. unfold on_saga.
    rewrite (st_Add_exists _ _ Hok Hin). rewrite <-E. by destruct (crash_after m rest wa). }
  unfold mbind at 2, prog_bind.
  match goal with |- context [attempt _ ?h] =>
    destruct (crash_after_attempt n (call (on_saga (st_Add x))) h w) as [-> |[m ->]] end.
  - destruct (crash_after_call n (on_saga (st_Add x)) w) as [-> | ->].
    + rewrite Hfirst. destruct (Hrest 0%nat) as (_ & _ & w2 & E & Hv). by exists w2.
    + unfold on_saga at 2. rewrite Ha. apply (Hm 0%nat).
  - rewrite run_call. unfold on_saga at 2 3. rewrite Ha. apply Hm.
Qed.

Lemma redeliver_OnAuctionClosed clk clk' e w :
  net_inv w → timely clk → timely clk' → closed_billable (B := B) e →
  redelivered (OnAuctionClosed clk e) (OnAuctionClosed clk' e) w.
Proof.
  intros Hi Hc Hc' [Hh Hru]. apply redelivered_pure. intros outcome _. apply redelivered_pure.
  intros requires _. cbv beta. destruct (negb requires); [apply redelivered_ret|].
  apply redelivered_pure. intros c Hb. apply redelivered_pure. intros x Hx. cbv beta.
  apply with_wrap_err in Hb.
  destruct (buildClosing_started _ _ _ Hb Hx) as (Hwf & Hst & Hid & Ham & Hra).
  assert (billable (B := B) x) as Hbl.
  { split; [by rewrite Ham|]. destruct Hra as [-> | ->]; [done|apply bg_amount_zero]. }
  destruct (add_spec x w Hwf Hbl Hst Hi) as (st' & Eadd & Hin & Hia & _).
  set (wa := mkNet st' (n_auctions w) (n_billing w)) in *. rewrite Hid in Hin.
  set (id := cl_auctionID c) in *.
  refine (redelivered_add x (issue_first id clk) (issue_first id clk') w st' Eadd _).
  intros w' Hr n. rewrite Hid. by apply redeliver_first.
Qed.

Lemma redeliver_deliver clk clk' e w :
  net_inv w → net_fits w → timely clk → timely clk' → truthful e w →
  redelivered (deliver relist clk e) (deliver relist clk' e) w.
Proof.
  intros Hi Hf Hc Hc' He.
  destruct e as [[]|[]|[]]; cbn [deliver truthful] in *; try (by apply redelivered_ret);
    apply redelivered_pure; intros ? _; apply redelivered_pure; intros ? _.
  - apply redelivered_pure. intros ? _. by apply redeliver_OnAuctionClosed.
  - by apply redeliver_OnWinnerReassigned.
  - by apply redeliver_OnInvoicePaid.
  - by apply redeliver_OnInvoiceExpired.
Qed.

(** ** The decline command *)

(** Programs that only call the auctions. *)
Inductive auctions_only {X} : prog (net S A B) X → Prop :=
| AO_Ret r : auctions_only (Ret r)
| AO_Call {Y} (m : M A Y) k : (∀ r, auctions_only (k r)) → auctions_only (Call (on_auctions m) k).

Lemma auctions_only_billing {X} (p : prog (net S A B) X) n w :
  auctions_only p → n_billing (crash_after n p w) = n_billing w.
Proof.
  intros Hp. revert n w. induction Hp as [r|Y m k Hk IH]; intros n w; [by rewrite crash_after_Ret|].
  destruct n as [|n]; [done|]. rewrite crash_after_S, IH. unfold on_auctions.
  by destruct (m (n_auctions w)).
Qed.

Lemma auctions_only_run {X} (p : prog (net S A B) X) st a b b' :
  auctions_only p → (run p (mkNet st a b)).1 = (run p (mkNet st a b')).1.
Proof.
  intros Hp. revert a. induction Hp as [r|Y m k Hk IH]; intros a; [done|]. simpl.
  unfold on_auctions. simpl. destruct (m a). apply IH.
Qed.

Lemma auctions_only_compensate clk id step reason :
  auctions_only (compensate (S := S) (B := B) relist clk id step reason).
Proof.
  destruct step; unfold compensate.
  - constructor.
  - constructor. intros r. constructor.
  - constructor. intros r. destruct r; [|constructor..]. cbn.
    destruct (RelistIDFor id); constructor. intros r. constructor.
  - constructor. intros r. constructor.
Qed.

Definition offer_error (err : error) : error :=
  if errors_Is err ErrOfferAlreadyPaid
  then WithCause (NewConflictError "offer-already-paid") err else err.

Lemma run_void clk inv w :
  run (void_offer clk inv) w
  = (match (bg_VoidInvoice (clk_billing clk) inv (n_billing w)).1 with
     | Fail e => Fail (offer_error e) | r => r end,
     mkNet (n_saga w) (n_auctions w) (bg_VoidInvoice (clk_billing clk) inv (n_billing w)).2).
Proof.
  unfold void_offer. rewrite run_handle. unfold on_error. rewrite run_call. unfold on_billing.
  destruct (bg_VoidInvoice _ inv _) as [[| e|] ?]; simpl; [done| |done].
  unfold offer_error. by destruct (errors_Is e ErrOfferAlreadyPaid).
Qed.

Lemma crash_void n clk inv w :
  crash_after n (void_offer clk inv) w = w
  ∨ crash_after n (void_offer clk inv) w = (run (void_offer clk inv) w).2.
Proof.
  unfold void_offer, handle.
  match goal with |- context [attempt ?p ?h] =>
    destruct (crash_after_attempt n p h w) as [E|[m E]] end.
  - rewrite E. destruct (crash_after_call n (on_billing (bg_VoidInvoice (clk_billing clk) inv)) w)
      as [-> | ->]; [by left|right]. rewrite prog_run_attempt, run_call.
    by destruct (on_billing _ w) as [[]].
  - right. rewrite E. rewrite prog_run_attempt, run_call.
    destruct (on_billing _ w) as [[]]; simpl; by rewrite crash_after_Ret.
Qed.

Lemma decline_compensate_ok clk id step w :
  is_ok (run (decline_compensate (S := S) (B := B) relist clk id step) w).1 = true →
  ∀ clk, decline_compensate (S := S) (B := B) relist clk id step
         = compensate relist clk id step ReasonSecondChanceDeclined.
Proof. by destruct step. Qed.

Lemma run_after_void clk inv (p : prog (net S A B) unit) w :
  run (void_offer clk inv;; p) w =
    match bg_VoidInvoice (clk_billing clk) inv (n_billing w) with
    | (Ok _, b1) => run p (mkNet (n_saga w) (n_auctions w) b1)
    | (Fail e, b1) => (Fail (offer_error e), mkNet (n_saga w) (n_auctions w) b1)
    | (Panic q, b1) => (Panic q, mkNet (n_saga w) (n_auctions w) b1)
    end.
Proof.
  rewrite run_bind. unfold mbind, GoM_bind. rewrite run_void.
  by destruct (bg_VoidInvoice _ inv _) as [[[]| |] ?].
Qed.

Lemma crash_after_void n clk inv (p : prog (net S A B) unit) w b1 :
  bg_VoidInvoice (clk_billing clk) inv (n_billing w) = (Ok tt, b1) →
  let w1 := mkNet (n_saga w) (n_auctions w) b1 in
  crash_after n (void_offer clk inv;; p) w = w
  ∨ ∃ m, crash_after n (void_offer clk inv;; p) w = crash_after m p w1.
Proof.
  intros E w1. assert (run (void_offer clk inv) w = (Ok tt, w1)) as Hv by (by rewrite run_void, E).
  unfold mbind, prog_bind.
  match goal with |- context [attempt ?q ?h] =>
    destruct (crash_after_attempt n q h w) as [-> |[m ->]] end.
  - destruct (crash_void n clk inv w) as [-> | ->]; [by left|right]. exists 0%nat. by rewrite Hv.
  - right. exists m. by rewrite Hv.
Qed.

(** Voiding the offer, then an effect on the auctions. *)
Lemma recoverable_void clk clk' inv (p p' : prog (net S A B) unit) w :
  net_inv w → auctions_only p →
  (∀ b2, net_inv (mkNet (n_saga w) (n_auctions w) b2) →
     recoverable p p' (mkNet (n_saga w) (n_auctions w) b2)) →
  recoverable (void_offer clk inv;; p) (void_offer clk' inv;; p') w.
Proof.
  intros Hi Hao Hrec Hok n. cbv zeta. pose proof (ni_billing _ Hi) as Hb.
  pose proof (ni_auctions _ Hi) as Ha.
  destruct (bg_Void_spec (clk_billing clk) inv _ Hb) as (Hb1 & Hle1 & _).
  destruct (bg_Void_spec (clk_billing clk') inv _ Hb) as (Hb2 & Hle2 & _).
  pose proof (bg_Void_again (clk_billing clk) (clk_billing clk') inv _ Hb) as Hrep. unfold repeatable in Hrep.
  rewrite run_after_void in Hok.
  destruct (bg_VoidInvoice (clk_billing clk) inv (n_billing w)) as [[[]| |] b1] eqn:E1; [|done..].
  destruct (Hrep b1 eq_refl) as [Hr' E1']. simpl in Hb1, Hle1. clear Hrep.
  destruct (net_env w (mkNet (n_saga w) (n_auctions w) b1) Hi) as [_ Hi1]; try done.
  destruct (crash_after_void n clk inv p w b1 E1) as [-> |[m ->]].
  - split_and!; [done..|]. rewrite run_after_void.
    destruct (bg_VoidInvoice (clk_billing clk') inv (n_billing w)) as [r b2].
    apply is_ok_unit in Hr'. simpl in Hr', Hb2, Hle2. subst r.
    destruct (net_env w (mkNet (n_saga w) (n_auctions w) b2) Hi) as [_ Hi2]; try done.
    rewrite (auctions_only_run p _ _ b1 b2 Hao) in Hok.
    apply (Hrec b2 Hi2 Hok 0%nat).
  - destruct (Hrec b1 Hi1 Hok m) as (Hs & Him & w1 & Hr & Hs1 & Hi3).
    pose proof (auctions_only_billing p m (mkNet (n_saga w) (n_auctions w) b1) Hao) as Hbm.
    split_and!; [done..|]. exists w1. split_and!; [|done..].
    rewrite run_after_void, Hbm. simpl. rewrite E1'. rewrite <-Hr. f_equal.
    destruct (crash_after m p _) as [sm am bm]. simpl in *. by subst.
Qed.

Lemma recoverable_decline clk clk' id inv step w :
  net_inv w → net_fits w → timely clk → timely clk' →
  recoverable (void_offer clk inv;; decline_compensate relist clk id step)
    (void_offer clk' inv;; decline_compensate relist clk' id step) w.
Proof.
  intros Hi Hf Hc Hc'.
  assert ((∀ c, decline_compensate (S := S) (B := B) relist c id step
      = compensate relist c id step ReasonSecondChanceDeclined)
    ∨ ∃ q, ∀ c, decline_compensate (S := S) (B := B) relist c id step = Ret (Panic q)) as [E|[q E]].
  { destruct step; [right; by eexists|right; by eexists|by left|by left]. }
  - rewrite !E. apply recoverable_void; [done|apply auctions_only_compensate|].
    intros b2 Hi2. by apply recoverable_compensate.
  - rewrite !E. apply recoverable_void; [done|constructor|]. intros b2 _ Hok. done.
Qed.

Lemma decline_commit_once actor s step : saga_wf s → DecideOnDecline s actor = Ok step →
  ∃ s', closure (ApplyNextStep step ReasonSecondChanceDeclined) s = Ok s' ∧ admissible s s'
    ∧ ∃ e, DecideOnDecline (bumped s') actor = Fail e ∧ declineOutcome (Some e) = None.
Proof.
  intros Hwf Hd. pose proof (DecideOnDecline_spec s actor) as Hsp. rewrite Hd in Hsp.
  destruct Hsp as (-> & Hst & ->). pose proof (decline_step s Hwf Hst) as Hna.
  destruct (commit_failure _ ReasonSecondChanceDeclined s Hwf Hna (nextStep_fits s))
    as [(s' & E & Hc & _ & Hst' & _)|[_ Hn]]; [done| |destruct Hn; right; by right].
  exists s'. split_and!; [done|apply Hc|]. exists ErrUnexpectedTransition. split; [|done].
  assert (IsZero (s_runnerUp s) = false) as Hz.
  { revert Hd. unfold DecideOnDecline, CanRunnerUpDecline. destruct (IsZero (s_runnerUp s)); [|done].
    by rewrite Hst. }
  unfold DecideOnDecline, CanRunnerUpDecline. simpl.
  rewrite (ss_runnerUp _ _ (co_same _ _ Hc)), Hst', Hz. simpl.
  rewrite (bool_decide_eq_false_2 (s_runnerUp s ≠ _)) by naive_solver.
  rewrite (bool_decide_eq_true_2 (s_runnerUp s = _)) by done.
  destruct (nextStepOnFailure s) eqn:Es; try done.
Qed.

Lemma redeliver_decline clk clk' cmd w :
  net_inv w → net_fits w → timely clk → timely clk' →
  redelivered (DeclineSecondChanceOfferHandler relist clk cmd)
    (DeclineSecondChanceOfferHandler relist clk' cmd) w.
Proof.
  intros Hi Hf Hc Hc' w' Hr n.
  apply (redeliver (de_AuctionID cmd) (fun s => DecideOnDecline s (de_Actor cmd))
    (fun clk s step => void_offer clk (s_invoiceID s);;
                       decline_compensate relist clk (de_AuctionID cmd) step)
    (fun _ step => closure (ApplyNextStep step ReasonSecondChanceDeclined))
    (fun _ _ r => match r with
       | Fail err => if errors_Is err ErrUnexpectedTransition then answer_by_state cmd
                     else Ret (Fail err)
       | r => Ret r end)
    (fun err => declineOutcome (Some err))
    (fun clk got => match got with
       | Fail err => Ret (Fail (mapNotFound err))
       | Panic p => Ret (Panic p)
       | Ok s =>
        match DecideOnDecline s (de_Actor cmd) with
        | Fail err => Ret (from_err (declineOutcome (Some err)))
        | Panic p => Ret (Panic p)
        | Ok step =>
            void_offer clk (s_invoiceID s);;
            decline_compensate relist clk (de_AuctionID cmd) step;;
            attempt (update_saga (de_AuctionID cmd)
                       (closure (ApplyNextStep step ReasonSecondChanceDeclined))) (fun r =>
              match r with
              | Fail err =>
                  if errors_Is err ErrUnexpectedTransition then answer_by_state cmd
                  else Ret (Fail err)
              | r => Ret r
              end)
        end end)); try done.
  - intros c s. destruct (DecideOnDecline s (de_Actor cmd)); [apply same_run_assoc|done..].
  - by eexists.
  - intros s step Hwf _ Hd. by apply decline_commit_once.
  - intros s step _ _. by apply recoverable_decline.
Qed.
End Redelivery.
End saga_redelivery.
