(* ===== verification/SagaClaims.v ===== *)
(** * The saga, the auctions and the invoices together

    The settlement handlers over the facades of the auction and billing
    contexts, interleaved with each other, with crashes, and with whatever
    else happens to the auctions and the invoices. *)

From stdpp Require Import base numbers list strings gmap fin_maps relations.
From Stdlib Require Import ZArith Lia.
From S2P Require Import Prelude DemoUUID Errs Auth Postgres Events AuctionDomain AuctionTheory AuctionRepo AuctionApp AuctionRepoTheory AuctionAppTheory InvoiceDomain InvoiceRepo Billing InvoiceRepoTheory InvoiceTheory BillingTheory Processes SettlementDomain SettlementRepo Settlement SettlementRepoTheory SagaTheory SagaGateways SagaProtocol SagaRedelivery.

Module saga_claims.
Import auction_repo_theory auction_app_theory invoice_repo_theory invoice_theory.
Import settlement saga settlement_repo_theory saga_theory saga_protocol saga_redelivery saga_gateways.
Local Open Scope Z_scope.

Section Whole.
Context {S A B : Type} `{SettlementRepositoryLaws S} `{UUIDLib}
  `{auction_repo_theory.AuctionRepositoryLaws A}
  `{invoice_repo_theory.InvoiceRepositoryLaws B}.
Context (relist : RelistPolicy) (relist_valid : valid_policy relist).
Context (policy : invoice.CommissionPolicy) (term : invoice.PaymentTerm).
Context (policy_valid : invoice_theory.valid_policy policy)
  (term_valid : 0 < invoice.PaymentTerm_Duration term).

#[local] Instance bills : BillingGateway B := billing_facade policy term.
#[local] Instance bills_laws : BillingGatewayLaws B :=
  billing_gateway_laws policy term policy_valid term_valid.

Implicit Types (w : net S A B) (s : Settlement).

(** ** What else happens to the auctions and the invoices *)

(** Some method of an auction succeeded and was stored, or a new auction was. *)
Inductive auction_moves (a a' : A) : Prop :=
| AM_method k x c r x' :
    repo_view a !! k = Some x → auction_theory.run c x = (Ok r, x') →
    repo_view a' = <[k := auction_repo_theory.stored x']> (repo_view a) → auction_moves a a'
| AM_listed k x :
    repo_view a !! k = None → repo_view a' = <[k := x]> (repo_view a) → auction_moves a a'.

(** An invoice was paid, expired or voided, and stored.  Only the saga issues
    invoices. *)
Inductive invoice_moves (b b' : B) : Prop :=
| IM_method k i o i' v :
    inv_view b !! k = Some i → run_op o i = (Ok tt, i') →
    inv_view b' = <[k := invoice_repo_theory.stored v i']> (inv_view b) → invoice_moves b b'.

Inductive others : net S A B → net S A B → Prop :=
| O_auctions st a a' b :
    repo_ok a' → auction_moves a a' → others (mkNet st a b) (mkNet st a' b)
| O_invoices st a b b' :
    inv_ok b' → invoice_moves b b' → others (mkNet st a b) (mkNet st a b').

Lemma auction_moves_le a a' : auction_moves a a' → sale_le auction_facts a a'.
Proof.
  intros [k x c r x' Hl Hr Hv|k x Hl Hv].
  - eapply update_sale_le; [done..|]. by eapply run_sale_kept.
  - by eapply add_sale_le.
Qed.

Lemma run_op_moves o i i' : invoice.i_status i ≠ invoice.StatusZero → run_op o i = (Ok tt, i') →
  invoice.i_status i = invoice.StatusPending
  ∧ invoice.i_auctionID i' = invoice.i_auctionID i ∧ invoice.i_attempt i' = invoice.i_attempt i.
Proof.
  intros Hz Hr. destruct (invoice.i_status i) eqn:E; [done| |..].
  - split; [done|]. destruct (run_op_pending o i E) as [[e Hf]|(j & Hj & Hw & _)]; [by rewrite Hf in Hr|].
    rewrite Hj in Hr. injection Hr as <-. by destruct o; simpl in Hw; destruct_and?; subst.
  - destruct (run_op_terminal o i) as [e Hf]; [by left|by rewrite Hf in Hr].
  - destruct (run_op_terminal o i) as [e Hf]; [by right; left|by rewrite Hf in Hr].
  - destruct (run_op_terminal o i) as [e Hf]; [by right; right|by rewrite Hf in Hr].
Qed.

Lemma invoice_moves_ok b b' :
  books_ok b → inv_ok b' → invoice_moves b b' → books_ok b' ∧ bill_le invoice_facts b b'.
Proof.
  intros [Hok Hd] Hok' [k i o i' v Hl Hm Hv].
  destruct (inv_view_ok b k i Hok Hl) as (Hst & _ & _).
  destruct (run_op_moves o i i' (invoice_repo_theory.so_status i Hst) Hm) as (Hs & Ha & Ht).
  split; [split; [done|]|].
  - intros k' j. rewrite Hv, lookup_insert_Some. intros [[<- <-]|[_ Hj]]; [|by apply Hd].
    simpl. rewrite Ha, Ht. by apply Hd.
  - eapply update_bill_le; [done..| |]; unfold paid_invoice, closed_invoice; rewrite Hs; [done|].
    by intros [].
Qed.

Lemma others_ok w w' : net_inv w → net_fits w → others w w' → net_le w w' ∧ net_inv w'.
Proof.
  intros Hi _ Ho. pose proof (ni_billing w Hi) as Hb. pose proof (ni_auctions w Hi) as Ha.
  destruct Ho as [st a a' b Hok Hm|st a b b' Hok Hm]; apply net_env; try done.
  - by apply auction_moves_le.
  - by apply (invoice_moves_ok b).
  - by apply (invoice_moves_ok b).
Qed.

(** ** Executions *)

Abbreviation system := (pool (W := net S A B) (J := job)).
Abbreviation system_step := (pool_step (W := net S A B) net_fits (job_body relist) job_may others).

(** No settlement yet, and stores as their repositories keep them. *)
Record initial (c : system) : Prop := {
  in_procs : procs c = [];
  in_saga : st_ok (n_saga (mem c)) ∧ st_view (n_saga (mem c)) = ∅;
  in_auctions : repo_ok (n_auctions (mem c)) ∧ room (n_auctions (mem c));
  in_billing : books_ok (n_billing (mem c));
}.

Lemma system_initial_ok c : initial c → pool_ok net_le net_inv net_fits job_post c.
Proof.
  intros [Hp [Hs Hv] [Ha Hr] Hb]. constructor.
  - constructor; [done..|]. intros id s Hl. by rewrite Hv in Hl.
  - done.
  - intros j p Hin. rewrite Hp in Hin. by apply not_elem_of_nil in Hin.
Qed.

Lemma system_reachable c c1 c2 : initial c → rtc system_step c c1 → rtc system_step c1 c2 →
  pool_ok net_le net_inv net_fits job_post c2 ∧ net_le (mem c1) (mem c2).
Proof.
  intros Hi H12 H23.
  destruct (pool_reachable _ _ _ _ _ _ _ (wp_job relist relist_valid) others_ok _ _ (system_initial_ok c Hi) H12)
    as [Hok _].
  by apply (pool_reachable _ _ _ _ _ _ _ (wp_job relist relist_valid) others_ok _ _ Hok H23).
Qed.

(** ** What a settlement says of its auction and its invoice *)

Definition on_sale w s (P : auction.Auction → Prop) : Prop :=
  ∃ x, repo_view (n_auctions w) !! au (s_auctionID s) = Some x ∧ P x.
Definition on_invoice w s (P : invoice.Invoice → Prop) : Prop :=
  ∃ i, inv_view (n_billing w) !! iv (s_invoiceID s) = Some i ∧ P i.

Definition agrees w s : Prop :=
  let lapsed := s_runnerUpQualifies s = true ∨ s_attempt s = 1 → on_invoice w s closed_invoice in
  match s_state s with
  | StateZero => False
  | StateStarted => True
  | StateAwaitingPayment | StateSecondChancePayment => on_invoice w s (fun _ => True)
  | StateAwardingRunnerUp =>
      on_sale w s (fun x => auction.a_winnerReassigned x = true) ∧ on_invoice w s closed_invoice
  | StateSettled => on_sale w s settled_sale ∧ on_invoice w s paid_invoice
  | StateRelisted =>
      on_sale w s failed_sale
      ∧ (∃ new, RelistIDFor (s_auctionID s) = Ok new
           ∧ relisted (n_auctions w) (au (s_auctionID s)) (au new))
      ∧ lapsed
  | StateFailedUnsold => on_sale w s failed_sale ∧ lapsed
  end
  ∧ (s_failureReason s = ReasonSecondChanceDeclined → on_invoice w s closed_invoice).

Lemma stored_agrees (c : system) id s :
  pool_ok net_le net_inv net_fits job_post c → st_view (n_saga (mem c)) !! id = Some s →
  saga_wf s ∧ s_auctionID s = id ∧ agrees (mem c) s.
Proof.
  intros [Hi _ _] Hl. destruct (view_spec _ _ _ Hi Hl) as (Hwf & Hid & Hf & Hr).
  split_and!; [done..|]. split; [|exact Hr]. unfold state_fact in Hf.
  destruct (s_state s) eqn:E; try exact Hf.
  - by destruct (so_state s (wf_storable s Hwf)).
  - destruct Hf as (Hfa & (new & ? & Hre & _) & Hla). split_and!; eauto.
Qed.

(** ** Claims *)

(** C9: whatever the interleaving of event deliveries, decline requests,
    crashes and other changes to the auctions and the invoices, every stored
    settlement is well-formed, and its state is true of the other two
    contexts: a settled one has its sale settled and its invoice paid, a
    relisted one has its sale failed and a replacement listed, an unsold one
    has its sale failed, and where the sale failed the live invoice can no
    longer be paid. *)
Theorem saga_agreement (c c1 : system) id s :
  initial c → rtc system_step c c1 → st_view (n_saga (mem c1)) !! id = Some s →
  saga_wf s ∧ s_auctionID s = id ∧ agrees (mem c1) s.
Proof.
  intros Hi Hr Hl. destruct (system_reachable c c1 c1 Hi Hr (rtc_refl _ _)) as [Hok _].
  by apply stored_agrees.
Qed.

(** C12: along every execution a stored settlement is never lost, keeps the
    facts of the closing it was started from, and changes only by moving up
    its states: a settled, relisted or unsold one never changes again, and no
    settlement is ever written more than five times. *)
Theorem saga_advances (c c1 c2 : system) id s :
  initial c → rtc system_step c c1 → rtc system_step c1 c2 →
  st_view (n_saga (mem c1)) !! id = Some s →
  ∃ s', st_view (n_saga (mem c2)) !! id = Some s' ∧ same_sale s s'
    ∧ (s' = s ∨ rank (s_state s) < rank (s_state s'))
    ∧ (s_state s = StateSettled ∨ failed_state (s_state s) → s' = s)
    ∧ 1 ≤ s_version s' ≤ 5.
Proof.
  intros Hi Hr1 Hr2 Hl. destruct (system_reachable c c1 c2 Hi Hr1 Hr2) as [Hok [Hle _ _]].
  destruct (Hle _ _ Hl) as (s' & Hl' & Had). exists s'.
  destruct (stored_agrees _ _ _ Hok Hl') as (Hwf & _).
  split_and!; [done|apply Had|apply Had| | |].
  - intros Hst. apply terminal_stays; [|done]. by destruct Hst as [-> |[-> | ->]].
  - apply (so_version s'), Hwf.
  - pose proof (wf_version s' Hwf). pose proof (rank_le (s_state s')). lia.
Qed.

(** C20: a decline that was answered with success, whenever it was, is final:
    from then on the settlement is relisted or unsold, and the sale failed. *)
Theorem decline_final (c c1 c2 : system) clk cmd :
  initial c → rtc system_step c c1 → rtc system_step c1 c2 →
  ((clk, Decline cmd), Ret (Ok tt)) ∈ procs c1 →
  ∃ s, st_view (n_saga (mem c2)) !! de_AuctionID cmd = Some s ∧ failed_state (s_state s)
    ∧ on_sale (mem c2) s failed_sale.
Proof.
  intros Hi Hr1 Hr2 Hin. destruct (system_reachable c c1 c2 Hi Hr1 Hr2) as [Hok2 Hle].
  destruct (system_reachable c c1 c1 Hi Hr1 (rtc_refl _ _)) as [[Hi1 Hf1 Hp] _].
  pose proof (Hp _ _ Hin (mem c1) (reflexivity _) Hi1 Hf1 tt eq_refl) as Hc.
  apply (concluded_le _ _ _ Hle) in Hc as (s & Hl & Hf). exists s. split_and!; [done..|].
  destruct (stored_agrees _ _ _ Hok2 Hl) as (_ & _ & Ha & _).
  by destruct Hf as [E|E]; rewrite E in Ha; apply Ha.
Qed.

(** C14: deliveries and requests may be repeated.  If handling a request
    would succeed, then wherever it is cut off, even after its last call,
    handling it again from the start, at another time, succeeds and leaves
    the settlements exactly as the undisturbed run does. *)
Theorem redelivery (c c1 : system) clk clk' req w' n :
  initial c → rtc system_step c c1 →
  job_may (clk, req) (mem c1) → timely relist clk → timely relist clk' →
  let handler clk := job_body relist (clk, req) in
  run (handler clk) (mem c1) = (Ok tt, w') →
  ∃ w2, run (handler clk') (crash_after n (handler clk) (mem c1)) = (Ok tt, w2)
    ∧ st_view (n_saga w2) = st_view (n_saga w').
Proof.
  intros Hi Hr [_ Hm] Hc Hc' handler Hrun.
  destruct (system_reachable c c1 c1 Hi Hr (rtc_refl _ _)) as [[Hi1 Hf1 _] _].
  revert w' Hrun n. fold (redelivered (handler clk) (handler clk') (mem c1)).
  destruct req as [e|cmd]; [by apply redeliver_deliver|by apply redeliver_decline].
Qed.

Lemma void_paid clk w s : books_ok (n_billing w) → on_invoice w s paid_invoice →
  bg_VoidInvoice (clk_billing clk) (s_invoiceID s) (n_billing w)
  = (Fail (translate_paid (WithCause (NewConflictError "invoice-already-paid") invoice.ErrInvoiceAlreadyPaid)),
     n_billing w).
Proof.
  intros [Hok _] (i & Hl & Hp). cbn [bg_VoidInvoice bills billing_facade].
  destruct (inv_view_ok _ _ _ Hok Hl) as (Hst & Hid & _).
  pose proof (billing_theory.void_spec (clk_billing clk) (n_billing w) (iv (s_invoiceID s)) i Hok Hl) as Hv.
  unfold paid_invoice in Hp. rewrite Hp in Hv. rewrite billing_theory.on_error_run.
  assert (billing.Facade_VoidInvoice (clk_billing clk) (InvoiceID_UUID (s_invoiceID s)) (n_billing w)
    = billing.VoidInvoiceHandler (clk_billing clk) (billing.mkVoidInvoice (iv (s_invoiceID s))) (n_billing w))
    as ->.
  { unfold billing.Facade_VoidInvoice, invoice.NewInvoiceID.
    rewrite bool_decide_eq_false_2; [done|]. intros E.
    apply (invoice_repo_theory.so_id i Hst). rewrite Hid. unfold iv. by rewrite E. }
  by rewrite Hv.
Qed.

(** C39: the answers of the decline endpoint.  Nobody but the runner-up of
    the sale may decline, and only while the second-chance invoice is open:
    anything else is refused, with a 404, 403 or 409, or is the success of a
    decline that already took effect; none of these answers changes
    anything. *)
Theorem decline_answers (c c1 : system) clk cmd :
  initial c → rtc system_step c c1 →
  let w := mem c1 in
  let r := run (DeclineSecondChanceOfferHandler relist clk cmd) w in
  let refused status slug :=
    ∃ e, r = (Fail e, w) ∧ RespondWithSlugError (Some e) = mkResponse status slug in
  match st_view (n_saga w) !! de_AuctionID cmd with
  | None => refused 404 "settlement-not-found"
  | Some s =>
      if IsZero (de_Actor cmd) || bool_decide (de_Actor cmd ≠ s_runnerUp s)
      then refused 403 "not-offer-recipient"
      else
        match s_state s with
        | StateSettled => refused 409 "offer-already-paid"
        | StateRelisted | StateFailedUnsold => r = (Ok tt, w)
        | StateSecondChancePayment =>
            on_invoice w s paid_invoice → refused 409 "offer-already-paid"
        | _ => refused 403 "not-offer-recipient"
        end
  end.
Proof.
  intros Hi Hr w r refused.
  destruct (system_reachable c c1 c1 Hi Hr (rtc_refl _ _)) as [[Hi1 _ _] _]. fold w in Hi1.
  destruct (get_saga_spec (de_AuctionID cmd) w Hi1) as [(s & Hl & Hg)|[Hl Hg]]; rewrite Hl.
  2:{ eexists. unfold r, DeclineSecondChanceOfferHandler. rewrite prog_run_attempt.
      unfold get_saga. rewrite run_call, Hg. by split. }
  assert (r = run (match DecideOnDecline s (de_Actor cmd) with
      | Fail err => Ret (from_err (declineOutcome (Some err)))
      | Panic p => Ret (Panic p)
      | Ok step =>
          void_offer clk (s_invoiceID s);;
          decline_compensate relist clk (de_AuctionID cmd) step;;
          attempt (update_saga (de_AuctionID cmd)
                     (closure (ApplyNextStep step ReasonSecondChanceDeclined))) (fun r =>
            match r with
            | Fail err => if errors_Is err ErrUnexpectedTransition then answer_by_state cmd
                          else Ret (Fail err)
            | r => Ret r end) end) w) as Er.
  { unfold r, DeclineSecondChanceOfferHandler. rewrite prog_run_attempt.
    unfold get_saga. rewrite run_call, Hg. done. }
  unfold refused. rewrite Er. clearbody r. clear Er refused.
  unfold DecideOnDecline, CanRunnerUpDecline.
  destruct (IsZero (de_Actor cmd)) eqn:Hz; [by eexists|]. cbn [orb negb andb].
  destruct (decide (de_Actor cmd = s_runnerUp s)) as [Ha|Hne].
  2:{ rewrite !(bool_decide_eq_true_2 (de_Actor cmd ≠ s_runnerUp s)) by done.
      rewrite (bool_decide_eq_false_2 (de_Actor cmd = s_runnerUp s)), orb_true_r by done. by eexists. }
  rewrite !(bool_decide_eq_false_2 (de_Actor cmd ≠ s_runnerUp s)) by naive_solver.
  rewrite (bool_decide_eq_true_2 (de_Actor cmd = s_runnerUp s)), <-Ha, Hz by done. cbn [orb].
  destruct (s_state s) eqn:Hst; try (by eexists); [|done..].
  intros Hp. rewrite bool_decide_eq_false_2 by naive_solver. cbn [orb].
  rewrite run_after_void, (void_paid clk w s (ni_billing w Hi1) Hp).
  eexists. split; [by destruct w|done].
Qed.
End Whole.

(** ** A concrete execution, for the witnesses

    A sale is closed, its winner does not pay, the runner-up is awarded it and
    declines. *)

Section Demo.
Import auction_theory billing_theory demo_uuid.

#[local] Instance demo_sagas : SettlementRepository settlement_repo.SettlementInMemoryRepository :=
  settlement_repo.inmem.repository.
#[local] Instance demo_auctions : AuctionRepository auction_repo.AuctionInMemRepository :=
  auction_repo.inmem.repository (fun l => l).
#[local] Instance demo_auctions_laws :
  auction_repo_theory.AuctionRepositoryLaws auction_repo.AuctionInMemRepository :=
  auction_repo_theory.inmem_laws (fun l => l) (fun l => reflexivity l).

Definition demo_sale : auction.Auction :=
  auction.set_events [] (demo.runs
    [CPlaceBid (auction.mkBidID 11) (demo.bidder 3) (demo.eur 1500) (1500 * Second);
     CPlaceBid (auction.mkBidID 12) (demo.bidder 4) (demo.eur 1600) (1950 * Second);
     CClose (2200 * Second)] demo.a0).

Abbreviation demo_net := (net settlement_repo.SettlementInMemoryRepository
  auction_repo.AuctionInMemRepository invoice_repo.InvoiceInMemoryRepository).

Definition demo_w0 : demo_net :=
  mkNet (settlement_repo.mkSettlementInMemoryRepository ∅)
    (auction_repo.mkAuctionInMemRepository {[ auction.mkAuctionID 1 := demo_sale ]})
    (invoice_repo.mkInvoiceInMemoryRepository ∅).

Definition demo_relist : RelistPolicy := mkRelistPolicy Second Second.
Definition demo_commission : invoice.CommissionPolicy := invoice.mkCommissionPolicy 1000.
Definition demo_term : invoice.PaymentTerm := invoice.mkPaymentTerm Second.
Definition demo_clocks (t : Z) : Clocks := mkClocks (t * Second) (t * Second) (t * Second).

#[local] Instance demo_bills : BillingGateway invoice_repo.InvoiceInMemoryRepository :=
  billing_facade demo_commission demo_term.

Definition demo_after (j : job) (w : demo_net) : demo_net :=
  (Processes.run (job_body demo_relist j) w).2.

Definition demo_closed : job :=
  (demo_clocks 2300, Delivery (OfAuction (EvAuctionClosedV1 (mkAuctionClosedV1 "e1" "1" "01" "sold"
     "001" 1600 "EUR" "11" 1500 true 0 (2200 * Second))))).
Definition demo_w1 : demo_net := Eval vm_compute in demo_after demo_closed demo_w0.

Definition demo_invoice_id (n : Z) : InvoiceID :=
  match InvoiceIDForAttempt (mkAuctionID 1) n with Ok i => i | _ => zero_value end.
Definition demo_w2 : demo_net :=
  Eval vm_compute in
  mkNet (n_saga demo_w1) (n_auctions demo_w1)
    (billing.ExpireInvoiceHandler (2400 * Second) (billing.mkExpireInvoice (iv (demo_invoice_id 1)))
       (n_billing demo_w1)).2.

Definition demo_expired : job :=
  (demo_clocks 2500, Delivery (OfBilling (EvInvoiceExpiredV1 (mkInvoiceExpiredV1 "e2"
     (uuid_String (InvoiceID_UUID (demo_invoice_id 1))) "1" "001" 1 (2400 * Second))))).
Definition demo_w3 : demo_net := Eval vm_compute in demo_after demo_expired demo_w2.

Definition demo_reassigned : job :=
  (demo_clocks 2600, Delivery (OfAuction (EvWinnerReassignedV1 (mkWinnerReassignedV1 "e3" "1" "11"
     1500 "EUR" (2500 * Second))))).
Definition demo_w4 : demo_net := Eval vm_compute in demo_after demo_reassigned demo_w3.

Definition demo_decline : job :=
  (demo_clocks 2700, Decline (mkDeclineSecondChanceOffer (mkAuctionID 1) (mkBidderID 3))).
Definition demo_w5 : demo_net := Eval vm_compute in demo_after demo_decline demo_w4.

Definition demo_state (w : demo_net) : option State := s_state <$> st_view (n_saga w) !! mkAuctionID 1.

Lemma demo_states :
  demo_state demo_w1 = Some StateAwaitingPayment ∧ demo_state demo_w3 = Some StateAwardingRunnerUp
  ∧ demo_state demo_w4 = Some StateSecondChancePayment ∧ demo_state demo_w5 = Some StateRelisted.
Proof. by vm_compute. Qed.

#[local] Instance demo_bills_laws : BillingGatewayLaws invoice_repo.InvoiceInMemoryRepository :=
  bills_laws demo_commission demo_term ltac:(by split) ltac:(done).

Abbreviation demo_step := (pool_step (W := demo_net) net_fits (job_body demo_relist) job_may others).

Definition demo_fitsb (w : demo_net) : bool :=
  forallb (fun kv => auction.a_version kv.2 <? int64_max)
    (map_to_list (auction_repo.auctions (n_auctions w))).

Lemma demo_fits w : demo_fitsb w = true → net_fits w.
Proof.
  intros Hb id a Hl. apply Z.ltb_lt. unfold demo_fitsb in Hb. rewrite forallb_forall in Hb.
  apply (Hb (id, a)), list_elem_of_In, elem_of_map_to_list, Hl.
Qed.

(** One handler of the scenario, from the first call to the last. *)
Lemma demo_run j w ps r w' :
  job_may j w → all_fitb demo_fitsb (job_body demo_relist j) w = true →
  Processes.run (job_body demo_relist j) w = (r, w') →
  rtc demo_step (mkPool w ps) (mkPool w' (ps ++ [(j, Ret r)])).
Proof.
  intros Hm Hf Hr.
  pose proof (spawn_and_run net_fits (job_body demo_relist) job_may others (mkPool w ps) j Hm
    (all_fitb_all_fit _ _ _ _ demo_fits Hf)) as Hs. simpl in Hs. by rewrite Hr in Hs.
Qed.

Lemma demo_sale_storable : auction_repo_theory.storable demo_sale.
Proof.
  constructor; try (vm_compute; congruence); try (vm_compute; split; congruence).
  - right. by split.
  - split; [exists 60|split; [exists 120|]]; by split_and?.
  - right. constructor; vm_compute; congruence.
  - right. constructor; vm_compute; congruence.
Qed.

Lemma demo_start_ok : initial (mkPool demo_w0 []).
Proof.
  constructor; [done|..].
  - split; [|done]. intros id x Hx. exfalso. exact (lookup_empty_Some _ _ Hx).
  - split.
    + intros id a. simpl. rewrite lookup_singleton_Some. intros [<- <-].
      split_and!; [apply demo_sale_storable|reflexivity..].
    + by apply (demo_fits demo_w0).
  - split; intros id x Hx; exfalso; exact (lookup_empty_Some _ _ Hx).
Qed.

Abbreviation demo_system := (pool (W := demo_net) (J := job)).

Definition demo_c1 : demo_system := mkPool demo_w1 [(demo_closed, Ret (Ok tt))].
Definition demo_c5 : demo_system := mkPool demo_w5
  [(demo_closed, Ret (Ok tt)); (demo_expired, Ret (Ok tt)); (demo_reassigned, Ret (Ok tt));
   (demo_decline, Ret (Ok tt))].

Lemma demo_reach1 : rtc demo_step (mkPool demo_w0 []) demo_c1.
Proof.
  apply (demo_run demo_closed demo_w0 []).
  - by repeat split.
  - by vm_compute.
  - vm_compute. reflexivity.
Qed.

(** The expiry worker, between the deliveries. *)
Lemma demo_expiry : others demo_w1 demo_w2.
Proof.
  pose proof (proj1 (system_reachable demo_relist ltac:(by split) demo_commission demo_term ltac:(by split)
    ltac:(done) _ _ _ demo_start_ok demo_reach1 (rtc_refl _ _))) as [Hi _ _].
  pose proof (ni_billing _ Hi) as [Hok _].
  pose proof (expire_spec (2400 * Second) (n_billing demo_w1) (iv (demo_invoice_id 1))) as He.
  eassert (inv_view (n_billing demo_w1) !! iv (demo_invoice_id 1) = Some _) as Hl
    by (vm_compute; reflexivity).
  specialize (He _ Hok Hl).
  assert (∃ s' v, billing.ExpireInvoiceHandler (2400 * Second)
      (billing.mkExpireInvoice (iv (demo_invoice_id 1))) (n_billing demo_w1) = (Ok tt, s')
    ∧ inv_ok s' ∧ inv_view s' = <[iv (demo_invoice_id 1) := stored v (expired (2400 * Second) _)]>
                                  (inv_view (n_billing demo_w1)))
    as (s' & v & E & Hok' & Hv) by exact He.
  assert (s' = n_billing demo_w2) as -> by (apply (f_equal snd) in E; symmetry in E; etrans; [exact E|by vm_compute]).
  apply O_invoices; [exact Hok'|].
  refine (IM_method _ _ _ _ (OExpire (2400 * Second)) _ v Hl _ Hv). vm_compute. reflexivity.
Qed.

Definition demo_ps2 : list (job * prog demo_net unit) := [(demo_closed, Ret (Ok tt))].
Definition demo_ps3 : list (job * prog demo_net unit) :=
  [(demo_closed, Ret (Ok tt)); (demo_expired, Ret (Ok tt))].
Definition demo_ps4 : list (job * prog demo_net unit) :=
  [(demo_closed, Ret (Ok tt)); (demo_expired, Ret (Ok tt)); (demo_reassigned, Ret (Ok tt))].

Lemma demo_reach2 : demo_step demo_c1 (mkPool demo_w2 demo_ps2).
Proof. apply (P_env net_fits _ _ _ demo_c1); [exact demo_expiry|]. apply demo_fits. by vm_compute. Qed.

Definition demo_expired_event : InvoiceExpiredV1 :=
  mkInvoiceExpiredV1 "e2" (uuid_String (InvoiceID_UUID (demo_invoice_id 1))) "1" "001" 1 (2400 * Second).

Lemma demo_truthful : truthful (OfBilling (EvInvoiceExpiredV1 demo_expired_event)) demo_w2.
Proof.
  eapply truthful_expired; [vm_compute; reflexivity|].
  eexists. split; [vm_compute; reflexivity|by left].
Qed.

Lemma demo_reach3 : rtc demo_step (mkPool demo_w2 demo_ps2) (mkPool demo_w3 demo_ps3).
Proof.
  apply (demo_run demo_expired demo_w2 demo_ps2 (Ok tt) demo_w3).
  - split; [by split|]. exact demo_truthful.
  - by vm_compute.
  - vm_compute. reflexivity.
Qed.

Lemma demo_reach4 : rtc demo_step (mkPool demo_w3 demo_ps3) (mkPool demo_w4 demo_ps4).
Proof.
  apply (demo_run demo_reassigned demo_w3 demo_ps3 (Ok tt) demo_w4).
  - by repeat split.
  - by vm_compute.
  - vm_compute. reflexivity.
Qed.

Lemma demo_reach5 : rtc demo_step demo_c1 demo_c5.
Proof.
  eapply rtc_l; [exact demo_reach2|]. etrans; [exact demo_reach3|]. etrans; [exact demo_reach4|].
  apply (demo_run demo_decline demo_w4 demo_ps4 (Ok tt) demo_w5).
  - by repeat split.
  - by vm_compute.
  - vm_compute. reflexivity.
Qed.

Lemma demo_reach : rtc demo_step (mkPool demo_w0 []) demo_c5.
Proof. etrans; [exact demo_reach1|exact demo_reach5]. Qed.

Lemma demo_valid : valid_policy demo_relist.
Proof. by split. Qed.
Lemma demo_commission_valid : invoice_theory.valid_policy demo_commission.
Proof. by split. Qed.
Lemma demo_term_valid : 0 < invoice.PaymentTerm_Duration demo_term.
Proof. done. Qed.

Lemma saga_agreement_witness :
  ∃ s, st_view (n_saga demo_w5) !! mkAuctionID 1 = Some s ∧ s_state s = StateRelisted
    ∧ agrees demo_w5 s.
Proof.
  eassert (st_view (n_saga demo_w5) !! mkAuctionID 1 = Some _) as Hl by (vm_compute; reflexivity).
  pose proof (saga_agreement demo_relist demo_valid demo_commission demo_term
    demo_commission_valid demo_term_valid _ demo_c5 (mkAuctionID 1) _
    demo_start_ok demo_reach Hl) as (_ & _ & H).
  eexists. split; [exact Hl|]. split; [reflexivity|exact H].
Defined.

Lemma saga_advances_witness :
  ∃ s s', st_view (n_saga demo_w1) !! mkAuctionID 1 = Some s
    ∧ st_view (n_saga demo_w5) !! mkAuctionID 1 = Some s' ∧ same_sale s s'.
Proof.
  eassert (st_view (n_saga demo_w1) !! mkAuctionID 1 = Some _) as Hl by (vm_compute; reflexivity).
  destruct (saga_advances demo_relist demo_valid demo_commission demo_term
    demo_commission_valid demo_term_valid _ demo_c1 demo_c5 (mkAuctionID 1) _
    demo_start_ok demo_reach1 demo_reach5 Hl) as (s' & Hl' & Hs & _).
  eexists. exists s'. split; [exact Hl|]. split; assumption.
Defined.

Lemma decline_final_witness :
  ∃ s, st_view (n_saga demo_w5) !! mkAuctionID 1 = Some s ∧ failed_state (s_state s)
    ∧ on_sale demo_w5 s failed_sale.
Proof.
  refine (decline_final demo_relist demo_valid demo_commission demo_term
    demo_commission_valid demo_term_valid _ demo_c5 demo_c5 (demo_clocks 2700)
    (mkDeclineSecondChanceOffer (mkAuctionID 1) (mkBidderID 3))
    demo_start_ok demo_reach (rtc_refl _ _) _).
  do 3 apply list_elem_of_further. apply list_elem_of_here.
Defined.

Lemma redelivery_witness :
  ∃ w2, Processes.run (job_body demo_relist (demo_clocks 2500, Delivery (OfBilling (EvInvoiceExpiredV1 demo_expired_event))))
      (crash_after 2 (job_body demo_relist demo_expired) demo_w2) = (Ok tt, w2)
    ∧ st_view (n_saga w2) = st_view (n_saga demo_w3).
Proof.
  refine (redelivery demo_relist demo_valid demo_commission demo_term demo_commission_valid
    demo_term_valid (mkPool demo_w0 []) (mkPool demo_w2 demo_ps2) (demo_clocks 2500) (demo_clocks 2500)
    (Delivery (OfBilling (EvInvoiceExpiredV1 demo_expired_event))) demo_w3 2 demo_start_ok _ _ _ _ _).
  - eapply rtc_r; [exact demo_reach1|exact demo_reach2].
  - split; [by split|]. exact demo_truthful.
  - by repeat split.
  - by repeat split.
  - vm_compute. reflexivity.
Defined.

Lemma decline_answers_witness :
  Processes.run (DeclineSecondChanceOfferHandler demo_relist (demo_clocks 2800)
    (mkDeclineSecondChanceOffer (mkAuctionID 1) (mkBidderID 3))) demo_w5 = (Ok tt, demo_w5).
Proof.
  pose proof (decline_answers demo_relist demo_valid demo_commission demo_term demo_commission_valid
    demo_term_valid (mkPool demo_w0 []) demo_c5 (demo_clocks 2800)
    (mkDeclineSecondChanceOffer (mkAuctionID 1) (mkBidderID 3)) demo_start_ok demo_reach) as H.
  eassert (st_view (n_saga demo_w5) !! mkAuctionID 1 = Some _) as Hl by (vm_compute; reflexivity).
  cbn [mem demo_c5 de_AuctionID] in H. rewrite Hl in H. exact H.
Defined.
End Demo.
End saga_claims.
