(* ===== verification/SagaBilling.v ===== *)
(** * What the saga bills

    Whatever the interleaving, every settlement keeps to the terms of the
    closing it was started from, every invoice charges the winner of an
    announced closing its hammer price, or the runner-up its bid, and the
    runner-up is promoted, and billed, only when the winner's invoice is
    closed. *)

From stdpp Require Import base numbers list strings gmap fin_maps relations.
From Stdlib Require Import ZArith Lia.
From S2P Require Import Prelude Errs Auth Postgres Events AuctionDomain AuctionTheory AuctionRepo AuctionApp AuctionRepoTheory AuctionAppTheory InvoiceDomain InvoiceRepo Billing InvoiceRepoTheory InvoiceTheory BillingTheory Processes SettlementDomain SettlementRepo Settlement SettlementRepoTheory SagaTheory SagaGateways SagaProtocol SagaRedelivery SagaClaims.

Module saga_billing.
Import auction_repo_theory auction_app_theory invoice_repo_theory invoice_theory.
Import settlement saga settlement_repo_theory saga_theory saga_protocol saga_gateways saga_claims.
Local Open Scope Z_scope.

(** ** The terms of a closing *)

Section Terms.
Context `{UUIDLib}.

(** The event as the subscription reads it. *)
Definition closed_auction (e : AuctionClosedV1) : result ClosedAuction :=
  auctionID ← parseEventUUID "auction_id" (acl_AuctionID e);
  winnerID ← parseOptionalEventUUID "winner_id" (acl_WinnerID e);
  runnerUpID ← parseOptionalEventUUID "runner_up_bidder_id" (acl_RunnerUpBidderID e);
  Ok (mkClosedAuction auctionID (acl_Outcome e) winnerID
        (acl_HammerPriceMinor e) (acl_Currency e) runnerUpID (acl_RunnerUpAmountMinor e)
        (acl_RunnerUpQualifies e) (acl_RelistGeneration e)).

Definition sold_as (e : AuctionClosedV1) (c : Closing) : Prop :=
  acl_Outcome e = "sold" ∧ ∃ ca, closed_auction e = Ok ca ∧ buildClosing ca = Ok c.

(** The closings announced during an execution. *)
Context (announced : AuctionClosedV1 → Prop).

Definition sale_of (auc : AuctionID) (c : Closing) : Prop :=
  cl_auctionID c = auc ∧ ∃ e, announced e ∧ sold_as e c.

(** A settlement holds the terms of an announced closing. *)
Definition on_terms (s : Settlement) : Prop :=
  ∃ c, sale_of (s_auctionID s) c
    ∧ s_hammer s = cl_hammer c ∧ s_runnerUp s = cl_runnerUp c
    ∧ s_runnerUpAmount s = cl_runnerUpAmount c
    ∧ (s_attempt s = 1 ∧ s_winner s = cl_winner c ∨ s_attempt s = 2).

(** An invoice charges the winner of an announced closing, or its runner-up. *)
Definition billed (i : invoice.Invoice) : Prop :=
  ∃ auc c, sale_of auc c
    ∧ (charges i auc (cl_winner c) (cl_hammer c) 1
       ∨ charges i auc (cl_runnerUp c) (cl_runnerUpAmount c) 2).

(** ** The transitions keep the terms *)

Record keeps_terms (s s' : Settlement) : Prop := {
  kt_adm : admissible s s';
  kt_winner : s_attempt s' = s_attempt s ∧ s_winner s' = s_winner s ∨ s_attempt s' = 2;
}.

Lemma on_terms_same s s' : keeps_terms s s' → on_terms s → on_terms (bumped s').
Proof.
  intros [(st & w & n & inv & r & _ & _ & _ & _ & ->) Hk] (c & Hc & E1 & E2 & E3 & E4).
  exists c. simpl in *. split_and!; try done. destruct Hk as [[-> ->]| ->]; [done|by right].
Qed.

Lemma state_terms st r s : saga_wf s → st ≠ StateZero →
  keeps_terms s (set_failureReason r (set_state st s)).
Proof.
  intros Hs Hst. split; [|by left]. pose proof (wf_room s Hs). destruct (wf_storable s Hs).
  by exists st, (s_winner s), (s_attempt s), (s_invoiceID s), r.
Qed.

Lemma state_terms' st s : saga_wf s → st ≠ StateZero → keeps_terms s (set_state st s).
Proof. intros Hs Hst. apply (state_terms st (s_failureReason s) s Hs Hst). Qed.

(** What each commit's closure may return for a settlement. *)
Definition commit_ok (fn : Settlement → result Settlement) : Prop :=
  ∀ s, saga_wf s → (∃ s', fn s = Ok s' ∧ keeps_terms s s') ∨ ∃ e, fn s = Fail e.

Lemma issued_terms inv : commit_ok (closure (InvoiceIssued inv)).
Proof.
  intros s Hs. unfold closure, InvoiceIssued. run_go. destruct (_ || _); run_go; [eauto|left].
  eexists. split; [done|]. by apply state_terms'.
Qed.

Lemma received_terms inv : commit_ok (closure (PaymentReceived inv)).
Proof.
  intros s Hs. unfold closure, PaymentReceived. run_go.
  destruct (guardLive_spec s inv) as [(-> & _)| ->]; run_go; [left|eauto].
  eexists. split; [done|]. by apply state_terms'.
Qed.

Lemma step_terms step r : step ≠ StepZero → commit_ok (closure (ApplyNextStep step r)).
Proof.
  intros Hz s Hs. unfold closure, ApplyNextStep. destruct step; run_go; [done|..].
  - destruct (negb (IsZero r)); run_go; [eauto|]. destruct (_ && _); run_go; [eauto|left].
    eexists. split; [done|]. by apply state_terms'.
  - destruct (IsZero r); run_go; [eauto|].
    destruct (s_state s); run_go; eauto; left; eexists; (split; [done|]); by apply state_terms.
  - destruct (IsZero r); run_go; [eauto|].
    destruct (s_state s); run_go; eauto; left; eexists; (split; [done|]); by apply state_terms.
Qed.

Lemma reassigned_terms w p inv :
  commit_ok (closure (RunnerUpAwarded w p;; SecondChanceInvoiceIssued inv)).
Proof.
  intros s Hs. unfold closure, RunnerUpAwarded. run_go.
  destruct (DecideOnWinnerReassigned_spec s w p) as [(-> & _ & Hw & _)|[e ->]]; run_go; [|eauto].
  unfold SecondChanceInvoiceIssued. run_go. destruct (_ || _); run_go; [eauto|left].
  eexists. split; [done|]. split; [|by right]. pose proof (wf_room s Hs).
  exists StateSecondChancePayment, w, 2, inv, (s_failureReason s). split_and!; try done. by right.
Qed.

Lemma Start_terms ca c s e :
  announced e → acl_Outcome e = "sold" → closed_auction e = Ok ca → buildClosing ca = Ok c →
  Start c = Ok s → on_terms s ∧ s_auctionID s = cl_auctionID c.
Proof.
  intros He Ho Hca Hc. unfold Start. case_match; [done|]. intros [= <-]. simpl.
  split; [|done]. exists c. split_and!; try done; [|by left]. split; [done|]. exists e.
  split; [done|]. split; [done|]. by exists ca.
Qed.
End Terms.

(** ** The handlers *)

Section Handlers.
Context {S A B : Type} `{SettlementRepositoryLaws S} `{UUIDLib}
  `{auction_repo_theory.AuctionRepositoryLaws A}
  `{invoice_repo_theory.InvoiceRepositoryLaws B}.
Context (relist : RelistPolicy) (relist_valid : valid_policy relist).
Context (policy : invoice.CommissionPolicy) (term : invoice.PaymentTerm).
Context (policy_valid : invoice_theory.valid_policy policy)
  (term_valid : 0 < invoice.PaymentTerm_Duration term).
Context (announced : AuctionClosedV1 → Prop).
(** The invoices that are closed, and the auctions whose runner-up is promoted,
    some time in the execution. *)
Context (lapsing : InvoiceID → Prop) (promoted : AuctionID → Prop).

(** The first invoice of the auction is one of them. *)
Definition shut (id : AuctionID) : Prop :=
  ∃ inv, InvoiceIDForAttempt id 1 = Ok inv ∧ lapsing inv.

#[local] Instance billing_bills : BillingGateway B := billing_facade policy term.
#[local] Instance billing_bills_laws : BillingGatewayLaws B :=
  bills_laws policy term policy_valid term_valid.

(** How the auctions may change, whoever changes them. *)
Context (grows : A → A → Prop) `{!PreOrder grows}.
Hypothesis update_grows : ∀ id fn a, grows a (repo_UpdateAsSystem id fn a).2.
Hypothesis add_grows : ∀ x a, grows a (repo_Add x a).2.

(** The same auction in the auction context. *)
Definition sale_id (k : auction.AuctionID) : AuctionID := mkAuctionID (auction.AuctionID_UUID k).

(** What else happens to the auctions and the invoices. *)
Context (env : net S A B → net S A B → Prop).
Hypothesis env_others : ∀ w w', net_inv w → net_fits w → env w w' → w' = w ∨ others w w'.
Hypothesis env_promotes : ∀ w w', net_inv w → net_fits w → env w w' →
  promotes (fun _ => False) (n_auctions w) (n_auctions w').
Hypothesis env_grows : ∀ w w', net_inv w → net_fits w → env w w' → grows (n_auctions w) (n_auctions w').

Implicit Types (w : net S A B) (s : Settlement).

Definition auctions_grow w w' : Prop := grows (n_auctions w) (n_auctions w').

#[local] Instance auctions_grow_preorder : PreOrder auctions_grow.
Proof. split; [intros w; red; done|]. intros w1 w2 w3 H12 H23. red in H12, H23 |- *. by etrans. Qed.

Record billing_right w : Prop := {
  br_saga : ∀ id s, st_view (n_saga w) !! id = Some s → on_terms announced s;
  br_invoices : ∀ k i, inv_view (n_billing w) !! k = Some i → billed announced i;
  br_second : ∀ k i, inv_view (n_billing w) !! k = Some i →
    invoice.Attempt_Int (invoice.i_attempt i) = 2 →
    promoted (mkAuctionID (invoice.AuctionID_UUID (invoice.i_auctionID i)));
  br_promoted : ∀ k x, repo_view (n_auctions w) !! k = Some x → auction.a_winnerReassigned x = true →
    shut (sale_id k);
}.

(** What the invoices say. *)
Definition bill_right (i : invoice.Invoice) : Prop :=
  billed announced i
  ∧ (invoice.Attempt_Int (invoice.i_attempt i) = 2 →
     promoted (mkAuctionID (invoice.AuctionID_UUID (invoice.i_auctionID i)))).

Lemma billing_right_put st a b b' :
  billing_right (mkNet st a b) → (∀ k i, inv_view b' !! k = Some i →
    (∃ j, inv_view b !! k = Some j ∧ same_charge j i) ∨ bill_right i) →
  billing_right (mkNet st a b').
Proof.
  intros [Hs Hb Hsec Hp] Hi. simpl in *. split; simpl; [done| | |done].
  - intros k i [(j & Hj & Ha & Hd & Hh & Hn)|[Hr _]]%Hi; [|done].
    destruct (Hb k j Hj) as (auc & c & Hc & Hk). exists auc, c. split; [done|].
    unfold charges in *. by rewrite Ha, Hd, Hh, Hn.
  - intros k i [(j & Hj & Ha & _ & _ & Hn)|[_ Hr]]%Hi; [|done].
    rewrite Ha, Hn. by apply Hsec with k.
Qed.

Lemma billing_right_settle st st' a b :
  billing_right (mkNet st a b) → (∀ id s, st_view st' !! id = Some s → on_terms announced s) →
  billing_right (mkNet st' a b).
Proof. intros [_ Hb Hsec Hp] Hs. by split. Qed.

Lemma billing_right_sales st a a' b P :
  billing_right (mkNet st a b) → promotes P a a' → (∀ k, P k → shut (sale_id k)) →
  billing_right (mkNet st a' b).
Proof.
  intros [Hs Hb Hsec Hp] Ha HP. split; [done..|]. simpl in *. intros k x Hl Hx.
  destruct (Ha k x Hl Hx) as [Hk|(y & Hy & Hw)]; [auto|by eapply Hp].
Qed.

Abbreviation kp := (kept (W := net S A B) net_inv net_fits billing_right auctions_grow).
Abbreviation any := (returns (fun _ : unit => True)).

(** What a handler knows of a settlement it read. *)
Definition known (id : AuctionID) s : Prop :=
  saga_wf s ∧ s_auctionID s = id ∧ billable (B := B) s ∧ on_terms announced s.

Lemma kept_get id : kp (get_saga id) (returns (known id)).
Proof.
  apply kept_call. intros w Hi _ Hb. split; [done|]. split; [by red|]. intros s Hg. simpl in Hg.
  destruct (get_saga_spec id w Hi) as [(s' & Hl & Hg')|[_ Hg']]; rewrite Hg' in Hg; [|done].
  injection Hg as ->. destruct (ni_wf w Hi _ _ Hl) as (Hwf & Hbl & _).
  destruct (view_spec _ _ _ Hi Hl) as (_ & Hid & _). split_and!; try done. by eapply br_saga.
Qed.

Lemma saga_grows {X} (m : M S X) w : auctions_grow w (on_saga m w).2.
Proof. unfold auctions_grow, on_saga. destruct (m (n_saga w)). simpl. reflexivity. Qed.

(** A call on the auctions that promotes only what [P] allows. *)
Definition tame {X} (P : auction.AuctionID → Prop) (m : M A X) : Prop :=
  ∀ a, repo_ok a → room a → grows a (m a).2 ∧ promotes P a (m a).2.

Lemma kept_auctions (m : M A unit) P : tame P m → (∀ k, P k → shut (sale_id k)) →
  kp (call (on_auctions m)) any.
Proof.
  intros Hm HP. apply kept_call. intros [st a b] Hi Hf Hb.
  destruct (Hm a (ni_auctions _ Hi) Hf) as [Hg Hp].
  unfold on_auctions, auctions_grow. simpl. destruct (m a) as [r a']. simpl in *.
  split_and!; [|done..]. by eapply billing_right_sales.
Qed.

Abbreviation none := (fun _ : auction.AuctionID => False).

Lemma tame_command c fn sw u : quiet c → (∀ b, fn b = closure (auction_theory.run c) b) →
  tame (fun k => awards c = true ∧ k = auction.mkAuctionID u) (command (A := A) fn sw u).
Proof.
  intros Hq Hfn a Hok Hr. split; [|by apply command_promotes].
  rewrite command_run. destruct (bool_decide _); [done|]. unfold on_error.
  pose proof (update_grows (auction.mkAuctionID u) fn a) as Hg.
  by destruct (repo_UpdateAsSystem _ _ a) as [[]].
Qed.

Lemma tame_none {X} P (m : M A X) : tame P m → (∀ k, P k → False) → tame none m.
Proof.
  intros Hm HP a Hok Hr. destruct (Hm a Hok Hr) as [Hg Hp]. split; [done|].
  intros k x Hl Hx. destruct (Hp k x Hl Hx) as [?%HP|?]; [done|by right].
Qed.

Lemma kept_tame (m : M A unit) : tame none m → kp (call (on_auctions m)) any.
Proof. intros Hm. eapply kept_auctions; [done|]. by intros k []. Qed.

Lemma kept_award now id : shut id → kp (call (on_auctions (ag_AwardToRunnerUp now id))) any.
Proof.
  intros Hs. eapply kept_auctions.
  - apply (tame_command (auction_theory.CAwardToRunnerUp now)); [done|apply award_closure].
  - intros k [_ ->]. unfold sale_id. by destruct id.
Qed.
Lemma tame_confirm now id : tame none (ag_ConfirmSettlement now id).
Proof.
  eapply tame_none; [by apply (tame_command (auction_theory.CConfirmSettlement now))|]. by intros k [].
Qed.
Lemma tame_fail now id r : tame none (ag_MarkSaleFailed now id r).
Proof.
  destruct (MarkSaleFailed_cases (A := A) r) as [[_ Hf]|(r' & _ & E)]; intros a Hok Hr.
  - destruct (Hf now id a) as [e ->]. split; [done|apply promotes_refl].
  - rewrite E. revert a Hok Hr.
    eapply tame_none; [by apply (tame_command (auction_theory.CFailSale r' now))|]. by intros k [].
Qed.
Lemma tame_relist now id new st e : 0 < st → tame none (ag_Relist now id new st e).
Proof.
  intros Hst a Hok _. split; [|by apply relist_promotes]. cbn [ag_Relist auction_facade].
  destruct (Facade_Relist_run now (AuctionID_UUID id) (AuctionID_UUID new) st e a)
    as [(err & -> & _)|(win & _ & _ & _ & ->)]; [done|].
  unfold auction_app.RelistAuctionHandler. rewrite run_get. cbn -[auction.RelistedFrom].
  destruct (repo_Get _ a) as [o|err|p]; [|done..]. destruct (auction.RelistedFrom _ _ _ _) as [x|err|p].
  - unfold on_error. pose proof (add_grows (Some x) a) as Hg. by destruct (repo_Add _ a) as [[]].
  - unfold on_error, throw. by destruct (auction_app.mapRelistError err).
  - done.
Qed.

Lemma kept_issue now inv auc debtor amount n :
  0 < now → m_amount amount * 10000 ≤ int64_max →
  (∀ i, charges i auc debtor amount n → billed announced i) →
  (n = 2 → promoted auc) →
  kp (call (on_billing (bg_IssueInvoice now inv auc debtor amount n))) (returns (fun _ => True)).
Proof.
  intros Hnow Hmax Hc Hsec. apply kept_call. intros [st a b] Hi _ Hb.
  pose proof (ni_billing _ Hi) as [Hok _]. unfold on_billing. cbn [n_saga n_auctions n_billing] in *.
  pose proof (fun k i => issue_charges policy term policy_valid term_valid now inv auc debtor amount n
    b k i Hok Hnow Hmax) as Hv.
  fold billing_bills in Hv. destruct (bg_IssueInvoice _ _ _ _ _ _ _) as [r b'].
  split; [|by split; [red|]]. apply (billing_right_put _ _ _ _ Hb).
  intros k i [Hl|Hl]%Hv; [left; exists i; by repeat split|right]. split; [auto|].
  destruct Hl as (Ha & _ & _ & _ & Hn). rewrite Ha, Hn. by destruct auc.
Qed.

Lemma kept_void clk inv : kp (void_offer clk inv) any.
Proof.
  eapply kept_handle, kept_any, kept_call.
  intros [st a b] Hi _ Hb. pose proof (ni_billing _ Hi) as [Hok _]. unfold on_billing. cbn [n_saga n_auctions n_billing] in *.
  pose proof (fun k i => void_charges policy term (clk_billing clk) inv b k i Hok) as Hv.
  fold billing_bills in Hv. destruct (bg_VoidInvoice _ _ _) as [r b'].
  split; [|by split; [red|]]. apply (billing_right_put _ _ _ _ Hb). intros k i Hl. left. by apply Hv.
Qed.

(** A commit of a transition of the state machine. *)
Lemma kept_update id fn : commit_ok fn → kp (update_saga id fn) any.
Proof.
  intros Hfn. apply kept_call.
  intros w Hi _ Hb. pose proof (ni_saga w Hi) as Hok.
  assert (∀ P : Prop, P → P ∧ auctions_grow w (on_saga (st_Update id fn) w).2 ∧ any (on_saga (st_Update id fn) w).1) as Hrest
    by (intros P HP; split_and!; [done|apply saga_grows|done]).
  apply Hrest. clear Hrest.
  unfold on_saga. destruct w as [st a b]. simpl in *.
  destruct (st_view st !! id) as [s|] eqn:Hl; [|by rewrite (st_Update_missing _ _ fn Hok Hl)].
  destruct (view_spec _ _ _ Hi Hl) as (Hwf & _).
  destruct (Hfn s Hwf) as [(s' & E & Hk)|[e E]]; [|by rewrite (st_Update_fail _ _ _ _ _ Hok Hl E)].
  destruct (st_Update_ok _ _ _ _ _ Hok Hl E (kt_adm _ _ Hk)) as (st' & -> & _ & Hv). simpl.
  eapply billing_right_settle; [done|]. pose proof (br_saga _ Hb) as Hs. simpl in Hs.
  intros k y. rewrite Hv, lookup_insert_Some.
  intros [[_ <-]|[_ Hy]]; [|by eapply Hs]. eapply on_terms_same; [done|by eapply Hs].
Qed.

Lemma kept_commit id fn f : commit_ok fn → kp (handle (update_saga id fn) f) any.
Proof. intros Hfn. eapply kept_handle, kept_any. by apply kept_update. Qed.

Lemma kept_Add x : saga_wf x → on_terms announced x →
  kp (call (on_saga (st_Add x))) (returns (fun _ => True)).
Proof.
  intros Hx Ht. apply kept_call. intros w Hi _ Hb. pose proof (ni_saga w Hi) as Hok.
  assert (∀ P : Prop, P → P ∧ auctions_grow w (on_saga (st_Add x) w).2 ∧ any (on_saga (st_Add x) w).1) as Hrest
    by (intros P HP; split_and!; [done|apply saga_grows|done]).
  apply Hrest. clear Hrest.
  unfold on_saga. destruct w as [st a b]. simpl in *.
  destruct (st_view st !! s_auctionID x) as [y|] eqn:Hl.
  { rewrite st_Add_exists by (done || by eexists). done. }
  destruct (st_Add_new st x Hok (wf_storable _ Hx) Hl) as (st' & -> & _ & Hv).
  eapply billing_right_settle; [done|]. pose proof (br_saga _ Hb) as Hs. simpl in Hs.
  intros k y. rewrite Hv, lookup_insert_Some. intros [[_ <-]|[_ Hy]]; [done|by eapply Hs].
Qed.

Lemma kept_relist clk id : 0 ≤ clk_saga clk →
  kp (new ← Ret (RelistIDFor id);
      let '(startsAt, endsAt) := Window relist (clk_saga clk) in
      call (on_auctions (ag_Relist (clk_auction clk) id new startsAt endsAt))) any.
Proof.
  intros Hclk. apply kept_pure. intros new _. cbn [Window]. apply kept_tame, tame_relist.
  destruct relist_valid. unfold time_Add. lia.
Qed.

Lemma kept_compensate clk id step r : 0 ≤ clk_saga clk → (step = StepAwardRunnerUp → shut id) →
  kp (compensate relist clk id step r) (returns (fun _ => True)).
Proof.
  intros Hclk Hs. destruct step; unfold compensate; [by apply kept_pure|apply kept_award; auto|
    |apply kept_tame, tame_fail].
  eapply kept_seq; [apply kept_tame, tame_fail|]. intros _ _. cbn [Window]. by apply kept_relist.
Qed.

Lemma charges_first s i : saga_wf s → on_terms announced s → s_attempt s = 1 →
  charges i (s_auctionID s) (s_winner s) (s_hammer s) (s_attempt s) → billed announced i.
Proof.
  intros _ (c & Hc & Eh & _ & _ & Hw) Ha Hi. exists (s_auctionID s), c. split; [done|left].
  destruct Hw as [[_ Hw]|Hw]; [|congruence]. by rewrite <-Eh, <-Hw, <-Ha.
Qed.

Lemma kept_OnAuctionClosed clk ca :
  0 < clk_billing clk → closed_billable (B := B) ca →
  (∀ c, ca_Outcome ca = "sold" → buildClosing ca = Ok c →
     ∃ e, announced e ∧ acl_Outcome e = "sold" ∧ closed_auction e = Ok ca) →
  kp (OnAuctionClosed clk ca) any.
Proof.
  intros Hclk [Hh Hru] Hann. unfold OnAuctionClosed.
  apply kept_pure. intros out Hout. apply kept_pure. intros req Hreq.
  destruct req; [cbn [negb]|done]. apply kept_pure. intros c Hc%with_wrap_err.
  apply kept_pure. intros x Hx.
  assert (ca_Outcome ca = "sold") as Hsold.
  { destruct out; try done. apply with_wrap_err in Hout. unfold NewOutcomeFromString in Hout.
    case_bool_decide as E; [done|]. by case_bool_decide. }
  destruct (Hann c Hsold Hc) as (e & He & Ho & Hca).
  destruct (Start_terms announced ca c x e He Ho Hca Hc Hx) as [Ht _].
  destruct (buildClosing_started _ _ _ Hc Hx) as (Hwf & _).
  eapply kept_seq; [by apply kept_Add|]. intros _ _.
  eapply kept_seq; [apply kept_get|]. intros s (Hs & Hid & [Hbl _] & Hts).
  unfold DecideOnInvoiceIssue. case_bool_decide as Hst; [|done]. cbn [negb].
  assert (s_attempt s = 1) as Hat by (apply (wf_first s Hs); by rewrite Hst).
  eapply kept_seq; [apply kept_issue; [done|done| |]|].
  { intros i Hi. by apply (charges_first s). }
  { by rewrite Hat. }
  intros _ _. apply kept_commit, issued_terms.
Qed.

Lemma kept_OnInvoicePaid clk auctionID invoiceID : kp (OnInvoicePaid clk auctionID invoiceID) any.
Proof.
  unfold OnInvoicePaid. apply kept_pure. intros [id inv] _.
  eapply kept_seq; [apply kept_get|]. intros s _.
  destruct (DecideOnPaymentReceived s inv); [|done..].
  eapply kept_seq; [apply kept_tame, tame_confirm|]. intros _ _.
  apply kept_commit, received_terms.
Qed.

Lemma nextStep_award s : nextStepOnFailure s = StepAwardRunnerUp → s_attempt s = 1.
Proof.
  unfold nextStepOnFailure. destruct (_ && _) eqn:E; [|by destruct (s_relistGen s =? 0)]. by breflect.
Qed.

Lemma kept_OnInvoiceExpired clk auctionID invoiceID :
  0 ≤ clk_saga clk → lapsing (mkInvoiceID invoiceID) →
  kp (OnInvoiceExpired relist clk auctionID invoiceID) any.
Proof.
  intros Hclk Hin. unfold OnInvoiceExpired. apply kept_pure. intros [id inv] Hids.
  apply parseSagaIDs_inv in Hids as [_ ->].
  eapply kept_seq; [apply kept_get|]. intros s (Hwf & Hid & _).
  destruct (DecideOnPaymentTimeout s _) as [step|e|q] eqn:Hd; [|done..].
  apply DecideOnPaymentTimeout_Ok in Hd as (-> & _ & Hinv). pose proof (nextStep_fits s) as Hfit.
  eapply kept_seq; [apply kept_compensate; [done|]|].
  - intros Ha%nextStep_award. pose proof (wf_invoice s Hwf) as Hw. rewrite Hid, Ha, <-Hinv in Hw.
    by eexists.
  - intros _ _. cbv zeta. apply kept_commit, step_terms. by intros E; rewrite E in Hfit.
Qed.

Lemma kept_OnWinnerReassigned clk auctionID newWinner price currency :
  0 < clk_billing clk → promoted (mkAuctionID auctionID) →
  kp (OnWinnerReassigned clk auctionID newWinner price currency) any.
Proof.
  intros Hclk Hpr. unfold OnWinnerReassigned. apply kept_pure. intros id Hau.
  assert (id = mkAuctionID auctionID) as -> by
    (apply with_wrap_err in Hau; unfold NewAuctionID in Hau; case_bool_decide; naive_solver).
  do 3 (apply kept_pure; intros ? _).
  eapply kept_seq; [apply kept_get|]. intros s (Hs & Hid & [_ Hbl] & (c & Hc & _ & Er & Em & _)).
  destruct (DecideOnWinnerReassigned s _ _); [|done..]. apply kept_pure. intros inv _.
  eapply kept_seq; [apply kept_issue; [done|done| |]|].
  - intros i Hi. exists (s_auctionID s), c. split; [done|right]. by rewrite <-Er, <-Em, Hid.
  - done.
  - intros _ _. apply kept_commit, reassigned_terms.
Qed.

(** ** Every request *)

(** What is delivered is so. *)
Definition allowed (j : job) : Prop :=
  match j.2 with
  | Delivery (OfAuction (EvAuctionClosedV1 e)) => announced e
  | Delivery (OfAuction (EvWinnerReassignedV1 e)) =>
      ∀ u, parseEventUUID "auction_id" (wr_AuctionID e) = Ok u → promoted (mkAuctionID u)
  | Delivery (OfBilling (EvInvoiceExpiredV1 e)) =>
      ∀ u, parseEventUUID "invoice_id" (ie_InvoiceID e) = Ok u → lapsing (mkInvoiceID u)
  | _ => True
  end.

Lemma kept_deliver clk e w : valid_clocks clk → truthful e w → allowed (clk, Delivery e) →
  kp (deliver relist clk e) any.
Proof.
  intros [Hcs Hclk] Ht Ha. destruct e as [[]|[]|[]]; cbn [deliver truthful allowed] in *; try done.
  - apply kept_pure. intros auc E1. apply kept_pure. intros win E2. apply kept_pure. intros ru E3.
    apply kept_OnAuctionClosed; [done|done|]. intros c Ho _. exists e. split_and!; [done..|].
    unfold closed_auction. by rewrite E1, E2, E3.
  - apply kept_pure. intros u Hu. apply kept_pure. intros ? _. apply kept_OnWinnerReassigned; auto.
  - do 2 (apply kept_pure; intros ? _). apply kept_OnInvoicePaid.
  - apply kept_pure. intros ? _. apply kept_pure. intros u Hu. apply kept_OnInvoiceExpired; auto.
Qed.

Lemma kept_decline clk cmd : 0 ≤ clk_saga clk →
  kp (DeclineSecondChanceOfferHandler relist clk cmd) any.
Proof.
  intros Hclk. unfold DeclineSecondChanceOfferHandler. apply kept_attempt. pose proof (kept_get (de_AuctionID cmd)) as Hg.
  revert Hg. apply kept_mono. intros [s|e|q] _; [|done..].
  pose proof (DecideOnDecline_spec s (de_Actor cmd)) as Hd.
  destruct (DecideOnDecline _ _) as [step|e|q]; [|by intros []|done].
  destruct Hd as (-> & _ & _). pose proof (nextStep_fits s) as Hfit.
  eapply kept_seq; [apply kept_void|]. intros _ _. eapply kept_seq with (R := fun _ => True).
  { destruct (nextStepOnFailure s); unfold decline_compensate;
      [done|done| |apply kept_tame, tame_fail].
    eapply kept_seq; [apply kept_tame, tame_fail|]. intros _ _. cbn [Window]. by apply kept_relist. }
  intros _ _. apply kept_attempt. eapply kept_mono; [|eapply kept_update, step_terms].
  - intros [[]|e|q] _; [done| |done]. destruct (errors_Is e ErrUnexpectedTransition); [|done].
    unfold answer_by_state. apply kept_attempt. pose proof (kept_get (de_AuctionID cmd)) as Hg.
    revert Hg. apply kept_mono. intros [s'|e'|q'] _; [|done..].
    by destruct (DecideOnDecline _ _).
  - by intros E; rewrite E in Hfit.
Qed.

Lemma job_kept j w : job_may j w ∧ allowed j → kp (job_body relist j) (fun _ => True).
Proof.
  destruct j as [clk [e|cmd]]; intros [[Hclk He] Ha]; apply kept_any;
    unfold job_body; cbn [fst snd].
  - exact (kept_deliver clk e w Hclk He Ha).
  - apply kept_decline, Hclk.
Qed.

Lemma env_kept w w' : net_inv w → net_fits w → billing_right w → env w w' → billing_right w'.
Proof.
  intros Hi Hf Hb He. pose proof (env_promotes w w' Hi Hf He) as Hp.
  destruct (env_others w w' Hi Hf He) as [->|Ho]; [done|].
  destruct Ho as [st a a' b _ _|st a b b' _ [k i o i' v Hl Hr Hv]].
  - eapply billing_right_sales; [done..|]. by intros k [].
  - apply (billing_right_put _ _ _ _ Hb). intros k' j. rewrite Hv, lookup_insert_Some.
    intros [[<- <-]|[_ Hj]]; left; [|exists j; by repeat split].
    exists i. split; [done|]. pose proof (ni_billing _ Hi) as [Hok _].
    destruct (inv_view_ok _ _ _ Hok Hl) as (Hst & _).
    apply (run_op_same_charge o i i'); [apply (invoice_repo_theory.so_status i Hst)|done].
Qed.

(** ** Executions *)

Abbreviation system := (pool (W := net S A B) (J := job)).
Abbreviation billing_step :=
  (pool_step (W := net S A B) net_fits (job_body relist) (fun j w => job_may j w ∧ allowed j) env).

Lemma env_ok w w' : net_inv w → net_fits w → env w w' → net_le w w' ∧ net_inv w'.
Proof.
  intros Hi Hf He. destruct (env_others w w' Hi Hf He) as [->|Ho]; [by split|].
  by apply (others_ok policy term policy_valid term_valid).
Qed.

Record billing_ok (c : system) : Prop := {
  bo_pool : pool_ok net_le net_inv net_fits job_post c;
  bo_kept : pool_kept net_inv net_fits billing_right auctions_grow c;
}.

(** Whatever closings are announced: a settlement holds the terms of one of
    them, and an invoice charges the winner or the runner-up of one. *)
Lemma billing_reachable (c c1 : system) : billing_ok c → rtc billing_step c c1 →
  billing_ok c1 ∧ net_le (mem c) (mem c1) ∧ auctions_grow (mem c) (mem c1).
Proof.
  intros [Ho Hk] Hr.
  assert (∀ j w, job_may j w ∧ allowed j →
    wp net_le net_inv net_fits (job_body relist j) (job_post j) w) as Hb.
  { intros j w [Hm _]. by apply (wp_job relist relist_valid). }
  destruct (pool_reachable _ _ _ _ _ _ _ Hb env_ok _ _ Ho Hr) as [Ho' Hle].
  destruct (kept_reachable net_inv net_fits billing_right auctions_grow net_le (job_body relist)
    job_post _ env Hb env_ok job_kept) with (c := c) (c' := c1) as [Hk' Hg]; [|done..].
  intros w w' Hi Hf Hk0 He. split; [by apply (env_kept w)|by apply env_grows].
Qed.

Lemma billing_initial (c : system) :
  initial c → inv_view (n_billing (mem c)) = ∅ → repo_view (n_auctions (mem c)) = ∅ → billing_ok c.
Proof.
  intros Hi Hv Ha. split; [by apply (system_initial_ok policy term policy_valid term_valid)|].
  destruct Hi as [Hp [_ Hs] _ _]. split; [split|].
  - intros id s. by rewrite Hs.
  - intros k i. by rewrite Hv.
  - intros k i. by rewrite Hv.
  - intros k x. by rewrite Ha.
  - intros j p. rewrite Hp. by intros ?%not_elem_of_nil.
Qed.
End Handlers.
End saga_billing.
