(* ===== verification/Serving.v ===== *)
(** * Serving the auction and billing contexts over Postgres

    One request, one transaction: what a served request does to the two
    databases is one of the moves the saga tolerates ([saga_claims.others]),
    whatever the request and its answer, and the outbox only grows. *)

From stdpp Require Import base numbers list strings gmap fin_maps.
From Stdlib Require Import ZArith Lia.
From S2P Require Import Prelude Errs Auth Postgres Events AuctionDomain AuctionTheory AuctionRepo AuctionApp AuctionRepoTheory AuctionAppTheory InvoiceDomain InvoiceRepo Billing InvoiceRepoTheory InvoiceTheory BillingTheory Outbox Processes SettlementDomain SettlementRepo Settlement SettlementRepoTheory SagaTheory SagaGateways SagaProtocol SagaRedelivery SagaClaims.

Module serving.
Local Open Scope Z_scope.

(** ** Auctions *)

Section Auctions.
Import auction auction_theory auction_repo auction_app auction_repo_theory auction_app_theory.
Import auction_outbox saga_gateways saga_claims.
Context `{UUIDLib}.
Implicit Types (a : AuctionDB).

(** The transactions only append to the outbox. *)
Definition grows a a' : Prop := db_outbox a `prefix_of` db_outbox a'.

#[export] Instance grows_preorder : PreOrder grows.
Proof. split; [by intros a; red|]. intros a1 a2 a3 H12 H23. red in H12, H23 |- *. by etrans. Qed.

Lemma append_bids_outbox x es a : db_outbox (pg.append_bids x es a).2 = db_outbox a.
Proof.
  revert a. induction es as [|e es IH]; intros a; [done|].
  destruct e; simpl; try apply IH. unfold pg.insert_bid. run_go.
  destruct (existsb _ _); run_go; [done|]. by rewrite IH.
Qed.

Lemma publishMapped_grows x es a : grows a (pg.publishMapped x es a).2.
Proof.
  unfold pg.publishMapped, modify, grows. simpl. destruct (mapEvents _ _ _). simpl.
  by apply prefix_app_r.
Qed.

Lemma update_grows id fn a : grows a (pg.update no_faults id fn a).2.
Proof.
  unfold pg.update. rewrite RunInTx_no_faults. run_go.
  destruct (db_auctions a !! _) as [p|]; run_go; [|done].
  destruct (toDomainAuction p) as [x|e|q]; run_go; [|done..].
  destruct (fn x) as [x'|e|q]; run_go; [|done..].
  unfold pg.update_auction. run_go. destruct (db_auctions a !! _) as [row|]; run_go; [|done].
  destruct (_ =? _); run_go; [|done]. simpl. unfold mbind at 1, GoM_bind at 1.
  pose proof (append_bids_outbox (set_events [] x') (a_events x')
    (pg.put_row (pg.update_columns (toPgAuction x') (p_Version p) row) a)) as Ho.
  destruct (pg.append_bids _ _ _) as [[[]|e|q] a1]; simpl in Ho; [|done|red; simpl; by rewrite Ho].
  pose proof (publishMapped_grows (set_events [] x') (a_events x') a1) as Hg.
  unfold grows in *. rewrite Ho in Hg. by destruct (pg.publishMapped _ _ a1) as [[]].
Qed.

Lemma add_grows x a : grows a (pg.Add no_faults x a).2.
Proof.
  unfold pg.Add. destruct x as [x|]; [|done]. rewrite RunInTx_no_faults.
  unfold pg.insert_auction. run_go. destruct (db_auctions a !! _); run_go; [done|].
  destruct (match p_RelistOf _ with Some _ => _ | None => _ end); run_go; [done|].
  unfold pg.publishIntegrationEvents.
  pose proof (publishMapped_grows x (PullDomainEvents x).1 (pg.put_row (toPgAuction x) a)) as Hg.
  cbn [Z.eqb]. by destruct (pg.publishMapped _ _ _) as [[]].
Qed.

(** *** One update *)

(** A bid whose identity is taken is refused by the history's primary key. *)
Lemma append_bids_cases x es a :
  fresh_bids a (placed es) ∨ ∃ e, (pg.append_bids x es a).1 = Fail e.
Proof.
  revert a. induction es as [|e es IH]; intros a.
  { left. split; [constructor|]. by intros ? ? ?%not_elem_of_nil. }
  destruct e as [|b ? ? ? ?| | | | | | |]; try apply IH.
  cbn [pg.append_bids]. unfold pg.insert_bid. run_go.
  destruct (existsb _ _) eqn:E; run_go; [eauto|].
  destruct (IH (mkAuctionDB (db_auctions a) (db_bids a ++ [pg.bid_row x b]) (db_outbox a) (db_drawn a)))
    as [[Hnd Hfr]|?]; [left|by right].
  assert (∀ r, r ∈ db_bids a → pb_bid_id r ≠ BidID_UUID (b_id b)) as Hb.
  { intros r Hr Hi. apply not_true_iff_false in E. apply E, existsb_exists. exists r.
    split; [by apply list_elem_of_In|]. by apply bool_decide_eq_true. }
  split; cbn [placed omap list_omap fmap list_fmap] in *.
  - apply NoDup_cons. split; [|done]. intros (b' & Hi & Hb')%list_elem_of_fmap.
    apply (Hfr b' (pg.bid_row x b) Hb'); [|done]. apply elem_of_app. right. by left.
  - intros b' r [->|Hb']%elem_of_cons Hr; [by apply Hb|]. apply (Hfr b' r Hb').
    apply elem_of_app. by left.
Qed.

Context `{!UUIDLaws}.
#[local] Instance auctions_store : AuctionRepository AuctionDB | 0 := pg.repository no_faults.
#[local] Instance auctions_store_laws : AuctionRepositoryLaws AuctionDB | 0 := pg_told_laws.

(** What a served request did to the auctions: nothing, or one method of one
    auction, or one new auction; it promoted no runner-up. *)
Definition auctions_served a a' : Prop :=
  a' = a ∨ repo_ok a' ∧ auction_moves a a' ∧ grows a a' ∧ promotes (fun _ => False) a a'.

Lemma served_grows a a' : auctions_served a a' → grows a a'.
Proof. by intros [->|(_ & _ & ? & _)]. Qed.

Lemma served_promotes a a' : auctions_served a a' → promotes (fun _ => False) a a'.
Proof. intros [->|(_ & _ & _ & ?)]; [apply promotes_refl|done]. Qed.

Lemma pg_update_stale id fn a x x' e :
  pg_ok a → pg_view a !! id = Some x → fn x = Ok x' → same_listing x x' →
  (pg.append_bids (set_events [] x') (a_events x')
     (pg.put_row (toPgAuction (stored x')) a)).1 = Fail e →
  (pg.update no_faults id fn a).2 = a.
Proof.
  intros Hok Hl Hfn Hsl Hb. apply pg_view_lookup in Hl as (Hl & Hs & He & Hid); [|done].
  unfold pg.update. rewrite RunInTx_no_faults.
  run_go. rewrite Hl. run_go. rewrite toDomain_toPg by done. rewrite (drained_same x He), Hfn.
  unfold pg.update_auction. run_go.
  change (p_ID (toPgAuction x')) with (AuctionID_UUID (a_id x')).
  rewrite (sl_id _ _ Hsl), Hid, Hl, Z.eqb_refl. run_go.
  rewrite (update_columns_stored _ _ Hsl). simpl.
  unfold mbind at 1, GoM_bind at 1. by destruct (pg.append_bids _ _ _) as [[]].
Qed.

Lemma pg_update_panic id fn a x p :
  pg_ok a → pg_view a !! id = Some x → fn x = Panic p → (pg.update no_faults id fn a).2 = a.
Proof.
  intros Hok Hl Hfn. apply pg_view_lookup in Hl as (Hl & Hs & He & Hid); [|done].
  unfold pg.update. rewrite RunInTx_no_faults.
  run_go. rewrite Hl. run_go. by rewrite toDomain_toPg, (drained_same x He), Hfn.
Qed.

Lemma update_served c id fn a :
  (∀ x, fn x = closure (run c) x) → awards c = false → amount_nonneg c → repo_ok a → room a →
  auctions_served a (repo_UpdateAsSystem id fn a).2.
Proof.
  intros Hfn Haw Hc Hok Hroom.
  destruct (repo_view a !! id) as [x|] eqn:Hl; [|left; by rewrite (Update_missing id fn a)].
  destruct (view_ok a id x Hok Hl) as (Hs & Hid & _).
  specialize (Hfn x). unfold closure in Hfn. destruct (run c x) as [[r|e|p] x'] eqn:Hr.
  - assert (admissible x x') as Had.
    { split; [by eauto|by eapply run_ok_same_listing|by eapply run_storable|by eapply Hroom]. }
    destruct (append_bids_cases (set_events [] x') (a_events x')
      (pg.put_row (toPgAuction (stored x')) a)) as [Hf|[e He]].
    + right. pose proof (update_grows id fn a) as Hg.
      change (pg.update no_faults id fn a) with (repo_UpdateAsSystem id fn a) in Hg.
      destruct (Update_ok id fn a x x' Hok Hl Hfn Had Hf) as (a' & E & Hok' & Hv).
      rewrite E in Hg |- *. split_and!; [done|by eapply AM_method|done|].
      eapply update_promotes; [done..|]. by rewrite Haw.
    + left. eapply pg_update_stale; [apply Hok|done..|apply Had|done].
  - left. by rewrite (Update_fail id fn a x e).
  - left. eapply pg_update_panic; [apply Hok|done..].
Qed.

(** *** The endpoints *)

(** Listing rules whose durations survive the storage. *)
Record storable_rules (r : ListingRules) : Prop := {
  sr_policy : whole (p_window (lr_antiSnipe r)) ∧ whole (p_extension (lr_antiSnipe r))
    ∧ 0 ≤ p_maxExtensions (lr_antiSnipe r);
  sr_verify : 0 ≤ m_amount (lr_verifyAbove r) ∧ m_currency (lr_verifyAbove r) = lr_currency r;
}.

Lemma NewMoney_inv_ok n cur m : NewMoney n cur = Ok m → m = mkMoney n cur ∧ 0 ≤ n.
Proof. unfold NewMoney. repeat (case_match; [done|]). intros [= <-]. breflect. by split. Qed.

(** The reserve price of a request. *)
Lemma reserve_storable body cur rsv :
  match lb_ReservePriceMinor body with
  | None => Ok NoReserve
  | Some minor =>
      reserveMoney ← with_cause (NewIncorrectInputError "invalid-reserve") (NewMoney minor cur);
      with_cause (NewIncorrectInputError "invalid-reserve") (NewReservePrice reserveMoney)
  end = Ok rsv →
  rsv = zero_value ∨ 0 < m_amount (r_price rsv) ∧ m_currency (r_price rsv) = cur.
Proof.
  destruct (lb_ReservePriceMinor body); [|intros [= <-]; by left].
  destruct (with_cause _ (NewMoney _ _)) as [m|e|p] eqn:E; [|done..].
  apply with_cause_ok, NewMoney_inv_ok in E as [-> _].
  intros Hr%with_cause_ok. unfold NewReservePrice in Hr. case_match; [done|]. injection Hr as <-.
  breflect. by right.
Qed.

Lemma listing_opens rules now user body cmd x :
  storable_rules rules → 0 < lb_StartsAt body → list_auction_command user body = Ok cmd →
  New (la_AuctionID cmd) (la_Seller cmd) (la_Lot cmd) (la_StartPrice cmd) (la_Increment cmd)
    (la_Reserve cmd) (la_Window cmd) rules now = Ok x →
  storable x ∧ opens x ∧ a_relistOf x = zero_value.
Proof.
  intros [Hp [Hv Hvc]] Hst Hcmd Hn. unfold list_auction_command in Hcmd.
  apply res_bind_ok in Hcmd as (seller & Hse%with_cause_ok & Hcmd).
  apply res_bind_ok in Hcmd as (id & Hid%with_cause_ok & Hcmd).
  apply res_bind_ok in Hcmd as (cur & Hcur%with_cause_ok & Hcmd).
  apply res_bind_ok in Hcmd as (sp & Hsp%with_cause_ok%NewMoney_inv_ok & Hcmd).
  apply res_bind_ok in Hcmd as (inc & Hinc%with_cause_ok%NewMoney_inv_ok & Hcmd).
  apply res_bind_ok in Hcmd as (rsv & Hrsv%reserve_storable & Hcmd).
  apply res_bind_ok in Hcmd as (lot & Hlot%with_cause_ok & Hcmd).
  apply res_bind_ok in Hcmd as (w & Hw%with_cause_ok%NewBiddingWindow_ok & Hcmd).
  injection Hcmd as <-. destruct Hsp as [-> Hsp], Hinc as [-> Hinc], Hw as (-> & _ & Hw).
  assert (NewCurrency (c_code cur) = Ok cur) as Hcode.
  { unfold NewCurrency in Hcur |- *. repeat (case_match; [done|]). injection Hcur as <-. simpl.
    by repeat (case_match; [congruence|]). }
  unfold NewLot in Hlot. case_bool_decide as Hti; [done|]. injection Hlot as <-.
  unfold New, closure, record, modify in Hn. cbn -[IsZero] in Hn.
  repeat (case_match; [done|]). injection Hn as <-. breflect;
    (split; [|split; [by split_and!; repeat constructor|done]]);
    constructor; simpl; try done; try (by left); split_and?; try done; try congruence.
Qed.

Lemma Add_served x a :
  repo_ok a → storable x → opens x → a_relistOf x = zero_value →
  auctions_served a (repo_Add (Some x) a).2.
Proof.
  intros Hok Hs Ho Hr. destruct (repo_view a !! a_id x) as [y|] eqn:Hl.
  { left. by rewrite (Add_exists a x y). }
  right. pose proof (add_grows (Some x) a) as Hg.
  change (pg.Add no_faults (Some x) a) with (repo_Add (Some x) a) in Hg.
  destruct (Add_ok a x Hok Hs Ho Hl) as (a' & E & Hok' & Hv); [done|].
  rewrite E in Hg |- *. split_and!; [done|by eapply AM_listed|done|].
  destruct Ho as (_ & Hx & _). eapply add_promotes; [|exact Hv]. exact Hx.
Qed.

Lemma on_error_mem {S} (m : M S unit) f s : (on_error m f s).2 = (m s).2.
Proof. unfold on_error. by destruct (m s) as [[]]. Qed.

Lemma ListAuction_served rules now ctx body a :
  storable_rules rules → 0 < lb_StartsAt body → repo_ok a →
  auctions_served a (Http_ListAuction rules now ctx body a).2.
Proof.
  intros Hr Hst Hok. unfold Http_ListAuction. rewrite run_lift.
  destruct (auth.UserFromCtx ctx) as [user|e|p]; [|by left..]. rewrite run_lift.
  destruct (list_auction_command user body) as [cmd|e|p] eqn:Hcmd; [|by left..].
  unfold mbind, GoM_bind, ListAuctionHandler.
  destruct (New _ _ _ _ _ _ _ rules now) as [x|e|p] eqn:Hn; [|by left..].
  destruct (listing_opens rules now user body cmd x Hr Hst Hcmd Hn) as (Hs & Ho & Hz).
  pose proof (Add_served x a Hok Hs Ho Hz) as Hsv. by destruct (repo_Add _ a) as [[[]|e|p] a'].
Qed.

(** A user's update is the system's. *)
Lemma user_update_served c id actor fn f a :
  (∀ x, fn x = closure (run c) x) → awards c = false → amount_nonneg c → repo_ok a → room a →
  auctions_served a (on_error (repo_Update id actor fn) f a).2.
Proof.
  intros Hfn Haw Hc Hok Hroom. rewrite on_error_mem. destruct (decide (actor = zero_value)) as [->|Ha].
  - left. by destruct (Update_no_actor id fn a) as [e ->].
  - rewrite Update_as_system by done. by eapply update_served.
Qed.

Lemma PlaceBid_served profiles now ctx id body a :
  repo_ok a → room a → auctions_served a (Http_PlaceBid profiles now ctx id body a).2.
Proof.
  intros Hok Hroom. unfold Http_PlaceBid. rewrite run_lift.
  destruct (auth.UserFromCtx ctx) as [user|e|p]; [|by left..]. rewrite run_lift.
  destruct (place_bid_command user id body) as [cmd|e|p] eqn:Hcmd; [|by left..].
  unfold mbind, GoM_bind at 1. unfold PlaceBidHandler. rewrite run_lift.
  destruct (profiles (pb_Bidder cmd)) as [bd|e|p]; [|by left..].
  assert (0 ≤ m_amount (pb_Amount cmd)) as Hn.
  { unfold place_bid_command in Hcmd.
    do 4 (apply res_bind_ok in Hcmd as (? & _ & Hcmd)).
    apply res_bind_ok in Hcmd as (m & [-> Hm]%with_cause_ok%NewMoney_inv_ok & Hcmd). by injection Hcmd as <-. }
  pose proof (user_update_served (CPlaceBid (pb_BidID cmd) bd (pb_Amount cmd) now) (pb_AuctionID cmd)
    (ActorFromBidder (pb_Bidder cmd)) (closure (auction.PlaceBid (pb_BidID cmd) bd (pb_Amount cmd) now))
    (fun err => Some (mapPlaceBidError err)) a) as Hsv.
  assert (∀ x, closure (auction.PlaceBid (pb_BidID cmd) bd (pb_Amount cmd) now) x
    = closure (run (CPlaceBid (pb_BidID cmd) bd (pb_Amount cmd) now)) x) as Hfn.
  { intros x. unfold closure; simpl; unfold forget. by destruct (auction.PlaceBid _ _ _ _ x) as [[] ?]. }
  specialize (Hsv Hfn eq_refl Hn Hok Hroom). by destruct (on_error _ _ a) as [[[]|e|p] a'].
Qed.

Lemma CancelAuction_served now ctx id a :
  repo_ok a → room a → auctions_served a (Http_CancelAuction now ctx id a).2.
Proof.
  intros Hok Hroom. unfold Http_CancelAuction.
  do 3 (rewrite run_lift; case_match; [|by left..]).
  by eapply (user_update_served (CCancel _ now)).
Qed.

Lemma CloseAuction_served now cmd a :
  repo_ok a → room a → auctions_served a (CloseAuctionHandler now cmd a).2.
Proof.
  intros Hok Hroom. unfold CloseAuctionHandler. rewrite on_error_mem.
  eapply (update_served (CClose now)); [apply close_closure|done..].
Qed.
End Auctions.

(** ** Invoices *)

Section Invoices.
Import invoice invoice_repo billing invoice_repo_theory invoice_theory saga_claims.
Context {B : Type} `{InvoiceRepositoryLaws B}.
Implicit Types (b : B).

(** What a served request did to the invoices: nothing, or one of them was
    paid, expired or voided. *)
Definition invoices_served b b' : Prop := b' = b ∨ inv_ok b' ∧ invoice_moves b b'.

Lemma won_admissible o i j : i_status i = StatusPending → won o i j → admissible i j.
Proof.
  intros Hp Hw. destruct o; simpl in Hw; destruct_and?; subst;
    [by apply admissible_paid|by apply admissible_expired|by apply admissible_voided].
Qed.

Lemma invoice_update_served o id fn b :
  (∀ i, fn i = closure (run_op o) i) → inv_ok b →
  invoices_served b (inv_UpdateAsSystem id fn b).2.
Proof.
  intros Hfn Hok. destruct (inv_view b !! id) as [i|] eqn:Hl.
  2:{ left. by rewrite (inv_System_missing b id fn). }
  destruct (inv_view_ok b id i Hok Hl) as (Hst & _ & _). specialize (Hfn i). unfold closure in Hfn.
  destruct (decide (i_status i = StatusPending)) as [Hp|Hp].
  - destruct (run_op_pending o i Hp) as [[e Hr]|(j & Hr & Hw & _)]; rewrite Hr in Hfn.
    + left. by rewrite (inv_System_fail b id i fn e).
    + right. destruct (inv_System_ok b id i j fn Hok Hl Hfn (won_admissible o i j Hp Hw))
        as (b' & v & -> & Hok' & Hv). split; [done|]. by eapply IM_method.
  - left. destruct (run_op_terminal o i) as [e Hr].
    { pose proof (so_status i Hst). unfold terminal. destruct (i_status i); auto; done. }
    rewrite Hr in Hfn. by rewrite (inv_System_fail b id i fn e).
Qed.

Lemma ExpireInvoice_served now cmd b :
  inv_ok b → invoices_served b (ExpireInvoiceHandler now cmd b).2.
Proof.
  intros Hok. unfold ExpireInvoiceHandler. rewrite on_error_mem.
  by apply (invoice_update_served (OExpire now)).
Qed.

(** A payment writes the store in one of its steps, whatever the provider
    answered in the others. *)
Lemma pay_step_served {P} `{PaymentGateway P} now cmd pc b (p : P) :
  inv_ok b → invoices_served b (pay_step now cmd pc (b, p)).2.1.
Proof.
  intros Hok. destruct pc as [|total|ref|answer|r]; simpl; try by left.
  - unfold on_psp. simpl. destruct (gw_Charge _ _ p). by left.
  - unfold on_repo. simpl.
    assert (invoices_served b (inv_Update (py_InvoiceID cmd) (py_Payer cmd) (closure (MarkPaid ref now)) b).2)
      as Hs.
    { destruct (inv_view b !! py_InvoiceID cmd) as [i|] eqn:Hl;
        [destruct (decide (i_debtor i = py_Payer cmd)) as [<-|Hne]|].
      - rewrite (inv_Update_own b _ i) by done. by apply (invoice_update_served (OPay ref now)).
      - left. rewrite inv_Update_foreign; [done..|]. intros j Hj. by simplify_eq.
      - left. rewrite inv_Update_foreign; [done..|]. intros j Hj. by simplify_eq. }
    by destruct (inv_Update _ _ _ b).
  - unfold refund, on_error, on_psp. simpl. destruct (gw_Refund _ p) as [[]]; by left.
Qed.
End Invoices.
End serving.
