(* ===== verification/Services.v ===== *)
(** * The applications of the contexts

    The catalogs of use cases ([app/app.go]) the services of the contexts
    assemble ([service/service.go], [newService]): every command and query
    handler in its decorators, under its name; and the facades the settlement
    saga calls, which go through the decorated commands.  The lemmas
    [*_assembled] say that an assembled handler answers and leaves what the
    handler it is made of does. *)

From stdpp Require Import base numbers list strings gmap.
From Stdlib Require Import ZArith Lia.
From S2P Require Import Prelude GoText DemoUUID Errs Decorator Processes AuctionDomain AuctionRepo AuctionApp AuctionProjections InvoiceDomain InvoiceRepo Billing SettlementDomain SettlementRepo Settlement ParticipantDomain ParticipantRepo Participant.

Module services.
Import decorator.
Local Open Scope Z_scope.

(** [decorator.CommandHandler] and [decorator.QueryHandler] of an assembled
    application: with how long the handler takes and what its clock answers. *)
Definition CommandHandler (S C : Type) : Type := Duration → Time → Handler (observed S) C unit.
Definition QueryHandler (D Q R : Type) : Type := Duration → Time → Handler (observed D) Q R.

Definition command {S C} (context name : string) (h : Time → Handler S C unit)
    : CommandHandler S C :=
  fun elapsed now => ApplyCommandDecorators elapsed (mkDecorators context) name (plain (h now)).

(** A query reads the database [D]. *)
Definition reads {D Q R} (f : Q → D → result R) : Handler D Q R := fun q db => (f q db, db).

Definition query {D Q R} (context name : string) (f : Time → Q → D → result R)
    : QueryHandler D Q R :=
  fun elapsed now => ApplyQueryDecorators elapsed (mkDecorators context) name (plain (reads (f now))).

Definition same_command {S C} (assembled : CommandHandler S C) (h : Time → Handler S C unit) : Prop :=
  ∀ elapsed now cmd, decorates (assembled elapsed now cmd) (h now cmd).
Definition same_query {D Q R} (assembled : QueryHandler D Q R) (f : Time → Q → D → result R) : Prop :=
  ∀ elapsed now q, decorates (assembled elapsed now q) (reads (f now) q).

Lemma command_same {S C} context name (h : Time → Handler S C unit) :
  same_command (command context name h) h.
Proof. intros elapsed now cmd. apply ApplyCommandDecorators_decorates. Qed.
Lemma query_same {D Q R} context name (f : Time → Q → D → result R) :
  same_query (query context name f) f.
Proof. intros elapsed now q. apply ApplyQueryDecorators_decorates. Qed.

Ltac assembled :=
  cbv zeta; split_and!;
  first [ apply command_same | apply query_same
        | intros; repeat (apply decorates_lift; intros ?); apply ApplyCommandDecorators_decorates ].

(** ** Auction *)

Section Auction.
Context `{UUIDLib} {S : Type} `{AuctionRepository S}.
Import auction auction_app projections.

(** [app.Commands]; [PlaceBid] also reads the projection of the profiles. *)
Record AuctionCommands := mkAuctionCommands {
  cmd_ListAuction : CommandHandler S ListAuction;
  cmd_PlaceBid : (BidderID → result Bidder) → CommandHandler S PlaceBid;
  cmd_CancelAuction : CommandHandler S CancelAuction;
  cmd_CloseAuction : CommandHandler S CloseAuction;
  cmd_AwardToRunnerUp : CommandHandler S AwardToRunnerUp;
  cmd_RelistAuction : CommandHandler S RelistAuction;
  cmd_MarkSaleFailed : CommandHandler S MarkSaleFailed;
  cmd_ConfirmSettlement : CommandHandler S ConfirmSettlement;
}.

(** [app.Queries]; the pages are the pairs of page and page size. *)
Record AuctionQueries := mkAuctionQueries {
  qry_ActiveAuctionsCatalog : QueryHandler ReadDB (Z * Z) CatalogPage;
  qry_AuctionCard : QueryHandler ReadDB AuctionID AuctionCardView;
  qry_BidHistory : QueryHandler ReadDB (AuctionID * (Z * Z)) BidHistoryPage;
  qry_SellerDashboard : QueryHandler ReadDB SellerID DashboardView;
}.

Definition auction_commands (rules : ListingRules) : AuctionCommands := {|
  cmd_ListAuction := command "auction" "ListAuction" (ListAuctionHandler rules);
  cmd_PlaceBid profiles := command "auction" "PlaceBid" (PlaceBidHandler profiles);
  cmd_CancelAuction := command "auction" "CancelAuction" CancelAuctionHandler;
  cmd_CloseAuction := command "auction" "CloseAuction" CloseAuctionHandler;
  cmd_AwardToRunnerUp := command "auction" "AwardToRunnerUp" AwardToRunnerUpHandler;
  cmd_RelistAuction := command "auction" "RelistAuction" RelistAuctionHandler;
  cmd_MarkSaleFailed := command "auction" "MarkSaleFailed" MarkSaleFailedHandler;
  cmd_ConfirmSettlement := command "auction" "ConfirmSettlement" ConfirmSettlementHandler;
|}.

Definition auction_queries : AuctionQueries := {|
  qry_ActiveAuctionsCatalog := query "auction" "ActiveAuctionsCatalog"
    (fun now q => ActiveAuctionsCatalogHandler now q.1 q.2);
  qry_AuctionCard := query "auction" "AuctionCard" (fun _ => AuctionCard);
  qry_BidHistory := query "auction" "BidHistory" (fun _ q => BidHistoryHandler q.1 q.2.1 q.2.2);
  qry_SellerDashboard := query "auction" "SellerDashboard" (fun _ => Dashboard);
|}.

(** The facade [newService] builds from the commands. *)
Definition facade_AwardToRunnerUp (app : AuctionCommands) (elapsed : Duration) (now : Time)
    (auctionID : uuid) : M (observed S) unit :=
  id ← lift (with_cause (NewIncorrectInputError "invalid-id") (NewAuctionID auctionID));
  cmd_AwardToRunnerUp app elapsed now (mkAwardToRunnerUp id).

Definition facade_Relist (app : AuctionCommands) (elapsed : Duration) (now : Time)
    (originalID newID : uuid) (startsAt endsAt : Time) : M (observed S) unit :=
  origID ← lift (with_cause (NewIncorrectInputError "invalid-id") (NewAuctionID originalID));
  relistID ← lift (with_cause (NewIncorrectInputError "invalid-id") (NewAuctionID newID));
  window ← lift (with_cause (NewIncorrectInputError "invalid-window")
                   (NewBiddingWindow startsAt endsAt));
  cmd_RelistAuction app elapsed now (mkRelistAuction origID relistID window).

Definition facade_MarkSaleFailed (app : AuctionCommands) (elapsed : Duration) (now : Time)
    (auctionID : uuid) (reason : string) : M (observed S) unit :=
  id ← lift (with_cause (NewIncorrectInputError "invalid-id") (NewAuctionID auctionID));
  failureReason ← lift (with_cause (NewIncorrectInputError "invalid-failure-reason")
                          (NewFailureReasonFromString reason));
  cmd_MarkSaleFailed app elapsed now (mkMarkSaleFailed id failureReason).

Definition facade_ConfirmSettlement (app : AuctionCommands) (elapsed : Duration) (now : Time)
    (auctionID : uuid) : M (observed S) unit :=
  id ← lift (with_cause (NewIncorrectInputError "invalid-id") (NewAuctionID auctionID));
  cmd_ConfirmSettlement app elapsed now (mkConfirmSettlement id).

Lemma auction_assembled rules profiles :
  let app := auction_commands rules in
  same_command (cmd_ListAuction app) (ListAuctionHandler rules)
  ∧ same_command (cmd_PlaceBid app profiles) (PlaceBidHandler profiles)
  ∧ same_command (cmd_CancelAuction app) CancelAuctionHandler
  ∧ same_command (cmd_CloseAuction app) CloseAuctionHandler
  ∧ (∀ elapsed now id,
      decorates (facade_AwardToRunnerUp app elapsed now id) (Facade_AwardToRunnerUp now id))
  ∧ (∀ elapsed now id id' s e,
      decorates (facade_Relist app elapsed now id id' s e) (Facade_Relist now id id' s e))
  ∧ (∀ elapsed now id r,
      decorates (facade_MarkSaleFailed app elapsed now id r) (Facade_MarkSaleFailed now id r))
  ∧ (∀ elapsed now id,
      decorates (facade_ConfirmSettlement app elapsed now id) (Facade_ConfirmSettlement now id))
  ∧ same_query (qry_ActiveAuctionsCatalog auction_queries)
      (fun now q => ActiveAuctionsCatalogHandler now q.1 q.2)
  ∧ same_query (qry_AuctionCard auction_queries) (fun _ => AuctionCard)
  ∧ same_query (qry_BidHistory auction_queries) (fun _ q => BidHistoryHandler q.1 q.2.1 q.2.2)
  ∧ same_query (qry_SellerDashboard auction_queries) (fun _ => Dashboard).
Proof. assembled. Qed.
End Auction.
Arguments AuctionCommands : clear implicits.

(** ** Billing *)

Section Billing.
Context `{UUIDLib} {S P : Type} `{InvoiceRepository S} `{PaymentGateway P}.
Import invoice invoice_repo billing.

Record BillingCommands := mkBillingCommands {
  cmd_IssueInvoice : CommandHandler S IssueInvoice;
  cmd_PayInvoice : CommandHandler (S * P) PayInvoice;
  cmd_ExpireInvoice : CommandHandler S ExpireInvoice;
  cmd_VoidInvoice : CommandHandler S VoidInvoice;
}.

(** [InvoiceByID] is asked for by the actor. *)
Record BillingQueries := mkBillingQueries {
  qry_InvoiceByID : QueryHandler InvoiceDB (InvoiceID * BidderID) InvoiceView;
  qry_PendingInvoicesOfBidder : QueryHandler InvoiceDB BidderID (list InvoiceView);
}.

Definition billing_commands (policy : CommissionPolicy) (term : PaymentTerm) : BillingCommands := {|
  cmd_IssueInvoice := command "billing" "IssueInvoice" (IssueInvoiceHandler policy term);
  cmd_PayInvoice := command "billing" "PayInvoice" PayInvoiceHandler;
  cmd_ExpireInvoice := command "billing" "ExpireInvoice" ExpireInvoiceHandler;
  cmd_VoidInvoice := command "billing" "VoidInvoice" VoidInvoiceHandler;
|}.

Definition billing_queries : BillingQueries := {|
  qry_InvoiceByID := query "billing" "InvoiceByID" (fun _ q => InvoiceByIDHandler q.1 q.2);
  qry_PendingInvoicesOfBidder := query "billing" "PendingInvoicesOfBidder"
    (fun _ => PendingInvoicesOfBidderHandler);
|}.

Definition facade_IssueInvoice (app : BillingCommands) (elapsed : Duration) (now : Time)
    (invoiceID auctionID debtor : uuid) (hammerMinor : Z) (currency : string) (attempt : Z)
    : M (observed S) unit :=
  id ← lift (with_cause (NewIncorrectInputError "invalid-invoice-id") (NewInvoiceID invoiceID));
  aucID ← lift (with_cause (NewIncorrectInputError "invalid-auction-id") (NewAuctionID auctionID));
  debtorID ← lift (with_cause (NewIncorrectInputError "invalid-debtor-id") (NewBidderID debtor));
  cur ← lift (with_cause (NewIncorrectInputError "invalid-currency") (NewCurrency currency));
  hammer ← lift (with_cause (NewIncorrectInputError "invalid-hammer-price")
                   (NewMoney hammerMinor cur));
  att ← lift (with_cause (NewIncorrectInputError "invalid-attempt") (NewAttempt attempt));
  cmd_IssueInvoice app elapsed now (mkIssueInvoice id aucID debtorID hammer att).

Definition facade_VoidInvoice (app : BillingCommands) (elapsed : Duration) (now : Time)
    (invoiceID : uuid) : M (observed S) unit :=
  id ← lift (with_cause (NewIncorrectInputError "invalid-invoice-id") (NewInvoiceID invoiceID));
  cmd_VoidInvoice app elapsed now (mkVoidInvoice id).

Lemma billing_assembled policy term :
  let app := billing_commands policy term in
  (∀ elapsed now i a d h c n,
    decorates (facade_IssueInvoice app elapsed now i a d h c n)
      (Facade_IssueInvoice policy term now i a d h c n))
  ∧ (∀ elapsed now i,
      decorates (facade_VoidInvoice app elapsed now i) (Facade_VoidInvoice now i))
  ∧ same_command (cmd_PayInvoice app) PayInvoiceHandler
  ∧ same_command (cmd_ExpireInvoice app) ExpireInvoiceHandler
  ∧ same_query (qry_InvoiceByID billing_queries) (fun _ q => InvoiceByIDHandler q.1 q.2)
  ∧ same_query (qry_PendingInvoicesOfBidder billing_queries) (fun _ => PendingInvoicesOfBidderHandler).
Proof. assembled. Qed.
End Billing.
Arguments BillingCommands : clear implicits.

(** ** Settlement

    The decline command, run without interruption. *)

Section Settlement.
Context `{UUIDLib} {S A B : Type} `{SettlementRepository S} `{AuctionGateway A} `{BillingGateway B}.
Import settlement settlement_repo saga.

Record SettlementApplication := mkSettlementApplication {
  cmd_DeclineSecondChanceOffer : (Time → Clocks) →
    CommandHandler (net S A B) DeclineSecondChanceOffer;
  qry_SettlementStatus : QueryHandler SettlementDB AuctionID SettlementView;
}.

Definition settlement_application (relist : RelistPolicy) : SettlementApplication := {|
  cmd_DeclineSecondChanceOffer clk := command "settlement" "DeclineSecondChanceOffer"
    (fun now cmd => run (DeclineSecondChanceOfferHandler relist (clk now) cmd));
  qry_SettlementStatus := query "settlement" "SettlementStatus" (fun _ => SettlementStatusHandler);
|}.

Lemma settlement_assembled relist clk :
  let app := settlement_application relist in
  same_command (cmd_DeclineSecondChanceOffer app clk)
    (fun now cmd => run (DeclineSecondChanceOfferHandler relist (clk now) cmd))
  ∧ same_query (qry_SettlementStatus app) (fun _ => SettlementStatusHandler).
Proof. assembled. Qed.
End Settlement.

(** ** Participant *)

Section Participant.
Context {S : Type} `{ParticipantRepository S}.
Import participant participant_repo participant_app.

(** [stamp] is what the repository's own clock answers. *)
Record ParticipantApplication := mkParticipantApplication {
  cmd_RegisterParticipant : CommandHandler S RegisterParticipant;
  cmd_VerifyParticipant : Time → CommandHandler S VerifyParticipant;
  qry_ParticipantProfile : QueryHandler S ParticipantID ProfileView;
}.

Definition participant_application (profile : ParticipantID → S → result ProfileView)
    : ParticipantApplication := {|
  cmd_RegisterParticipant := command "participant" "RegisterParticipant" RegisterParticipantHandler;
  cmd_VerifyParticipant stamp := command "participant" "VerifyParticipant"
    (fun now => VerifyParticipantHandler now stamp);
  qry_ParticipantProfile := query "participant" "ParticipantProfile"
    (fun _ => ParticipantProfileHandler profile);
|}.

Lemma participant_assembled profile stamp :
  let app := participant_application profile in
  same_command (cmd_RegisterParticipant app) RegisterParticipantHandler
  ∧ same_command (cmd_VerifyParticipant app stamp) (fun now => VerifyParticipantHandler now stamp)
  ∧ same_query (qry_ParticipantProfile app) (fun _ => ParticipantProfileHandler profile).
Proof. assembled. Qed.
End Participant.
End services.
