(* ===== verification/Workers.v ===== *)
(** * The background workers

    The loop of the closing worker ([auction/ports/worker.go]) and of the
    expiry worker ([billing/ports/worker.go]): the ticks, with the decorated
    command each candidate goes through and the worker's own instruments, and
    [Run], which ticks until its context is cancelled.  [worker_tick] relates a
    tick to the bare ticks of [AuctionApp] and [Billing]. *)

From stdpp Require Import base numbers list strings gmap fin_maps.
From Stdlib Require Import ZArith Lia.
From S2P Require Import Prelude DemoUUID Errs Decorator Services AuctionDomain AuctionTheory AuctionRepo AuctionApp AuctionRepoTheory AuctionAppTheory InvoiceDomain InvoiceRepo Billing InvoiceRepoTheory BillingTheory.

Module workers.
Import decorator services.
Local Open Scope Z_scope.

(** ** Instruments

    What the tracer, the logger, the histogram and the gauge of a worker were
    given. *)

Record WorkerRecord := mkWorkerRecord {
  wr_message : string;
  wr_item : option string;
  wr_error : error;
}.

Record Instruments := mkInstruments {
  tick_spans : list Span;
  tick_records : list WorkerRecord;
  tickDuration : list (string * Duration);
  dueBacklog : list (string * Z);
}.

Definition log_error (r : WorkerRecord) (i : Instruments) : Instruments :=
  mkInstruments (tick_spans i) (tick_records i ++ [r]) (tickDuration i) (dueBacklog i).
Definition record_backlog (worker : string) (n : Z) (i : Instruments) : Instruments :=
  mkInstruments (tick_spans i) (tick_records i) (tickDuration i) (dueBacklog i ++ [(worker, n)]).

(** The deferred calls of a tick: its duration, and the end of its span. *)
Definition end_tick (worker : string) (elapsed : Duration) (sp : Span) (i : Instruments)
    : Instruments :=
  mkInstruments (tick_spans i ++ [sp]) (tick_records i)
    (tickDuration i ++ [(worker, elapsed)]) (dueBacklog i).

(** The names a worker reports under. *)
Record Texts := mkTexts {
  t_span : string;
  t_worker : string;
  t_scan_failed : string;
  t_item_failed : string;
}.

(** ** A tick and the loop

    [W] is the state of the handlers. *)
Section Loop.
Context {W ID : Type} (texts : Texts) (ID_String : ID → string).

(** The loop over the candidates: an error is logged and the batch goes on. *)
Fixpoint handle_all (handle : ID → M W unit) (ids : list ID) : M (W * Instruments) unit :=
  fun w =>
    match ids with
    | [] => (Ok tt, w)
    | id :: ids =>
        match handle id w.1 with
        | (Ok _, w') => handle_all handle ids (w', w.2)
        | (Fail err, w') =>
            handle_all handle ids
              (w', log_error (mkWorkerRecord (t_item_failed texts) (Some (ID_String id)) err) w.2)
        | (Panic p, w') => (Panic p, (w', w.2))
        end
    end.

(** [elapsed] is what [time.Since(start)] answers. *)
Definition tick (elapsed : Duration) (scan : W → result (list ID)) (handle : ID → M W unit)
    : M (W * Instruments) unit := fun w =>
  let finish sp w := (w.1, end_tick (t_worker texts) elapsed sp w.2) in
  let sp := mkSpan (t_span texts) [] Unset in
  match scan w.1 with
  | Fail err =>
      let sp := mkSpan (t_span texts) [err] (Error err) in
      (Ok tt, finish sp (w.1, log_error (mkWorkerRecord (t_scan_failed texts) None err) w.2))
  | Ok ids =>
      let sp := mkSpan (t_span texts) [] OkStatus in
      let '(r, w) := handle_all handle ids
        (w.1, record_backlog (t_worker texts) (Z.of_nat (length ids)) w.2) in
      (r, finish sp w)
  | Panic p => (Panic p, finish sp w)
  end.
End Loop.

(** What [select] takes: the cancellation of the context, or a tick. *)
Inductive Signal (T : Type) := CtxDone | TickerC (tk : T).
Arguments CtxDone {_}.
Arguments TickerC {_} _.

(** [Run] returns nil ([true]) when it takes the cancellation; [false]: after
    these signals it still waits. *)
Fixpoint Run {X T} (tick : T → M X unit) (signals : list (Signal T)) : M X bool :=
  match signals with
  | [] => mret false
  | CtxDone :: _ => mret true
  | TickerC tk :: signals => tick tk;; Run tick signals
  end.

(** What a tick finds: the state the other requests left while the worker
    waited, and what the clocks answer. *)
Record Tick (S ID : Type) := mkTick {
  tk_found : S;
  tk_now : Time;
  tk_clk : ID → Time;
  tk_elapsed : Duration;
  tk_took : ID → Duration;
}.
Arguments mkTick {_ _} _ _ _ _ _.
Arguments tk_found {_ _} _.
Arguments tk_now {_ _} _.
Arguments tk_clk {_ _} _ _.
Arguments tk_elapsed {_ _} _.
Arguments tk_took {_ _} _ _.

Definition find_state {S ID} (tk : Tick S ID) (w : observed S * Instruments)
    : observed S * Instruments := ((tk_found tk, w.1.2), w.2).

(** ** The two workers *)

Section Closing.
Context `{UUIDLib} {S : Type} `{AuctionRepository S}.

Definition closing_texts : Texts :=
  mkTexts "worker/closing.tick" "closing" "closing worker scan failed" "closing auction failed".

Definition ClosingWorker (closeAuction : CommandHandler S auction_app.CloseAuction)
    (tk : Tick S auction.AuctionID) : M (observed S * Instruments) unit :=
  fun w =>
    tick closing_texts auction_repo.AuctionID_String (tk_elapsed tk)
      (fun w => repo_DueForClosing (tk_now tk) auction_app.closingCandidateLimit w.1)
      (fun id => closeAuction (tk_took tk id) (tk_clk tk id) (auction_app.mkCloseAuction id))
      (find_state tk w).

(** The worker [newService] makes, over the assembled command. *)
Definition auction_worker (rules : auction.ListingRules)
    : Tick S auction.AuctionID → M (observed S * Instruments) unit :=
  ClosingWorker (cmd_CloseAuction (auction_commands rules)).
End Closing.

Section Expiry.
Context `{UUIDLib} {S : Type} `{InvoiceRepository S}.

Definition expiry_texts : Texts :=
  mkTexts "worker/expiry.tick" "expiry" "expiry worker: due scan failed"
    "expiry worker: expire failed".

Definition ExpiryWorker (expire : CommandHandler S billing.ExpireInvoice)
    (tk : Tick S invoice.InvoiceID) : M (observed S * Instruments) unit :=
  fun w =>
    tick expiry_texts invoice_repo.InvoiceID_String (tk_elapsed tk)
      (fun w => inv_PendingDueBefore (tk_now tk) billing.expiryBatchLimit w.1)
      (fun id => expire (tk_took tk id) (tk_clk tk id) (billing.mkExpireInvoice id))
      (find_state tk w).

(** The worker [NewService] makes, over the assembled command. *)
Definition billing_worker `{PaymentGateway P} (policy : invoice.CommissionPolicy)
    (term : invoice.PaymentTerm) : Tick S invoice.InvoiceID → M (observed S * Instruments) unit :=
  ExpiryWorker (cmd_ExpireInvoice (billing_commands (P := P) policy term)).
End Expiry.

(** ** What a tick is *)

(** The loop over the candidates without its reports. *)
Fixpoint each {S ID} (h : ID → M S unit) (ids : list ID) : M S unit :=
  match ids with
  | [] => mret tt
  | id :: ids => on_error (h id) (fun _ => None);; each h ids
  end.

(** The candidates whose command failed. *)
Fixpoint failures {S ID} (h : ID → M S unit) (ids : list ID) (s : S) : list (ID * error) :=
  match ids with
  | [] => []
  | id :: ids =>
      match h id s with
      | (Ok _, s) => failures h ids s
      | (Fail err, s) => (id, err) :: failures h ids s
      | (Panic _, _) => []
      end
  end.

Lemma close_all_each {S} `{AuctionRepository S} clk ids :
  auction_app.close_all (S := S) clk ids =
  each (fun id => auction_app.CloseAuctionHandler (clk id) (auction_app.mkCloseAuction id)) ids.
Proof. induction ids as [|id ids IH]; [done|]. cbn. by rewrite IH. Qed.

Lemma expire_all_each {S} `{InvoiceRepository S} clk ids :
  billing.expire_all (S := S) clk ids =
  each (fun id => billing.ExpireInvoiceHandler (clk id) (billing.mkExpireInvoice id)) ids.
Proof. induction ids as [|id ids IH]; [done|]. cbn. by rewrite IH. Qed.

Section Bare.
Context {S ID : Type} (texts : Texts) (ID_String : ID → string).

Definition item_record (x : ID * error) : WorkerRecord :=
  mkWorkerRecord (t_item_failed texts) (Some (ID_String x.1)) x.2.

Definition log_errors (rs : list WorkerRecord) (i : Instruments) : Instruments :=
  mkInstruments (tick_spans i) (tick_records i ++ rs) (tickDuration i) (dueBacklog i).

Lemma log_errors_nil i : log_errors [] i = i.
Proof. destruct i. unfold log_errors. cbn. by rewrite app_nil_r. Qed.

Lemma log_errors_cons r rs i : log_errors rs (log_error r i) = log_errors (r :: rs) i.
Proof. unfold log_errors, log_error. cbn. by rewrite <- app_assoc. Qed.

Lemma handle_all_bare (deco : ID → M (observed S) unit) (h : ID → M S unit) ids s t i :
  (∀ id, decorates (deco id) (h id)) →
  ∃ t', handle_all texts ID_String deco ids ((s, t), i) =
    ((each h ids s).1, (((each h ids s).2, t'), log_errors (item_record <$> failures h ids s) i)).
Proof.
  intros Hd. revert s t i. induction ids as [|id ids IH]; intros s t i.
  { exists t. cbn. by rewrite log_errors_nil. }
  cbn [handle_all each failures fst]. unfold mbind, GoM_bind, on_error.
  destruct (Hd id s t) as [t1 ->]. destruct (h id s) as [[u|err|p] s1];
    cbn -[log_error log_errors].
  - apply IH.
  - match goal with |- context [handle_all _ _ _ _ (_, ?j)] => destruct (IH s1 t1 j) as [t' E] end.
    exists t'. etrans; [exact E|]. by rewrite log_errors_cons.
  - exists t1. by rewrite log_errors_nil.
Qed.

(** What a tick adds to the instruments, from what the scan answers and the
    candidates that failed. *)
Definition tick_report (elapsed : Duration) (scanned : result (list ID))
    (failed : list (ID * error)) (i : Instruments) : Instruments :=
  match scanned with
  | Ok ids =>
      end_tick (t_worker texts) elapsed (mkSpan (t_span texts) [] OkStatus)
        (log_errors (item_record <$> failed)
           (record_backlog (t_worker texts) (Z.of_nat (length ids)) i))
  | Fail err =>
      end_tick (t_worker texts) elapsed (mkSpan (t_span texts) [err] (Error err))
        (log_error (mkWorkerRecord (t_scan_failed texts) None err) i)
  | Panic _ => end_tick (t_worker texts) elapsed (mkSpan (t_span texts) [] Unset) i
  end.

Lemma tick_bare elapsed (scan : S → result (list ID)) (deco : ID → M (observed S) unit)
    (h : ID → M S unit) s t i :
  (∀ id, decorates (deco id) (h id)) →
  ∃ t', tick texts ID_String elapsed (fun w => scan w.1) deco ((s, t), i) =
    let bare :=
      match scan s with
      | Ok ids => each h ids s
      | Fail _ => (Ok tt, s)
      | Panic p => (Panic p, s)
      end in
    (bare.1, ((bare.2, t'),
      tick_report elapsed (scan s)
        match scan s with Ok ids => failures h ids s | _ => [] end i)).
Proof.
  intros Hd. unfold tick. cbn [fst snd]. destruct (scan s) as [ids|err|p]; cbn; [|by exists t..].
  destruct (handle_all_bare deco h ids s t
    (record_backlog (t_worker texts) (Z.of_nat (length ids)) i) Hd) as [t' E].
  exists t'. by setoid_rewrite E.
Qed.
End Bare.

(** ** A worker over a lawful repository *)

(** The report of a tick that found [n] candidates and failed on none. *)
Definition quiet_tick (texts : Texts) (elapsed : Duration) (n : Z) (i : Instruments) : Instruments :=
  end_tick (t_worker texts) elapsed (mkSpan (t_span texts) [] OkStatus)
    (record_backlog (t_worker texts) n i).

Section ClosingRuns.
Import auction auction_repo_theory auction_app_theory.
Context `{UUIDLib} {S : Type} `{AuctionRepositoryLaws S}.

(** What the laws need of the store a tick finds: room for one more version of
    every candidate; and the handlers' clock is not behind the worker's. *)
Record closing_fine (tk : Tick S AuctionID) : Prop := {
  cf_ok : repo_ok (tk_found tk);
  cf_slack : slack auction_app.closingCandidateLimit (tk_found tk);
  cf_clock : ∀ id, tk_now tk ≤ tk_clk tk id;
}.

Lemma close_failures_nil clk ids s :
  repo_ok s → slack (Z.of_nat (length ids)) s →
  (∀ id, id ∈ ids → is_Some (repo_view s !! id)) →
  failures (fun id => auction_app.CloseAuctionHandler (clk id) (auction_app.mkCloseAuction id)) ids s
    = [].
Proof.
  revert s. induction ids as [|i ids IH]; intros s Hok Hsl Hin; [done|].
  destruct (Hin i (list_elem_of_here _ _)) as [a Hl].
  assert (room s) as Hroom by (intros id b Hb; pose proof (Hsl id b Hb); simpl in *; lia).
  destruct (close_handler (clk i) i s a Hok Hroom Hl) as (s1 & E & Hok1 & Hv).
  cbn [failures]. rewrite E. apply IH; [done| |].
  - destruct Hv as [(a' & Hv & _ & Hver)|[-> _]].
    + eapply (slack_closed _ i s s1 a a'); [eapply slack_le, Hsl; simpl; lia|lia|done..].
    + eapply slack_le, Hsl. simpl. lia.
  - intros id Hid. destruct (Hin id (list_elem_of_further _ _ _ Hid)) as [b Hb].
    destruct Hv as [(a' & -> & _)|[-> _]]; [|eauto].
    destruct (decide (i = id)) as [->|]; [rewrite lookup_insert_eq|rewrite lookup_insert_ne by done];
      eauto.
Qed.

Lemma ClosingWorker_tick_runs closeAuction tk s t i :
  same_command closeAuction auction_app.CloseAuctionHandler → closing_fine tk →
  ∃ s' t' n, ClosingWorker closeAuction tk ((s, t), i) =
      (Ok tt, ((s', t'), quiet_tick closing_texts (tk_elapsed tk) n i))
    ∧ repo_ok s'
    ∧ (n < auction_app.closingCandidateLimit →
       ∀ id a, repo_view s' !! id = Some a → ¬ is_due (tk_now tk) a).
Proof.
  intros Hsame [Hok Hsl Hclk]. set (f := tk_found tk) in *.
  destruct (tick_closes_due f 0 (tk_now tk) (tk_clk tk) Hok (Z.le_refl 0) Hsl Hclk)
    as (s' & Ht & Hok' & _ & Hd).
  destruct (Due_spec f (tk_now tk) auction_app.closingCandidateLimit Hok) as (ids & E & Hin & _ & Hlen);
    [done|].
  destruct (tick_bare closing_texts auction_repo.AuctionID_String (tk_elapsed tk)
    (fun s => repo_DueForClosing (tk_now tk) auction_app.closingCandidateLimit s)
    (fun id => closeAuction (tk_took tk id) (tk_clk tk id) (auction_app.mkCloseAuction id))
    (fun id => auction_app.CloseAuctionHandler (tk_clk tk id) (auction_app.mkCloseAuction id)) f t i)
    as [t' Hr].
  { intros id. apply Hsame. }
  rewrite E, close_failures_nil in Hr; [|done|eapply slack_le, Hsl; lia|].
  2:{ intros id (a & Hl & _)%Hin. eauto. }
  unfold auction_app.ClosingWorker_tick in Ht. rewrite run_get, E, close_all_each in Ht.
  cbv zeta in Hr. rewrite Ht in Hr. exists s', t', (Z.of_nat (length ids)).
  split_and!; [|done|by apply Hd].
  etrans; [exact Hr|]. cbn [fmap list_fmap tick_report fst snd]. by rewrite log_errors_nil.
Qed.
End ClosingRuns.

Section ExpiryRuns.
Import invoice invoice_repo_theory billing_theory.
Context `{UUIDLib} {S : Type} `{InvoiceRepositoryLaws S}.

Record expiry_fine (tk : Tick S InvoiceID) : Prop := {
  ef_ok : inv_ok (tk_found tk);
  ef_clock : ∀ id, tk_now tk ≤ tk_clk tk id;
}.

(** A candidate is there, and no candidate is expired before its deadline. *)
Definition overdue (now : Time) (s : S) (id : InvoiceID) : Prop :=
  ∃ i, inv_view s !! id = Some i ∧ (i_status i = StatusPending → i_dueAt i ≤ now).

Lemma expire_failures_nil now clk ids s :
  inv_ok s → (∀ id, now ≤ clk id) → (∀ id, id ∈ ids → overdue now s id) →
  failures (fun id => billing.ExpireInvoiceHandler (clk id) (billing.mkExpireInvoice id)) ids s = [].
Proof.
  intros Hok Hclk. revert s Hok. induction ids as [|id ids IH]; intros s Hok Hin; [done|].
  destruct (Hin id (list_elem_of_here _ _)) as (i & Hl & Hi).
  pose proof (expire_spec (clk id) s id i Hok Hl) as Hs. cbn [failures].
  assert (∀ k, k ∈ ids → overdue now s k) as Hrest by (intros; by apply Hin, list_elem_of_further).
  destruct (i_status i) eqn:E; [rewrite Hs; by apply IH|destruct (clk id <? i_dueAt i) eqn:Ed| | |].
  - specialize (Hi eq_refl). specialize (Hclk id). lia.
  - destruct Hs as (s' & v & -> & Hok' & Hv). apply IH; [done|]. intros k Hk.
    destruct (decide (k = id)) as [->|Hne].
    + eexists. rewrite Hv, lookup_insert_eq. split; [done|]. by cbn.
    + unfold overdue. rewrite Hv, lookup_insert_ne by done. by apply Hrest.
  - rewrite Hs. by apply IH.
  - rewrite Hs. by apply IH.
  - rewrite Hs. by apply IH.
Qed.

Lemma ExpiryWorker_tick_runs expire tk s t i :
  same_command expire billing.ExpireInvoiceHandler → expiry_fine tk →
  ∃ s' t' n, ExpiryWorker expire tk ((s, t), i) =
      (Ok tt, ((s', t'), quiet_tick expiry_texts (tk_elapsed tk) n i))
    ∧ inv_ok s'
    ∧ (n < billing.expiryBatchLimit →
       ∀ id v, inv_view s' !! id = Some v → ¬ is_due (tk_now tk) v).
Proof.
  intros Hsame [Hok Hclk]. set (f := tk_found tk) in *.
  destruct (tick_expires_due (tk_now tk) (tk_clk tk) f Hok Hclk) as (s' & Ht & Hok' & Hd).
  destruct (inv_Due_spec f (tk_now tk) billing.expiryBatchLimit Hok) as (ids & E & Hin & _); [done|].
  destruct (tick_bare expiry_texts invoice_repo.InvoiceID_String (tk_elapsed tk)
    (fun s => inv_PendingDueBefore (tk_now tk) billing.expiryBatchLimit s)
    (fun id => expire (tk_took tk id) (tk_clk tk id) (billing.mkExpireInvoice id))
    (fun id => billing.ExpireInvoiceHandler (tk_clk tk id) (billing.mkExpireInvoice id)) f t i)
    as [t' Hr].
  { intros id. apply Hsame. }
  rewrite E, (expire_failures_nil (tk_now tk)) in Hr; [|done|done|].
  2:{ intros id (v & Hl & _ & Hdue)%Hin. by exists v. }
  unfold billing.ExpiryWorker_tick in Ht. rewrite run_get, E, expire_all_each in Ht.
  cbv zeta in Hr. rewrite Ht in Hr. exists s', t', (Z.of_nat (length ids)).
  split_and!; [|done|by apply Hd].
  etrans; [exact Hr|]. cbn [fmap list_fmap tick_report fst snd]. by rewrite log_errors_nil.
Qed.
End ExpiryRuns.

(** ** The loop *)

(** Whatever the scans and the commands answer, [Run] returns no error. *)
Lemma Run_no_error {S ID} (tick : Tick S ID → M (observed S * Instruments) unit) signals w e :
  (∀ tk w e, (tick tk w).1 ≠ Fail e) → (Run tick signals w).1 ≠ Fail e.
Proof.
  intros Ht. revert w. induction signals as [|[|tk] signals IH]; intros w; [done|done|].
  cbn [Run]. unfold mbind, GoM_bind. pose proof (Ht tk w) as Htk.
  destruct (tick tk w) as [[u|err|p] w']; [apply IH|by destruct (Htk err)|done].
Qed.

Lemma handle_all_no_error {W ID} texts str (handle : ID → M W unit) ids w e :
  (handle_all texts str handle ids w).1 ≠ Fail e.
Proof.
  revert w. induction ids as [|id ids IH]; intros w; [done|]. cbn [handle_all].
  destruct (handle id w.1) as [[u|err|p] w']; [apply IH|apply IH|done].
Qed.

Lemma tick_no_error {W ID} texts str elapsed scan (handle : ID → M W unit) w e :
  (tick texts str elapsed scan handle w).1 ≠ Fail e.
Proof.
  unfold tick. destruct (scan w.1) as [ids|err|p]; [|done|done].
  match goal with |- context [handle_all ?a ?b ?c ?d ?f] =>
    pose proof (handle_all_no_error a b c d f) as Hn; destruct (handle_all a b c d f) end.
  apply Hn.
Qed.

Section Runs.
Context {S ID : Type} (texts : Texts) (worker : Tick S ID → M (observed S * Instruments) unit).
Context (fine : Tick S ID → Prop) (leaves : Tick S ID → Z → S → Prop).
Context (worker_tick : ∀ tk s t i, fine tk → ∃ s' t' n,
  worker tk ((s, t), i) = (Ok tt, ((s', t'), quiet_tick texts (tk_elapsed tk) n i)) ∧ leaves tk n s').

(** The durations of the ticks, in order, and no error. *)
Definition ticked (ticks : list (Tick S ID)) (i i' : Instruments) : Prop :=
  tick_records i' = tick_records i
  ∧ tickDuration i' = tickDuration i ++ ((fun tk => (t_worker texts, tk_elapsed tk)) <$> ticks).

Lemma Run_ticks ticks signals s t i :
  Forall fine ticks →
  ∃ s' t' i', Run worker ((TickerC <$> ticks) ++ signals) ((s, t), i) = Run worker signals ((s', t'), i')
    ∧ ticked ticks i i'.
Proof.
  intros Hf. revert s t i. induction Hf as [|tk ticks Htk Hf IH]; intros s t i.
  { exists s, t, i. split; [done|]. split; [done|]. by rewrite app_nil_r. }
  destruct (worker_tick tk s t i Htk) as (s1 & t1 & n & E & _).
  destruct (IH s1 t1 (quiet_tick texts (tk_elapsed tk) n i)) as (s' & t' & i' & Hr & Hrec & Hdur).
  exists s', t', i'. split.
  { cbn [fmap list_fmap app Run]. unfold mbind, GoM_bind. rewrite E. exact Hr. }
  split; [done|]. rewrite Hdur. cbn. by rewrite <- app_assoc.
Qed.

Lemma worker_runs ticks tk rest s t i :
  Forall fine (ticks ++ [tk]) →
  (Run worker (TickerC <$> (ticks ++ [tk])) ((s, t), i)).1 = Ok false ∧
  ∃ s' t' i' n, Run worker ((TickerC <$> (ticks ++ [tk])) ++ CtxDone :: rest) ((s, t), i)
      = (Ok true, ((s', t'), i'))
    ∧ ticked (ticks ++ [tk]) i i' ∧ last (dueBacklog i') = Some (t_worker texts, n) ∧ leaves tk n s'.
Proof.
  intros Hf. split.
  { destruct (Run_ticks (ticks ++ [tk]) [] s t i Hf) as (s' & t' & i' & Hr & _).
    rewrite app_nil_r in Hr. by rewrite Hr. }
  apply Forall_app in Hf as [Hf Htk]. rewrite Forall_singleton in Htk.
  destruct (Run_ticks ticks ([TickerC tk] ++ CtxDone :: rest) s t i Hf) as (s1 & t1 & i1 & Hr & Hrec & Hdur).
  destruct (worker_tick tk s1 t1 i1 Htk) as (s' & t' & n & E & Hl).
  exists s', t', (quiet_tick texts (tk_elapsed tk) n i1), n. split_and!; [|split|..].
  - rewrite fmap_app, <- app_assoc. etrans; [exact Hr|]. cbn [app Run]. unfold mbind, GoM_bind. by rewrite E.
  - done.
  - rewrite fmap_app. cbn. rewrite Hdur. by rewrite <- app_assoc.
  - cbn. by rewrite last_snoc.
  - done.
Qed.
End Runs.

Lemma ClosingWorker_no_error `{UUIDLib} {S} `{AuctionRepository S} close signals w e :
  (Run (ClosingWorker (S := S) close) signals w).1 ≠ Fail e.
Proof. apply Run_no_error. intros tk w' e'. apply tick_no_error. Qed.

Lemma ExpiryWorker_no_error `{UUIDLib} {S} `{InvoiceRepository S} expire signals w e :
  (Run (ExpiryWorker (S := S) expire) signals w).1 ≠ Fail e.
Proof. apply Run_no_error. intros tk w' e'. apply tick_no_error. Qed.

Section Claims.
Context `{UUIDLib}.

(** C29: the closing worker keeps bidding from staying open.  Over any lawful
    repository, whatever the other requests leave in the store between two
    ticks, the loop goes on after every tick and returns nil when its context
    is cancelled and at no other time; every tick is measured once and logs no
    error; and when a tick's backlog gauge stays under the limit of the scan,
    the tick has left no listed auction past its deadline. *)
Theorem closing_worker_runs {S} `{auction_repo_theory.AuctionRepositoryLaws S} rules ticks tk rest
    (s : S) t i :
  Forall closing_fine (ticks ++ [tk]) →
  (Run (auction_worker rules) (TickerC <$> (ticks ++ [tk])) ((s, t), i)).1 = Ok false ∧
  ∃ s' t' i' n, Run (auction_worker rules) ((TickerC <$> (ticks ++ [tk])) ++ CtxDone :: rest) ((s, t), i)
      = (Ok true, ((s', t'), i'))
    ∧ ticked closing_texts (ticks ++ [tk]) i i' ∧ last (dueBacklog i') = Some ("closing", n)
    ∧ auction_repo_theory.repo_ok s'
    ∧ (n < auction_app.closingCandidateLimit →
       ∀ id a, auction_repo_theory.repo_view s' !! id = Some a →
         ¬ auction_repo_theory.is_due (tk_now tk) a).
Proof.
  intros Hf. apply (worker_runs closing_texts (auction_worker rules) closing_fine (fun tk n s' =>
    auction_repo_theory.repo_ok s' ∧ (n < auction_app.closingCandidateLimit →
      ∀ id a, auction_repo_theory.repo_view s' !! id = Some a →
        ¬ auction_repo_theory.is_due (tk_now tk) a))); [|done].
  intros. apply ClosingWorker_tick_runs; [apply command_same|done].
Qed.

(** C30: the expiry worker enforces the payment deadlines.  Over any lawful
    repository, whatever the other requests leave in the store between two
    ticks, the loop goes on after every tick and returns nil when its context
    is cancelled and at no other time; every tick is measured once and logs no
    error; and when a tick's backlog gauge stays under the limit of the scan,
    the tick has left no pending invoice past its deadline. *)
Theorem expiry_worker_runs {S P} `{PaymentGateway P} `{invoice_repo_theory.InvoiceRepositoryLaws S}
    policy term ticks tk rest
    (s : S) t i :
  Forall expiry_fine (ticks ++ [tk]) →
  (Run (billing_worker (P := P) policy term) (TickerC <$> (ticks ++ [tk])) ((s, t), i)).1 = Ok false ∧
  ∃ s' t' i' n, Run (billing_worker (P := P) policy term) ((TickerC <$> (ticks ++ [tk])) ++ CtxDone :: rest) ((s, t), i)
      = (Ok true, ((s', t'), i'))
    ∧ ticked expiry_texts (ticks ++ [tk]) i i' ∧ last (dueBacklog i') = Some ("expiry", n)
    ∧ invoice_repo_theory.inv_ok s'
    ∧ (n < billing.expiryBatchLimit →
       ∀ id v, invoice_repo_theory.inv_view s' !! id = Some v →
         ¬ invoice_repo_theory.is_due (tk_now tk) v).
Proof.
  intros Hf. apply (worker_runs expiry_texts (billing_worker (P := P) policy term) expiry_fine (fun tk n s' =>
    invoice_repo_theory.inv_ok s' ∧ (n < billing.expiryBatchLimit →
      ∀ id v, invoice_repo_theory.inv_view s' !! id = Some v →
        ¬ invoice_repo_theory.is_due (tk_now tk) v))); [|done].
  intros. apply ExpiryWorker_tick_runs; [apply command_same|done].
Qed.
End Claims.

(** ** Witnesses *)

Import demo_uuid.

#[local] Instance demo_auctions : AuctionRepository auction_repo.AuctionInMemRepository :=
  auction_repo.inmem.repository (fun l => l).
#[local] Instance demo_auctions_laws :
    auction_repo_theory.AuctionRepositoryLaws auction_repo.AuctionInMemRepository :=
  auction_repo_theory.inmem_laws (fun l => l) (fun l => reflexivity l).
#[local] Existing Instance billing_theory.demo_repository.
#[local] Existing Instance billing_theory.demo_laws.
#[local] Existing Instance billing.fake_gateway.

Definition no_telemetry : Telemetry := mkTelemetry [] [] [] [].
Definition no_instruments : Instruments := mkInstruments [] [] [] [].

Definition demo_tick {S ID} (found : S) (now : Time) : Tick S ID :=
  mkTick found now (fun _ => now) Second (fun _ => Second).

(** An auction past its deadline, with two bids. *)
Definition due_auction : auction.Auction := Eval vm_compute in
  auction.set_events []
    (auction_theory.demo.runs [auction_theory.demo.bid1; auction_theory.demo.bid2]
       auction_theory.demo.a0).

Definition due_mem : auction_repo.AuctionInMemRepository :=
  auction_repo.mkAuctionInMemRepository {[ auction.mkAuctionID 1 := due_auction ]}.

Lemma due_storable : auction_repo_theory.storable due_auction.
Proof.
  constructor; try (vm_compute; congruence); try (vm_compute; split; congruence).
  - right. by split.
  - split; [exists 60|split; [exists 120|]]; by split_and?.
  - right. constructor; vm_compute; congruence.
  - right. constructor; vm_compute; congruence.
Qed.

Definition demo_closing : Tick auction_repo.AuctionInMemRepository auction.AuctionID :=
  demo_tick due_mem (2300 * Second).

Lemma demo_closing_fine : closing_fine demo_closing.
Proof.
  constructor.
  - intros id a. simpl. rewrite lookup_singleton_Some. intros [<- <-].
    split_and!; [apply due_storable|reflexivity..].
  - intros id a. simpl. rewrite lookup_singleton_Some. intros [<- <-]. vm_compute. reflexivity.
  - intros id. exact (Z.le_refl _).
Qed.

Lemma closing_worker_runs_witness :
  (Run (auction_worker auction_theory.demo.rules) (TickerC <$> [demo_closing; demo_closing])
    ((due_mem, no_telemetry), no_instruments)).1 = Ok false.
Proof.
  exact (proj1 (closing_worker_runs auction_theory.demo.rules [demo_closing] demo_closing [] due_mem
    no_telemetry no_instruments
    (Forall_cons_2 _ _ _ demo_closing_fine (Forall_cons_2 _ _ _ demo_closing_fine (Forall_nil_2 _))))).
Defined.

Definition demo_commission : invoice.CommissionPolicy := invoice.mkCommissionPolicy 1000.
Definition demo_term : invoice.PaymentTerm := invoice.mkPaymentTerm Second.

Definition demo_expiry : Tick invoice_repo.InvoiceInMemoryRepository invoice.InvoiceID :=
  demo_tick billing_theory.demo_store (3 * Second).

Lemma demo_expiry_fine : expiry_fine demo_expiry.
Proof.
  constructor; [exact billing_theory.demo_store_ok|].
  intros id. exact (Z.le_refl _).
Qed.

Lemma expiry_worker_runs_witness :
  (Run (billing_worker (P := billing.FakePSP) demo_commission demo_term) (TickerC <$> [demo_expiry; demo_expiry])
    ((billing_theory.demo_store, no_telemetry), no_instruments)).1 = Ok false.
Proof.
  exact (proj1 (expiry_worker_runs (P := billing.FakePSP) demo_commission demo_term [demo_expiry] demo_expiry [] billing_theory.demo_store
    no_telemetry no_instruments
    (Forall_cons_2 _ _ _ demo_expiry_fine (Forall_cons_2 _ _ _ demo_expiry_fine (Forall_nil_2 _))))).
Defined.

(** The tick closes the auction: one candidate, one command, no error. *)
Example demo_closing_report :
  let '(r, w) := Run (auction_worker auction_theory.demo.rules) [TickerC demo_closing; CtxDone]
    ((due_mem, no_telemetry), no_instruments) in
  r = Ok true ∧ dueBacklog w.2 = [("closing", 1)] ∧ tickDuration w.2 = [("closing", Second)]
  ∧ tick_records w.2 = [] ∧ span_name <$> spans w.1.2 = ["commands/CloseAuction"]
  ∧ auction.a_status <$> (auction_repo.auctions w.1.1 !! auction.mkAuctionID 1)
    = Some auction.StatusClosed.
Proof. vm_compute. done. Qed.
End workers.
