(* ===== verification/Routing.v ===== *)
(** * Routing

    How an integration event finds its handlers: the event bus and the event
    processors of [common/watermill/cqrs.go], the subscriptions of the auction,
    settlement and notification contexts ([ports/events.go]) and the topics
    their services choose.  What the processor of the cqrs package does with a
    message is the class [CqrsLib], with its documented behaviour in
    [CqrsLaws].  [events_routed]: every event reaches exactly the handlers the
    rest of the development runs on it. *)

From stdpp Require Import base numbers list strings.
From Stdlib Require Import ZArith Lia.
From S2P Require Import Prelude DemoUUID GoText Errs Events Processes AuctionRepo AuctionApp AuctionProjections InvoiceDomain InvoiceRepo SettlementDomain SettlementRepo Settlement Notification.

(** ** The cqrs package *)

(** A message: the topic it is published to, the name of its event on the wire
    and the event. *)
Record Message := mkMessage {
  msg_topic : string;
  msg_name : string;
  msg_event : Event;
}.

(** [cqrs.NewEventHandler(name, f)]: the name of the handler, the struct of
    the events it takes, and [f]. *)
Record EventHandler (X : Type) := mkEventHandler {
  HandlerName : string;
  NewEvent : string;
  Handle : Event → option X;
}.
Arguments mkEventHandler {_} _ _ _.
Arguments HandlerName {_} _.
Arguments NewEvent {_} _.
Arguments Handle {_} _ _.

(** [cqrs.EventProcessorConfig], as far as the program sets it. *)
Record EventProcessorConfig := mkEventProcessorConfig {
  AckOnUnknownEvent : bool;
  GenerateSubscribeTopic : string → result string;
}.

(** What a subscription makes of a message: it does not see the messages of
    other topics; it runs its handler, acknowledges, or fails. *)
Inductive Reaction := NotReceived | Handled | Acked | Rejected.
#[export] Instance Reaction_eq_dec : EqDecision Reaction.
Proof. solve_decision. Defined.

Class CqrsLib := {
  Marshaler_Name : string → string;
  react : EventProcessorConfig → string → Message → Reaction;
}.

(** [StructName] names an event after its struct, whatever precedes the name;
    a subscription for the struct [t] consumes the topic the configuration
    gives for its name, runs its handler on the events of that name and
    acknowledges the others when [AckOnUnknownEvent] is set. *)
Class CqrsLaws `{CqrsLib} := {
  Marshaler_Name_struct : ∃ package, ∀ t, Marshaler_Name t = package +:+ t;
  react_topic : ∀ cfg t m topic,
    GenerateSubscribeTopic cfg (Marshaler_Name t) = Ok topic → topic ≠ msg_topic m →
    react cfg t m = NotReceived;
  react_handled : ∀ cfg t m,
    GenerateSubscribeTopic cfg (Marshaler_Name t) = Ok (msg_topic m) →
    Marshaler_Name t = msg_name m → react cfg t m = Handled;
  react_unknown : ∀ cfg t m,
    GenerateSubscribeTopic cfg (Marshaler_Name t) = Ok (msg_topic m) →
    Marshaler_Name t ≠ msg_name m →
    react cfg t m = if AckOnUnknownEvent cfg then Acked else Rejected;
}.

Module routing.

(** ** Publishing *)

(** The struct of an event. *)
Definition struct_name (e : Event) : string :=
  match e with
  | OfAuction (EvAuctionListedV1 _) => "AuctionListedV1"
  | OfAuction (EvBidPlacedV1 _) => "BidPlacedV1"
  | OfAuction (EvAuctionCancelledV1 _) => "AuctionCancelledV1"
  | OfAuction (EvAuctionClosedV1 _) => "AuctionClosedV1"
  | OfAuction (EvWinnerReassignedV1 _) => "WinnerReassignedV1"
  | OfAuction (EvAuctionRelistedV1 _) => "AuctionRelistedV1"
  | OfAuction (EvSaleSettledV1 _) => "SaleSettledV1"
  | OfAuction (EvSaleFailedV1 _) => "SaleFailedV1"
  | OfBilling (EvInvoiceIssuedV1 _) => "InvoiceIssuedV1"
  | OfBilling (EvInvoicePaidV1 _) => "InvoicePaidV1"
  | OfBilling (EvInvoiceExpiredV1 _) => "InvoiceExpiredV1"
  | OfParticipant (EvParticipantRegisteredV1 _) => "ParticipantRegisteredV1"
  | OfParticipant (EvParticipantVerifiedV1 _) => "ParticipantVerifiedV1"
  end.

Section Publish.
Context `{CqrsLib}.

(** The bus marshals an event under its name and publishes it to the topic of
    that name. *)
Definition NewEventBus (generateTopic : string → string) (e : Event) : Message :=
  let name := Marshaler_Name (struct_name e) in
  mkMessage (generateTopic name) name e.

(** The buses the repositories of the three contexts publish with. *)
Definition auction_bus : Event → Message := NewEventBus (fun _ => auction_Topic).
Definition billing_bus : Event → Message := NewEventBus (fun _ => billing_Topic).
Definition participant_bus : Event → Message := NewEventBus (fun _ => participant_Topic).

Definition publish (e : Event) : Message :=
  match e with
  | OfAuction _ => auction_bus e
  | OfBilling _ => billing_bus e
  | OfParticipant _ => participant_bus e
  end.

Definition NewEventProcessor (generateTopic : string → result string) : EventProcessorConfig :=
  mkEventProcessorConfig true generateTopic.

(** The handlers of a processor that run on a message, under their names,
    which are also their consumer groups. *)
Definition consume {X} (cfg : EventProcessorConfig) (hs : list (EventHandler X)) (m : Message)
    : list (string * X) :=
  omap (fun h =>
    match react cfg (NewEvent h) m with
    | Handled => x ← Handle h (msg_event m); Some (HandlerName h, x)
    | _ => None
    end) hs.
End Publish.

(** ** The subscriptions *)

Section Auction.
Context `{UUIDLib}.
Import projections.

Definition auction_processor `{CqrsLib} : EventProcessorConfig :=
  NewEventProcessor (fun name => Ok (auction_app.topicForEvent name)).

(** [ports.RegisterEventHandlers] of the auction context. *)
Definition auction_handlers : list (EventHandler (M ReadDB unit)) := [
  mkEventHandler "auction.OnParticipantRegistered" "ParticipantRegisteredV1"
    (fun e => match e with
              | OfParticipant (EvParticipantRegisteredV1 e) => Some (OnParticipantRegistered e)
              | _ => None end);
  mkEventHandler "auction.OnParticipantVerified" "ParticipantVerifiedV1"
    (fun e => match e with
              | OfParticipant (EvParticipantVerifiedV1 e) => Some (OnParticipantVerified e)
              | _ => None end);
  mkEventHandler "auction.OnAuctionListed" "AuctionListedV1"
    (fun e => match e with
              | OfAuction (EvAuctionListedV1 e) => Some (OnAuctionListed e) | _ => None end);
  mkEventHandler "auction.OnBidPlaced" "BidPlacedV1"
    (fun e => match e with
              | OfAuction (EvBidPlacedV1 e) => Some (OnBidPlaced e) | _ => None end);
  mkEventHandler "auction.OnAuctionClosed" "AuctionClosedV1"
    (fun e => match e with
              | OfAuction (EvAuctionClosedV1 e) => Some (OnAuctionClosed e) | _ => None end);
  mkEventHandler "auction.OnAuctionCancelled" "AuctionCancelledV1"
    (fun e => match e with
              | OfAuction (EvAuctionCancelledV1 e) => Some (OnAuctionCancelled e) | _ => None end);
  mkEventHandler "auction.OnAuctionRelisted" "AuctionRelistedV1"
    (fun e => match e with
              | OfAuction (EvAuctionRelistedV1 e) => Some (OnAuctionRelisted e) | _ => None end);
  mkEventHandler "auction.OnSaleSettled" "SaleSettledV1"
    (fun e => match e with
              | OfAuction (EvSaleSettledV1 e) => Some (OnSaleSettled e) | _ => None end);
  mkEventHandler "auction.OnSaleFailed" "SaleFailedV1"
    (fun e => match e with
              | OfAuction (EvSaleFailedV1 e) => Some (OnSaleFailed e) | _ => None end)].
End Auction.

Section Settlement.
Context {S A B : Type} `{SettlementRepository S} `{AuctionGateway A} `{BillingGateway B} `{UUIDLib}.
Context (relist : settlement.RelistPolicy) (clk : saga.Clocks).

Definition settlement_processor `{CqrsLib} : EventProcessorConfig :=
  NewEventProcessor (fun name => Ok (saga.topicForEvent name)).

(** [ports.RegisterEventHandlers] of the settlement context. *)
Definition settlement_handlers : list (EventHandler (prog (saga.net S A B) unit)) := [
  mkEventHandler "settlement.OnAuctionClosedStartSettlement" "AuctionClosedV1"
    (fun e => match e with
              | OfAuction (EvAuctionClosedV1 _) => Some (saga.deliver relist clk e) | _ => None end);
  mkEventHandler "settlement.OnInvoicePaid" "InvoicePaidV1"
    (fun e => match e with
              | OfBilling (EvInvoicePaidV1 _) => Some (saga.deliver relist clk e) | _ => None end);
  mkEventHandler "settlement.OnInvoiceExpired" "InvoiceExpiredV1"
    (fun e => match e with
              | OfBilling (EvInvoiceExpiredV1 _) => Some (saga.deliver relist clk e) | _ => None end);
  mkEventHandler "settlement.OnWinnerReassigned" "WinnerReassignedV1"
    (fun e => match e with
              | OfAuction (EvWinnerReassignedV1 _) => Some (saga.deliver relist clk e)
              | _ => None end)].
End Settlement.

Section Notification.
Context {E R S L : Type} `{EmailSender E} `{RecipientDirectory R} `{SellerDirectory S} `{SentLog L} `{GoText}.
Import notification.

Definition notification_processor `{CqrsLib} : EventProcessorConfig :=
  NewEventProcessor (SubscribeTopicFor Marshaler_Name).

(** [EventHandlers.Handlers]. *)
Definition notification_handlers : list (EventHandler (prog (world E R S L) unit)) := [
  mkEventHandler "OnParticipantRegisteredUpsertRecipient" "ParticipantRegisteredV1"
    (fun e => match e with
              | OfParticipant (EvParticipantRegisteredV1 e) => Some (onParticipantRegistered e)
              | _ => None end);
  mkEventHandler "OnParticipantVerified" "ParticipantVerifiedV1"
    (fun e => match e with
              | OfParticipant (EvParticipantVerifiedV1 e) => Some (onParticipantVerified e)
              | _ => None end);
  mkEventHandler "OnBidPlacedNotifyOutbid" "BidPlacedV1"
    (fun e => match e with
              | OfAuction (EvBidPlacedV1 e) => Some (onBidPlaced e) | _ => None end);
  mkEventHandler "OnAuctionListedNotifyRelist" "AuctionListedV1"
    (fun e => match e with
              | OfAuction (EvAuctionListedV1 e) => Some (onAuctionListed e) | _ => None end);
  mkEventHandler "OnAuctionClosedNotifyOutcome" "AuctionClosedV1"
    (fun e => match e with
              | OfAuction (EvAuctionClosedV1 e) => Some (onAuctionClosed e) | _ => None end);
  mkEventHandler "OnWinnerReassignedOfferSecondChance" "WinnerReassignedV1"
    (fun e => match e with
              | OfAuction (EvWinnerReassignedV1 e) => Some (onWinnerReassigned e) | _ => None end);
  mkEventHandler "OnSaleSettledNotifySeller" "SaleSettledV1"
    (fun e => match e with
              | OfAuction (EvSaleSettledV1 e) => Some (onSaleSettled e) | _ => None end);
  mkEventHandler "OnSaleFailedNotifySeller" "SaleFailedV1"
    (fun e => match e with
              | OfAuction (EvSaleFailedV1 e) => Some (onSaleFailed e) | _ => None end);
  mkEventHandler "OnInvoiceIssuedNotifyPaymentDue" "InvoiceIssuedV1"
    (fun e => match e with
              | OfBilling (EvInvoiceIssuedV1 e) => Some (onInvoiceIssued e) | _ => None end);
  mkEventHandler "OnInvoicePaidSendReceipt" "InvoicePaidV1"
    (fun e => match e with
              | OfBilling (EvInvoicePaidV1 e) => Some (onInvoicePaid e) | _ => None end)].
End Notification.

(** ** Names on the wire *)

Lemma HasSuffix_app package t suffix :
  auction_app.HasSuffix (package +:+ t) suffix =
  String.prefix (String.rev suffix) (String.rev t +:+ String.rev package).
Proof. unfold auction_app.HasSuffix. by rewrite rev_string_app. Qed.

(** The topic an event is published to. *)
Definition topic_of (e : Event) : string :=
  match e with
  | OfAuction _ => auction_Topic
  | OfBilling _ => billing_Topic
  | OfParticipant _ => participant_Topic
  end.

(** [t] is one of the elements of a concrete list: one case for each. *)
Ltac each_of Ht :=
  repeat (apply elem_of_cons in Ht as [->|Ht]; [try reflexivity|]); try by apply elem_of_nil in Ht.

Section Laws.
Context `{CqrsLaws}.

Lemma Marshaler_Name_inj t t' : Marshaler_Name t = Marshaler_Name t' ↔ t = t'.
Proof.
  destruct Marshaler_Name_struct as [package Hn]. rewrite !Hn. split; [|by intros ->].
  intros E. by apply (inj (String.app package)) in E.
Qed.

(** The topics of the processors, on the names of the events. *)
Lemma auction_topics t :
  t ∈ ["ParticipantRegisteredV1"; "ParticipantVerifiedV1"; "AuctionListedV1"; "BidPlacedV1";
       "AuctionClosedV1"; "AuctionCancelledV1"; "AuctionRelistedV1"; "SaleSettledV1";
       "SaleFailedV1"] →
  GenerateSubscribeTopic auction_processor (Marshaler_Name t) = Ok (auction_app.topicForEvent t).
Proof.
  destruct Marshaler_Name_struct as [package Hn]. cbn. rewrite Hn.
  unfold auction_app.topicForEvent. rewrite !HasSuffix_app. destruct (String.rev package); intros Ht; each_of Ht.
Qed.

Lemma settlement_topics t :
  t ∈ ["AuctionClosedV1"; "InvoicePaidV1"; "InvoiceExpiredV1"; "WinnerReassignedV1"] →
  GenerateSubscribeTopic settlement_processor (Marshaler_Name t) = Ok (saga.topicForEvent t).
Proof.
  destruct Marshaler_Name_struct as [package Hn]. cbn. rewrite Hn.
  unfold saga.topicForEvent. rewrite !HasSuffix_app. destruct (String.rev package); intros Ht; each_of Ht.
Qed.

Lemma notification_topics t :
  GenerateSubscribeTopic notification_processor (Marshaler_Name t) =
  match list_find (fun p => p.1 = t) (notification.subscribeTopics id) with
  | Some (_, (_, topic)) => Ok topic
  | None => Panic ("notification: no subscribe topic registered for event " +:+ Marshaler_Name t)
  end.
Proof.
  cbn [notification_processor NewEventProcessor GenerateSubscribeTopic].
  unfold notification.SubscribeTopicFor.
  change (notification.subscribeTopics Marshaler_Name) with
    ((fun p => (Marshaler_Name p.1, p.2)) <$> notification.subscribeTopics id).
  rewrite list_find_fmap.
  rewrite (list_find_ext _ (fun p => p.1 = t)).
  2:{ intros p. cbn. apply Marshaler_Name_inj. }
  by destruct (list_find _ _) as [[n [t' topic]]|].
Qed.

(** What a subscription makes of a published event. *)
Lemma react_published cfg t topic e :
  AckOnUnknownEvent cfg = true → GenerateSubscribeTopic cfg (Marshaler_Name t) = Ok topic →
  react cfg t (publish e) =
    if decide (topic = topic_of e) then if decide (t = struct_name e) then Handled else Acked
    else NotReceived.
Proof.
  intros Hack Ht.
  assert (msg_topic (publish e) = topic_of e ∧ msg_name (publish e) = Marshaler_Name (struct_name e))
    as [Etopic Ename] by (by destruct e).
  destruct (decide (topic = topic_of e)) as [->|Hne].
  - rewrite <- Etopic in Ht. destruct (decide (t = struct_name e)) as [->|Hn].
    + by apply react_handled.
    + rewrite react_unknown, Hack; [done|done|]. by rewrite Ename, Marshaler_Name_inj.
  - eapply react_topic; [exact Ht|by rewrite Etopic].
Qed.

Lemma consume_published {X} cfg (hs : list (EventHandler X)) (topics : string → string) e :
  AckOnUnknownEvent cfg = true →
  (∀ t, t ∈ NewEvent <$> hs → GenerateSubscribeTopic cfg (Marshaler_Name t) = Ok (topics t)) →
  consume cfg hs (publish e) =
    omap (fun h =>
      if decide (topics (NewEvent h) = topic_of e) then
        if decide (NewEvent h = struct_name e) then x ← Handle h e; Some (HandlerName h, x) else None
      else None) hs.
Proof.
  intros Hack Ht. assert (msg_event (publish e) = e) as Ee by (by destruct e).
  unfold consume. rewrite Ee. induction hs as [|h hs IH]; [done|]. cbn.
  rewrite (react_published cfg _ (topics (NewEvent h)) e Hack).
  2:{ apply Ht. cbn. apply list_elem_of_here. }
  rewrite IH.
  2:{ intros t Hin. apply Ht. cbn. by apply list_elem_of_further. }
  by repeat case_decide.
Qed.
End Laws.

(** ** What each context does with an event *)

Definition auction_subscribed `{UUIDLib} (e : Event)
    : option (string * M projections.ReadDB unit) :=
  match e with
  | OfParticipant (EvParticipantRegisteredV1 e) =>
      Some ("auction.OnParticipantRegistered", projections.OnParticipantRegistered e)
  | OfParticipant (EvParticipantVerifiedV1 e) =>
      Some ("auction.OnParticipantVerified", projections.OnParticipantVerified e)
  | OfAuction (EvAuctionListedV1 e) => Some ("auction.OnAuctionListed", projections.OnAuctionListed e)
  | OfAuction (EvBidPlacedV1 e) => Some ("auction.OnBidPlaced", projections.OnBidPlaced e)
  | OfAuction (EvAuctionClosedV1 e) => Some ("auction.OnAuctionClosed", projections.OnAuctionClosed e)
  | OfAuction (EvAuctionCancelledV1 e) =>
      Some ("auction.OnAuctionCancelled", projections.OnAuctionCancelled e)
  | OfAuction (EvAuctionRelistedV1 e) =>
      Some ("auction.OnAuctionRelisted", projections.OnAuctionRelisted e)
  | OfAuction (EvSaleSettledV1 e) => Some ("auction.OnSaleSettled", projections.OnSaleSettled e)
  | OfAuction (EvSaleFailedV1 e) => Some ("auction.OnSaleFailed", projections.OnSaleFailed e)
  | OfAuction (EvWinnerReassignedV1 _) | OfBilling _ => None
  end.

Definition settlement_subscribed (e : Event) : option string :=
  match e with
  | OfAuction (EvAuctionClosedV1 _) => Some "settlement.OnAuctionClosedStartSettlement"
  | OfAuction (EvWinnerReassignedV1 _) => Some "settlement.OnWinnerReassigned"
  | OfBilling (EvInvoicePaidV1 _) => Some "settlement.OnInvoicePaid"
  | OfBilling (EvInvoiceExpiredV1 _) => Some "settlement.OnInvoiceExpired"
  | _ => None
  end.

Section Routed.
Context `{CqrsLaws} `{UUIDLib} `{GoText}.
Context {S A B : Type} `{SettlementRepository S} `{AuctionGateway A} `{BillingGateway B}.
Context {E R D L : Type} `{EmailSender E} `{RecipientDirectory R} `{SellerDirectory D} `{SentLog L}.
Context (relist : settlement.RelistPolicy) (clk : saga.Clocks).

Lemma auction_routed e :
  consume auction_processor auction_handlers (publish e) = option_list (auction_subscribed e).
Proof.
  rewrite (consume_published _ _ auction_app.topicForEvent); [|done|apply auction_topics].
  by destruct e as [[]|[]|[]].
Qed.

Lemma settlement_routed e :
  consume settlement_processor (settlement_handlers (S := S) (A := A) (B := B) relist clk) (publish e)
  = option_list ((fun name => (name, saga.deliver relist clk e)) <$> settlement_subscribed e).
Proof.
  rewrite (consume_published _ _ saga.topicForEvent); [|done|apply settlement_topics].
  by destruct e as [[]|[]|[]].
Qed.

Definition notification_topic (t : string) : string :=
  match list_find (fun p => p.1 = t) (notification.subscribeTopics id) with
  | Some (_, (_, topic)) => topic
  | None => ""
  end.

Lemma notification_routed e :
  consume notification_processor (notification_handlers (E := E) (R := R) (S := D) (L := L)) (publish e)
  = option_list (notification.Handlers e).
Proof.
  rewrite (consume_published _ _ notification_topic); [|done|].
  - by destruct e as [[]|[]|[]].
  - intros t Ht. rewrite notification_topics. unfold notification_topic. cbn in Ht. each_of Ht.
Qed.

(** The names of the handlers of the one router. *)
Definition consumer_groups : list string :=
  (HandlerName <$> auction_handlers)
  ++ (HandlerName <$> settlement_handlers (S := S) (A := A) (B := B) relist clk)
  ++ (HandlerName <$> notification_handlers (E := E) (R := R) (S := D) (L := L)).

Lemma consumer_groups_distinct : NoDup consumer_groups.
Proof. apply (bool_decide_unpack _). vm_compute. done. Qed.

(** C34: every event finds its handlers.  An event a context publishes is
    consumed from the topic it was published to, by exactly the handlers the
    contexts have for its type: the projections, the saga and the notices run
    what the rest of the development runs on it, each once and under its own
    name; where the saga has no handler the event changes nothing.  No
    consumer group is shared, and no subscription ever fails on an event of
    another type. *)
Theorem events_routed e :
  consume auction_processor auction_handlers (publish e) = option_list (auction_subscribed e)
  ∧ consume settlement_processor (settlement_handlers (S := S) (A := A) (B := B) relist clk) (publish e)
    = option_list ((fun name => (name, saga.deliver relist clk e)) <$> settlement_subscribed e)
  ∧ (settlement_subscribed e = None → saga.deliver (S := S) (A := A) (B := B) relist clk e = mret tt)
  ∧ consume notification_processor (notification_handlers (E := E) (R := R) (S := D) (L := L)) (publish e)
    = option_list (notification.Handlers e)
  ∧ NoDup consumer_groups
  ∧ ∀ cfg t, cfg ∈ [auction_processor; settlement_processor; notification_processor] →
      is_ok (GenerateSubscribeTopic cfg (Marshaler_Name t)) = true →
      react cfg t (publish e) ≠ Rejected.
Proof.
  split_and!; [apply auction_routed|apply settlement_routed| |apply notification_routed
    |apply consumer_groups_distinct|].
  - by destruct e as [[]|[]|[]].
  - intros cfg t Hcfg Hok.
    assert (AckOnUnknownEvent cfg = true) as Hack by each_of Hcfg.
    destruct (GenerateSubscribeTopic cfg (Marshaler_Name t)) as [topic|err|p] eqn:Et; try done.
    rewrite (react_published cfg t topic e Hack Et). by repeat case_decide.
Qed.
End Routed.
End routing.

(** ** An instance of the cqrs package *)

Module demo_cqrs.
#[export] Instance lib : CqrsLib := {
  Marshaler_Name t := t;
  react cfg t m :=
    match GenerateSubscribeTopic cfg t with
    | Ok topic =>
        if bool_decide (topic = msg_topic m) then
          if bool_decide (t = msg_name m) then Handled
          else if AckOnUnknownEvent cfg then Acked else Rejected
        else NotReceived
    | _ => NotReceived
    end;
}.

#[export] Instance laws : CqrsLaws.
Proof.
  split.
  - by exists "".
  - intros cfg t m topic Ht Hne. cbn in *. rewrite Ht. by rewrite bool_decide_false.
  - intros cfg t m Ht Hn. cbn in *. rewrite Ht. by rewrite !bool_decide_true.
  - intros cfg t m Ht Hn. cbn in *. rewrite Ht. by rewrite bool_decide_true, bool_decide_false.
Qed.
End demo_cqrs.

(** ** Witness *)

Module routing_witness.
Import demo_uuid demo_cqrs routing notification.inmem.

#[local] Instance text : GoText := { lower_unicode s := s }.
#[local] Instance sagas : SettlementRepository settlement_repo.SettlementInMemoryRepository :=
  settlement_repo.inmem.repository.
#[local] Instance auctions : AuctionRepository auction_repo.AuctionInMemRepository :=
  auction_repo.inmem.repository (fun l => l).
#[local] Instance invoices : InvoiceRepository invoice_repo.InvoiceInMemoryRepository :=
  invoice_repo.inmem.repository (fun l => l).
#[local] Instance awards : AuctionGateway auction_repo.AuctionInMemRepository :=
  saga.auction_facade.
#[local] Instance bills : BillingGateway invoice_repo.InvoiceInMemoryRepository :=
  saga.billing_facade (invoice.mkCommissionPolicy 1000) (invoice.mkPaymentTerm Second).

Definition settled : SaleSettledV1 := mkSaleSettledV1 "e" "a" "b" Second.

(** The settlement of a sale reaches the dashboard and the seller, and not the
    saga. *)
Lemma events_routed_witness :
  consume notification_processor
    (notification_handlers (E := FakeEmailSender) (R := RecipientsInMem)
       (S := SellersInMem) (L := SentLogInMem))
    (publish (OfAuction (EvSaleSettledV1 settled)))
  = [("OnSaleSettledNotifySeller", notification.onSaleSettled settled)].
Proof.
  exact (proj1 (proj2 (proj2 (proj2 (events_routed
    (S := settlement_repo.SettlementInMemoryRepository) (A := auction_repo.AuctionInMemRepository)
    (B := invoice_repo.InvoiceInMemoryRepository)
    (settlement.mkRelistPolicy Second Second) (saga.mkClocks Second Second Second)
    (OfAuction (EvSaleSettledV1 settled))))))).
Defined.
End routing_witness.
