(* ===== verification/Platform.v ===== *)
(** * The platform over Postgres

    The settlement, auction and billing contexts with their Postgres
    repositories, composed as [internal/monolith] composes them: HTTP requests,
    workers and payments change the databases, the repositories write the
    integration events into the outboxes, the outboxes are delivered to the
    saga in any order and any number of times, and the saga calls the other
    contexts back.  Nothing is assumed of the events but that their amounts leave
    room for a commission: what they say is what the repositories wrote. *)

From stdpp Require Import base numbers list strings gmap fin_maps relations.
From Stdlib Require Import ZArith Lia.
From S2P Require Import Prelude DemoUUID Errs Auth Postgres Events AuctionDomain AuctionTheory AuctionRepo AuctionApp AuctionRepoTheory AuctionAppTheory InvoiceDomain InvoiceRepo Billing InvoiceRepoTheory InvoiceTheory BillingTheory Outbox Processes SettlementDomain SettlementRepo Settlement SettlementRepoTheory SagaTheory SagaGateways SagaProtocol SagaRedelivery SagaClaims SagaBilling Serving.

Module platform.
Import auction_repo auction_repo_theory auction_app_theory invoice_repo invoice_repo_theory invoice_theory.
Import settlement saga settlement_repo settlement_repo_theory saga_theory saga_protocol saga_gateways saga_claims saga_billing serving.
Local Open Scope Z_scope.

(** ** Requests *)

(** What reaches the contexts from outside: the auction endpoints, a candidate
    of the closing worker, a candidate of the expiry worker, and one step of a
    payment with whatever state its provider is in. *)
Inductive request :=
| RListAuction (now : Time) (ctx : option auth.User) (body : auction_app.ListAuctionBody)
| RPlaceBid (profiles : auction.BidderID → result auction.Bidder) (now : Time)
    (ctx : option auth.User) (id : uuid) (body : auction_app.PlaceBidBody)
| RCancelAuction (now : Time) (ctx : option auth.User) (id : uuid)
| RCloseAuction (now : Time) (cmd : auction_app.CloseAuction)
| RExpireInvoice (now : Time) (cmd : billing.ExpireInvoice)
| RPayment {P : Type} {G : PaymentGateway P} (provider : P) (now : Time)
    (cmd : billing.PayInvoice) (pc : billing.pay_pc).

(** A window starts after the zero time. *)
Definition valid_request (r : request) : Prop :=
  match r with
  | RListAuction _ _ body => 0 < auction_app.lb_StartsAt body
  | _ => True
  end.

Section Serve.
Context `{UUIDLib} {S A B : Type} `{!AuctionRepository A} `{!InvoiceRepository B}.
Context (rules : auction.ListingRules).

Definition serve (r : request) (w : net S A B) : net S A B :=
  let '(mkNet st a b) := w in
  match r with
  | RListAuction now ctx body =>
      mkNet st (auction_app.Http_ListAuction rules now ctx body a).2 b
  | RPlaceBid profiles now ctx id body =>
      mkNet st (auction_app.Http_PlaceBid profiles now ctx id body a).2 b
  | RCancelAuction now ctx id => mkNet st (auction_app.Http_CancelAuction now ctx id a).2 b
  | RCloseAuction now cmd => mkNet st (auction_app.CloseAuctionHandler now cmd a).2 b
  | RExpireInvoice now cmd => mkNet st a (billing.ExpireInvoiceHandler now cmd b).2
  | RPayment provider now cmd pc => mkNet st a (billing.pay_step now cmd pc (b, provider)).2.1
  end.

Inductive served : net S A B → net S A B → Prop :=
| Served r w : valid_request r → served w (serve r w).
End Serve.

Section Platform.
Context `{UUIDLib}.

#[local] Instance sagas_store : SettlementRepository SettlementDB | 0 :=
  settlement_repo.pg.repository no_faults.
#[local] Instance sagas_store_laws : SettlementRepositoryLaws SettlementDB | 0 := saga_pg_laws.
#[local] Instance auctions_store : AuctionRepository AuctionDB | 0 :=
  auction_repo.pg.repository no_faults.
#[local] Instance invoices_store : InvoiceRepository InvoiceDB | 0 :=
  invoice_repo.pg.repository no_faults.

Abbreviation world := (net SettlementDB AuctionDB InvoiceDB).

Context (relist : RelistPolicy) (rules : auction.ListingRules).
Context (policy : invoice.CommissionPolicy) (term : invoice.PaymentTerm).

#[local] Instance platform_bills : BillingGateway InvoiceDB := billing_facade policy term.

(** ** Deliveries *)

(** The saga is handed an event of an outbox, any number of times.  Amounts
    the commission of which overflows are out of scope. *)
Definition deliverable (e : Event) (w : world) : Prop :=
  match e with
  | OfAuction ev =>
      ev ∈ auction_repo.db_outbox (n_auctions w)
      ∧ match ev with
        | EvAuctionClosedV1 e =>
            acl_HammerPriceMinor e * 10000 ≤ int64_max
            ∧ acl_RunnerUpAmountMinor e * 10000 ≤ int64_max
        | _ => True
        end
  | OfBilling ev => ev ∈ invoice_repo.db_outbox (n_billing w)
  | OfParticipant _ => True
  end.

Definition platform_may (j : job) (w : world) : Prop :=
  valid_clocks j.1 ∧ match j.2 with Delivery e => deliverable e w | Decline _ => True end.

(** No auction is updated more often than its version counts. *)
Definition platform_fits (w : world) : Prop :=
  ∀ id x, auction_repo_theory.pg_view (n_auctions w) !! id = Some x → auction.a_version x < int64_max.

Abbreviation platform := (pool (W := world) (J := job)).

Definition platform_step : platform → platform → Prop :=
  pool_step platform_fits (job_body relist) platform_may (served rules).

(** The platform when it is first started. *)
Definition start : platform :=
  mkPool (mkNet (mkSettlementDB ∅ []) (mkAuctionDB ∅ [] [] 0) (mkInvoiceDB ∅ [] 0)) [].

(** ** The rules of the composition *)

Context `{!UUIDLaws}.
Context (relist_valid : valid_policy relist) (rules_storable : storable_rules rules).
Context (policy_valid : invoice_theory.valid_policy policy)
  (term_valid : 0 < invoice.PaymentTerm_Duration term).

#[local] Instance auctions_laws : AuctionRepositoryLaws AuctionDB | 0 := auction_outbox.pg_told_laws.
#[local] Instance invoices_laws : InvoiceRepositoryLaws InvoiceDB | 0 := billing_outbox.pg_told_laws.
#[local] Instance platform_bills_laws : BillingGatewayLaws InvoiceDB :=
  bills_laws policy term policy_valid term_valid.

Implicit Types (w : world) (c : platform).

Lemma served_others w w' : net_inv w → net_fits w → served rules w w' →
  (w' = w ∨ others w w') ∧ promotes (fun _ => False) (n_auctions w) (n_auctions w')
  ∧ grows (n_auctions w) (n_auctions w').
Proof.
  intros Hi Hf Hs. destruct Hs as [r [st a b] Hv].
  pose proof (ni_auctions _ Hi) as Ha. pose proof (ni_billing _ Hi) as [Hb _].
  cbn [n_auctions n_billing] in *.
  assert (∀ a', auctions_served a a' →
    (mkNet st a' b = mkNet st a b ∨ others (mkNet st a b) (mkNet st a' b))
    ∧ promotes (fun _ => False) a a' ∧ grows a a') as HA.
  { intros a' Hs. split_and!; [|by apply served_promotes|by apply served_grows].
    destruct Hs as [->|(Hok & Hm & _)]; [by left|right]. by apply O_auctions. }
  assert (∀ b', invoices_served b b' →
    (mkNet st a b' = mkNet st a b ∨ others (mkNet st a b) (mkNet st a b'))
    ∧ promotes (fun _ => False) a a ∧ grows a a) as HB.
  { intros b' Hs. split_and!; [|apply promotes_refl|by red].
    destruct Hs as [->|(Hok & Hm)]; [by left|right]. by apply O_invoices. }
  destruct r; cbn [serve n_auctions].
  - apply HA, ListAuction_served; [exact rules_storable|exact Hv|exact Ha].
  - apply HA, PlaceBid_served; [exact Ha|exact Hf].
  - apply HA, CancelAuction_served; [exact Ha|exact Hf].
  - apply HA, CloseAuction_served; [exact Ha|exact Hf].
  - apply HB, ExpireInvoice_served, Hb.
  - apply HB, pay_step_served, Hb.
Qed.

(** *** What is delivered is so *)

Lemma parse_String field u : parseEventUUID field (uuid_String u) = Ok u.
Proof. unfold parseEventUUID. by rewrite uuid_Parse_String. Qed.

(** What a billing event in the outbox says of the invoice it names. *)
Lemma billing_told w ev : net_inv w → ev ∈ invoice_repo.db_outbox (n_billing w) →
  ∃ i, inv_view (n_billing w) !! invoice.i_id i = Some i ∧ billing_outbox.published i ev.
Proof. intros Hi Hin. pose proof (ni_billing _ Hi) as [[_ Ht] _]. by apply Ht. Qed.

Lemma auction_told w ev : net_inv w → ev ∈ auction_repo.db_outbox (n_auctions w) →
  ∃ x, repo_view (n_auctions w) !! auction.a_id x = Some x ∧ auction_outbox.published x ev.
Proof.
  intros Hi Hin. pose proof (ni_auctions _ Hi) as [_ Ht]. by apply (auction_outbox.to_true _ Ht).
Qed.

Lemma expired_told w e u : net_inv w →
  EvInvoiceExpiredV1 e ∈ invoice_repo.db_outbox (n_billing w) →
  parseEventUUID "invoice_id" (ie_InvoiceID e) = Ok u →
  invoiced closed_invoice (n_billing w) (mkInvoiceID u).
Proof.
  intros Hi Hin Hu. destruct (billing_told w _ Hi Hin) as (i & Hl & E & _ & _ & _ & Hs).
  rewrite E in Hu. unfold invoice_repo.InvoiceID_String in Hu. rewrite parse_String in Hu. injection Hu as <-.
  exists i. unfold iv. simpl. destruct (invoice.i_id i) eqn:Ei. rewrite <-Ei in *.
  split; [by rewrite Ei in Hl |- *|by left].
Qed.

Lemma paid_told w e u : net_inv w →
  EvInvoicePaidV1 e ∈ invoice_repo.db_outbox (n_billing w) →
  parseEventUUID "invoice_id" (ip_InvoiceID e) = Ok u →
  invoiced paid_invoice (n_billing w) (mkInvoiceID u).
Proof.
  intros Hi Hin Hu. destruct (billing_told w _ Hi Hin) as (i & Hl & E & _ & _ & _ & _ & Hs).
  rewrite E in Hu. unfold invoice_repo.InvoiceID_String in Hu. rewrite parse_String in Hu. injection Hu as <-.
  exists i. unfold iv. simpl. destruct (invoice.i_id i) eqn:Ei. rewrite <-Ei in *.
  split; [by rewrite Ei in Hl |- *|done].
Qed.

Lemma reassigned_told w e u : net_inv w →
  EvWinnerReassignedV1 e ∈ auction_repo.db_outbox (n_auctions w) →
  parseEventUUID "auction_id" (wr_AuctionID e) = Ok u →
  sale (fun x => auction.a_winnerReassigned x = true) (n_auctions w) (mkAuctionID u).
Proof.
  intros Hi Hin Hu. destruct (auction_told w _ Hi Hin) as (x & Hl & E & _ & _ & Hr & _).
  rewrite E in Hu. unfold auction_repo.AuctionID_String in Hu. rewrite parse_String in Hu. injection Hu as <-.
  exists x. unfold au. simpl. split; [by destruct (auction.a_id x)|done].
Qed.

Lemma deliverable_truthful e w : net_inv w → deliverable e w → truthful e w.
Proof.
  intros Hi. destruct e as [ev|ev|ev]; destruct ev; cbn [deliverable truthful]; try done.
  - by intros [_ ?].
  - intros Hin u. by apply paid_told.
  - intros Hin u. by apply expired_told.
Qed.

(** An execution of the platform is one of the saga's, whatever is true of
    everything that is delivered. *)
Section Told.
Context (announced : AuctionClosedV1 → Prop) (lapsing : InvoiceID → Prop)
  (promoted : AuctionID → Prop).

Abbreviation right := (billing_ok policy term policy_valid term_valid announced lapsing promoted grows).
Abbreviation told_step := (pool_step (W := world) (J := job) net_fits (job_body relist)
  (fun j w => job_may j w ∧ allowed announced lapsing promoted j) (served rules)).

Lemma platform_reachable c c1 : right c → rtc told_step c c1 →
  right c1 ∧ net_le (mem c) (mem c1) ∧ grows (n_auctions (mem c)) (n_auctions (mem c1)).
Proof.
  refine (billing_reachable relist relist_valid policy term policy_valid term_valid announced lapsing
    promoted grows update_grows add_grows (served rules) _ _ _ c c1);
    intros w w' Hi Hf Hs; by destruct (served_others w w' Hi Hf Hs) as (? & ? & ?).
Qed.

Lemma platform_told c c1 : right c → rtc platform_step c c1 →
  (∀ c' j, rtc platform_step c c' → rtc platform_step c' c1 → right c' → platform_may j (mem c') →
     allowed announced lapsing promoted j) →
  rtc told_step c c1.
Proof.
  intros Ho Hr Ha. induction Hr as [c|c c2 c1 Hs Hr IH]; [done|].
  assert (told_step c c2) as Hs'.
  { pose proof Ho as [[Hi _ _] _].
    pose proof (rtc_l _ _ _ _ Hs Hr) as Hr'. destruct Hs as [c j Hm|c k j p Hk Hf|c k|c w He Hf].
    - apply P_spawn. split; [|by eapply (Ha c)]. destruct Hm as [Hc He]. split; [done|].
      destruct (j.2); [by apply deliverable_truthful|done].
    - by apply P_call.
    - apply P_crash.
    - by apply P_env. }
  eapply rtc_l; [done|]. apply IH.
  - by apply (platform_reachable c c2 Ho), rtc_once.
  - intros c' j Hc. apply Ha. by eapply rtc_l.
Qed.

Lemma start_right : right start.
Proof.
  apply billing_initial; [constructor|..]; simpl; try done; split; try done.
  - split; [intros u p Hl; exfalso; exact (lookup_empty_Some _ _ Hl)|].
    split; [by intros ev ?%not_elem_of_nil|constructor|done|].
    intros id x Hl. exfalso. exact (lookup_empty_Some _ _ Hl).
  - split; [intros u p Hl; exfalso; exact (lookup_empty_Some _ _ Hl)|by intros ev ?%not_elem_of_nil].
Qed.
End Told.

(** ** What an execution has told in the end *)

Definition announced_in c (e : AuctionClosedV1) : Prop :=
  EvAuctionClosedV1 e ∈ auction_repo.db_outbox (n_auctions (mem c)).
Definition lapsed_in c (inv : InvoiceID) : Prop := invoiced closed_invoice (n_billing (mem c)) inv.
Definition promoted_in c (id : AuctionID) : Prop :=
  sale (fun x => auction.a_winnerReassigned x = true) (n_auctions (mem c)) id
  ∧ shut (lapsed_in c) id.

Abbreviation right_in c :=
  (billing_ok policy term policy_valid term_valid (announced_in c) (lapsed_in c) (promoted_in c) grows).

(** Nothing is ever taken back. *)
Lemma platform_grows c c1 : rtc platform_step start c → rtc platform_step c c1 →
  net_le (mem c) (mem c1) ∧ grows (n_auctions (mem c)) (n_auctions (mem c1)).
Proof.
  intros H1 H2. set (any1 := fun _ : AuctionClosedV1 => True).
  set (any2 := fun _ : InvoiceID => True). set (any3 := fun _ : AuctionID => True).
  assert (∀ j, allowed any1 any2 any3 j) as Ha by (by intros [? [[[]|[]|[]]|]]).
  assert (rtc (pool_step (W := world) net_fits (job_body relist)
    (fun j w => job_may j w ∧ allowed any1 any2 any3 j) (served rules)) start c) as Ht
    by (apply platform_told; [apply start_right|done|auto]).
  destruct (platform_reachable _ _ _ _ _ (start_right any1 any2 any3) Ht) as [Hc _].
  apply (platform_reachable any1 any2 any3 c c1 Hc). by apply platform_told.
Qed.

Lemma told_right c : rtc platform_step start c → right_in c c.
Proof.
  intros Hr. pose proof (start_right (announced_in c) (lapsed_in c) (promoted_in c)) as Hs.
  apply (platform_reachable _ _ _ _ _ Hs), platform_told; [done..|].
  intros c' [clk q] H1 H2 [[Hi _ _] [Hk _]] [_ He].
  destruct (platform_grows c' c H1 H2) as [Hle Hg]. destruct q as [e|cmd]; [|done]. simpl in He.
  destruct e as [ev|ev|ev]; destruct ev; unfold allowed; cbn [snd]; try done.
  - destruct He as [He _]. unfold announced_in. destruct Hg as [evs ->]. apply elem_of_app. by left.
  - intros u Hu. destruct He as [He _]. pose proof (reassigned_told _ _ _ Hi He Hu) as (x & Hl & Hx).
    split; [apply (sl_awarded _ _ _ (nl_auctions _ _ Hle)); by exists x|].
    exact (br_promoted _ _ _ _ Hk _ x Hl Hx).
  - intros u Hu. apply (bl_closed _ _ _ (nl_billing _ _ Hle)). by eapply expired_told.
Qed.

(** ** What an invoice says of its auction *)

(** The closing an event asks for. *)
Lemma buildClosing_terms ca cl : buildClosing ca = Ok cl →
  cl_auctionID cl = mkAuctionID (ca_AuctionID ca)
  ∧ BidderID_UUID (cl_winner cl) = ca_WinnerID ca ∧ m_amount (cl_hammer cl) = ca_HammerMinor ca
  ∧ BidderID_UUID (cl_runnerUp cl) = ca_RunnerUpID ca
  ∧ (ca_RunnerUpID ca ≠ uuid_Nil → m_amount (cl_runnerUpAmount cl) = ca_RunnerUpMinor ca).
Proof.
  unfold buildClosing. intros Hb.
  apply res_bind_ok in Hb as (auc & [-> _]%NewAuctionID_inv & Hb).
  apply res_bind_ok in Hb as (win & [-> _]%NewBidderID_inv & Hb).
  apply res_bind_ok in Hb as (cur & _ & Hb).
  apply res_bind_ok in Hb as (ham & [-> _]%NewMoney_inv & Hb).
  apply res_bind_ok in Hb as ([ru amt] & Hru & Hb).
  apply res_bind_ok in Hb as (inv & _ & Hb). apply NewClosing_inv in Hb as (-> & _). simpl.
  case_bool_decide as Hn.
  - apply res_bind_ok in Hru as (ru' & [-> _]%NewBidderID_inv & Hru).
    apply res_bind_ok in Hru as (amt' & [-> _]%NewMoney_inv & Hru). by simplify_eq/=.
  - simplify_eq/=. by split_and!.
Qed.

Lemma told_bidder_parse field b :
  parseOptionalEventUUID field (auction_outbox.told_bidder b)
  = Ok (auction.BidderID_UUID (auction.b_bidder b)).
Proof.
  unfold auction_outbox.told_bidder, parseOptionalEventUUID. destruct (IsZero b) eqn:E; simpl.
  - breflect. by rewrite E.
  - unfold auction_repo.BidderID_String. rewrite bool_decide_eq_false_2 by apply uuid_String_nonempty.
    apply parse_String.
Qed.

Lemma told_amount_bid b : auction_outbox.told_amount b = auction.m_amount (auction.b_amount b).
Proof.
  unfold auction_outbox.told_amount. destruct (IsZero b) eqn:E; [|done]. breflect. by rewrite E.
Qed.

(** The invoice charges the bidder the bid. *)
Definition owes (i : invoice.Invoice) (b : auction.Bid) : Prop :=
  invoice.BidderID_UUID (invoice.i_debtor i) = auction.BidderID_UUID (auction.b_bidder b)
  ∧ invoice.m_amount (invoice.i_hammer i) = auction.m_amount (auction.b_amount b).

Lemma charges_owes x e cl i n :
  auction_outbox.published x (EvAuctionClosedV1 e) → sold_as e cl → invoice_repo_theory.storable i →
  charges i (cl_auctionID cl) (if n =? 1 then cl_winner cl else cl_runnerUp cl)
    (if n =? 1 then cl_hammer cl else cl_runnerUpAmount cl) n →
  auction.AuctionID_UUID (auction.a_id x) = invoice.AuctionID_UUID (invoice.i_auctionID i)
  ∧ auction.a_status x = auction.StatusClosed
  ∧ (auction.a_winnerReassigned x = negb (n =? 1) → owes i (auction.a_leadingBid x)).
Proof.
  intros (Ei & _ & _ & _ & Hst & Ho) (Hsold & ca & Hca & Hb) Hs (Ha & Hd & Hh & _ & Hn).
  destruct Ho as [[_ Hcb]|[Ho _]]; [|rewrite Hsold in Ho; done].
  unfold closed_auction in Hca. rewrite Ei in Hca. unfold auction_repo.AuctionID_String in Hca.
  rewrite parse_String in Hca. apply res_bind_ok in Hca as (au0 & [= <-] & Hca).
  apply res_bind_ok in Hca as (win & Hwin & Hca). apply res_bind_ok in Hca as (ru & Hru & Hca).
  injection Hca as <-. apply buildClosing_terms in Hb as (Ea & Ew & Eh & Er & Em). simpl in *.
  split_and!; [by rewrite Ha, Ea|done|]. intros Hw. unfold auction_outbox.closing_bids in Hcb.
  rewrite Hw in Hcb. unfold owes. rewrite Hd, Hh. destruct (n =? 1); simpl in *.
  - destruct Hcb as (Hb & Hm & _). rewrite Hb, told_bidder_parse in Hwin. injection Hwin as Hwin.
    by rewrite Ew, Eh, Hm, told_amount_bid, <-Hwin.
  - destruct Hcb as (Hb & Hm). rewrite Hb, told_bidder_parse in Hru. injection Hru as Hru.
    rewrite Er, Em, Hm, told_amount_bid, <-Hru; [done|].
    intros Hz. destruct (invoice_repo_theory.so_debtor i Hs). rewrite Er, Hz in Hd.
    destruct (invoice.i_debtor i). simpl in Hd. by subst.
Qed.

(** The same auction in the auction context. *)
Definition auction_of (i : invoice.Invoice) : auction.AuctionID :=
  auction.mkAuctionID (invoice.AuctionID_UUID (invoice.i_auctionID i)).

Lemma view_told c id x : net_inv (mem c) → repo_view (n_auctions (mem c)) !! id = Some x →
  auction.a_id x = id.
Proof. intros Hi Hl. by destruct (view_ok _ _ _ (ni_auctions _ Hi) Hl) as (_ & ? & _). Qed.

(** An invoice and its auction, in what an execution has told. *)
Lemma billed_auction c k i n :
  right_in c c → inv_view (n_billing (mem c)) !! k = Some i → invoice_repo_theory.storable i →
  invoice.Attempt_Int (invoice.i_attempt i) = n →
  ∃ x, repo_view (n_auctions (mem c)) !! auction_of i = Some x
    ∧ auction.a_status x = auction.StatusClosed
    ∧ (auction.a_winnerReassigned x = negb (n =? 1) → owes i (auction.a_leadingBid x)).
Proof.
  intros [[Hi _ _] [Hk _]] Hl Hs Hn.
  destruct (br_invoices _ _ _ _ Hk k i Hl) as (auc & cl & (Hau & e & He & Hsold) & Hch).
  destruct (auction_told (mem c) _ Hi He) as (x & Hx & Hp).
  assert (charges i (cl_auctionID cl) (if n =? 1 then cl_winner cl else cl_runnerUp cl)
    (if n =? 1 then cl_hammer cl else cl_runnerUpAmount cl) n) as Hc.
  { rewrite Hau. destruct Hch as [Hch|Hch]; pose proof Hch as (_ & _ & _ & _ & En);
      rewrite Hn in En; subst n; by rewrite En in *. }
  destruct (charges_owes x e cl i n Hp Hsold Hs Hc) as (Ei & Hst & Ho). exists x.
  split_and!; [|done..]. unfold auction_of. rewrite <-Ei. by destruct (auction.a_id x).
Qed.

(** Once the runner-up is promoted, the first invoice is closed. *)
Lemma first_closed c k i x :
  right_in c c → inv_view (n_billing (mem c)) !! k = Some i →
  invoice.Attempt_Int (invoice.i_attempt i) = 1 →
  repo_view (n_auctions (mem c)) !! auction_of i = Some x → auction.a_winnerReassigned x = true →
  closed_invoice i.
Proof.
  intros [[Hi _ _] [Hk _]] Hl Hn Hx Hw.
  destruct (br_promoted _ _ _ _ Hk _ x Hx Hw) as (inv & Hinv & j & Hj & Hc).
  pose proof (ni_billing _ Hi) as [_ Hd]. specialize (Hd k i Hl). rewrite Hn in Hd.
  unfold sale_id, auction_of in Hinv. simpl in Hinv. rewrite Hinv in Hd. injection Hd as ->.
  assert (iv (mkInvoiceID (invoice.InvoiceID_UUID k)) = k) as Ek by (by destruct k).
  rewrite Ek, Hl in Hj. by injection Hj as <-.
Qed.

Lemma invoice_cases c k i :
  rtc platform_step start c → inv_view (n_billing (mem c)) !! k = Some i →
  ∃ x, repo_view (n_auctions (mem c)) !! auction_of i = Some x
    ∧ auction.a_status x = auction.StatusClosed
    ∧ (owes i (auction.a_leadingBid x)
         ∧ invoice.Attempt_Int (invoice.i_attempt i) = (if auction.a_winnerReassigned x then 2 else 1)
       ∨ closed_invoice i ∧ auction.a_winnerReassigned x = true).
Proof.
  intros Hr Hl. pose proof (told_right c Hr) as Ho. pose proof Ho as [[Hi _ _] [Hk _]].
  pose proof (ni_billing _ Hi) as [Hok _]. destruct (inv_view_ok _ k i Hok Hl) as (Hs & _).
  destruct (billed_auction c k i _ Ho Hl Hs eq_refl) as (x & Hx & Hst & Hb).
  exists x. split_and!; [done..|].
  destruct (invoice_repo_theory.so_attempt i Hs) as [E|E]; rewrite E in *; simpl in *.
  - destruct (auction.a_winnerReassigned x) eqn:Hw; [right|left; auto].
    split; [|done]. apply (first_closed c k i x Ho Hl); [by rewrite E|done..].
  - assert (invoice.Attempt_Int (invoice.i_attempt i) = 2) as Hn by (by rewrite E).
    destruct (br_second _ _ _ _ Hk k i Hl Hn) as [(y & Hy & Hw) _].
    assert (Some x = Some y) as [= <-] by (etrans; [symmetry; exact Hx|exact Hy]).
    left. rewrite Hw in *. auto.
Qed.

(** Of two invoices of an auction, one can no longer be paid. *)
Lemma payable_once c k k' i i' :
  rtc platform_step start c →
  invoice_repo_theory.pg_view (n_billing (mem c)) !! k = Some i →
  invoice_repo_theory.pg_view (n_billing (mem c)) !! k' = Some i' →
  invoice.i_auctionID i' = invoice.i_auctionID i →
  ¬ closed_invoice i → ¬ closed_invoice i' → k' = k.
Proof.
  intros Hr Hl Hl' Ha Hn Hn'. pose proof (told_right c Hr) as [[Hi _ _] _].
  pose proof (ni_billing _ Hi) as [_ Hd]. pose proof (Hd k i Hl) as E. pose proof (Hd k' i' Hl') as E'.
  assert (invoice.Attempt_Int (invoice.i_attempt i') = invoice.Attempt_Int (invoice.i_attempt i)) as En.
  { destruct (invoice_cases c k i Hr Hl) as (x & Hx & _ & [[_ ->]|[? _]]); [|done].
    destruct (invoice_cases c k' i' Hr Hl') as (x' & Hx' & _ & [[_ ->]|[? _]]); [|done].
    unfold auction_of in *. rewrite Ha, Hx in Hx'. by injection Hx' as <-. }
  rewrite Ha, En, E in E'. injection E' as E'. destruct k, k'. simpl in E'. by subst.
Qed.

(** ** Claims *)

(** C10: everything the outboxes say is true, and stays true, of the aggregates
    the databases hold, no closing is announced twice, and the bids announced
    are, in order, those of the bid history. *)
Theorem outboxes_truthful c :
  rtc platform_step start c →
  (∀ ev, ev ∈ auction_repo.db_outbox (n_auctions (mem c)) →
     ∃ x, auction_repo_theory.pg_view (n_auctions (mem c)) !! auction.a_id x = Some x
       ∧ auction_outbox.published x ev)
  ∧ (∀ ev, ev ∈ invoice_repo.db_outbox (n_billing (mem c)) →
       ∃ i, invoice_repo_theory.pg_view (n_billing (mem c)) !! invoice.i_id i = Some i
         ∧ billing_outbox.published i ev)
  ∧ NoDup (omap auction_outbox.closing_of (auction_repo.db_outbox (n_auctions (mem c))))
  ∧ omap auction_outbox.announced_bid (auction_repo.db_outbox (n_auctions (mem c)))
    = auction_outbox.recorded_bid <$> auction_repo.db_bids (n_auctions (mem c)).
Proof.
  intros Hr. pose proof (told_right c Hr) as [[Hi _ _] _].
  pose proof (ni_auctions _ Hi) as [_ [_ Ho Hb _]]. split_and!; [| |done..].
  - intros ev. by apply auction_told.
  - intros ev. by apply billing_told.
Qed.

(** Whatever the requests, deliveries, interleavings and crashes, every
    invoice is of a closed auction and either charges the bidder who leads it
    now exactly the leading bid, or can no longer be paid. *)
Theorem winner_pays_bid c k i :
  rtc platform_step start c → invoice_repo_theory.pg_view (n_billing (mem c)) !! k = Some i →
  ∃ x, auction_repo_theory.pg_view (n_auctions (mem c)) !! auction_of i = Some x
    ∧ auction.a_status x = auction.StatusClosed
    ∧ (owes i (auction.a_leadingBid x)
         ∧ invoice.Attempt_Int (invoice.i_attempt i) = (if auction.a_winnerReassigned x then 2 else 1)
       ∨ closed_invoice i ∧ auction.a_winnerReassigned x = true).
Proof.
  intros Hr Hl. exact (invoice_cases c k i Hr Hl).
Qed.

(** C8: the saga's bookkeeping is true of the other two databases: a settled
    sale is settled and its invoice paid, a relisted one failed and replaced,
    an unsold one failed, and a lapsed invoice is closed. The events the saga
    is handed are those the two outboxes hold, so their truth is proved and
    not assumed; the one condition on them is [deliverable], that ten thousand
    times the amounts of a closing fits an int64 (the commission of a larger
    one wraps around, [commission_overflow]). *)
Theorem platform_agreement c id s :
  rtc platform_step start c → saga_pg_view (n_saga (mem c)) !! id = Some s →
  saga_wf s ∧ s_auctionID s = id ∧ agrees (mem c) s.
Proof.
  intros Hr Hl. pose proof (told_right c Hr) as [Hp _].
  by apply (stored_agrees policy term policy_valid term_valid c).
Qed.

(** An auction never has two invoices that can be, or have been, paid: the
    winner and the runner-up are never both charged, and neither is charged
    twice. *)
Theorem charged_once c k k' i i' :
  rtc platform_step start c →
  invoice_repo_theory.pg_view (n_billing (mem c)) !! k = Some i →
  invoice_repo_theory.pg_view (n_billing (mem c)) !! k' = Some i' →
  invoice.i_auctionID i' = invoice.i_auctionID i →
  ¬ closed_invoice i → ¬ closed_invoice i' → k' = k.
Proof.
  intros Hr. exact (payable_once c k k' i i' Hr).
Qed.
End Platform.

(** ** A concrete execution, for the witnesses

    An auction is listed and bid for, closed, its winner does not pay, the
    runner-up is promoted and pays: every event is the one in the outbox. *)

Section Demo.
Import demo_uuid.

#[local] Instance demo_sagas : SettlementRepository SettlementDB | 0 :=
  settlement_repo.pg.repository no_faults.
#[local] Instance demo_auctions : AuctionRepository AuctionDB | 0 :=
  auction_repo.pg.repository no_faults.
#[local] Instance demo_invoices : InvoiceRepository InvoiceDB | 0 :=
  invoice_repo.pg.repository no_faults.
#[local] Instance demo_bills : BillingGateway InvoiceDB :=
  billing_facade demo_commission demo_term.

Abbreviation world := (net SettlementDB AuctionDB InvoiceDB).
Abbreviation demo_start := (start : pool (W := world) (J := job)).
Abbreviation demo_serve := (serve auction_theory.demo.rules).
Abbreviation demo_step :=
  (platform_step demo_relist auction_theory.demo.rules demo_commission demo_term).

Definition demo_handle (j : job) (w : world) : world :=
  (Processes.run (job_body demo_relist j) w).2.

Definition demo_fitsb (w : world) : bool :=
  forallb (fun kv => auction.a_version kv.2 <? int64_max)
    (map_to_list (auction_repo_theory.pg_view (n_auctions w))).

Lemma demo_world_fits w : demo_fitsb w = true → platform_fits w.
Proof.
  intros Hb id a Hl. apply Z.ltb_lt. unfold demo_fitsb in Hb. rewrite forallb_forall in Hb.
  apply (Hb (id, a)), list_elem_of_In, elem_of_map_to_list, Hl.
Qed.

(** The memory is reached, whatever processes are left. *)
Definition reached (w : world) : Prop := ∃ ps, rtc demo_step demo_start (mkPool w ps).

Lemma reached_start : reached (mem demo_start).
Proof. by exists []. Qed.

Lemma reached_serve r w w' : valid_request r → demo_serve r w = w' → demo_fitsb w' = true →
  reached w → reached w'.
Proof.
  intros Hv <- Hf [ps Hr]. exists ps. eapply rtc_r; [exact Hr|]. apply P_env; [by constructor|].
  by apply demo_world_fits.
Qed.

Lemma reached_run j w w' : platform_may j w →
  all_fitb demo_fitsb (job_body demo_relist j) w = true → demo_handle j w = w' →
  reached w → reached w'.
Proof.
  intros Hm Hf <- [ps Hr]. eexists. etrans; [exact Hr|].
  exact (spawn_and_run platform_fits (job_body demo_relist) platform_may
    (served auction_theory.demo.rules) (mkPool w ps) j Hm
    (all_fitb_all_fit _ _ _ _ demo_world_fits Hf)).
Qed.

Definition demo_user (n : N) : option auth.User := Some (auth.mkUser n "user").
Definition demo_listing : request :=
  RListAuction Second (demo_user 2)
    (auction_app.mkListAuctionBody 1 "clock" None "EUR" 1000 100 (Some 1500) (1000 * Second) (2000 * Second)).
Definition demo_bid (bidder bid : N) (amount : Z) (now : Time) : request :=
  RPlaceBid (fun b => Ok (auction.mkBidder b true)) now (demo_user bidder) 1
    (auction_app.mkPlaceBidBody bid amount "EUR").
Definition demo_bid1 : request := demo_bid 3 11 1500 (1500 * Second).
Definition demo_bid2 : request := demo_bid 4 12 1600 (1950 * Second).

Definition demo_p1 : world := Eval vm_compute in demo_serve demo_listing (mem demo_start).
Definition demo_p2 : world := Eval vm_compute in demo_serve demo_bid1 demo_p1.
Definition demo_p3 : world := Eval vm_compute in demo_serve demo_bid2 demo_p2.

Lemma demo_reached3 : reached demo_p3.
Proof.
  apply (reached_serve demo_bid2 demo_p2); [done|by vm_compute|by vm_compute|].
  apply (reached_serve demo_bid1 demo_p1); [done|by vm_compute|by vm_compute|].
  apply (reached_serve demo_listing (mem demo_start)); [done|by vm_compute|by vm_compute|].
  apply reached_start.
Qed.

(** The closing worker closes it; the latest events are delivered in turn; the
    expiry worker expires the first invoice; the runner-up pays the second. *)
Definition latest_auction (w : world) : job :=
  (demo_clocks 2300, match last (auction_repo.db_outbox (n_auctions w)) with
                     | Some ev => Delivery (OfAuction ev)
                     | None => Decline (mkDeclineSecondChanceOffer zero_value zero_value)
                     end).
Definition latest_billing (w : world) : job :=
  (demo_clocks 2500, match last (invoice_repo.db_outbox (n_billing w)) with
                     | Some ev => Delivery (OfBilling ev)
                     | None => Decline (mkDeclineSecondChanceOffer zero_value zero_value)
                     end).
Definition demo_close : request :=
  RCloseAuction (2200 * Second) (auction_app.mkCloseAuction (auction.mkAuctionID 1)).
Definition demo_expire : request :=
  RExpireInvoice (2400 * Second) (billing.mkExpireInvoice (iv (demo_invoice_id 1))).
Definition demo_pay : request :=
  RPayment (G := billing.fake_gateway) (billing.mkFakePSP billing.PSPModeSuccess ∅ ∅ ∅ 0) (2301 * Second)
    (billing.mkPayInvoice (iv (demo_invoice_id 2)) (invoice.mkBidderID 3))
    (billing.Marking (invoice.mkPaymentReference "psp-1")).

Definition demo_p4 : world := Eval vm_compute in demo_serve demo_close demo_p3.
Definition demo_sold : job := Eval vm_compute in latest_auction demo_p4.
Definition demo_p5 : world := Eval vm_compute in demo_handle demo_sold demo_p4.
Definition demo_p6 : world := Eval vm_compute in demo_serve demo_expire demo_p5.
Definition demo_lapsed : job := Eval vm_compute in latest_billing demo_p6.
Definition demo_p7 : world := Eval vm_compute in demo_handle demo_lapsed demo_p6.
Definition demo_promoted : job := Eval vm_compute in latest_auction demo_p7.
Definition demo_p8 : world := Eval vm_compute in demo_handle demo_promoted demo_p7.
Definition demo_p9 : world := Eval vm_compute in demo_serve demo_pay demo_p8.
Definition demo_paid : job := Eval vm_compute in latest_billing demo_p9.
Definition demo_p10 : world := Eval vm_compute in demo_handle demo_paid demo_p9.

Lemma demo_reached4 : reached demo_p4.
Proof.
  apply (reached_serve demo_close demo_p3); [done|by vm_compute|by vm_compute|].
  apply demo_reached3.
Qed.

Lemma demo_reached7 : reached demo_p7.
Proof.
  apply (reached_run demo_lapsed demo_p6); [|by vm_compute|by vm_compute|].
  { split; [by split|]. by apply last_Some_elem_of. }
  apply (reached_serve demo_expire demo_p5); [done|by vm_compute|by vm_compute|].
  apply (reached_run demo_sold demo_p4); [|by vm_compute|by vm_compute|].
  { split; [by split|]. split; [by apply last_Some_elem_of|by vm_compute]. }
  apply demo_reached4.
Qed.

Lemma demo_reached10 : reached demo_p10.
Proof.
  apply (reached_run demo_paid demo_p9); [|by vm_compute|by vm_compute|].
  { split; [by split|]. by apply last_Some_elem_of. }
  apply (reached_serve demo_pay demo_p8); [done|by vm_compute|by vm_compute|].
  apply (reached_run demo_promoted demo_p7); [|by vm_compute|by vm_compute|].
  { split; [by split|]. split; [by apply last_Some_elem_of|done]. }
  apply demo_reached7.
Qed.

Lemma demo_rules_storable : storable_rules auction_theory.demo.rules.
Proof. split; [|by split]. split; [exists 60|split; [exists 120|]]; by split_and?. Defined.

Lemma outboxes_truthful_witness :
  ∃ x, auction_repo_theory.pg_view (n_auctions demo_p10) !! auction.a_id x = Some x
    ∧ auction.a_winnerReassigned x = true.
Proof.
  destruct demo_reached10 as [ps Hr].
  destruct (outboxes_truthful demo_relist auction_theory.demo.rules demo_commission demo_term
    ltac:(by split) demo_rules_storable ltac:(by split) ltac:(done) _ Hr) as (Ha & _).
  destruct demo_promoted as [clk [[ev| |]|]] eqn:E; try (exfalso; by vm_compute in E).
  assert (Hin : ev ∈ auction_repo.db_outbox (n_auctions demo_p10)).
  { apply list_elem_of_In. vm_compute in E. injection E as <- <-. vm_compute. tauto. }
  destruct (Ha ev Hin) as (x & Hx & Hp). exists x. split; [exact Hx|].
  vm_compute in E. injection E as <- <-. by destruct Hp as (_ & _ & _ & ? & _).
Defined.

Lemma winner_pays_bid_witness :
  ∃ i x, invoice_repo_theory.pg_view (n_billing demo_p10) !! iv (demo_invoice_id 2) = Some i
    ∧ auction_repo_theory.pg_view (n_auctions demo_p10) !! auction.mkAuctionID 1 = Some x
    ∧ owes i (auction.a_leadingBid x).
Proof.
  destruct demo_reached10 as [ps Hr].
  eassert (invoice_repo_theory.pg_view (n_billing demo_p10) !! iv (demo_invoice_id 2) = Some _) as Hl
    by (vm_compute; reflexivity).
  destruct (winner_pays_bid demo_relist auction_theory.demo.rules demo_commission demo_term
    ltac:(by split) demo_rules_storable ltac:(by split) ltac:(done) _ _ _ Hr Hl) as (x & Hx & _ & [[Ho _]|[[Hc|Hc] _]]);
    [|by vm_compute in Hc..].
  eexists _, x. split; [exact Hl|]. split; [exact Hx|exact Ho].
Defined.

Lemma closed_or_not i : closed_invoice i ∨ ¬ closed_invoice i.
Proof. unfold closed_invoice. destruct (invoice.i_status i); auto; right; by intros []. Qed.

Lemma charged_once_witness :
  map_Forall (fun k i => invoice.i_auctionID i = invoice.mkAuctionID 1 →
      closed_invoice i ∨ k = iv (demo_invoice_id 2))
    (invoice_repo_theory.pg_view (n_billing demo_p10)).
Proof.
  intros k i Hl Ha. destruct (closed_or_not i) as [?|Hn]; [by left|right].
  destruct demo_reached10 as [ps Hr].
  eassert (invoice_repo_theory.pg_view (n_billing demo_p10) !! iv (demo_invoice_id 2) = Some _) as Hl2
    by (vm_compute; reflexivity).
  refine (charged_once demo_relist auction_theory.demo.rules demo_commission demo_term
    ltac:(by split) demo_rules_storable ltac:(by split) ltac:(done) _ _ _ _ _ Hr Hl2 Hl _ _ _).
  - exact Ha.
  - by intros [Hc|Hc]; vm_compute in Hc.
  - exact Hn.
Defined.

Lemma platform_agreement_witness :
  ∃ s, saga_pg_view (n_saga demo_p10) !! mkAuctionID 1 = Some s
    ∧ on_sale demo_p10 s settled_sale ∧ on_invoice demo_p10 s paid_invoice.
Proof.
  destruct demo_reached10 as [ps Hr].
  eassert (saga_pg_view (n_saga demo_p10) !! mkAuctionID 1 = Some _) as Hl by (vm_compute; reflexivity).
  destruct (platform_agreement demo_relist auction_theory.demo.rules demo_commission demo_term
    ltac:(by split) demo_rules_storable ltac:(by split) ltac:(done) _ _ _ Hr Hl) as (_ & _ & H & _).
  eexists. split; [exact Hl|]. exact H.
Defined.
End Demo.
End platform.
