(* ===== verification/Outages.v ===== *)
(** * The platform over a failing driver

    The platform of [Platform] with stores whose driver may fail any
    transaction and any read at any moment ([Tracking]): what is in the three
    databases after any execution is what an execution without a failure can
    leave there.  A request or a delivery that meets a failure has done all of
    its transaction or nothing, answers an error, and a saga handler stops at
    it. *)

From stdpp Require Import base numbers list strings gmap fin_maps relations.
From Stdlib Require Import ZArith Lia.
From S2P Require Import Prelude DemoUUID Errs Auth Postgres Events AuctionDomain AuctionTheory AuctionRepo AuctionApp AuctionRepoTheory InvoiceDomain InvoiceRepo Billing InvoiceRepoTheory InvoiceTheory Outbox Processes SettlementDomain SettlementRepo Tracking Settlement SettlementRepoTheory SagaTheory SagaGateways SagaProtocol SagaRedelivery SagaClaims SagaBilling Serving Platform.

Module outages.
Import settlement saga settlement_repo settlement_repo_theory saga_theory saga_protocol saga_gateways saga_redelivery saga_claims saga_billing serving tracking platform.
Local Open Scope Z_scope.

Abbreviation same_auctions :=
  (fun (s : driven auction_repo.AuctionDB) (db : auction_repo.AuctionDB) => rows s = db).
Abbreviation same_invoices :=
  (fun (s : driven invoice_repo.InvoiceDB) (db : invoice_repo.InvoiceDB) => rows s = db).

(** ** The switches of the handlers *)

#[local] Create Rewrite HintDb driver.
#[local] Hint Rewrite @rollback_Is using (assumption || exact I) : driver.
#[local] Hint Rewrite @driver_Is using (assumption || exact I) : driver.
#[local] Hint Rewrite @rollback_As using (assumption || by split_and!) : driver.
#[local] Hint Rewrite @driver_As using (assumption || by split_and!) : driver.

Ltac blind_tac :=
  split; intros; autorewrite with driver; simpl; [done|];
  repeat case_match; naive_solver.

Lemma close_blind : blind auction_app.close_switch.
Proof. unfold auction_app.close_switch. blind_tac. Qed.
Lemma award_blind : blind auction_app.award_switch.
Proof. unfold auction_app.award_switch, auction_app.not_closed_switch. blind_tac. Qed.
Lemma confirm_blind : blind auction_app.confirm_switch.
Proof. unfold auction_app.confirm_switch, auction_app.not_closed_switch. blind_tac. Qed.
Lemma fail_blind : blind auction_app.fail_switch.
Proof. unfold auction_app.fail_switch, auction_app.not_closed_switch. blind_tac. Qed.
Lemma relist_blind : blind auction_app.mapRelistError.
Proof. unfold auction_app.mapRelistError. blind_tac. Qed.
Lemma expire_blind : blind billing.expire_switch.
Proof. unfold billing.expire_switch. blind_tac. Qed.
Lemma void_blind : blind billing.void_switch.
Proof. unfold billing.void_switch. blind_tac. Qed.
Lemma issue_blind :
  blind (fun err => if errors_Is err invoice.ErrInvoiceAlreadyIssued then None else Some err).
Proof. blind_tac. Qed.

#[local] Hint Resolve close_blind award_blind confirm_blind fail_blind relist_blind expire_blind
  void_blind issue_blind blind_always : core.

(** ** The auctions *)

Section Auctions.
Import auction auction_repo auction_app.
Context `{UUIDLib}.
#[local] Instance auctions_store : AuctionRepository AuctionDB | 0 := pg.repository no_faults.

Lemma auction_update_drives id fn :
  drives same_auctions (repo_UpdateAsSystem id fn) (repo_UpdateAsSystem id fn).
Proof. apply transaction_drives. Qed.

Lemma auction_add_drives x : drives same_auctions (repo_Add (Some x)) (repo_Add (Some x)).
Proof. apply transaction_drives. Qed.

Lemma auction_user_drives id actor fn :
  drives same_auctions (repo_Update id actor fn) (repo_Update id actor fn).
Proof.
  intros s db E. unfold repo_Update, driven_auctions, auctions_store, pg.repository, pg.Update.
  unfold throw_if, mbind, GoM_bind. destruct (IsZero actor); [by left|].
  exact (auction_update_drives id fn s db E).
Qed.
#[local] Hint Resolve auction_update_drives auction_add_drives auction_user_drives : core.
#[local] Hint Resolve tracks_on_error tracks_lift drives_tracks : core.

Lemma AwardToRunnerUp_tracks now id :
  tracks same_auctions (Facade_AwardToRunnerUp now id) (Facade_AwardToRunnerUp now id).
Proof. unfold Facade_AwardToRunnerUp, AwardToRunnerUpHandler. auto. Qed.

Lemma ConfirmSettlement_tracks now id :
  tracks same_auctions (Facade_ConfirmSettlement now id) (Facade_ConfirmSettlement now id).
Proof. unfold Facade_ConfirmSettlement, ConfirmSettlementHandler. auto. Qed.

Lemma MarkSaleFailed_tracks now id reason :
  tracks same_auctions (Facade_MarkSaleFailed now id reason) (Facade_MarkSaleFailed now id reason).
Proof. unfold Facade_MarkSaleFailed, MarkSaleFailedHandler. auto. Qed.

Lemma Relist_tracks now orig new st en :
  tracks same_auctions (Facade_Relist now orig new st en) (Facade_Relist now orig new st en).
Proof.
  unfold Facade_Relist. do 3 (apply tracks_lift; intros ?). unfold RelistAuctionHandler.
  intros s db E. unfold around, mbind, GoM_bind, get. cbn -[RelistedFrom on_error repo_Add mapNotFound].
  unfold read. destruct (ou_read (next s)) as [cause|].
  - right. split; [done|by left].
  - rewrite E. destruct (pg.Get _ db) as [x|e|p]; [|by left..].
    destruct (RelistedFrom _ _ _ _) as [y|e|p]; [|by left..].
    by apply (tracks_on_error same_auctions (repo_Add (Some y)) (repo_Add (Some y)) mapRelistError); auto.
Qed.

Lemma CloseAuction_tracks now cmd :
  tracks same_auctions (CloseAuctionHandler now cmd) (CloseAuctionHandler now cmd).
Proof. unfold CloseAuctionHandler. auto. Qed.

Lemma ListAuction_tracks rules now ctx body :
  tracks same_auctions (Http_ListAuction rules now ctx body) (Http_ListAuction rules now ctx body).
Proof.
  unfold Http_ListAuction. do 2 (apply tracks_lift; intros ?).
  apply (tracks_then _ _ _ (fun _ => Ok _)). unfold ListAuctionHandler.
  destruct (New _ _ _ _ _ _ _ _ _); [auto|by left..].
Qed.

Lemma PlaceBid_tracks profiles now ctx id body :
  tracks same_auctions (Http_PlaceBid profiles now ctx id body) (Http_PlaceBid profiles now ctx id body).
Proof.
  unfold Http_PlaceBid. do 2 (apply tracks_lift; intros ?).
  apply (tracks_then _ _ _ (fun _ => Ok _)). unfold PlaceBidHandler. auto.
Qed.

Lemma CancelAuction_tracks now ctx id :
  tracks same_auctions (Http_CancelAuction now ctx id) (Http_CancelAuction now ctx id).
Proof. unfold Http_CancelAuction, CancelAuctionHandler. auto. Qed.
End Auctions.

(** ** The invoices *)

Section Invoices.
Import invoice invoice_repo billing.
Context `{UUIDLib}.
#[local] Instance invoices_store : InvoiceRepository InvoiceDB | 0 := pg.repository no_faults.

Lemma invoice_update_drives id fn :
  drives same_invoices (inv_UpdateAsSystem id fn) (inv_UpdateAsSystem id fn).
Proof. apply transaction_drives. Qed.

Lemma invoice_user_drives id actor fn :
  drives same_invoices (inv_Update id actor fn) (inv_Update id actor fn).
Proof. apply transaction_drives. Qed.

Lemma invoice_add_drives i : drives same_invoices (inv_Add i) (inv_Add i).
Proof. apply transaction_drives. Qed.
#[local] Hint Resolve invoice_update_drives invoice_add_drives invoice_user_drives : core.
#[local] Hint Resolve tracks_on_error tracks_lift drives_tracks : core.

Lemma IssueInvoice_tracks policy term now id auc debtor hammer cur att :
  tracks same_invoices (Facade_IssueInvoice policy term now id auc debtor hammer cur att)
    (Facade_IssueInvoice policy term now id auc debtor hammer cur att).
Proof.
  unfold Facade_IssueInvoice, IssueInvoiceHandler. do 7 (apply tracks_lift; intros ?). auto.
Qed.

Lemma ExpireInvoice_tracks now cmd :
  tracks same_invoices (ExpireInvoiceHandler now cmd) (ExpireInvoiceHandler now cmd).
Proof. unfold ExpireInvoiceHandler. auto. Qed.

Lemma VoidInvoice_tracks now id :
  tracks same_invoices (Facade_VoidInvoice now id) (Facade_VoidInvoice now id).
Proof. unfold Facade_VoidInvoice, VoidInvoiceHandler. auto. Qed.

(** A step of a payment: whatever it answers, it wrote what it writes or
    nothing. *)
Lemma pay_step_around {P} `{PaymentGateway P} now cmd pc s db (p : P) : same_invoices s db →
  rows (pay_step now cmd pc (s, p)).2.1 = db
  ∨ rows (pay_step now cmd pc (s, p)).2.1 = (pay_step now cmd pc (db, p)).2.1.
Proof.
  intros E. destruct pc as [|total|ref|answer|r]; cbn [pay_step]; try by left.
  - left. unfold on_psp. simpl. by destruct (gw_Charge _ _ p).
  - pose proof (drives_tracks _ _ _ (invoice_user_drives (py_InvoiceID cmd) (py_Payer cmd)
      (closure (MarkPaid ref now))) s db E) as Ht.
    unfold around, on_repo in *. cbn [fst snd].
    destruct (inv_Update (S := driven InvoiceDB) _ _ _ s) as [r1 s1].
    destruct (inv_Update (S := InvoiceDB) _ _ _ db) as [r2 s2]. cbn [fst snd] in *. tauto.
  - left. unfold refund, on_error, on_psp. simpl. by destruct (gw_Refund _ p) as [[]].
Qed.
End Invoices.

(** ** The three contexts *)

Section Contexts.
Context `{UUIDLib}.
Import auction_repo invoice_repo.

#[local] Instance sagas_store : SettlementRepository SettlementDB | 0 :=
  settlement_repo.pg.repository no_faults.
#[local] Instance auctions_store' : AuctionRepository AuctionDB | 0 := auction_repo.pg.repository no_faults.
#[local] Instance invoices_store' : InvoiceRepository InvoiceDB | 0 := invoice_repo.pg.repository no_faults.

Context (relist : RelistPolicy) (rules : auction.ListingRules).
Context (policy : invoice.CommissionPolicy) (term : invoice.PaymentTerm).
#[local] Instance quiet_bills : BillingGateway InvoiceDB := billing_facade policy term.
#[local] Instance driven_bills : BillingGateway (driven InvoiceDB) := billing_facade policy term.

Abbreviation world := (net SettlementDB AuctionDB InvoiceDB).
Abbreviation driven_world := (net (driven SettlementDB) (driven AuctionDB) (driven InvoiceDB)).

(** The three databases; the recordings of the transitions counter may have
    been lost. *)
Definition same_rows (w' : driven_world) (w : world) : Prop :=
  same_settlements (n_saga w') (n_saga w)
  ∧ rows (n_auctions w') = n_auctions w ∧ rows (n_billing w') = n_billing w.

Lemma on_saga_tracks {X} (m' : M _ X) (m : M _ X) :
  tracks same_settlements m' m → tracks same_rows (on_saga m') (on_saga m).
Proof.
  intros Hm w' w (Hs & Ha & Hb). specialize (Hm _ _ Hs). unfold around, on_saga in *.
  destruct (m' (n_saga w')) as [r' s'], (m (n_saga w)) as [r s]. cbn [fst snd] in *.
  unfold same_rows. cbn [n_saga n_auctions n_billing]. naive_solver.
Qed.

Lemma on_auctions_tracks {X} (m' : M _ X) (m : M _ X) :
  tracks same_auctions m' m → tracks same_rows (on_auctions m') (on_auctions m).
Proof.
  intros Hm w' w (Hs & Ha & Hb). specialize (Hm _ _ Ha). unfold around, on_auctions in *.
  destruct (m' (n_auctions w')) as [r' s'], (m (n_auctions w)) as [r s]. cbn [fst snd] in *.
  unfold same_rows. cbn [n_saga n_auctions n_billing]. naive_solver.
Qed.

Lemma on_billing_tracks {X} (m' : M _ X) (m : M _ X) :
  tracks same_invoices m' m → tracks same_rows (on_billing m') (on_billing m).
Proof.
  intros Hm w' w (Hs & Ha & Hb). specialize (Hm _ _ Hb). unfold around, on_billing in *.
  destruct (m' (n_billing w')) as [r' s'], (m (n_billing w)) as [r s]. cbn [fst snd] in *.
  unfold same_rows. cbn [n_saga n_auctions n_billing]. naive_solver.
Qed.

(** ** The saga's handlers *)

Abbreviation fol := (follows same_rows not_ok).
Abbreviation folT := (follows same_rows (fun _ => True)).

Lemma get_follows id : fol (get_saga id) (get_saga id).
Proof.
  apply follows_call. intros w' w (Hs & Ha & Hb). unfold st_Get, driven_settlements, read, around. simpl.
  destruct (ou_read _); [right; by split; [|left]|left].
  unfold settlement_repo.pg.Get. by rewrite Hs.
Qed.

Lemma update_follows id fn : fol (update_saga id fn) (update_saga id fn).
Proof. apply follows_call, on_saga_tracks, drives_tracks, Update_drives. Qed.

Lemma add_follows s : fol (call (on_saga (st_Add s))) (call (on_saga (st_Add s))).
Proof. apply follows_call, on_saga_tracks, drives_tracks, Add_drives. Qed.

Lemma award_follows now id :
  fol (call (on_auctions (ag_AwardToRunnerUp now id))) (call (on_auctions (ag_AwardToRunnerUp now id))).
Proof. apply follows_call, on_auctions_tracks, AwardToRunnerUp_tracks. Qed.

Lemma confirm_follows now id :
  fol (call (on_auctions (ag_ConfirmSettlement now id))) (call (on_auctions (ag_ConfirmSettlement now id))).
Proof. apply follows_call, on_auctions_tracks, ConfirmSettlement_tracks. Qed.

Lemma fail_follows now id r :
  fol (call (on_auctions (ag_MarkSaleFailed now id r))) (call (on_auctions (ag_MarkSaleFailed now id r))).
Proof. apply follows_call, on_auctions_tracks, MarkSaleFailed_tracks. Qed.

Lemma relist_follows now id new st en :
  fol (call (on_auctions (ag_Relist now id new st en))) (call (on_auctions (ag_Relist now id new st en))).
Proof. apply follows_call, on_auctions_tracks, Relist_tracks. Qed.

Lemma issue_follows now inv auc win m n :
  fol (call (on_billing (bg_IssueInvoice now inv auc win m n)))
    (call (on_billing (bg_IssueInvoice now inv auc win m n))).
Proof. apply follows_call, on_billing_tracks, IssueInvoice_tracks. Qed.

Lemma void_follows clk inv : fol (void_offer clk inv) (void_offer clk inv).
Proof.
  apply follows_relabel; [intros e; by case_match|].
  apply follows_call, on_billing_tracks, tracks_relabel, VoidInvoice_tracks.
Qed.

#[local] Hint Resolve get_follows update_follows add_follows award_follows confirm_follows
  fail_follows relist_follows issue_follows void_follows follows_any : core.

(** Read off the shape of the program. *)
Ltac follow :=
  repeat first
    [ progress intros
    | apply follows_ret
    | apply follows_pure
    | apply follows_last
    | apply follows_seq
    | apply follows_handle
    | solve [auto]
    | case_match ].

Lemma compensate_follows clk id step reason :
  fol (compensate relist clk id step reason) (compensate relist clk id step reason).
Proof. unfold compensate. follow. Qed.

Lemma decline_compensate_follows clk id step :
  fol (decline_compensate relist clk id step) (decline_compensate relist clk id step).
Proof. unfold decline_compensate. follow. Qed.
#[local] Hint Resolve compensate_follows decline_compensate_follows : core.

Lemma deliver_follows clk e : folT (deliver relist clk e) (deliver relist clk e).
Proof.
  unfold deliver, OnAuctionClosed, OnInvoicePaid, OnInvoiceExpired, OnWinnerReassigned.
  destruct e as [[]|[]|[]]; follow.
Qed.

(** The answer by the saga's state only reads. *)
Lemma answer_failed cmd : failed same_rows (fun _ => True) (answer_by_state cmd).
Proof.
  unfold answer_by_state, get_saga, call. cbn [attempt failed]. split; [done|].
  intros [x|e|p]; [|done..]. by case_match.
Qed.

Lemma answer_follows cmd : folT (answer_by_state cmd) (answer_by_state cmd).
Proof.
  unfold answer_by_state. eapply follows_attempt; [apply get_follows|..].
  - intros [x|e|p]; [|done..]. by case_match.
  - intros [x|e|p] Hr; [by destruct (Hr x)|done..].
Qed.

Lemma decline_follows clk cmd :
  folT (DeclineSecondChanceOfferHandler relist clk cmd) (DeclineSecondChanceOfferHandler relist clk cmd).
Proof.
  unfold DeclineSecondChanceOfferHandler. eapply follows_attempt; [apply get_follows|..].
  2:{ intros [x|e|p] Hr; [by destruct (Hr x)|done..]. }
  intros [x|e|p]; [|done..]. case_match; [|done..].
  apply follows_last; [auto|]. intros _. apply follows_last; [auto|]. intros _.
  eapply follows_attempt; [apply update_follows|..].
  - intros [[]|e|p]; [done| |done]. case_match; [apply answer_follows|done].
  - intros [[]|e|p] Hr; [by destruct (Hr tt)| |done]. case_match; [apply answer_failed|done].
Qed.

Lemma job_follows j : folT (job_body relist j) (job_body relist j).
Proof. destruct j as [clk [e|cmd]]; [apply deliver_follows|apply decline_follows]. Qed.

(** ** The requests *)

(** What a request writes when its transaction meets a failure. *)
Lemma serve_around r (w' : driven_world) (w : world) : same_rows w' w →
  same_rows (serve rules r w') w ∨ same_rows (serve rules r w') (serve rules r w).
Proof.
  destruct w' as [s' a' b'], w as [s a b]. intros (Hs & Ha & Hb). cbn [n_saga n_auctions n_billing] in *.
  assert (∀ {X} (m' : M _ X) (m : M _ X), tracks same_auctions m' m →
    same_rows (mkNet s' (m' a').2 b') (mkNet s a b) ∨ same_rows (mkNet s' (m' a').2 b') (mkNet s (m a).2 b))
    as HA by (intros X m' m Hm; destruct (Hm a' a Ha) as [[_ ?]|[_ [?|?]]]; [right|left|right]; by split).
  assert (∀ {X} (m' : M _ X) (m : M _ X), tracks same_invoices m' m →
    same_rows (mkNet s' a' (m' b').2) (mkNet s a b) ∨ same_rows (mkNet s' a' (m' b').2) (mkNet s a (m b).2))
    as HB by (intros X m' m Hm; destruct (Hm b' b Hb) as [[_ ?]|[_ [?|?]]]; [right|left|right]; by split).
  destruct r; cbn [serve].
  - apply HA, ListAuction_tracks.
  - apply HA, PlaceBid_tracks.
  - apply HA, CancelAuction_tracks.
  - apply HA, CloseAuction_tracks.
  - apply HB, ExpireInvoice_tracks.
  - destruct (pay_step_around now cmd pc b' b provider Hb) as [?|?]; [left|right]; by split.
Qed.

(** ** Executions *)

(** The databases, without what the drivers will answer. *)
Definition databases (w' : driven_world) : world :=
  mkNet (rows (n_saga w')) (rows (n_auctions w')) (rows (n_billing w')).

(** Requests are served, and the driver makes up its mind at any moment. *)
Inductive driven_env : driven_world → driven_world → Prop :=
| DE_served w' w1' : served rules w' w1' → driven_env w' w1'
| DE_driver w' os oa ob :
    driven_env w'
      (mkNet (mkDriven (rows (n_saga w')) os) (mkDriven (rows (n_auctions w')) oa)
         (mkDriven (rows (n_billing w')) ob)).

Abbreviation platform := (pool (W := world) (J := job)).
Abbreviation driven_platform := (pool (W := driven_world) (J := job)).

Definition driven_step : driven_platform → driven_platform → Prop :=
  pool_step (fun w' => platform_fits (databases w')) (job_body relist)
    (fun j w' => platform_may j (databases w')) driven_env.

Definition driven_start : driven_platform :=
  mkPool (mkNet (mkDriven (mkSettlementDB ∅ []) []) (mkDriven (mkAuctionDB ∅ [] [] 0) [])
            (mkDriven (mkInvoiceDB ∅ [] 0) [])) [].

(** A process goes on as without failures, or failed and will not write. *)
Definition same_process (q' : job * prog driven_world unit) (q : job * prog world unit) : Prop :=
  q'.1 = q.1 ∧ (failed same_rows (fun _ => True) q'.2 ∨ folT q'.2 q.2).

Definition mirrors (c' : driven_platform) (c : platform) : Prop :=
  same_rows (mem c') (mem c) ∧ Forall2 same_process (procs c') (procs c).

Lemma same_rows_fits w' w : same_rows w' w → platform_fits (databases w') → platform_fits w.
Proof. intros (_ & Ha & _). unfold platform_fits, databases. simpl. by rewrite Ha. Qed.

Lemma same_rows_may w' w j : same_rows w' w → platform_may j (databases w') → platform_may j w.
Proof.
  intros (_ & Ha & Hb). unfold platform_may, databases, deliverable. simpl. by rewrite Ha, Hb.
Qed.

Abbreviation quiet_step := (platform_step relist rules policy term).

(** One call of a process, whatever the driver answers to it. *)
Lemma call_mirrored q' q (w' : driven_world) (w : world) :
  same_process q' q → same_rows w' w → platform_fits (databases (step (q'.2, w')).2) →
  (same_process (q'.1, (step (q'.2, w')).1) q ∧ same_rows (step (q'.2, w')).2 w)
  ∨ platform_fits (step (q.2, w)).2
    ∧ same_process (q'.1, (step (q'.2, w')).1) (q.1, (step (q.2, w)).1)
    ∧ same_rows (step (q'.2, w')).2 (step (q.2, w)).2.
Proof.
  destruct q' as [j' p'], q as [j p]. intros [Hj Hp] Hw Hf. cbn [fst snd] in *. subst j'.
  destruct Hp as [Hp|Hp].
  - left. destruct p' as [r|X m k]; simpl in *; [by split; [split; [|left]|]|].
    destruct Hp as [Hm Hk]. split; [|by apply Hm]. split; [done|left; apply Hk].
  - destruct p' as [r'|X' m' k'], p as [r|X m k]; try done; simpl in *.
    + left. split; [split; [done|by right]|done].
    + destruct (Hp w' w Hw) as [[Hk HR]|[Hk [HR|HR]]].
      * right. split_and!; [by eapply same_rows_fits|by split; [|right]|done].
      * left. split; [by split; [|left]|done].
      * right. split_and!; [by eapply same_rows_fits|by split; [|left]|done].
Qed.

Lemma driven_mirrored c' c c1' : mirrors c' c → driven_step c' c1' →
  ∃ c1, rtc quiet_step c c1 ∧ mirrors c1' c1.
Proof.
  intros [Hw Hp] Hs. destruct Hs as [c' j Hm|c' k j p' Hk Hf|c' k|c' w1' He Hf].
  - exists (mkPool (mem c) (procs c ++ [(j, job_body relist j)])). split.
    + apply rtc_once, P_spawn. by eapply same_rows_may.
    + split; [done|]. apply Forall2_app; [done|]. constructor; [|done].
      split; [done|right; apply job_follows].
  - destruct (Forall2_lookup_l _ _ _ _ _ Hp Hk) as ([j2 p] & Hl & Hq).
    destruct (call_mirrored _ _ _ _ Hq Hw Hf) as [[Hq1 Hw1]|(Hf1 & Hq1 & Hw1)].
    + exists c. split; [done|]. split; [done|]. simpl.
      rewrite <-(list_insert_id (procs c) k (j2, p)) by done. by apply Forall2_insert.
    + exists (mkPool (step (p, mem c)).2 (<[k:=(j2, (step (p, mem c)).1)]> (procs c))). split.
      * apply rtc_once. by apply P_call.
      * split; [done|]. by apply Forall2_insert.
  - exists (mkPool (mem c) (delete k (procs c))). split; [apply rtc_once, P_crash|].
    split; [done|]. by apply Forall2_delete.
  - destruct He as [w' w1' Hs|w' os oa ob].
    + destruct Hs as [r w' Hv]. destruct (serve_around r w' (mem c) Hw) as [HR|HR].
      * exists c. split; [done|by split].
      * exists (mkPool (serve rules r (mem c)) (procs c)). split; [|by split].
        apply rtc_once, P_env; [by constructor|by eapply same_rows_fits].
    + exists c. split; [done|by split].
Qed.

(** The same, process by process. *)
Lemma driven_reachable c' : rtc driven_step driven_start c' → ∃ c, rtc quiet_step start c ∧ mirrors c' c.
Proof.
  intros Hr. assert (mirrors driven_start start) as Hm by (by split; [repeat split|constructor]).
  revert Hm. generalize start. induction Hr as [c'|c' c1' c2' Hs Hr IH]; intros c Hm; [by exists c|].
  destruct (driven_mirrored _ _ _ Hm Hs) as (c1 & H1 & Hm1). destruct (IH c1 Hm1) as (c2 & H2 & Hm2).
  exists c2. split; [by etrans|done].
Qed.

(** A handler that runs alone stops, if it fails, after some of its calls. *)
Lemma follows_run {X} Q (p' : prog driven_world X) p w' w :
  follows same_rows Q p' p → same_rows w' w → ∃ n, same_rows (run p' w').2 (crash_after n p w).
Proof.
  assert (∀ (p' : prog driven_world X) w' w, failed same_rows Q p' → same_rows w' w →
    same_rows (run p' w').2 w) as Hfail.
  { intros q'. induction q' as [r|Y m k IH]; intros w1' w1; simpl; [done|]. intros [Hm Hk] Hw.
    apply IH; [done|by apply Hm]. }
  revert p w' w. induction p' as [r'|X' m' k' IH]; intros [r|Y m k] w' w; try done; simpl.
  - intros _ Hw. by exists 0%nat.
  - intros Hp Hw. destruct (Hp w' w Hw) as [[Hk HR]|[Hk [HR|HR]]].
    + destruct (IH _ _ _ _ Hk HR) as [n Hn]. exists (S n). by rewrite crash_after_S.
    + exists 0%nat. by apply Hfail.
    + exists 1%nat. rewrite crash_after_S. by apply Hfail.
Qed.

(** C1: whatever the driver does to the transactions and reads of the three
    contexts, the databases are those of an execution without failures: only
    recordings of the transitions counter can be missing. *)
Theorem platform_survives_outages c' :
  rtc driven_step driven_start c' →
  ∃ c, rtc quiet_step start c ∧ same_rows (mem c') (mem c).
Proof.
  intros Hr. destruct (driven_reachable c' Hr) as (c & ? & ? & _). by exists c.
Qed.

(** ** What is promised, whatever the driver does *)

Context `{!UUIDLaws}.
Context (relist_valid : valid_policy relist) (rules_storable : storable_rules rules).
Context (policy_valid : invoice_theory.valid_policy policy)
  (term_valid : 0 < invoice.PaymentTerm_Duration term).

#[local] Instance sagas_laws : SettlementRepositoryLaws SettlementDB | 0 := saga_pg_laws.
#[local] Instance auctions_laws : auction_repo_theory.AuctionRepositoryLaws AuctionDB | 0 :=
  auction_outbox.pg_told_laws.
#[local] Instance invoices_laws : invoice_repo_theory.InvoiceRepositoryLaws InvoiceDB | 0 :=
  billing_outbox.pg_told_laws.
#[local] Instance quiet_bills_laws : BillingGatewayLaws InvoiceDB :=
  bills_laws policy term policy_valid term_valid.

(** C2: with a driver that fails at will, every invoice is still of a closed
    auction and charges the bidder who leads it the leading bid or can no longer
    be paid, and of two invoices of one auction one can no longer be paid. *)
Theorem charges_survive_outages c' k i :
  rtc driven_step driven_start c' →
  let auctions := auction_repo_theory.pg_view (rows (n_auctions (mem c'))) in
  let invoices := invoice_repo_theory.pg_view (rows (n_billing (mem c'))) in
  invoices !! k = Some i →
  (∃ x, auctions !! auction_of i = Some x ∧ auction.a_status x = auction.StatusClosed
     ∧ (owes i (auction.a_leadingBid x) ∨ closed_invoice i ∧ auction.a_winnerReassigned x = true))
  ∧ ∀ k' i', invoices !! k' = Some i' → invoice.i_auctionID i' = invoice.i_auctionID i →
      k' = k ∨ closed_invoice i ∨ closed_invoice i'.
Proof.
  intros Hr. destruct (driven_reachable c' Hr) as (c & Hc & (_ & -> & ->) & _). intros a b Hl.
  split.
  - destruct (invoice_cases relist rules policy term relist_valid rules_storable policy_valid term_valid
      c k i Hc Hl) as (x & Hx & Hst & Hcase).
    exists x. split; [exact Hx|]. split; [exact Hst|]. destruct Hcase as [[? _]|?]; auto.
  - intros k' i' Hl' Ha.
    destruct (closed_or_not i) as [?|Hn]; [auto|]. destruct (closed_or_not i') as [?|Hn']; [auto|].
    left. by apply (payable_once relist rules policy term relist_valid rules_storable policy_valid term_valid
      c k k' i i').
Qed.

(** C15: a delivery or a request of the saga that would succeed, but meets any
    failures of the driver, leaves databases from which handling it again, at
    another time, succeeds and leaves the settlements as the undisturbed run
    does. *)
Theorem outage_retried c clk clk' q wq (w' : driven_world) :
  rtc quiet_step start c → platform_may (clk, q) (mem c) →
  timely relist clk → timely relist clk' →
  run (job_body relist (clk, q)) (mem c) = (Ok tt, wq) →
  same_rows w' (mem c) →
  ∃ w1 w2, same_rows (run (job_body relist (clk, q)) w').2 w1
    ∧ run (job_body relist (clk', q)) w1 = (Ok tt, w2)
    ∧ saga_pg_view (n_saga w2) = saga_pg_view (n_saga wq).
Proof.
  intros Hr [Hc Hm] Ht Ht' Hrun Hw.
  destruct (follows_run _ _ _ _ _ (job_follows (clk, q)) Hw) as [n Hn].
  pose proof (told_right relist rules policy term relist_valid rules_storable policy_valid term_valid c Hr)
    as [[Hi Hf _] _].
  exists (crash_after n (job_body relist (clk, q)) (mem c)).
  assert (redelivered (job_body relist (clk, q)) (job_body relist (clk', q)) (mem c)) as Hred.
  { destruct q as [e|cmd].
    - apply (redeliver_deliver relist relist_valid); try done.
      eapply deliverable_truthful; [exact Hi|exact Hm].
    - by apply (redeliver_decline relist relist_valid). }
  destruct (Hred wq Hrun n) as (w2 & H2 & Hv). by exists w2.
Qed.
End Contexts.

(** ** A concrete execution, for the witnesses

    The answer of the commit that lists an auction is lost, so is that of its
    closing; the delivery of the closing to the saga meets a failed commit and
    a failed statement before it succeeds. *)

Section Demo.
Import demo_uuid auction_repo invoice_repo.
#[local] Instance demo_sagas : SettlementRepository SettlementDB := settlement_repo.pg.repository no_faults.
#[local] Instance demo_auctions : AuctionRepository AuctionDB := auction_repo.pg.repository no_faults.
#[local] Instance demo_invoices : InvoiceRepository InvoiceDB := invoice_repo.pg.repository no_faults.
#[local] Instance demo_bills : BillingGateway InvoiceDB := billing_facade demo_commission demo_term.
#[local] Instance demo_driven_bills : BillingGateway (driven InvoiceDB) :=
  billing_facade demo_commission demo_term.

Abbreviation driven_world := (net (driven SettlementDB) (driven AuctionDB) (driven InvoiceDB)).
Abbreviation rules := auction_theory.demo.rules.
Abbreviation demo_driven_step := (driven_step demo_relist rules demo_commission demo_term).

Definition lost : outage := mkOutage None None (Some "connection reset") true None None.
Definition refused : outage := mkOutage None None (Some "deadlock detected") false None None.
Definition broken : outage :=
  mkOutage None (Some ("unable to update settlement", "timeout")) None true (Some "connection reset") None.

Definition driver (os oa ob : list outage) (w : driven_world) : driven_world :=
  mkNet (mkDriven (rows (n_saga w)) os) (mkDriven (rows (n_auctions w)) oa)
    (mkDriven (rows (n_billing w)) ob).
Definition driven_handle (j : job) (w : driven_world) : driven_world :=
  (Processes.run (job_body demo_relist j) w).2.

Definition driven_reached (w : driven_world) : Prop :=
  ∃ ps, rtc demo_driven_step driven_start (mkPool w ps).

Lemma driven_reached_driver os oa ob w w' : driver os oa ob w = w' →
  demo_fitsb (databases w') = true → driven_reached w → driven_reached w'.
Proof.
  intros <- Hf [ps Hr]. exists ps. eapply rtc_r; [exact Hr|].
  apply P_env; [apply DE_driver|by apply demo_world_fits].
Qed.

Lemma driven_reached_serve r w w' : valid_request r → serve rules r w = w' →
  demo_fitsb (databases w') = true → driven_reached w → driven_reached w'.
Proof.
  intros Hv <- Hf [ps Hr]. exists ps. eapply rtc_r; [exact Hr|].
  apply P_env; [by apply DE_served, Served|by apply demo_world_fits].
Qed.

Lemma driven_reached_run j w w' : platform_may j (databases w) →
  all_fitb (fun w => demo_fitsb (databases w)) (job_body demo_relist j) w = true →
  driven_handle j w = w' → driven_reached w → driven_reached w'.
Proof.
  intros Hm Hf <- [ps Hr]. eexists. etrans; [exact Hr|].
  apply (spawn_and_run (fun w' => platform_fits (databases w')) (job_body demo_relist)
    (fun j w' => platform_may j (databases w')) (driven_env rules) (mkPool w ps) j Hm).
  eapply all_fitb_all_fit; [|exact Hf]. intros w1. apply demo_world_fits.
Qed.

Definition demo_d0 : driven_world := mem driven_start.
Definition demo_d1 : driven_world := Eval vm_compute in driver [] [lost; quiet; quiet; lost] [] demo_d0.
Definition demo_d2 : driven_world := Eval vm_compute in serve rules demo_listing demo_d1.
Definition demo_d3 : driven_world := Eval vm_compute in serve rules demo_bid1 demo_d2.
Definition demo_d4 : driven_world := Eval vm_compute in serve rules demo_bid2 demo_d3.
Definition demo_d5 : driven_world := Eval vm_compute in serve rules demo_close demo_d4.
Definition demo_d6 : driven_world := Eval vm_compute in
  driver [quiet; refused; quiet; broken] (outages (n_auctions demo_d5)) [] demo_d5.
Definition demo_d7 : driven_world := Eval vm_compute in driven_handle demo_sold demo_d6.
Definition demo_d8 : driven_world := Eval vm_compute in driven_handle demo_sold demo_d7.
Definition demo_d9 : driven_world := Eval vm_compute in driven_handle demo_sold demo_d8.

Example demo_answers :
  (is_ok (auction_app.Http_ListAuction rules Second (demo_user 2)
     (auction_app.mkListAuctionBody 1 "clock" None "EUR" 1000 100 (Some 1500) (1000 * Second) (2000 * Second))
     (n_auctions demo_d1)).1,
   is_ok (Processes.run (job_body demo_relist demo_sold) demo_d6).1,
   is_ok (Processes.run (job_body demo_relist demo_sold) demo_d7).1,
   is_ok (Processes.run (job_body demo_relist demo_sold) demo_d8).1) = (false, false, false, true).
Proof. by vm_compute. Qed.

Lemma demo_driven5 : driven_reached demo_d5.
Proof.
  apply (driven_reached_serve demo_close demo_d4); [done|by vm_compute|by vm_compute|].
  apply (driven_reached_serve demo_bid2 demo_d3); [done|by vm_compute|by vm_compute|].
  apply (driven_reached_serve demo_bid1 demo_d2); [done|by vm_compute|by vm_compute|].
  apply (driven_reached_serve demo_listing demo_d1); [done|by vm_compute|by vm_compute|].
  apply (driven_reached_driver [] [lost; quiet; quiet; lost] [] demo_d0); [by vm_compute|by vm_compute|].
  by exists [].
Qed.

Lemma demo_may w : auction_repo.db_outbox (n_auctions (databases w)) = auction_repo.db_outbox (n_auctions demo_p4) →
  platform_may demo_sold (databases w).
Proof.
  intros E. split; [by split|]. split; [rewrite E; by apply last_Some_elem_of|by vm_compute].
Qed.

Lemma demo_driven9 : driven_reached demo_d9.
Proof.
  apply (driven_reached_run demo_sold demo_d8); [by apply demo_may|by vm_compute|by vm_compute|].
  apply (driven_reached_run demo_sold demo_d7); [by apply demo_may|by vm_compute|by vm_compute|].
  apply (driven_reached_run demo_sold demo_d6); [by apply demo_may|by vm_compute|by vm_compute|].
  eapply (driven_reached_driver _ _ _ demo_d5); [by vm_compute|by vm_compute|].
  apply demo_driven5.
Qed.

Lemma platform_survives_outages_witness :
  ∃ c, rtc (platform_step demo_relist rules demo_commission demo_term) start c
    ∧ same_rows demo_d9 (mem c) ∧ is_Some (saga_pg_view (n_saga (mem c)) !! mkAuctionID 1).
Proof.
  destruct demo_driven9 as [ps Hr].
  destruct (platform_survives_outages demo_relist rules demo_commission demo_term _ Hr) as (c & Hc & Hw).
  exists c. split; [exact Hc|]. split; [exact Hw|]. destruct Hw as (Hs & _).
  unfold saga_pg_view. rewrite <-Hs.
  apply (bool_decide_unpack (is_Some _)). by vm_compute.
Defined.

Lemma demo_invoiced :
  ∃ i, invoice_repo_theory.pg_view (rows (n_billing demo_d9)) !! iv (demo_invoice_id 1) = Some i
    ∧ invoice.i_status i = invoice.StatusPending.
Proof. eexists. split; vm_compute; reflexivity. Qed.

Lemma charges_survive_outages_witness :
  ∃ i x, invoice_repo_theory.pg_view (rows (n_billing demo_d9)) !! iv (demo_invoice_id 1) = Some i
    ∧ auction_repo_theory.pg_view (rows (n_auctions demo_d9)) !! auction_of i = Some x
    ∧ owes i (auction.a_leadingBid x).
Proof.
  destruct demo_driven9 as [ps Hr]. destruct demo_invoiced as (i & Hl & Hp).
  destruct (charges_survive_outages demo_relist rules demo_commission demo_term
    ltac:(by split) demo_rules_storable ltac:(by split) ltac:(done) (mkPool demo_d9 ps) _ i Hr Hl) as [Hc _].
  destruct Hc as (x & Hx & _ & Ho). exists i, x. split; [exact Hl|]. split; [exact Hx|].
  destruct Ho as [Ho|[[Hc|Hc] _]]; [exact Ho|rewrite Hp in Hc; discriminate Hc..].
Defined.

Lemma outage_retried_witness :
  ∃ w1 w2, same_rows demo_d7 w1
    ∧ Processes.run (job_body demo_relist (demo_clocks 2350, demo_sold.2)) w1 = (Ok tt, w2)
    ∧ saga_pg_view (n_saga w2) = saga_pg_view (n_saga demo_p5).
Proof.
  destruct demo_reached4 as [ps Hr].
  refine (outage_retried demo_relist rules demo_commission demo_term
    ltac:(by split) demo_rules_storable ltac:(by split) ltac:(done)
    _ (demo_clocks 2300) (demo_clocks 2350) demo_sold.2 demo_p5 demo_d6 Hr _ _ _ _ _).
  - split; [by split|]. split; [by apply last_Some_elem_of|by vm_compute].
  - by split_and!.
  - by split_and!.
  - vm_compute. reflexivity.
  - by split_and!.
Defined.
End Demo.
End outages.
