(* ===== verification/Monolith.v ===== *)
(** * The assembly of the monolith

    [internal/monolith]: what [newApplication] builds from the configuration,
    over the constructors of the contexts.  Opening the pool, the migrations,
    the bus and the telemetry are not modelled: they do not read the values
    checked here.  [configuration_checked] says what a loaded configuration
    guarantees to this assembly. *)

From stdpp Require Import base numbers list strings.
From Stdlib Require Import ZArith Lia.
From S2P Require Import Prelude DemoUUID Errs Auth Config AuctionDomain AuctionApp InvoiceDomain Billing SettlementDomain Settlement.

Module monolith.
Import config.
Local Open Scope Z_scope.

(** ** The dependencies of the contexts *)

Definition auction_deps (cfg : Config) : auction_app.Deps :=
  auction_app.mkDeps (PlatformCurrency cfg) (VerifyAboveMinor cfg) (SnipeWindow cfg)
    (SnipeExtension cfg) (SnipeMaxExtensions cfg) (ClosingPollInterval cfg).

Definition billing_deps (cfg : Config) : billing.Deps :=
  billing.mkDeps (CommissionBasisPoints cfg) (PaymentTerm cfg) (cfg_PSPMode cfg)
    (ExpiryPollInterval cfg).

(** The values of an assembled application. *)
Record Application := mkApplication {
  app_auction : auction.ListingRules * Duration;
  app_billing : invoice.CommissionPolicy * invoice.PaymentTerm * billing.FakePSP * Duration;
  app_relist : settlement.RelistPolicy;
}.

Definition newApplication (cfg : Config) : result Application :=
  auctionSvc ← wrap_err "assemble auction context" (auction_app.NewService (auction_deps cfg));
  billingSvc ← wrap_err "assemble billing context" (billing.NewService (billing_deps cfg));
  settlementSvc ← wrap_err "assemble settlement context"
    (saga.NewService (RelistDelay cfg) (RelistDuration cfg));
  Ok (mkApplication auctionSvc billingSvc settlementSvc).

Section Applications.
Context `{UUIDLib} `{auth.JWTLib}.

Definition NewApplication (cfg : Config) : result (auth.Middleware * Application) :=
  authMiddleware ← auth.NewMiddleware (AuthMode cfg) (AuthHS256Secret cfg);
  app ← newApplication cfg;
  Ok (authMiddleware, app).

(** The configuration of the component tests. *)
Definition component_config (hs256Secret platformCurrency : string) (paymentTerm : Duration)
    (pspMode : string) : Config :=
  mkConfig platformCurrency 1000 100000 (5 * Second) (5 * Second) 3 paymentTerm pspMode
    Second (6 * Second) (200 * (Second / 1000)) (200 * (Second / 1000)) (50 * (Second / 1000))
    0 "" "" AuthModeLocalHS256 hs256Secret LogFormatText.

Definition NewComponentTestApplication (hs256Secret platformCurrency : string)
    (paymentTerm : Duration) (pspMode : string) : result (auth.Middleware * Application) :=
  authMiddleware ← auth.NewMiddleware auth.ModeLocalHS256 hs256Secret;
  app ← newApplication (component_config hs256Secret platformCurrency paymentTerm pspMode);
  Ok (authMiddleware, app).
End Applications.
End monolith.
