(* ===== verification/MonolithTheory.v ===== *)
(** * What a loaded configuration guarantees

    A declarative reading of the environment: the variables with their
    defaults and what is wrong with a value.  The loader computes exactly it,
    and a configuration without problems is accepted by every constructor of
    the assembly. *)

From stdpp Require Import base numbers list strings sets.
From Stdlib Require Import ZArith Lia.
From S2P Require Import Prelude DemoUUID Errs Auth Config AuctionDomain AuctionApp InvoiceDomain Billing SettlementDomain Settlement Monolith.

Module monolith_theory.
Import config monolith.
Import (hints) auction.
Local Open Scope Z_scope.

(** ** Variables of the environment *)

(** A variable: what its absence means, and what its text means; [inr] is the
    complaint about it, under which the field is the default. *)
Record variable (A : Type) := mkVariable {
  v_key : string;
  v_default : A;
  v_unset : A + string;
  v_parse : string → A + string;
}.
Arguments mkVariable {_} _ _ _ _.
Arguments v_key {_} _.
Arguments v_default {_} _.
Arguments v_unset {_} _.
Arguments v_parse {_} _ _.

Definition checked {A} (ok : bool) (reason : string) (a : A) : A + string :=
  if ok then inl a else inr reason.

Definition parsed (ok : Z → bool) (reason : string) (raw : string) : Z + string :=
  match ParseInt raw with
  | Some n => checked (ok n) reason n
  | None => inr reason
  end.

Definition a_required (key : string) : variable string :=
  mkVariable key "" (inr "required environment variable is not set") inl.

Definition an_optional (key def : string) : variable string := mkVariable key def (inl def) inl.

Definition a_duration (ParseDuration : string → option Duration) (key : string) (def : Duration)
    : variable Duration :=
  mkVariable key def (inl def) (fun raw =>
    match ParseDuration raw with
    | Some d => checked (0 <? d) "must be positive, got %q" d
    | None => inr "must be a Go duration, got %q"
    end).

Definition an_int (key : string) (def lo hi : Z) : variable Z :=
  mkVariable key def (inl def)
    (parsed (fun n => (lo <=? n) && (n <=? hi)) "must be an integer in [%d, %d], got %q").

Definition an_amount (key : string) (def : Z) : variable Z :=
  mkVariable key def (inl def) (parsed (fun n => 0 <=? n) "must be a non-negative integer, got %q").

Definition a_port (key : string) (def : Z) : variable Z :=
  mkVariable key def (inl def)
    (parsed (fun n => (1 <=? n) && (n <=? 65535)) "must be a TCP port (1-65535), got %q").

Definition a_choice (key def : string) (allowed : list string) : variable string :=
  mkVariable key def (inl def)
    (fun raw => checked (bool_decide (raw ∈ allowed)) "must be one of %v, got %q" raw).

Section Environment.
Context (lookup : string → option string) (ParseDuration : string → option Duration).

Definition reading {A} (v : variable A) : A + string :=
  let raw := value lookup (v_key v) in
  if bool_decide (raw = "") then v_unset v else v_parse v raw.

Definition setting {A} (v : variable A) : A :=
  match reading v with inl a => a | inr _ => v_default v end.

Definition complaint {A} (v : variable A) : list (string * string) :=
  match reading v with inl _ => [] | inr reason => [(v_key v, reason)] end.

(** ** The loader reads the variables *)

Definition reads {A} (op : M (list error) A) (v : variable A) : Prop :=
  ∀ errs, op errs = (Ok (setting v), errs ++ (problem <$> complaint v)).

Lemma reads_bind {A B} (op : M (list error) A) v (k : A → M (list error) B) errs :
  reads op v → (op ≫= k) errs = k (setting v) (errs ++ (problem <$> complaint v)).
Proof. intros Hr. unfold mbind, GoM_bind. by rewrite Hr. Qed.

Ltac read :=
  intros errs; unfold setting, complaint, reading; cbn [v_key v_parse v_unset v_default];
  unfold required, optional, duration, intInRange, int64NonNegative, port, enum;
  destruct (bool_decide (value lookup _ = "")); cbn; rewrite ?app_nil_r; try reflexivity.

Lemma reads_required key : reads (required lookup key) (a_required key).
Proof. read. Qed.

Lemma reads_optional key def : reads (optional lookup key def) (an_optional key def).
Proof. read. Qed.

Lemma reads_duration key def :
  reads (duration lookup ParseDuration key def) (a_duration ParseDuration key def).
Proof.
  read. destruct (ParseDuration _) as [d|]; [|done]. rewrite Z.leb_antisym. unfold checked.
  destruct (0 <? d); cbn; by rewrite ?app_nil_r.
Qed.

Lemma range_test n lo hi : (n <? lo) || (hi <? n) = negb ((lo <=? n) && (n <=? hi)).
Proof. by rewrite negb_andb, <- !Z.ltb_antisym. Qed.

Lemma reads_int key def lo hi : reads (intInRange lookup key def lo hi) (an_int key def lo hi).
Proof.
  read. unfold parsed, checked. destruct (ParseInt _) as [n|]; [|done]. rewrite range_test.
  destruct (_ && _); cbn; by rewrite ?app_nil_r.
Qed.

Lemma reads_amount key def : reads (int64NonNegative lookup key def) (an_amount key def).
Proof.
  read. unfold parsed, checked. destruct (ParseInt _) as [n|]; [|done]. rewrite Z.ltb_antisym.
  destruct (0 <=? n); cbn; by rewrite ?app_nil_r.
Qed.

Lemma reads_port key def : reads (port lookup key def) (a_port key def).
Proof.
  read. unfold parsed, checked. destruct (ParseInt _) as [n|]; [|done]. rewrite range_test.
  destruct (_ && _); cbn; by rewrite ?app_nil_r.
Qed.

Lemma reads_choice key def allowed : reads (enum lookup key def allowed) (a_choice key def allowed).
Proof. read. unfold checked. case_bool_decide; cbn; by rewrite ?app_nil_r. Qed.
(** ** The configuration of an environment *)

Definition var_PLATFORM_CURRENCY : variable string :=
  a_required "PLATFORM_CURRENCY".
Definition var_COMMISSION_BASIS_POINTS : variable Z :=
  an_int "COMMISSION_BASIS_POINTS" 1000 0 10000.
Definition var_VERIFY_ABOVE_MINOR : variable Z :=
  an_amount "VERIFY_ABOVE_MINOR" 100000.
Definition var_SNIPE_WINDOW : variable Duration :=
  a_duration ParseDuration "SNIPE_WINDOW" (5 * Minute).
Definition var_SNIPE_EXTENSION : variable Duration :=
  a_duration ParseDuration "SNIPE_EXTENSION" (5 * Minute).
Definition var_SNIPE_MAX_EXTENSIONS : variable Z :=
  an_int "SNIPE_MAX_EXTENSIONS" 3 0 1000.
Definition var_PAYMENT_TERM : variable Duration :=
  a_duration ParseDuration "PAYMENT_TERM" (48 * Hour).
Definition var_PSP_MODE : variable string :=
  a_choice "PSP_MODE" PSPModeSuccess [PSPModeSuccess; PSPModeDecline; PSPModeFlaky].
Definition var_RELIST_DELAY : variable Duration :=
  a_duration ParseDuration "RELIST_DELAY" Hour.
Definition var_RELIST_DURATION : variable Duration :=
  a_duration ParseDuration "RELIST_DURATION" (24 * Hour).
Definition var_CLOSING_POLL_INTERVAL : variable Duration :=
  a_duration ParseDuration "CLOSING_POLL_INTERVAL" Second.
Definition var_EXPIRY_POLL_INTERVAL : variable Duration :=
  a_duration ParseDuration "EXPIRY_POLL_INTERVAL" (5 * Second).
Definition var_BUS_POLL_INTERVAL : variable Duration :=
  a_duration ParseDuration "BUS_POLL_INTERVAL" (100 * (Second / 1000)).
Definition var_HTTP_PORT : variable Z :=
  a_port "HTTP_PORT" 8080.
Definition var_DATABASE_URL : variable string :=
  a_required "DATABASE_URL".
Definition var_OTEL_EXPORTER_OTLP_ENDPOINT : variable string :=
  an_optional "OTEL_EXPORTER_OTLP_ENDPOINT" "localhost:4317".
Definition var_AUTH_MODE : variable string :=
  a_choice "AUTH_MODE" AuthModeLocalHS256 [AuthModeLocalHS256; AuthModeJWKS].
Definition var_AUTH_HS256_SECRET : variable string :=
  an_optional "AUTH_HS256_SECRET" "".
Definition var_LOG_FORMAT : variable string :=
  a_choice "LOG_FORMAT" LogFormatJSON [LogFormatJSON; LogFormatText].

Definition settings : Config := mkConfig
  (setting var_PLATFORM_CURRENCY)
  (setting var_COMMISSION_BASIS_POINTS)
  (setting var_VERIFY_ABOVE_MINOR)
  (setting var_SNIPE_WINDOW)
  (setting var_SNIPE_EXTENSION)
  (setting var_SNIPE_MAX_EXTENSIONS)
  (setting var_PAYMENT_TERM)
  (setting var_PSP_MODE)
  (setting var_RELIST_DELAY)
  (setting var_RELIST_DURATION)
  (setting var_CLOSING_POLL_INTERVAL)
  (setting var_EXPIRY_POLL_INTERVAL)
  (setting var_BUS_POLL_INTERVAL)
  (setting var_HTTP_PORT)
  (setting var_DATABASE_URL)
  (setting var_OTEL_EXPORTER_OTLP_ENDPOINT)
  (setting var_AUTH_MODE)
  (setting var_AUTH_HS256_SECRET)
  (setting var_LOG_FORMAT).

(** The complaints about single variables, in the order of the fields. *)
Definition variable_problems : list (string * string) :=
  complaint var_PLATFORM_CURRENCY ++
  complaint var_COMMISSION_BASIS_POINTS ++
  complaint var_VERIFY_ABOVE_MINOR ++
  complaint var_SNIPE_WINDOW ++
  complaint var_SNIPE_EXTENSION ++
  complaint var_SNIPE_MAX_EXTENSIONS ++
  complaint var_PAYMENT_TERM ++
  complaint var_PSP_MODE ++
  complaint var_RELIST_DELAY ++
  complaint var_RELIST_DURATION ++
  complaint var_CLOSING_POLL_INTERVAL ++
  complaint var_EXPIRY_POLL_INTERVAL ++
  complaint var_BUS_POLL_INTERVAL ++
  complaint var_HTTP_PORT ++
  complaint var_DATABASE_URL ++
  complaint var_OTEL_EXPORTER_OTLP_ENDPOINT ++
  complaint var_AUTH_MODE ++
  complaint var_AUTH_HS256_SECRET ++
  complaint var_LOG_FORMAT.

(** The two complaints about the values: the form of the currency, and the
    secret the effective mode needs. *)
Definition value_problems (cfg : Config) : list (string * string) :=
  (if bool_decide (PlatformCurrency cfg ≠ "") && negb (isCurrencyCode (PlatformCurrency cfg))
   then [("PLATFORM_CURRENCY", "must be a 3-letter uppercase ISO-4217 code, got %q")] else []) ++
  (if bool_decide (AuthMode cfg = AuthModeLocalHS256) && bool_decide (AuthHS256Secret cfg = "")
   then [("AUTH_HS256_SECRET", "required when AUTH_MODE=local-hs256")] else []).

Definition problems : list (string * string) := variable_problems ++ value_problems settings.

Lemma read_config_settings :
  read_config lookup ParseDuration [] = (Ok settings, problem <$> variable_problems).
Proof.
  unfold read_config.
  repeat first
    [ erewrite reads_bind by apply reads_required
    | erewrite reads_bind by apply reads_optional
    | erewrite reads_bind by apply reads_duration
    | erewrite reads_bind by apply reads_int
    | erewrite reads_bind by apply reads_amount
    | erewrite reads_bind by apply reads_port
    | erewrite reads_bind by apply reads_choice ].
  unfold variable_problems. rewrite !fmap_app, <- !app_assoc. reflexivity.
Qed.

Lemma check_config_problems cfg errs :
  check_config cfg errs = (Ok tt, errs ++ (problem <$> value_problems cfg)).
Proof.
  unfold check_config, value_problems.
  destruct (bool_decide (PlatformCurrency cfg ≠ "") && _), (bool_decide (AuthMode cfg = _) && _);
    cbv [mbind GoM_bind fail modify mret GoM_ret]; cbn; by rewrite <- ?app_assoc, ?app_nil_r.
Qed.

(** The loader computes the declarative reading. *)
Lemma load_problems :
  load lookup ParseDuration =
    if bool_decide (problems = []) then Ok settings
    else Fail (Errorf "invalid configuration:" (errors_Join (problem <$> problems))).
Proof.
  unfold load. unfold mbind at 1, GoM_bind. rewrite read_config_settings.
  unfold mbind at 1, GoM_bind. rewrite check_config_problems, <- fmap_app.
  fold problems. cbn. destruct problems as [|p ps]; [done|].
  by rewrite bool_decide_true, bool_decide_false.
Qed.

(** ** The range of a setting *)

Ltac settled :=
  unfold setting, reading, a_duration, a_choice; cbn [v_key v_default v_unset v_parse];
  case_bool_decide; [done|].

Lemma setting_duration key def : 0 < def → 0 < setting (a_duration ParseDuration key def).
Proof.
  intros Hd. settled. destruct (ParseDuration _) as [d|]; [|done]. unfold checked.
  by destruct (Z.ltb_spec 0 d).
Qed.

Lemma setting_parsed key def ok reason :
  ok def = true → ok (setting (mkVariable key def (inl def) (parsed ok reason))) = true.
Proof.
  intros Hd. settled. unfold parsed, checked. destruct (ParseInt _) as [n|]; [|done].
  by destruct (ok n) eqn:E.
Qed.

Lemma setting_int key def lo hi :
  lo <= def <= hi → lo <= setting (an_int key def lo hi) <= hi.
Proof.
  intros Hd. pose proof (setting_parsed key def (fun n => (lo <=? n) && (n <=? hi))
    "must be an integer in [%d, %d], got %q") as Hp. cbv beta in Hp. unfold an_int. lia.
Qed.

Lemma setting_amount key def : 0 <= def → 0 <= setting (an_amount key def).
Proof.
  intros Hd. pose proof (setting_parsed key def (fun n => 0 <=? n)
    "must be a non-negative integer, got %q") as Hp. cbv beta in Hp. unfold an_amount. lia.
Qed.

Lemma setting_port key def : 1 <= def <= 65535 → 1 <= setting (a_port key def) <= 65535.
Proof.
  intros Hd. pose proof (setting_parsed key def (fun n => (1 <=? n) && (n <=? 65535))
    "must be a TCP port (1-65535), got %q") as Hp. cbv beta in Hp. unfold a_port. lia.
Qed.

Lemma setting_choice key def allowed : def ∈ allowed → setting (a_choice key def allowed) ∈ allowed.
Proof. intros Hd. settled. unfold checked. by case_bool_decide. Qed.

Lemma setting_required key : complaint (a_required key) = [] → setting (a_required key) ≠ "".
Proof.
  unfold complaint, setting, reading, a_required. cbn [v_key v_default v_unset v_parse].
  by case_bool_decide.
Qed.
End Environment.

(** ** What a configuration without problems is *)

Record acceptable (cfg : Config) : Prop := {
  ok_currency : isCurrencyCode (PlatformCurrency cfg) = true;
  ok_commission : 0 <= CommissionBasisPoints cfg <= 10000;
  ok_verify : 0 <= VerifyAboveMinor cfg;
  ok_snipe : 0 < SnipeWindow cfg ∧ 0 < SnipeExtension cfg ∧ 0 <= SnipeMaxExtensions cfg <= 1000;
  ok_terms : 0 < PaymentTerm cfg ∧ 0 < RelistDelay cfg ∧ 0 < RelistDuration cfg;
  ok_polls : 0 < ClosingPollInterval cfg ∧ 0 < ExpiryPollInterval cfg ∧ 0 < BusPollInterval cfg;
  ok_psp : cfg_PSPMode cfg ∈ [PSPModeSuccess; PSPModeDecline; PSPModeFlaky];
  ok_port : 1 <= HTTPPort cfg <= 65535;
  ok_database : DatabaseURL cfg ≠ "";
  ok_auth : AuthMode cfg = AuthModeJWKS ∨ (AuthMode cfg = AuthModeLocalHS256 ∧ AuthHS256Secret cfg ≠ "");
  ok_log : cfg_LogFormat cfg ∈ [LogFormatJSON; LogFormatText];
}.

Lemma value_problems_nil cfg :
  PlatformCurrency cfg ≠ "" → AuthMode cfg ∈ [AuthModeLocalHS256; AuthModeJWKS] →
  value_problems cfg = [] →
  isCurrencyCode (PlatformCurrency cfg) = true ∧
  (AuthMode cfg = AuthModeJWKS ∨ (AuthMode cfg = AuthModeLocalHS256 ∧ AuthHS256Secret cfg ≠ "")).
Proof.
  intros Hc Ha. unfold value_problems. rewrite bool_decide_true by done.
  destruct (isCurrencyCode _); [|done]. split; [done|].
  set_unfold in Ha. destruct Ha as [Ha|[Ha|[]]]; [right|by left].
  rewrite Ha in *. rewrite (bool_decide_true (AuthModeLocalHS256 = _)) in * by done.
  split; [done|]. by case_bool_decide.
Qed.

Lemma settings_acceptable lookup ParseDuration :
  problems lookup ParseDuration = [] → acceptable (settings lookup ParseDuration).
Proof.
  unfold problems, variable_problems. rewrite !app_nil. intros Hp.
  destruct (value_problems_nil (settings lookup ParseDuration)) as [Hcur Hauth];
    [apply setting_required, Hp|apply setting_choice; set_solver|by apply Hp|].
  split; try done; cbn [settings PlatformCurrency CommissionBasisPoints VerifyAboveMinor
    SnipeWindow SnipeExtension SnipeMaxExtensions PaymentTerm cfg_PSPMode RelistDelay
    RelistDuration ClosingPollInterval ExpiryPollInterval BusPollInterval HTTPPort DatabaseURL
    cfg_LogFormat].
  - by apply setting_int.
  - by apply setting_amount.
  - split; [by apply setting_duration|split; [by apply setting_duration|by apply setting_int]].
  - by repeat split; apply setting_duration.
  - by repeat split; apply setting_duration.
  - apply setting_choice; set_solver.
  - by apply setting_port.
  - apply setting_required, Hp.
  - apply setting_choice; set_solver.
Qed.

(** ** The constructors accept it *)

(** The values [newApplication] builds from a configuration. *)
Definition assembled (cfg : Config) : Application :=
  let currency := auction.mkCurrency (PlatformCurrency cfg) in
  mkApplication
    (auction.mkListingRules currency (auction.mkMoney (VerifyAboveMinor cfg) currency)
       (auction.mkAntiSnipePolicy (SnipeWindow cfg) (SnipeExtension cfg) (SnipeMaxExtensions cfg)),
     ClosingPollInterval cfg)
    (invoice.mkCommissionPolicy (CommissionBasisPoints cfg), invoice.mkPaymentTerm (PaymentTerm cfg),
     billing.mkFakePSP
       (if bool_decide (cfg_PSPMode cfg = PSPModeSuccess) then billing.PSPModeSuccess
        else if bool_decide (cfg_PSPMode cfg = PSPModeDecline) then billing.PSPModeDecline
        else billing.PSPModeFlaky) ∅ ∅ ∅ 0,
     ExpiryPollInterval cfg)
    (settlement.mkRelistPolicy (RelistDelay cfg) (RelistDuration cfg)).

Lemma all_upper_agrees s : config.all_upper s = auction.all_upper s.
Proof.
  induction s as [|c s IH]; [done|]. cbn. rewrite IH. f_equal. unfold auction.upper_letter.
  by rewrite negb_orb, <- !N.leb_antisym.
Qed.

Lemma currency_accepted code :
  isCurrencyCode code = true → auction.NewCurrency code = Ok (auction.mkCurrency code).
Proof.
  unfold isCurrencyCode, auction.NewCurrency. rewrite all_upper_agrees.
  destruct (Nat.eqb _ _); [|done]. cbn. by intros ->.
Qed.

Lemma currency_set code : isCurrencyCode code = true → IsZero (auction.mkCurrency code) = false.
Proof. intros Hc. apply IsZero_false. intros [= ->]. done. Qed.

Lemma auction_accepts cfg :
  acceptable cfg → auction_app.NewService (auction_deps cfg) = Ok (app_auction (assembled cfg)).
Proof.
  intros []. unfold auction_app.NewService, auction_app.listingRules. cbn.
  rewrite currency_accepted by done. cbn. unfold auction.NewMoney, auction.NewAntiSnipePolicy.
  rewrite currency_set by done.
  rewrite (proj2 (Z.ltb_ge (VerifyAboveMinor cfg) 0)) by done. cbn.
  replace ((SnipeWindow cfg <=? 0) || (SnipeExtension cfg <=? 0) || (SnipeMaxExtensions cfg <? 0))
    with false by lia.
  cbn. unfold auction.NewListingRules. rewrite currency_set by done.
  rewrite (bool_decide_false (_ ≠ _)) by (cbn; by intros []).
  rewrite (proj2 (IsZero_false (auction.mkMoney _ _))) by (intros [= _ E]; by rewrite E in *).
  rewrite (proj2 (IsZero_false (auction.mkAntiSnipePolicy _ _ _))) by (intros [= E]; lia). cbn.
  rewrite !(proj2 (Z.leb_gt _ _)) by lia. cbn.
  unfold auction_app.NewClosingWorker. by rewrite (proj2 (Z.leb_gt _ _)) by lia.
Qed.

Lemma billing_accepts cfg :
  acceptable cfg → billing.NewService (billing_deps cfg) = Ok (app_billing (assembled cfg)).
Proof.
  intros []. unfold billing.NewService, invoice.NewCommissionPolicy, invoice.NewPaymentTerm. cbn.
  replace ((CommissionBasisPoints cfg <? 0) || (10000 <? CommissionBasisPoints cfg))
    with false by lia.
  rewrite (proj2 (Z.leb_gt (PaymentTerm cfg) 0)) by lia. cbn.
  unfold billing.NewFakePSP, billing.NewExpiryWorker.
  rewrite !(proj2 (Z.leb_gt (ExpiryPollInterval cfg) 0)) by lia.
  set_unfold in ok_psp0. by destruct ok_psp0 as [->|[->|[->|[]]]].
Qed.

Lemma settlement_accepts cfg :
  acceptable cfg →
  saga.NewService (RelistDelay cfg) (RelistDuration cfg) = Ok (app_relist (assembled cfg)).
Proof.
  intros []. unfold saga.NewService, settlement.NewRelistPolicy.
  by rewrite !(proj2 (Z.leb_gt _ _)) by lia.
Qed.

Lemma newApplication_accepts cfg : acceptable cfg → newApplication cfg = Ok (assembled cfg).
Proof.
  intros Hok. unfold newApplication.
  by rewrite auction_accepts, billing_accepts, settlement_accepts.
Qed.

(** C37: what loading the configuration guarantees.  For every environment the
    loader answers, and never panics.  It answers an error exactly when the
    environment has problems, and the error joins all of them, in order; or
    else the settings of the environment, every one of them in its range, which the constructors of
    all the contexts accept: the application is assembled from exactly those
    values, behind the bearer-token middleware under a secret that is not
    empty.  Only [AUTH_MODE=jwks] is loaded and then refused at startup. *)
Theorem configuration_checked lookup ParseDuration :
  match load lookup ParseDuration with
  | Ok cfg =>
      problems lookup ParseDuration = [] ∧ cfg = settings lookup ParseDuration ∧
      acceptable cfg ∧ newApplication cfg = Ok (assembled cfg) ∧
      ∀ (U : UUIDLib) (J : auth.JWTLib),
        NewApplication cfg =
          if bool_decide (AuthMode cfg = AuthModeJWKS)
          then Fail (ErrNew "auth: AUTH_MODE=jwks is not implemented yet")
          else Ok (auth.hs256Middleware (AuthHS256Secret cfg), assembled cfg)
  | Fail e =>
      problems lookup ParseDuration ≠ [] ∧
      e = Errorf "invalid configuration:"
            (errors_Join (problem <$> problems lookup ParseDuration))
  | Panic _ => False
  end.
Proof.
  rewrite load_problems. case_bool_decide as Hp; [|done].
  pose proof (settings_acceptable _ _ Hp) as Hok.
  split; [done|]. split; [done|]. split; [done|].
  split; [by apply newApplication_accepts|]. intros U J. unfold NewApplication, auth.NewMiddleware.
  destruct (ok_auth _ Hok) as [->|[-> Hs]]; [done|].
  rewrite bool_decide_true by done. rewrite bool_decide_false by done. cbn.
  by rewrite newApplication_accepts.
Qed.
End monolith_theory.
