(* ===== verification/Lifecycle.v ===== *)
(** * The life of the process

    [cmd/monolith] and what it starts: [NewApplication] with the telemetry
    providers, [runWorkers] with its group, [RunHTTPServer] with its listener,
    and [run], from the signal or the first failure to the exit.  The functions
    run at once and are step relations; the group is [GroupLib], the
    [errgroup] package, and the router of the bus is any function that may
    start, may fail and returns when it is told to.

    [shutdown_completes]: however the parts interleave, the process takes a
    bounded number of steps and does not hang once it is to end; what it has
    opened is closed after everything that uses it has returned, and its status
    is 0 only after a signal and with no request unanswered. *)

From stdpp Require Import base numbers list strings relations.
From Stdlib Require Import ZArith Lia.
From S2P Require Import Prelude Errs.

(** A group with its context: [grp_return] when a function passed to [Go] has
    returned, [grp_Wait] what [Wait] answers when all have. *)
Class GroupLib (G : Type) := {
  grp_new : G;
  grp_return : option error → G → G;
  grp_cancelled : G → bool;
  grp_Wait : G → option error;
}.

(** The first error is what [Wait] answers, and cancels the context. *)
Class GroupLaws (G : Type) `{GroupLib G} := {
  grp_new_live : grp_cancelled grp_new = false;
  grp_new_Wait : grp_Wait grp_new = None;
  grp_nil_live : ∀ g, grp_cancelled (grp_return None g) = grp_cancelled g;
  grp_nil_Wait : ∀ g, grp_Wait (grp_return None g) = grp_Wait g;
  grp_error_cancels : ∀ g e, grp_cancelled (grp_return (Some e) g) = true;
  grp_error_Wait : ∀ g e,
    grp_Wait (grp_return (Some e) g) = match grp_Wait g with Some e0 => Some e0 | None => Some e end;
}.

Module lifecycle.

(** ** What is opened and closed *)

Inductive resource := Pool | Tracer | Meter.
Inductive event := Opened (r : resource) | Closed (r : resource).
#[export] Instance resource_eq_dec : EqDecision resource.
Proof. solve_decision. Defined.

(** [NewApplication]: the arguments are the errors of [NewTracerProvider],
    [NewMeterProvider], [auth.NewMiddleware] and [newApplication]. *)
Definition NewApplication (tracing metrics auth app : option error) : list event * option error :=
  match tracing with
  | Some e => ([], Some (Errorf "init tracing" e))
  | None =>
      match metrics with
      | Some e => ([Opened Tracer; Closed Tracer], Some (Errorf "init metrics" e))
      | None =>
          match auth with
          | Some e => ([Opened Tracer; Opened Meter; Closed Tracer; Closed Meter], Some e)
          | None =>
              match app with
              | Some e => ([Opened Tracer; Opened Meter; Closed Tracer; Closed Meter], Some e)
              | None => ([Opened Tracer; Opened Meter], None)
              end
          end
      end
  end.

(** The [shutdown] it returns. *)
Definition shutdown : list event := [Closed Tracer; Closed Meter].

(** ** [runWorkers] *)

Inductive bus_state := BusStarting | BusRunning | BusReturned.

Section Run.
Context {G : Type} `{GroupLib G}.

(** The group of the router and of the two workers; [started]: the channel of
    [wmRouter.Running()] is closed; [closing], [expiry]: that loop still runs. *)
Record crew := mkCrew {
  bus : bus_state;
  started : bool;
  closing : bool;
  expiry : bool;
  inner : G;
}.

Definition crew_start : crew := mkCrew BusStarting false true true grp_new.

(** [runCtx.Done()], below a context that is [done]. *)
Definition crew_done (done : bool) (w : crew) : bool := done || grp_cancelled (inner w).

Inductive runWorkers_step (done : bool) : crew → crew → Prop :=
| Bus_runs st c x g :
    runWorkers_step done (mkCrew BusStarting st c x g) (mkCrew BusRunning true c x g)
| Bus_returns b st c x g err :
    b ≠ BusReturned →
    runWorkers_step done (mkCrew b st c x g)
      (mkCrew BusReturned st c x (grp_return (Errorf "watermill router" <$> err) g))
| Closing_returns b st x g :
    crew_done done (mkCrew b st true x g) = true →
    runWorkers_step done (mkCrew b st true x g) (mkCrew b st false x (grp_return None g))
| Expiry_returns b st c g :
    crew_done done (mkCrew b st c true g) = true →
    runWorkers_step done (mkCrew b st c true g) (mkCrew b st c false (grp_return None g)).

Definition crew_returned (w : crew) : Prop :=
  bus w = BusReturned ∧ closing w = false ∧ expiry w = false.

(** ** [RunHTTPServer] *)

(** [Stopped err]: [ListenAndServe] has returned and [err] is what was put in
    the channel. *)
Inductive listener := Unstarted | Listening | Stopped (err : option error).

(** Where the function is: waiting for the bus (in [run]), in its [select], in
    [srv.Shutdown], at [<-serveErr], and returned. *)
Inductive stage := Gate | Selecting | Draining | Drained | Answered (err : option error) | Joined.

Record httpd := mkHttpd { at_ : stage; srv : listener; inflight : nat }.

Inductive RunHTTPServer_step (done : bool) : httpd → httpd → Prop :=
| Listen_fails st n e :
    RunHTTPServer_step done (mkHttpd st Listening n)
      (mkHttpd st (Stopped (Some (Errorf "http server" e))) n)
| Serve_error err n :
    RunHTTPServer_step done (mkHttpd Selecting (Stopped err) n) (mkHttpd (Answered err) (Stopped err) n)
| Ctx_done l n :
    done = true → RunHTTPServer_step done (mkHttpd Selecting l n) (mkHttpd Draining l n)
| Server_closed st n :
    st = Draining ∨ st = Drained →
    RunHTTPServer_step done (mkHttpd st Listening n) (mkHttpd st (Stopped None) n)
| Shutdown_returns l :
    RunHTTPServer_step done (mkHttpd Draining l 0) (mkHttpd Drained l 0)
| Shutdown_expires l n e :
    RunHTTPServer_step done (mkHttpd Draining l n)
      (mkHttpd (Answered (Some (Errorf "http server shutdown" e))) l n)
| Serve_drained err n :
    RunHTTPServer_step done (mkHttpd Drained (Stopped err) n) (mkHttpd (Answered err) (Stopped err) n).

(** The requests of the clients: new ones are taken until [srv.Shutdown] has
    closed the listener; when the listener has failed, the connections that
    are open still carry them. *)
Definition accepts (h : httpd) : bool :=
  match at_ h, srv h with
  | _, Stopped (Some _) => true
  | Selecting, _ => true
  | Draining, Listening => true
  | _, _ => false
  end.

Inductive request_step : httpd → httpd → Prop :=
| Request_arrives st l n :
    accepts (mkHttpd st l n) = true → request_step (mkHttpd st l n) (mkHttpd st l (S n))
| Request_answered st l n : request_step (mkHttpd st l (S n)) (mkHttpd st l n).

(** ** [run] *)

(** In [g.Wait()]; then the deferred calls, with the error to return. *)
Inductive main_state :=
| Waiting
| Flushing (err : option error)
| ClosingPool (err : option error)
| Exited (err : option error).

Record process := mkProcess {
  signalled : bool;
  outer : G;
  workers : crew;
  workers_joined : bool;
  http : httpd;
  main : main_state;
  events : list event;
}.

(** [ctx.Done()]: a signal, or the first error of the group. *)
Definition ctx_done (s : process) : bool := signalled s || grp_cancelled (outer s).

Inductive run_step : process → process → Prop :=
| Run_workers sg g w w' h m evs :
    runWorkers_step (sg || grp_cancelled g) w w' →
    run_step (mkProcess sg g w false h m evs) (mkProcess sg g w' false h m evs)
| Run_workers_return sg g w h m evs :
    crew_returned w →
    run_step (mkProcess sg g w false h m evs)
      (mkProcess sg (grp_return (grp_Wait (inner w)) g) w true h m evs)
| Run_serve sg g w j n m evs :
    started w = true →
    run_step (mkProcess sg g w j (mkHttpd Gate Unstarted n) m evs)
      (mkProcess sg g w j (mkHttpd Selecting Listening n) m evs)
| Run_never_serve sg g w j n m evs :
    sg || grp_cancelled g = true →
    run_step (mkProcess sg g w j (mkHttpd Gate Unstarted n) m evs)
      (mkProcess sg (grp_return None g) w j (mkHttpd Joined Unstarted n) m evs)
| Run_http sg g w j h h' m evs :
    RunHTTPServer_step (sg || grp_cancelled g) h h' →
    run_step (mkProcess sg g w j h m evs) (mkProcess sg g w j h' m evs)
| Run_http_return sg g w j err l n m evs :
    run_step (mkProcess sg g w j (mkHttpd (Answered err) l n) m evs)
      (mkProcess sg (grp_return err g) w j (mkHttpd Joined l n) m evs)
| Run_waited sg g w l n evs :
    run_step (mkProcess sg g w true (mkHttpd Joined l n) Waiting evs)
      (mkProcess sg g w true (mkHttpd Joined l n) (Flushing (grp_Wait g)) evs)
| Run_flushed sg g w j h err evs :
    run_step (mkProcess sg g w j h (Flushing err) evs)
      (mkProcess sg g w j h (ClosingPool err) (evs ++ shutdown))
| Run_closed sg g w j h err evs :
    run_step (mkProcess sg g w j h (ClosingPool err) evs)
      (mkProcess sg g w j h (Exited err) (evs ++ [Closed Pool])).

(** What comes from outside: SIGINT or SIGTERM, and the requests. *)
Inductive outside_step : process → process → Prop :=
| Out_signal sg g w j h m evs :
    outside_step (mkProcess sg g w j h m evs) (mkProcess true g w j h m evs)
| Out_request sg g w j h h' m evs :
    request_step h h' → outside_step (mkProcess sg g w j h m evs) (mkProcess sg g w j h' m evs).

(** An execution, with the number of the process's own steps. *)
Inductive trace (s0 : process) : nat → process → Prop :=
| trace_start : trace s0 0 s0
| trace_run k s s' : trace s0 k s → run_step s s' → trace s0 (S k) s'
| trace_outside k s s' : trace s0 k s → outside_step s s' → trace s0 k s'.

(** Up to the group: [run] opens the pool, then the application; what comes of
    it is an error, or a process to run. *)
Definition run (pool tracing metrics auth app : option error) : list event * (error + process) :=
  match pool with
  | Some e => ([], inl (Errorf "connect postgres" e))
  | None =>
      let '(evs, err) := NewApplication tracing metrics auth app in
      match err with
      | Some e => ([Opened Pool] ++ evs ++ [Closed Pool], inl e)
      | None =>
          let evs := [Opened Pool] ++ evs in
          (evs, inr (mkProcess false grp_new crew_start false (mkHttpd Gate Unstarted 0) Waiting evs))
      end
  end.

(** [main]: the status the process exits with. *)
Definition exit_status (config run : option error) : Z :=
  match config with
  | Some _ => 1
  | None => match run with Some _ => 1 | None => 0 end
  end.

(** Something has ended that is to end the process. *)
Definition stopping (s : process) : bool :=
  ctx_done s || grp_cancelled (inner (workers s))
  || match srv (http s) with Stopped _ => true | _ => false end.

(** ** How much is left *)

Definition crew_work (w : crew) : nat :=
  (match bus w with BusStarting => 2 | BusRunning => 1 | BusReturned => 0 end)
  + Nat.b2n (closing w) + Nat.b2n (expiry w).

Definition http_work (h : httpd) : nat :=
  (match at_ h with Gate => 5 | Selecting => 4 | Draining => 3 | Drained => 2 | Answered _ => 1 | Joined => 0 end)
  + match srv h with Stopped _ => 0 | _ => 1 end.

Definition work (s : process) : nat :=
  crew_work (workers s) + Nat.b2n (negb (workers_joined s)) + http_work (http s)
  + match main s with Waiting => 3 | Flushing _ => 2 | ClosingPool _ => 1 | Exited _ => 0 end.

End Run.
Arguments crew : clear implicits.
Arguments process : clear implicits.

(** What is open after some events, the last opened last. *)
Definition open_after (evs : list event) : list resource :=
  fold_left (λ rs ev, match ev with
                      | Opened r => rs ++ [r]
                      | Closed r => filter (λ r', r' ≠ r) rs
                      end) evs [].

End lifecycle.

Module lifecycle_theory.
Import lifecycle.

Section Theory.
Context {G : Type} `{GroupLaws G}.
Implicit Types (g : G) (w : crew G) (s : process G) (h : httpd).

(** ** The groups *)

Definition grp_ok (g : G) : Prop := grp_cancelled g = true ↔ is_Some (grp_Wait g).

Lemma grp_new_ok : grp_ok grp_new.
Proof. unfold grp_ok. rewrite grp_new_live, grp_new_Wait, is_Some_alt. naive_solver. Qed.

Lemma grp_return_ok err g : grp_ok g → grp_ok (grp_return err g).
Proof.
  unfold grp_ok. destruct err.
  - rewrite grp_error_cancels, grp_error_Wait. intros _. destruct (grp_Wait g); naive_solver.
  - by rewrite grp_nil_live, grp_nil_Wait.
Qed.

Lemma grp_return_cancelled err g :
  grp_cancelled g = true → grp_cancelled (grp_return err g) = true.
Proof. destruct err; [by rewrite grp_error_cancels|by rewrite grp_nil_live]. Qed.

Lemma grp_return_Wait err g :
  grp_Wait (grp_return err g) = None → err = None ∧ grp_Wait g = None.
Proof.
  destruct err; [rewrite grp_error_Wait; by destruct (grp_Wait g)|by rewrite grp_nil_Wait].
Qed.

Lemma ctx_return sg err g :
  sg || grp_cancelled g = true → sg || grp_cancelled (grp_return err g) = true.
Proof. rewrite !orb_true_iff. naive_solver eauto using grp_return_cancelled. Qed.

(** ** The workers *)

Lemma runWorkers_group done w w' :
  runWorkers_step done w w' → grp_ok (inner w) → grp_ok (inner w').
Proof. destruct 1; simpl; auto using grp_return_ok. Qed.

Lemma runWorkers_started done w w' :
  runWorkers_step done w w' → started w = true → started w' = true.
Proof. by destruct 1. Qed.

Lemma runWorkers_work done w w' : runWorkers_step done w w' → crew_work w' < crew_work w.
Proof. unfold crew_work. destruct 1 as [|[]| |]; simpl; try lia; congruence. Qed.

(** Told to return, they can, until they have. *)
Lemma runWorkers_progress done w :
  crew_done done w = true → crew_returned w ∨ ∃ w', runWorkers_step done w w'.
Proof.
  intros Hd. destruct w as [b st c x g].
  assert (b = BusReturned ∨ b ≠ BusReturned) as [->|Hb] by (destruct b; naive_solver).
  - destruct c; [right; eexists; by constructor|].
    destruct x; [right; eexists; by constructor|]. by left.
  - right. eexists. by apply (Bus_returns done b st c x g None).
Qed.

(** ** The server *)

(** The listener has been started exactly when the gate is passed; it is told
    to stop only by [srv.Shutdown]; no request is left behind by a shutdown
    that is complete, and none comes after it. *)
Definition http_ok (h : httpd) : Prop :=
  match at_ h, srv h with
  | Gate, Unstarted => inflight h = 0
  | Selecting, (Listening | Stopped (Some _)) => True
  | Draining, (Listening | Stopped _) => True
  | Drained, (Listening | Stopped None) => inflight h = 0
  | Drained, Stopped (Some _) => True
  | Answered (Some _), (Listening | Stopped _) => True
  | Answered None, Stopped None => inflight h = 0
  | Joined, Unstarted => inflight h = 0
  | Joined, _ => True
  | _, _ => False
  end.

Lemma RunHTTPServer_ok done h h' : RunHTTPServer_step done h h' → http_ok h → http_ok h'.
Proof.
  destruct 1; unfold http_ok; simpl; repeat (case_match; simplify_eq); naive_solver.
Qed.

Lemma request_ok h h' : request_step h h' → http_ok h → http_ok h'.
Proof.
  destruct 1 as [st l n Ha|]; unfold http_ok, accepts in *; simpl in *;
    repeat (case_match; simplify_eq/=); naive_solver lia.
Qed.

Lemma RunHTTPServer_work done h h' : RunHTTPServer_step done h h' → http_work h' < http_work h.
Proof. unfold http_work. destruct 1; simpl; repeat case_match; simplify_eq; lia. Qed.

Lemma request_work h h' : request_step h h' → http_work h' = http_work h.
Proof. by destruct 1. Qed.

(** Told to return, or with its listener gone, it can, until it has answered. *)
Lemma RunHTTPServer_progress done h :
  http_ok h → at_ h ≠ Gate →
  done = true ∨ (∃ err, srv h = Stopped err) →
  (∃ err, at_ h = Answered err) ∨ at_ h = Joined ∨ ∃ h', RunHTTPServer_step done h h'.
Proof.
  destruct h as [st l n]; unfold http_ok; simpl; intros Hok Hg Hd.
  destruct st as [| | | |err|]; [done|right; right..|by eauto|by eauto].
  - destruct l as [| |err]; [done| |eexists; apply Serve_error].
    destruct Hd as [->|[]]; [|done]. eexists. by apply Ctx_done.
  - eexists. apply (Shutdown_expires _ _ _ (ErrNew "context deadline exceeded")).
  - destruct l as [| |err]; [done| |eexists; apply Serve_drained].
    eexists. apply Server_closed. by right.
Qed.

(** ** The process *)

(** The server stops only when it is told to, unless it answers an error. *)
Definition told (h : httpd) : bool :=
  match at_ h with Draining | Drained | Answered None | Joined => true | _ => false end.

(** What the deferred calls have closed. *)
Definition closed_by (m : main_state) : list event :=
  match m with
  | Waiting | Flushing _ => []
  | ClosingPool _ => shutdown
  | Exited _ => shutdown ++ [Closed Pool]
  end.

(** The error that the group has answered. *)
Definition waited (m : main_state) : option (option error) :=
  match m with Waiting => None | Flushing err | ClosingPool err | Exited err => Some err end.

Record process_ok (evs0 : list event) (s : process G) : Prop := {
  ok_outer : grp_ok (outer s);
  ok_inner : grp_ok (inner (workers s));
  ok_http : http_ok (http s);
  ok_told : told (http s) = true → ctx_done s = true;
  ok_started : srv (http s) ≠ Unstarted → started (workers s) = true;
  ok_drained : at_ (http s) = Joined → grp_Wait (outer s) = None →
    inflight (http s) = 0 ∧ (srv (http s) = Unstarted ∨ srv (http s) = Stopped None);
  ok_joined : workers_joined s = true →
    crew_returned (workers s) ∧ (grp_Wait (outer s) = None → grp_Wait (inner (workers s)) = None);
  ok_waited : ∀ err, waited (main s) = Some err →
    workers_joined s = true ∧ at_ (http s) = Joined ∧ err = grp_Wait (outer s);
  ok_events : events s = evs0 ++ closed_by (main s);
}.

Lemma run_ok pool tracing metrics auth app evs s :
  run pool tracing metrics auth app = (evs, inr s) → process_ok evs s ∧ work s = 14.
Proof.
  unfold run, NewApplication. repeat case_match; intros; simplify_eq/=.
  split; [|done]. constructor; simpl; auto using grp_new_ok; done.
Qed.

Lemma run_step_work s s' : run_step s s' → work s' < work s.
Proof.
  unfold work. destruct 1; simpl;
    repeat match goal with
           | Hs : runWorkers_step _ _ _ |- _ => apply runWorkers_work in Hs
           | Hs : RunHTTPServer_step _ _ _ |- _ => apply RunHTTPServer_work in Hs
           end; unfold http_work in *; simpl in *; repeat case_match; lia.
Qed.

Lemma outside_step_work s s' : outside_step s s' → work s' = work s.
Proof. destruct 1; [done|]. unfold work; simpl. by erewrite request_work. Qed.

Lemma outside_step_ok evs0 s s' : outside_step s s' → process_ok evs0 s → process_ok evs0 s'.
Proof.
  destruct 1 as [|sg g w j h h' m evs Hr]; intros []; constructor; simpl in *; eauto.
  - eauto using request_ok.
  - by destruct Hr.
  - by destruct Hr.
  - intros Hj Hn. destruct Hr; simpl in *; subst; destruct ok_drained0 as [? []]; subst; done.
  - intros err Hm. destruct (ok_waited0 err Hm) as (?&?&?). by destruct Hr.
Qed.

Lemma workers_step_ok evs0 sg g w w' h m evs :
  runWorkers_step (sg || grp_cancelled g) w w' →
  process_ok evs0 (mkProcess sg g w false h m evs) →
  process_ok evs0 (mkProcess sg g w' false h m evs).
Proof.
  intros Hs []; constructor; simpl in *; eauto using runWorkers_group, runWorkers_started.
  - done.
Qed.

Lemma http_step_ok evs0 sg g w j h h' m evs :
  RunHTTPServer_step (sg || grp_cancelled g) h h' →
  process_ok evs0 (mkProcess sg g w j h m evs) →
  process_ok evs0 (mkProcess sg g w j h' m evs).
Proof.
  intros Hs []; constructor; simpl in *; eauto using RunHTTPServer_ok.
  - unfold ctx_done in *; simpl in *. unfold told in *. destruct Hs; simpl in *; auto.
    destruct err; [done|]. by destruct ok_http0.
  - unfold http_ok in *. destruct Hs; simpl in *; auto; intros _; apply ok_started0; done.
  - intros Hj Hn. destruct Hs; simpl in *; simplify_eq; naive_solver.
  - intros err Hm. destruct (ok_waited0 err Hm) as (?&?&?). by destruct Hs; simpl in *; simplify_eq.
Qed.

(** A function of the group returns. *)
Lemma return_ok evs0 sg g err w j j' h h' evs :
  process_ok evs0 (mkProcess sg g w j h Waiting evs) →
  j' = j ∨ crew_returned w ∧ err = grp_Wait (inner w) →
  http_ok h' → srv h' = srv h →
  (told h' = true → sg || grp_cancelled (grp_return err g) = true) →
  (at_ h' = Joined → grp_Wait g = None → err = None →
   inflight h' = 0 ∧ (srv h' = Unstarted ∨ srv h' = Stopped None)) →
  process_ok evs0 (mkProcess sg (grp_return err g) w j' h' Waiting evs).
Proof.
  intros [] Hj Hh Hs Ht Hd; constructor; simpl in *; auto using grp_return_ok.
  - by rewrite Hs.
  - intros Ha [-> ?]%grp_return_Wait. auto.
  - intros ->. destruct Hj as [<-|[Hw Herr]].
    + destruct ok_joined0 as [? Hi]; [done|]. split; [done|]. intros [-> ?]%grp_return_Wait. auto.
    + split; [done|]. intros [? _]%grp_return_Wait. congruence.
  - done.
Qed.

(** Until both functions have returned, [Wait] has not. *)
Lemma still_waiting evs0 sg g w j h m evs :
  process_ok evs0 (mkProcess sg g w j h m evs) → j = false ∨ at_ h ≠ Joined → m = Waiting.
Proof.
  intros [] Hl. destruct m as [|err|err|err]; [done|..];
    destruct (ok_waited0 err eq_refl) as (?&?&_); simpl in *; subst; naive_solver.
Qed.

Lemma run_step_ok evs0 s s' : run_step s s' → process_ok evs0 s → process_ok evs0 s'.
Proof.
  destruct 1; intros Hok; [by eauto using workers_step_ok|..|by eauto using http_step_ok| | | |].
  - pose proof (still_waiting _ _ _ _ _ _ _ _ Hok (or_introl eq_refl)) as ->.
    eapply return_ok; [done|by right|..]; destruct Hok; simpl in *; eauto using ctx_return.
  - assert (m = Waiting) as -> by (eapply still_waiting; eauto).
    destruct Hok; constructor; simpl in *; eauto; done.
  - assert (m = Waiting) as -> by (eapply still_waiting; eauto).
    eapply return_ok; [done|by left|..]; destruct Hok; simpl in *; eauto using ctx_return.
  - assert (m = Waiting) as -> by (eapply still_waiting; eauto).
    pose proof (ok_http _ _ Hok) as Hh. pose proof (ok_told _ _ Hok) as Ht.
    unfold http_ok, ctx_done in *; simpl in *.
    eapply return_ok; [done|by left|unfold http_ok; simpl|done|simpl..].
    + by destruct err, l.
    + intros _. destruct err; [rewrite grp_error_cancels; apply orb_true_r|].
      apply ctx_return; auto.
    + intros _ _ ->. destruct l as [| |[]]; naive_solver.
  - destruct Hok; constructor; simpl in *; eauto. by intros err [= <-].
  - destruct Hok; constructor; simpl in *; eauto. by rewrite ok_events0, app_nil_r.
  - destruct Hok; constructor; simpl in *; eauto. by rewrite ok_events0, <- app_assoc.
Qed.

Lemma trace_ok evs0 s0 k s :
  trace s0 k s → process_ok evs0 s0 → process_ok evs0 s ∧ k + work s ≤ work s0.
Proof.
  intros Ht Hok. induction Ht as [|k s s' _ IH Hs|k s s' _ IH Hs]; [split; [done|lia]|..];
    destruct IH as [IH Hk].
  - split; [by eapply run_step_ok|]. apply run_step_work in Hs. lia.
  - split; [by eapply outside_step_ok|]. apply outside_step_work in Hs. lia.
Qed.

(** ** Nothing hangs *)

Lemma workers_progress sg g w h m evs :
  crew_done (sg || grp_cancelled g) w = true →
  ∃ s', run_step (mkProcess sg g w false h m evs) s'.
Proof.
  intros Hd. destruct (runWorkers_progress _ _ Hd) as [Hr|[w' Hs]]; eexists;
    [by apply Run_workers_return|by apply Run_workers].
Qed.

Lemma http_progress sg g w j h m evs :
  http_ok h → at_ h ≠ Gate → sg || grp_cancelled g = true ∨ (∃ err, srv h = Stopped err) →
  at_ h = Joined ∨ ∃ s', run_step (mkProcess sg g w j h m evs) s'.
Proof.
  intros Hh Hg Hd. destruct (RunHTTPServer_progress _ _ Hh Hg Hd) as [[err Ha]|[Ha|[h' Hs]]].
  - right. destruct h; simpl in *; subst. eexists. apply Run_http_return.
  - by left.
  - right. eexists. by apply Run_http.
Qed.

Lemma ctx_progress evs0 s :
  process_ok evs0 s → main s = Waiting → ctx_done s = true → ∃ s', run_step s s'.
Proof.
  destruct s as [sg g w [] h m evs]; unfold ctx_done; simpl; intros Hok -> Hd.
  - destruct Hok; simpl in *. destruct h as [st l n].
    assert (st = Gate ∨ st ≠ Gate) as [->|Hg] by (destruct st; auto).
    + unfold http_ok in *; simpl in *. destruct l; [|done..]. eexists. by apply Run_never_serve.
    + edestruct http_progress as [Ha|Hs]; [done|done|by left| |by apply Hs].
      simpl in *; subst. eexists. apply Run_waited.
  - apply workers_progress. unfold crew_done. by rewrite Hd.
Qed.

Lemma progress evs0 s :
  process_ok evs0 s → stopping s = true → (∃ err, main s = Exited err) ∨ ∃ s', run_step s s'.
Proof.
  intros Hok Hd. destruct (main s) as [|err|err|err] eqn:Hm; [right|right..|by eauto].
  2: destruct s; simpl in *; subst; eexists; apply Run_flushed.
  2: destruct s; simpl in *; subst; eexists; apply Run_closed.
  unfold stopping in Hd. rewrite !orb_true_iff in Hd.
  destruct Hd as [[Hd|Hd]|Hd]; [by eapply ctx_progress| |].
  - destruct s as [sg g w [] h m evs]; simpl in *.
    + eapply ctx_progress; [done..|]. destruct (ok_joined _ _ Hok eq_refl) as [_ Hi]; simpl in *.
      destruct (ok_outer _ _ Hok), (ok_inner _ _ Hok); unfold ctx_done; simpl in *.
      destruct (grp_Wait g); [apply orb_true_iff; naive_solver|]. rewrite Hi in *; naive_solver.
    + apply workers_progress. unfold crew_done. by rewrite Hd, orb_true_r.
  - destruct (srv (http s)) as [| |err] eqn:Hl; [done..|].
    assert (at_ (http s) ≠ Gate).
    { intros Hg. pose proof (ok_http _ _ Hok) as Hh. unfold http_ok in Hh. by rewrite Hg, Hl in Hh. }
    pose proof (ok_told _ _ Hok) as Ht. pose proof (ok_http _ _ Hok). destruct s; simpl in *.
    edestruct http_progress as [Ha|Hs]; [done|done|by eauto| |by apply Hs].
    eapply ctx_progress; [done..|]. apply Ht. unfold told. by rewrite Ha.
Qed.

(** ** What has been opened and what has been closed *)

Definition all_resources := [Pool; Tracer; Meter].

Lemma requests_served evs0 s :
  process_ok evs0 s → 0 < inflight (http s) → started (workers s) = true.
Proof.
  intros [] Hn. apply ok_started0. intros Hl. unfold http_ok in *. rewrite Hl in *.
  destruct (at_ (http s)) as [| | | |[]|]; try done; lia.
Qed.

Lemma all_open evs0 s :
  process_ok evs0 s → open_after evs0 = all_resources →
  workers_joined s = false ∨ at_ (http s) ≠ Joined → open_after (events s) = all_resources.
Proof.
  intros Hok He Hl. destruct s. pose proof (still_waiting _ _ _ _ _ _ _ _ Hok Hl); simplify_eq/=.
  destruct Hok; simplify_eq/=. by rewrite app_nil_r.
Qed.

Lemma exited evs0 s err :
  process_ok evs0 s → open_after evs0 = all_resources → main s = Exited err →
  open_after (events s) = [] ∧ crew_returned (workers s) ∧ err = grp_Wait (outer s) ∧
  (exit_status None err = 0%Z →
   signalled s = true ∧ inflight (http s) = 0 ∧ grp_Wait (inner (workers s)) = None).
Proof.
  intros [] He Hm. rewrite Hm in *; simpl in *.
  destruct (ok_waited0 err eq_refl) as (Hj&Ha&->). destruct ok_joined0 as [Hr Hi]; [done|].
  split_and!; [|done|done|].
  - unfold open_after in *. rewrite ok_events0, fold_left_app, He. by vm_compute.
  - unfold exit_status. case_match eqn:Hn; [done|intros _]. destruct ok_drained0; [done..|].
    split_and!; [|done|auto].
    unfold told in *. rewrite Ha in *. specialize (ok_told0 eq_refl).
    unfold ctx_done in *. apply orb_true_iff in ok_told0 as [|Hc]; [done|].
    apply ok_outer0 in Hc. rewrite Hn in Hc. by destruct Hc.
Qed.

(** ** The claim *)

(** C31: however the bus, the workers, the server, its requests and a signal
    interleave, the process makes at most 14 steps of its own, and once
    something has ended that is to end it, it is never stuck before its exit.
    A request is served only when the bus has been running; pool and telemetry
    are open while the workers or the server have not returned; at the exit
    everything is closed, the error is the first of the group, and status 0
    means that a signal ended it, no request was left unanswered and the bus
    did not fail.  A start that fails closes what it has opened. *)
Theorem shutdown_completes pool tracing metrics auth app :
  match run (G:=G) pool tracing metrics auth app with
  | (evs, inl _) => open_after evs = []
  | (_, inr p) => ∀ k s, trace p k s →
      k + work s ≤ 14 ∧
      (stopping s = true → (∃ err, main s = Exited err) ∨ ∃ s', run_step s s') ∧
      (0 < inflight (http s) → started (workers s) = true) ∧
      (workers_joined s = false ∨ at_ (http s) ≠ Joined → open_after (events s) = [Pool; Tracer; Meter]) ∧
      (∀ err, main s = Exited err →
         open_after (events s) = [] ∧ crew_returned (workers s) ∧ err = grp_Wait (outer s) ∧
         (exit_status None err = 0%Z →
          signalled s = true ∧ inflight (http s) = 0 ∧ grp_Wait (inner (workers s)) = None))
  end.
Proof.
  destruct (run pool tracing metrics auth app) as [evs [e|p]] eqn:Hrun.
  - unfold run, NewApplication in Hrun. by repeat case_match; simplify_eq/=.
  - intros k s Ht. destruct (run_ok _ _ _ _ _ _ _ Hrun) as [Hp Hw].
    destruct (trace_ok _ _ _ _ Ht Hp) as [Hok Hk]. rewrite Hw in Hk.
    assert (open_after evs = [Pool; Tracer; Meter]).
    { unfold run, NewApplication in Hrun. by repeat case_match; simplify_eq/=. }
    split_and!; eauto using progress, requests_served, all_open, exited.
Qed.

End Theory.
End lifecycle_theory.

(** ** A process that is stopped with a request in flight *)

Module lifecycle_demo.
Import lifecycle lifecycle_theory.

(** The group as its first error. *)
#[local] Instance demo_group : GroupLib (option error) := {
  grp_new := None;
  grp_return err g := match g with Some _ => g | None => err end;
  grp_cancelled g := match g with Some _ => true | None => false end;
  grp_Wait g := g;
}.
#[local] Instance demo_group_laws : GroupLaws (option error).
Proof. constructor; try done; by intros []. Qed.

Definition p0 : process (option error) :=
  mkProcess false None crew_start false (mkHttpd Gate Unstarted 0) Waiting
    [Opened Pool; Opened Tracer; Opened Meter].

(** The steps of a trace that is hypothesis [T]. *)
#[local] Tactic Notation "step" ident(T) uconstr(c) := eapply trace_run in T; [|eapply c; try done]; cycle 1.
#[local] Tactic Notation "outside" ident(T) uconstr(c) := eapply trace_outside in T; [|eapply c]; cycle 1.

Lemma demo_trace : ∃ s, trace p0 14 s ∧ main s = Exited None.
Proof.
  assert (T : trace p0 0 (mkProcess false None crew_start false (mkHttpd Gate Unstarted 0) Waiting (events p0)))
    by apply trace_start.
  unfold crew_start in T.
  step T Run_workers. { apply Bus_runs. }
  step T Run_serve.
  outside T Out_request. { by apply Request_arrives. }
  outside T Out_signal.
  step T Run_http. { by apply Ctx_done. }
  step T Run_workers. { by apply Closing_returns. }
  step T Run_http. { apply Server_closed. auto. }
  outside T Out_request. { apply Request_answered. }
  step T Run_http. { apply Shutdown_returns. }
  step T Run_workers. { by apply Expiry_returns. }
  step T Run_http. { apply Serve_drained. }
  step T Run_workers. { by apply (Bus_returns _ BusRunning _ _ _ _ None). }
  step T Run_http_return.
  step T Run_workers_return.
  step T Run_waited. step T Run_flushed. step T Run_closed.
  by eexists.
Qed.

Lemma shutdown_completes_witness :
  ∃ s, trace p0 14 s ∧ main s = Exited None ∧
    open_after (events s) = [] ∧ signalled s = true ∧ inflight (http s) = 0.
Proof.
  destruct demo_trace as (s&Ht&Hm). exists s. split; [done|]. split; [done|].
  destruct (shutdown_completes (G:=option error) None None None None None 14 s Ht)
    as (_&_&_&_&He).
  destruct (He None Hm) as (?&_&_&Hs). destruct (Hs eq_refl) as (?&?&_). auto.
Defined.

End lifecycle_demo.
